(* ===== verification/_CoqProject ===== *)
-Q . S2P
Prelude.v
Text.v
Tokio.v
Supervisor.v
Runtime.v
Tasks.v
Demo.v
RuntimeFacts.v
Wf.v
Isolation.v
Lifecycle.v
Replies.v
Supervision.v
Intensity.v
Services.v
Names.v
Timers.v
Ids.v
Mail.v
Linear.v
Cascade.v
Chat.v
Wire.v
Remote.v
Bridge.v
Client.v
Backpressure.v
Rpc.v
Tcp.v
Server.v
Cluster.v
Gossip.v
Detector.v
ClusterClient.v
Pool.v
Kv.v
KvCli.v
KvNode.v
