(* ===== verification/Prelude.v ===== *)
(** * cineyma: a verification development

    cineyma (src/) is an actor framework on top of tokio, with supervision,
    streams, timers and names on one node, and remote actors, gossip
    membership and failure detection across nodes. This library models its
    code as executable definitions and proves the theorems that make it
    correct. All definitions are total functions; state is passed explicitly;
    a panic is a value ([None], or an aborted task); machine integers are [Z]
    with their wrap-around written out; instants and durations are numbers of
    nanoseconds.

    ** The parts of the program and the files that model them

    - Text.v: the methods of [str] and the number formats of the Rust standard
      library that the examples use.
    - Tokio.v: the channels and notifications of tokio, as a class of
      operations ([Tokio]) with its documented laws ([TokioLaws]) and a
      reference instance ([Ref]). Every theorem on the runtime holds for any
      instance that has the laws.
    - Supervisor.v (src/supervisor.rs): strategies and the restart tracker.
    - Runtime.v (src/actor.rs, address.rs, envelope.rs, context.rs, timer.rs,
      error.rs, message.rs, watcher.rs): the shared state of a process
      ([World]: everything behind an [Arc] has a location) and the operations
      on addresses, mailboxes, contexts and timers. The hooks and handlers of
      an application are programs over the methods of contexts, addresses and
      handles ([Prog]), run by [run]; the class [Behaviour] stands for the traits [Actor], [Handler],
      [AsyncHandler] and [StreamHandler].
    - Tasks.v (src/system.rs, the tasks of context.rs, stream.rs, registry.rs):
      one poll of each kind of task, the biased [select!] branch by branch,
      the exit of a top-level actor, the restart loop of a child, the timer
      and registry tasks. [exec] is one step of a process: a poll of a task,
      the passing of time or a call from outside; [reachable] closes the
      initial world under all interleavings of steps.
    - Demo.v: a small application on which the witnesses compute.
    - RuntimeFacts.v, Wf.v, Isolation.v: the frame relations [ext] and [iso],
      the well-formedness invariant [wf] of reachable worlds and its
      preservation by every step.
    - Lifecycle.v, Replies.v, Supervision.v, Intensity.v, Services.v, Names.v,
      Timers.v: the theorems on the runtime; Ids.v: its operations as sequences
      of micro-steps, for the counter of actor ids; Mail.v: following a message
      from one actor to the next; Linear.v: an actor as an atomic object over
      whole runs; Cascade.v: the stop of an actor with all its descendants.
    - Chat.v (examples/chat): the actors of the chat server, its accept loop
      and writer task, on the runtime.
    - Wire.v (proto/messages.proto, src/remote/mod.rs, transport.rs, tcp.rs):
      messages, the interface to the generated protobuf code ([Prost],
      [ProstLaws], [RemoteMessage]) and the length-prefixed codec.
    - Remote.v (src/remote/handler.rs, server.rs, registry.rs, addr.rs):
      handlers against the interface of an actor ([ActorRef]), router, server
      loop, message registry, correlation ids. Bridge.v: the actors of the
      runtime as instances of [ActorRef], so that what Remote.v shows of a
      server holds of one whose handlers are [LocalNodeHandler]s over addresses
      of a running process.
    - Client.v (src/remote/client.rs): requests multiplexed over a connection;
      Backpressure.v: its calls as futures over the bounded command channel,
      and how the client of Client.v follows from them;
      Rpc.v: such a client with a server at the other end, and timeouts.
    - Tcp.v (src/remote/tcp.rs, server.rs): connections over sockets; the
      [Framed] of tokio-util is the class [FramedSocket] with its laws.
      Server.v (src/remote/server.rs, handler.rs): a server with many
      connections, whose handlers are futures that are polled while the other
      connections and the actors of the process run.
    - Cluster.v (src/remote/cluster.rs): members, gossip, failure detection;
      Gossip.v: the periodic task, the server, and a network of nodes;
      Detector.v: failure detection in the network.
    - ClusterClient.v (src/remote/cluster_client.rs): lookup, connection pool,
      remote calls; Pool.v: concurrent calls under the lock of the pool.
    - Kv.v, KvCli.v (examples/distributed-kv): the store and calls to it, the
      start of a node and its command line; KvNode.v: a node whose store is an
      actor of the runtime.

    ** What the theorems show

    - Messages and replies: over any run an actor is linearizable: its state is
      the fold of its handler over the messages it has taken, in the order in
      which they were accepted, and each reply is that of its message at its
      place in the fold ([actor_linearizable]); a caller that waits has its
      reply when the actor gets to its message ([waiting_callers_get_replies]);
      queue order ([messages_handled_in_order]), and the invariant that a waiting caller always waits
      for a live actor that has its message ([waiting_caller_has_live_actor],
      [callers_released_when_actors_end]).
    - Life and death: [is_alive] is the truth, the dead stay dead, actors are
      isolated, stop and shutdown reach idle actors, and a stop takes all
      descendants with it, if these are idle and none watches one that stops
      before it ([stop_cascades]); ids are unique although the
      counter is shared ([actor_ids_unique]); a shutdown is lost behind a queued message.
    - Supervision: each strategy does what it says on a panic, restarts keep
      address and mailbox, watchers are told exactly as far as their mailbox
      has room; the tracker decides as one that remembers every restart, and
      the restarts that happen in a running system are bounded in every window
      of time ([child_restarts_bounded]); panics of stream hooks are not
      contained: the task is aborted, and watchers, children and supervisor do
      not learn of it ([stream_panic_aborts]).
    - Timers and names: cancelled timers never fire, due ones do, and an
      interval has put no message into the mailbox before it was due
      ([interval_never_early]); the registry
      is a map, and over any run a lookup gives only what was registered last
      under the name and with the type ([lookup_returns_registered]); a stale
      watcher removes its successor's name.
    - Wire: the codec round trip, for any cutting of the stream into chunks;
      what is sent over a connection arrives, the loop of a connection ends on
      any input ([serve_connection_terminates]), and a server with many
      connections over an actor of the runtime is linearizable, with requests
      of several connections in their handlers at once ([server_linearizable]).
    - Remote calls: no request is lost, a caller gets only a response with the
      correlation id of its request, also with calls that wait for room, time
      out or are dropped ([bounded_client_refines]),
      requests with distinct ids never disturb each other (and those with the
      same id do), handlers, router and server answer as specified, the
      connection pool forgets failed connections and concurrent calls share the
      others ([pool_shares_connections]). Client and server together
      answer every request in a bounded number of steps, under any scheduling
      ([rpc_requests_answered]). A server over the actors of a running process
      answers as the handlers of these actors say ([connection_over_runtime]).
    - Cluster: the membership invariant, gossip as a join of views, agreement
      after an exchange, spreading along chains of exchanges, the verdict of
      the failure detector and the clean-up of actors. In a network of nodes
      whose tasks interleave and whose connections fail, gossip spreads
      ([gossip_exchange_spreads]) and invents nothing ([gossip_invents_nothing]);
      a suspicion always goes back to a node that did not hear from the suspect
      for longer than the timeout ([suspicion_has_cause]).
    - Applications: the chat server is a roster, a line typed by one user gets
      to the others ([chat_server_refines_roster], [line_reaches_another_user]);
      what is typed at a key-value node runs as on a map, through all layers
      ([command_line_refines_map], [joined_node_runs_commands]), also when the
      store is an actor of the runtime on another node ([cluster_on_runtime]).

    ** Assumptions and bounds

    - A poll is atomic: the runtime interleaves tasks between polls, so a step
      is a poll. Handlers that run in parallel on several threads touch shared
      state only through tokio's channels and notifications and the locks of
      watcher lists and registries, which are held within one operation.
    - A poll of an actor resolves at most one [select!] and then goes on to the
      next one at the following poll; tokio may run several in one poll, which
      is the same as polling again.
    - User code is finite: a [Prog] is a finite tree of API calls. An async
      handler may yield any number of times.
    - Fuel: [drain] in Wire.v and [serve_tcp] in Tcp.v have fuel; every decoded
      frame takes at least four bytes, so that the length of the input is
      enough, which the theorems say.
    - HashMap iteration order: the theorems on gossip and chat hold for every
      order.
    - In Remote.v, Tcp.v, Rpc.v and the cluster files a handler of a remote
      envelope is one step of the state of the local actors, as the actor
      behind it takes one message at a time. Bridge.v derives this from the
      runtime for a process in which only the remote call is under way, and
      Server.v does without it: there the handlers of all connections are
      interleaved. In Cluster.v an incoming gossip is merged and answered in
      one step, although the code releases its locks in between.
    - Sockets: what arrives on a connection and how it ends is a parameter of
      [FramedSocket]; Rpc.v takes a connection as two queues of envelopes.

    ** Not modelled

    Logging, the protobuf build scripts, benchmarks and tests; the crate root,
    which only re-exports. Hooks and handlers that call the methods of an
    [ActorSystem] they keep: the system is used from outside the actors only.
    The key-value theorems leave out the pending requests of the remote client
    and the framing, which Rpc.v and Tcp.v treat. What the generated protobuf code, tokio, tokio-util
    and rand do is assumed as far as the classes say. Client.v and Rpc.v take
    the command channel of a remote client as unbounded, which Backpressure.v
    justifies; that a call which waits for room gets it in the end is left to
    the fairness of the channel. ClusterClient.v makes one call at a time, with what the other
    node does in between as a function; Pool.v interleaves calls without
    following what is sent. *)

From stdpp Require Export prelude gmap strings list fin_maps.

(** ** Results, polls and panics of the Rust code *)

(** [Result<A, E>] of the Rust standard library. *)
Inductive Result (A E : Type) : Type :=
| Ok (a : A)
| Err (e : E).
Arguments Ok {A E} _.
Arguments Err {A E} _.

(** [std::task::Poll<A>]. *)
Inductive Poll (A : Type) : Type :=
| Pending
| Ready (a : A).
Arguments Pending {A}.
Arguments Ready {A} _.

Definition result_bind {A B E} (r : Result A E) (k : A -> Result B E) : Result B E :=
  match r with Ok a => k a | Err e => Err e end.

(** [Result::map_err]. *)
Definition map_err {A E F} (f : E -> F) (r : Result A E) : Result A F :=
  match r with Ok a => Ok a | Err e => Err (f e) end.

(** [Option::ok_or]. *)
Definition ok_or {A E} (o : option A) (e : E) : Result A E :=
  match o with Some a => Ok a | None => Err e end.

(** [Result::ok]. *)
Definition result_ok {A E} (r : Result A E) : option A :=
  match r with Ok a => Some a | Err _ => None end.

(** The [?] operator. *)
Declare Scope rust_scope.
Delimit Scope rust_scope with rust.
Notation "'let?' x ':=' r 'in' k" := (result_bind r (fun x => k))
  (at level 10, x pattern, r at level 100, k at level 200) : rust_scope.

(** ** Machine integers, instants and durations *)

Definition u8_max : Z := 2 ^ 8 - 1.
Definition u32_wrap (z : Z) : Z := z mod 2 ^ 32.
Definition u64_wrap (z : Z) : Z := z mod 2 ^ 64.

(** Instants and durations are counted in nanoseconds. [Instant::duration_since]
    saturates to zero when the argument is later (Rust 1.60 and later). *)
Definition duration_since (now earlier : Z) : Z := Z.max 0 (now - earlier).

(** [Duration::MAX]: [u64::MAX] seconds and 999_999_999 nanoseconds. *)
Definition duration_max : Z := (2 ^ 64 - 1) * 10 ^ 9 + 999999999.

(** [Duration * u32] panics when the product overflows: [None]. *)
Definition duration_mul (d : Z) (k : Z) : option Z :=
  if decide (d * k <= duration_max)%Z then Some (d * k)%Z else None.

(** ** Tactics *)

(** Case analysis on the scrutinee of a [match] of the goal or of a hypothesis. *)
Ltac case_goal :=
  match goal with
  | |- context [match ?x with _ => _ end] => destruct x eqn:?
  end.
Ltac case_hyp H :=
  match type of H with
  | context [match ?x with _ => _ end] => destruct x eqn:?
  end.

(** Rewriting modulo the map and list laws, then the usual closing steps. *)
Ltac crush := repeat (simplify_map_eq || case_decide); auto; try done; try lia.

Create HintDb rt discriminated.
#[export] Hint Constants Opaque : rt.

(** ** Generic lemmas *)

Lemma u64_wrap_range z : (0 <= u64_wrap z < 2 ^ 64)%Z.
Proof. unfold u64_wrap. apply Z.mod_pos_bound. lia. Qed.

Lemma duration_since_nonneg now e : (0 <= duration_since now e)%Z.
Proof. unfold duration_since. lia. Qed.

Lemma duration_since_le now e w :
  (0 <= w)%Z -> (duration_since now e <= w)%Z <-> (now - w <= e)%Z.
Proof. unfold duration_since. lia. Qed.
#[export] Hint Resolve u64_wrap_range duration_since_nonneg : rt.
