(* ===== verification/Text.v ===== *)
(** * Text: the string operations of the Rust standard library

    The methods of [str] the examples use: [trim], [split_whitespace],
    [strip_prefix], [join], [parse::<u16>] and the [Display] of unsigned
    numbers. A string is its UTF-8 bytes. A white-space character is one of
    the 25 characters with the Unicode property [White_Space], which take one,
    two or three bytes; none of them starts with a continuation byte, so that
    scanning the bytes of a valid string finds exactly its white space. *)

From stdpp Require Import pretty.
From S2P Require Import Prelude.
Import (notations) Stdlib.Strings.Ascii.

Open Scope N_scope.

(** ** White space *)

Definition byte_of (c : Ascii.ascii) : N := Ascii.N_of_ascii c.

(** U+0009 to U+000D and U+0020. *)
Definition ws1 (c : Ascii.ascii) : bool :=
  let b := byte_of c in ((9 <=? b) && (b <=? 13) || (b =? 32))%bool.
(** U+0085 and U+00A0. *)
Definition ws2 (c d : Ascii.ascii) : bool :=
  ((byte_of c =? 0xC2) && ((byte_of d =? 0x85) || (byte_of d =? 0xA0)))%bool.
(** U+1680, U+2000 to U+200A, U+2028, U+2029, U+202F, U+205F, U+3000. *)
Definition ws3 (c d e : Ascii.ascii) : bool :=
  let '(b1, b2, b3) := (byte_of c, byte_of d, byte_of e) in
  ((b1 =? 0xE1) && (b2 =? 0x9A) && (b3 =? 0x80)
   || (b1 =? 0xE2) && (b2 =? 0x80) && ((0x80 <=? b3) && (b3 <=? 0x8A) || (b3 =? 0xA8) || (b3 =? 0xA9) || (b3 =? 0xAF))
   || (b1 =? 0xE2) && (b2 =? 0x81) && (b3 =? 0x9F)
   || (b1 =? 0xE3) && (b2 =? 0x80) && (b3 =? 0x80))%bool.

(** The bytes of the white-space character a string starts with, 0 if none. *)
Definition ws_width (s : string) : nat :=
  match s with
  | String c r =>
      if ws1 c then 1%nat
      else
        match r with
        | String d r =>
            if ws2 c d then 2%nat
            else match r with String e _ => if ws3 c d e then 3%nat else 0%nat | EmptyString => 0%nat end
        | EmptyString => 0%nat
        end
  | EmptyString => 0%nat
  end.

Close Scope N_scope.

(** [str::trim_start]: [skip] bytes of the current white-space character are
    still to be dropped. *)
Fixpoint trim_start_from (skip : nat) (s : string) : string :=
  match s with
  | EmptyString => EmptyString
  | String c r =>
      match skip with
      | S skip => trim_start_from skip r
      | 0 => match ws_width s with 0 => s | S n => trim_start_from n r end
      end
  end.
Definition trim_start (s : string) : string := trim_start_from 0 s.

(** [str::trim_end]: what is left of a string that is white space from some
    point on. *)
Fixpoint trim_end (s : string) : string :=
  match s with
  | EmptyString => EmptyString
  | String c r => if decide (trim_start s = EmptyString) then EmptyString else String c (trim_end r)
  end.

Definition trim (s : string) : string := trim_end (trim_start s).

(** [str::split_whitespace]: the word a string starts with, and the words
    after the white space that follows it. *)
Definition cons_word (w : string) (ws : list string) : list string :=
  if decide (w = EmptyString) then ws else w :: ws.

Fixpoint words_from (skip : nat) (s : string) : string * list string :=
  match s with
  | EmptyString => (EmptyString, [])
  | String c r =>
      match skip with
      | S skip => words_from skip r
      | 0 =>
          match ws_width s with
          | 0 => let '(w, ws) := words_from 0 r in (String c w, ws)
          | S n => let '(w, ws) := words_from n r in (EmptyString, cons_word w ws)
          end
      end
  end.
Definition split_whitespace (s : string) : list string :=
  let '(w, ws) := words_from 0 s in cons_word w ws.

(** [[&str]::join]. *)
Definition join (sep : string) (l : list string) : string := String.concat sep l.

(** ** Prefixes and numbers *)

(** [str::strip_prefix]. *)
Fixpoint strip_prefix (p s : string) : option string :=
  match p, s with
  | EmptyString, _ => Some s
  | String a p, String b s => if decide (a = b) then strip_prefix p s else None
  | String _ _, EmptyString => None
  end.

(** The digits of a number, most significant first: [None] for another
    character, or when the number reaches [max + 1]. *)
Fixpoint parse_digits (max acc : Z) (s : string) : option Z :=
  match s with
  | EmptyString => Some acc
  | String c s =>
      match Ascii.is_nat c with
      | Some d =>
          let acc := (acc * 10 + Z.of_nat d)%Z in
          if decide (acc <= max)%Z then parse_digits max acc s else None
      | None => None
      end
  end.

(** [str::parse] at an unsigned type with the given maximum: a sign [+] is
    allowed, an empty number is not. [None] is any [ParseIntError]. *)
Definition parse_unsigned (max : Z) (s : string) : option Z :=
  let digits := default s (strip_prefix "+" s) in
  if decide (digits = EmptyString) then None else parse_digits max 0 digits.

Definition u16_max : Z := 2 ^ 16 - 1.
Definition parse_u16 (s : string) : option Z := parse_unsigned u16_max s.

(** [Display] of an unsigned number. *)
Definition show_unsigned (n : Z) : string := pretty (Z.to_N n).

(** ** Facts on white space *)

(** No white space starts at any byte of the string. *)
Fixpoint no_ws (s : string) : Prop :=
  match s with
  | EmptyString => True
  | String c r => ws_width s = 0 /\ no_ws r
  end.

(** What [split_whitespace] gives: not empty, and without white space. *)
Definition word (w : string) : Prop := w <> EmptyString /\ no_ws w.

Lemma ws_width_space r : ws_width (String " "%char r) = 1.
Proof. reflexivity. Qed.

Lemma ws_width_app a b : ws_width a <> 0 -> ws_width (a +:+ b) = ws_width a.
Proof.
  destruct a as [|c [|d [|e a]]]; unfold String.app; simpl; repeat case_match; congruence.
Qed.

(** White space is not made of a word and the space behind it. *)
Lemma ws_width_app_space a r :
  a <> EmptyString -> ws_width a = 0 -> ws_width (a +:+ String " "%char r) = 0.
Proof.
  destruct a as [|c [|d [|e a]]]; intros Ha; [done|..]; unfold String.app; simpl.
  - destruct (ws1 c); [done|]. intros _. unfold ws2, ws3. simpl. rewrite andb_false_r.
    destruct r as [|e r]; [done|]. by rewrite !andb_false_r, !andb_false_l.
  - destruct (ws1 c); [done|]. destruct (ws2 c d); [done|]. intros _.
    unfold ws3. simpl. by rewrite !andb_false_r.
  - done.
Qed.

Lemma words_from_no_ws w : no_ws w -> words_from 0 w = (w, []).
Proof.
  induction w as [|c w IH]; [done|]. intros [Hc Hw]. cbn [words_from]. by rewrite Hc, IH.
Qed.

Lemma words_from_app_space w r :
  no_ws w -> words_from 0 (w +:+ String " "%char r) = (w, split_whitespace r).
Proof.
  induction w as [|c w IH]; intros Hw.
  - unfold String.app, split_whitespace. cbn [String.append words_from]. rewrite ws_width_space.
    by destruct (words_from 0 r).
  - destruct Hw as [Hc Hw]. pose proof (ws_width_app_space (String c w) r) as Hs.
    change (String c w +:+ String " "%char r) with (String c (w +:+ String " "%char r)) in *.
    cbn [words_from]. rewrite Hs by done. by rewrite IH.
Qed.

(** Words joined by single spaces are found again. *)
Lemma split_join ws : Forall word ws -> split_whitespace (join " " ws) = ws.
Proof.
  induction 1 as [|w ws [Hne Hw] Hws IH]; [done|]. unfold join in *. simpl.
  destruct ws as [|w' ws].
  - unfold split_whitespace. rewrite words_from_no_ws by done. unfold cons_word. by rewrite decide_False.
  - change (w ++ " " ++ String.concat " " (w' :: ws))%string
      with (w +:+ String " "%char (String.concat " " (w' :: ws))).
    unfold split_whitespace. rewrite words_from_app_space by done. rewrite IH.
    unfold cons_word. by rewrite decide_False.
Qed.

Lemma cons_word_words w ws : no_ws w -> Forall word ws -> Forall word (cons_word w ws).
Proof. intros Hw Hws. unfold cons_word. case_decide; [done|]. by constructor. Qed.

(** The first word is a prefix of the string. *)
Lemma words_from_prefix s w ws : words_from 0 s = (w, ws) -> exists r, s = w +:+ r.
Proof.
  revert w ws. induction s as [|c s IH]; intros w ws; cbn [words_from].
  - intros [= <- <-]. by exists EmptyString.
  - destruct (ws_width (String c s)); [|destruct (words_from n s); intros [= <- <-]; by eexists].
    destruct (words_from 0 s) as [w' ws'] eqn:Hs. intros [= <- <-].
    destruct (IH _ _ eq_refl) as [r ->]. by exists r.
Qed.

Lemma words_from_words s : forall skip w ws,
  words_from skip s = (w, ws) -> no_ws w /\ Forall word ws.
Proof.
  induction s as [|c s IH]; intros skip w ws; cbn [words_from]; [by intros [= <- <-]|].
  destruct skip as [|skip]; [|apply IH].
  destruct (ws_width (String c s)) as [|n] eqn:Hc.
  - destruct (words_from 0 s) as [w' ws'] eqn:Hs. intros [= <- <-].
    destruct (IH _ _ _ Hs) as [Hw Hws]. split; [|done]. split; [|done].
    destruct (words_from_prefix _ _ _ Hs) as [r ->].
    destruct (decide (ws_width (String c w') = 0)) as [|Hne]; [done|].
    pose proof (ws_width_app _ r Hne) as Ha.
    change (String c w' +:+ r) with (String c (w' +:+ r)) in Ha. congruence.
  - destruct (words_from n s) as [w' ws'] eqn:Hs. intros [= <- <-].
    destruct (IH _ _ _ Hs) as [Hw Hws]. split; [done|]. by apply cons_word_words.
Qed.

Lemma split_whitespace_words s : Forall word (split_whitespace s).
Proof.
  unfold split_whitespace. destruct (words_from 0 s) as [w ws] eqn:Hs.
  destruct (words_from_words _ _ _ _ Hs). by apply cons_word_words.
Qed.

(** ** Facts on numbers *)

Lemma is_nat_digit d : (d < 10)%N -> Ascii.is_nat (pretty_N_char d) = Some (N.to_nat d).
Proof.
  intros Hd. assert (d = 0 \/ d = 1 \/ d = 2 \/ d = 3 \/ d = 4 \/ d = 5 \/ d = 6 \/ d = 7 \/ d = 8 \/ d = 9)%N
    by lia. naive_solver.
Qed.

Lemma parse_digits_go max x s :
  (0 <= max)%Z ->
  parse_digits max 0 (pretty_N_go x s) =
    if decide (Z.of_N x <= max)%Z then parse_digits max (Z.of_N x) s else None.
Proof.
  intros Hmax. revert s. induction (N.lt_wf_0 x) as [x _ IH]; intros s.
  destruct (decide (x = 0)%N) as [->|Hx].
  { rewrite pretty_N_go_0. by rewrite decide_True. }
  rewrite pretty_N_go_step by lia. rewrite IH by (apply N.div_lt; lia).
  assert (Hm : (x `mod` 10 < 10)%N) by (by apply N.mod_lt).
  assert (Hdm : (Z.of_N (x `div` 10) * 10 + Z.of_N (x `mod` 10) = Z.of_N x)%Z).
  { pose proof (N.div_mod x 10). lia. }
  cbn [parse_digits]. rewrite is_nat_digit by done.
  replace (Z.of_nat (N.to_nat (x `mod` 10))) with (Z.of_N (x `mod` 10)) by lia.
  rewrite Hdm. pose proof (N2Z.is_nonneg (x `div` 10)). pose proof (N2Z.is_nonneg (x `mod` 10)).
  repeat case_decide; try done; exfalso; nia.
Qed.

(** A printed number is not empty and has no sign. *)
Lemma pretty_N_go_plus x s : strip_prefix "+" s = None -> strip_prefix "+" (pretty_N_go x s) = None.
Proof.
  revert s. induction (N.lt_wf_0 x) as [x _ IH]; intros s Hs.
  destruct (decide (x = 0)%N) as [->|Hx]; [done|].
  rewrite pretty_N_go_step by lia. apply IH; [apply N.div_lt; lia|]. simpl.
  rewrite decide_False; [done|]. unfold pretty_N_char. by repeat case_match.
Qed.

Lemma show_unsigned_plain n :
  strip_prefix "+" (show_unsigned n) = None /\ show_unsigned n <> EmptyString.
Proof.
  unfold show_unsigned, pretty, pretty_N. case_decide as Hn; [done|].
  rewrite pretty_N_go_step by lia. split.
  - apply pretty_N_go_plus. simpl. rewrite decide_False; [done|].
    unfold pretty_N_char. by repeat case_match.
  - assert (H : forall x s, s <> EmptyString -> pretty_N_go x s <> EmptyString).
    { intros x. induction (N.lt_wf_0 x) as [x _ IH]; intros s Hs.
      destruct (decide (x = 0)%N) as [->|Hx]; [done|].
      rewrite pretty_N_go_step by lia. apply IH; [apply N.div_lt; lia|done]. }
    by apply H.
Qed.

(** Printing then parsing: the number if it fits, an error otherwise. *)
Lemma parse_show max n :
  (0 <= max)%Z -> (0 <= n)%Z ->
  parse_unsigned max (show_unsigned n) = if decide (n <= max)%Z then Some n else None.
Proof.
  intros Hmax Hn. destruct (show_unsigned_plain n) as [Hp He]. unfold parse_unsigned. rewrite Hp. simpl.
  rewrite decide_False by done. unfold show_unsigned, pretty, pretty_N. case_decide as Hz.
  - assert (n = 0)%Z as -> by lia. simpl. by rewrite !decide_True.
  - rewrite parse_digits_go by done. replace (Z.of_N (Z.to_N n)) with n by lia. by case_decide.
Qed.

Lemma show_unsigned_inj n m :
  (0 <= n)%Z -> (0 <= m)%Z -> show_unsigned n = show_unsigned m -> n = m.
Proof. intros Hn Hm H. apply pretty_N_inj in H. lia. Qed.

Lemma parse_unsigned_range max s n : (0 <= max)%Z -> parse_unsigned max s = Some n -> (0 <= n <= max)%Z.
Proof.
  intros Hmax. unfold parse_unsigned. case_decide; [done|].
  generalize (default s (strip_prefix "+" s)) as d. intros d.
  assert (Hd : forall acc, (0 <= acc <= max)%Z -> parse_digits max acc d = Some n -> (0 <= n <= max)%Z).
  { induction d as [|c d IH]; intros acc Ha; simpl; [by intros [= <-]|].
    destruct (Ascii.is_nat c); [|done]. case_decide; [|done]. apply IH. lia. }
  apply Hd. lia.
Qed.

Lemma strip_prefix_app p s : strip_prefix p (p +:+ s) = Some s.
Proof.
  induction p as [|c p IH]; [done|]. change (String c p +:+ s) with (String c (p +:+ s)). simpl.
  by rewrite decide_True.
Qed.

Example trim_ex : trim "  a b 	 " = "a b".
Proof. reflexivity. Qed.
Example split_ex : split_whitespace " set  k a   b " = ["set"; "k"; "a"; "b"].
Proof. reflexivity. Qed.
Example parse_ex : (parse_u16 "+17", parse_u16 "65536", parse_u16 "-1", parse_u16 "", parse_u16 "65535") =
  (Some 17, None, None, None, Some 65535)%Z.
Proof. reflexivity. Qed.
