(* ===== verification/Tokio.v ===== *)
(** * Tokio: the asynchronous runtime the code is built on, as an interface

    The channels and notifications of the [tokio] crate are not part of this
    repository. The components that use them take an instance of the class
    [Tokio], which lists the operations the code calls and a few observers of
    their state; the class [TokioLaws] states what the crate documents about
    those operations, in terms of the observers. The module [Ref] instantiates
    both with plain lists, options and sets: it shows that the laws can hold
    and is what the concrete examples of the other files compute with.

    Conventions: an [async] operation is described by one poll of its future,
    so a caller that awaits polls again after [Pending]; an operation that the
    crate documents to panic returns [None]. Polls are made within the task's
    cooperative budget ([tokio::select!] returns [Pending] as a whole, without
    polling its branches, once that budget is spent). *)

From S2P Require Import Prelude.

(** [mpsc::error::TrySendError], without the message it gives back. *)
Inductive TrySendError :=
| TrySendFull
| TrySendClosed.

Class Tokio := {
  (** [sync::mpsc], bounded. [mpsc_queue] is what has been sent and not yet
      received, [mpsc_avail] the permits a sender can take at once,
      [mpsc_waiting] the senders that wait for a permit or were granted one
      they have not used, and [mpsc_open] whether the receiver is alive. *)
  Chan : Type -> Type;
  mpsc_channel : forall {T}, Z -> option (Chan T);
  mpsc_try_send : forall {T}, Chan T -> T -> Chan T * Result unit TrySendError;
  mpsc_send : forall {T}, Chan T -> T -> Chan T * Poll (Result unit unit);
  mpsc_cancel_send : forall {T}, Chan T -> Chan T;   (** a [send] that has not completed is dropped *)
  mpsc_recv : forall {T}, Chan T -> Chan T * Poll (option T);
  mpsc_drop_rx : forall {T}, Chan T -> Chan T * list T;
  mpsc_is_closed : forall {T}, Chan T -> bool;
  mpsc_queue : forall {T}, Chan T -> list T;
  mpsc_avail : forall {T}, Chan T -> nat;
  mpsc_waiting : forall {T}, Chan T -> nat;
  mpsc_open : forall {T}, Chan T -> bool;

  (** [sync::oneshot]. Both halves are one object; the sender is consumed by
      [send] or by being dropped. *)
  Oneshot : Type -> Type;
  oneshot_channel : forall {T}, Oneshot T;
  oneshot_send : forall {T}, Oneshot T -> T -> Oneshot T;
  oneshot_drop_tx : forall {T}, Oneshot T -> Oneshot T;
  oneshot_poll : forall {T}, Oneshot T -> Poll (Result T unit);

  (** [sync::Notify] used by [notify_one] and one waiting task. *)
  Signal : Type;
  signal_new : Signal;
  signal_notify_one : Signal -> Signal;
  signal_poll : Signal -> Signal * bool;
  signal_permit : Signal -> bool;

  (** [sync::Notify] used by [notify_waiters] and many waiting tasks, named by
      numbers: [notified] creates the task's future, [drop] drops it.
      [bcast_live] tells whether a task holds such a future and [bcast_woken]
      whether [notify_waiters] has completed it. *)
  Bcast : Type;
  bcast_new : Bcast;
  bcast_notified : Bcast -> nat -> Bcast;
  bcast_drop : Bcast -> nat -> Bcast;
  bcast_notify_waiters : Bcast -> Bcast;
  bcast_poll : Bcast -> nat -> bool;
  bcast_live : Bcast -> nat -> bool;
  bcast_woken : Bcast -> nat -> bool;
}.

Class TokioLaws (K : Tokio) : Prop := {
  (** "Panics if the buffer capacity is 0, or too large." *)
  mpsc_channel_zero T n : (n <= 0)%Z -> @mpsc_channel K T n = None;
  mpsc_channel_ok T n : (0 < n < 2 ^ 61)%Z -> is_Some (@mpsc_channel K T n);
  mpsc_channel_new T n c : @mpsc_channel K T n = Some c ->
    mpsc_queue c = [] /\ mpsc_avail c = Z.to_nat n /\ mpsc_open c = true;
  mpsc_try_send_closed T (c : Chan T) x : mpsc_open c = false ->
    mpsc_try_send c x = (c, Err TrySendClosed);
  mpsc_try_send_full T (c : Chan T) x : mpsc_open c = true -> mpsc_avail c = 0 ->
    mpsc_try_send c x = (c, Err TrySendFull);
  mpsc_try_send_ok T (c : Chan T) x : mpsc_open c = true -> 0 < mpsc_avail c ->
    exists c', mpsc_try_send c x = (c', Ok tt) /\
      mpsc_queue c' = mpsc_queue c ++ [x] /\ mpsc_open c' = true /\
      S (mpsc_avail c') = mpsc_avail c;
  (** [send(x).await] completes with an error once the receiver is gone, at
      once while a permit is available, and waits otherwise. *)
  mpsc_send_closed T (c : Chan T) x : mpsc_open c = false ->
    mpsc_send c x = (c, Ready (Err tt));
  mpsc_send_open T (c : Chan T) x : mpsc_open c = true ->
    exists c', mpsc_open c' = true /\
      ((mpsc_send c x = (c', Ready (Ok tt)) /\ mpsc_queue c' = mpsc_queue c ++ [x]) \/
       (mpsc_avail c = 0 /\ mpsc_send c x = (c', Pending) /\ mpsc_queue c' = mpsc_queue c));
  (** "If send is cancelled, it is guaranteed that the message was not sent." *)
  mpsc_cancel_send_spec T (c : Chan T) :
    mpsc_queue (mpsc_cancel_send c) = mpsc_queue c /\ mpsc_open (mpsc_cancel_send c) = mpsc_open c;
  (** Messages are received in the order they were sent. *)
  mpsc_recv_some T (c : Chan T) x q : mpsc_queue c = x :: q ->
    exists c', mpsc_recv c = (c', Ready (Some x)) /\ mpsc_queue c' = q /\
      mpsc_open c' = mpsc_open c;
  (** An empty channel gives [None] when no sender is left and waits otherwise. *)
  mpsc_recv_empty T (c : Chan T) : mpsc_queue c = [] ->
    exists c' r, mpsc_recv c = (c', r) /\ (r = Pending \/ r = Ready None) /\
      mpsc_queue c' = [] /\ mpsc_open c' = mpsc_open c;
  mpsc_drop_rx_spec T (c : Chan T) :
    exists c', mpsc_drop_rx c = (c', mpsc_queue c) /\ mpsc_queue c' = [] /\
      mpsc_open c' = false;
  mpsc_is_closed_spec T (c : Chan T) : mpsc_is_closed c = negb (mpsc_open c);
  (** A sender waits only when no permit is available; "the capacity goes up
      when values are received", so all of it is back when nothing is queued
      and nobody waits. *)
  mpsc_waiting_new T n c : @mpsc_channel K T n = Some c -> mpsc_waiting c = 0;
  mpsc_waiting_send T (c : Chan T) x : 0 < mpsc_avail c ->
    mpsc_waiting (fst (mpsc_send c x)) = mpsc_waiting c;
  mpsc_waiting_recv T (c : Chan T) : mpsc_waiting c = 0 ->
    mpsc_waiting (fst (mpsc_recv c)) = 0;
  mpsc_idle_room T (c : Chan T) : mpsc_open c = true -> mpsc_queue c = [] ->
    mpsc_waiting c = 0 -> 0 < mpsc_avail c;

  oneshot_channel_poll T : oneshot_poll (@oneshot_channel K T) = Pending;
  oneshot_send_poll T (o : Oneshot T) x : oneshot_poll o = Pending ->
    oneshot_poll (oneshot_send o x) = Ready (Ok x);
  oneshot_drop_poll T (o : Oneshot T) : oneshot_poll o = Pending ->
    oneshot_poll (oneshot_drop_tx o) = Ready (Err tt);
  (** A receiver that has its answer keeps it. *)
  oneshot_send_done T (o : Oneshot T) x : oneshot_poll o <> Pending ->
    oneshot_poll (oneshot_send o x) = oneshot_poll o;
  oneshot_drop_done T (o : Oneshot T) : oneshot_poll o <> Pending ->
    oneshot_poll (oneshot_drop_tx o) = oneshot_poll o;

  (** "If a task is currently waiting, that task is notified. Otherwise, a
      permit is stored and the next call to [notified().await] completes." *)
  signal_new_permit : signal_permit signal_new = false;
  signal_notify_one_permit s : signal_permit (signal_notify_one s) = true;
  signal_poll_ready s : snd (signal_poll s) = signal_permit s;
  signal_poll_pending s : signal_permit s = false ->
    signal_permit (fst (signal_poll s)) = false;

  (** "Notifies all waiting tasks", and stores no permit for later ones. *)
  bcast_new_live w : bcast_live bcast_new w = false;
  bcast_new_woken w : bcast_woken bcast_new w = false;
  bcast_notified_live b w w' : bcast_live (bcast_notified b w) w' =
    (bool_decide (w = w') || bcast_live b w')%bool;
  bcast_notified_woken b w w' : bcast_woken (bcast_notified b w) w' = bcast_woken b w';
  bcast_drop_live b w w' : bcast_live (bcast_drop b w) w' =
    (negb (bool_decide (w = w')) && bcast_live b w')%bool;
  bcast_drop_woken b w w' : bcast_woken (bcast_drop b w) w' =
    (negb (bool_decide (w = w')) && bcast_woken b w')%bool;
  bcast_notify_live b w : bcast_live (bcast_notify_waiters b) w = bcast_live b w;
  bcast_notify_woken b w : bcast_woken (bcast_notify_waiters b) w =
    (bcast_live b w || bcast_woken b w)%bool;
  bcast_poll_ready b w : bcast_poll b w = bcast_woken b w;
}.

(** ** A reference instance *)
Module Ref.

Record chan (T : Type) := mkChan { c_cap : nat; c_queue : list T; c_open : bool }.
Arguments mkChan {T} _ _ _.
Arguments c_cap {T} _.
Arguments c_queue {T} _.
Arguments c_open {T} _.

(** Every channel has a place. *)
Definition chan_avail {T} (c : chan T) : nat := Nat.max 1 (c_cap c) - length (c_queue c).

Definition chan_push {T} (c : chan T) (x : T) : chan T :=
  mkChan (c_cap c) (c_queue c ++ [x]) (c_open c).

Definition chan_try_send {T} (c : chan T) (x : T) : chan T * Result unit TrySendError :=
  if c_open c then
    if decide (chan_avail c = 0) then (c, Err TrySendFull) else (chan_push c x, Ok tt)
  else (c, Err TrySendClosed).

Definition chan_send {T} (c : chan T) (x : T) : chan T * Poll (Result unit unit) :=
  if c_open c then
    if decide (chan_avail c = 0) then (c, Pending) else (chan_push c x, Ready (Ok tt))
  else (c, Ready (Err tt)).

Definition chan_recv {T} (c : chan T) : chan T * Poll (option T) :=
  match c_queue c with
  | x :: q => (mkChan (c_cap c) q (c_open c), Ready (Some x))
  | [] => (c, Pending)
  end.

Inductive oneshot (T : Type) := Waiting | Sent (x : T) | Dropped.
Arguments Waiting {T}.
Arguments Sent {T} _.
Arguments Dropped {T}.

Definition nat_set_mem (s : gset nat) (w : nat) : bool := bool_decide (w ∈ s).

#[global] Instance RefTokio : Tokio := {|
  Chan := chan;
  mpsc_channel := fun T n =>
    if decide (0 < n < 2 ^ 61)%Z then Some (mkChan (Z.to_nat n) [] true) else None;
  mpsc_try_send := @chan_try_send;
  mpsc_send := @chan_send;
  mpsc_cancel_send := fun T c => c;
  mpsc_recv := @chan_recv;
  mpsc_drop_rx := fun T c => (mkChan (c_cap c) [] false, c_queue c);
  mpsc_is_closed := fun T c => negb (c_open c);
  mpsc_queue := @c_queue;
  mpsc_avail := @chan_avail;
  mpsc_waiting := fun T c => 0;
  mpsc_open := @c_open;
  Oneshot := oneshot;
  oneshot_channel := @Waiting;
  oneshot_send := fun T o x => match o with Waiting => Sent x | _ => o end;
  oneshot_drop_tx := fun T o => match o with Waiting => Dropped | _ => o end;
  oneshot_poll := fun T o =>
    match o with Waiting => Pending | Sent x => Ready (Ok x) | Dropped => Ready (Err tt) end;
  Signal := bool;
  signal_new := false;
  signal_notify_one := fun _ => true;
  signal_poll := fun s => (false, s);
  signal_permit := fun s => s;
  Bcast := gset nat * gset nat;
  bcast_new := (∅, ∅);
  bcast_notified := fun b w => ({[w]} ∪ b.1, b.2);
  bcast_drop := fun b w => (b.1 ∖ {[w]}, b.2 ∖ {[w]});
  bcast_notify_waiters := fun b => (b.1, b.1 ∪ b.2);
  bcast_poll := fun b w => nat_set_mem b.2 w;
  bcast_live := fun b w => nat_set_mem b.1 w;
  bcast_woken := fun b w => nat_set_mem b.2 w;
|}.

Ltac mem_bool := unfold nat_set_mem; repeat case_bool_decide; simpl; try done; set_solver.

Lemma chan_avail_push {T} (c : chan T) x :
  0 < chan_avail c -> S (chan_avail (chan_push c x)) = chan_avail c.
Proof. unfold chan_avail, chan_push; simpl. rewrite length_app; simpl. lia. Qed.

#[global] Instance RefTokioLaws : TokioLaws RefTokio.
Proof.
  split; simpl; intros *.
  - intros. by rewrite decide_False by lia.
  - intros. by rewrite decide_True.
  - intros Hc. case_decide; simplify_eq. unfold chan_avail; simpl. split_and!; auto; lia.
  - intros Ho. unfold chan_try_send. by rewrite Ho.
  - intros Ho Ha. unfold chan_try_send. by rewrite Ho, decide_True.
  - intros Ho Ha. unfold chan_try_send. rewrite Ho, decide_False by lia.
    eexists; split; [done|]. split_and!; auto using chan_avail_push.
  - intros Ho. unfold chan_send. by rewrite Ho.
  - intros Ho. unfold chan_send. rewrite Ho. case_decide; [exists c | exists (chan_push c x)]; auto.
  - done.
  - intros Hq. unfold chan_recv. rewrite Hq. eauto.
  - intros Hq. unfold chan_recv. rewrite Hq. eauto 8.
  - eauto.
  - done.
  - done.
  - done.
  - done.
  - intros _ Hq _. unfold chan_avail. rewrite Hq. simpl. lia.
  - done.
  - intros. by destruct o.
  - intros. by destruct o.
  - intros. by destruct o.
  - intros. by destruct o.
  - done.
  - done.
  - done.
  - done.
  - mem_bool.
  - mem_bool.
  - mem_bool.
  - mem_bool.
  - mem_bool.
  - mem_bool.
  - done.
  - mem_bool.
  - done.
Qed.

End Ref.
