(* ===== verification/Supervisor.v ===== *)
(** * Supervisor: restart strategies and the restart tracker (src/supervisor.rs)

    [SupervisorStrategy] and [RestartTracker] as the code has them, with
    instants and durations in nanoseconds. The tracker keeps a pruned list of
    recent restarts; the specification [History] keeps every restart it ever
    allowed and counts those of the last [within] nanoseconds. The tracker is
    proved to take the decisions of that specification, and the
    specification to bound the restarts of every window of that length. *)

From S2P Require Import Prelude.
From Stdlib Require Import Sorted.

(** [enum SupervisorStrategy]; [max_restarts] is a [u32], [within] a [Duration]. *)
Inductive SupervisorStrategy :=
| Stop
| Restart (max_restarts : Z) (within : Z)
| Escalate.

#[export] Instance SupervisorStrategy_eq_dec : EqDecision SupervisorStrategy.
Proof. solve_decision. Defined.

(** [#[default] Stop]. *)
#[export] Instance SupervisorStrategy_default : Inhabited SupervisorStrategy := populate Stop.

Definition SupervisorStrategy_restart (max_restarts within : Z) : SupervisorStrategy :=
  Restart max_restarts within.

Record RestartTracker := mkTracker {
  restart_times : list Z;
  max_restarts : Z;
  within : Z;
}.

Definition RestartTracker_new (max_restarts within : Z) : RestartTracker :=
  mkTracker [] max_restarts within.

(** [record_restart] at the instant [now]: prune, then admit one more restart
    while fewer than [max_restarts] remain. *)
Definition record_restart (t : RestartTracker) (now : Z) : RestartTracker * bool :=
  let times := filter (fun time => (duration_since now time <= within t)%Z) (restart_times t) in
  if decide (Z.of_nat (length times) < max_restarts t)%Z
  then (mkTracker (times ++ [now]) (max_restarts t) (within t), true)
  else (mkTracker times (max_restarts t) (within t), false).

(** The decisions of successive calls at the instants of a list. *)
Fixpoint record_all (t : RestartTracker) (nows : list Z) : list bool :=
  match nows with
  | [] => []
  | now :: rest => let '(t', ok) := record_restart t now in ok :: record_all t' rest
  end.

(** The instants at which those calls allowed a restart. *)
Fixpoint allowed_restarts (t : RestartTracker) (nows : list Z) : list Z :=
  match nows with
  | [] => []
  | now :: rest =>
      let '(t', ok) := record_restart t now in
      (if ok then [now] else []) ++ allowed_restarts t' rest
  end.

(** ** The specification: the whole history of restarts *)
Module History.

Definition recent (w now : Z) (hist : list Z) : list Z :=
  filter (fun h => (now - w <= h)%Z) hist.

Definition grant_restart (max w : Z) (hist : list Z) (now : Z) : list Z * bool :=
  if decide (Z.of_nat (length (recent w now hist)) < max)%Z
  then (hist ++ [now], true) else (hist, false).

Fixpoint decisions (max w : Z) (hist : list Z) (nows : list Z) : list bool :=
  match nows with
  | [] => []
  | now :: rest =>
      let '(hist', ok) := grant_restart max w hist now in ok :: decisions max w hist' rest
  end.

(** Restarts of [hist] in the closed window of length [w] that starts at [a]. *)
Definition in_window (w a : Z) (hist : list Z) : list Z :=
  filter (fun h => (a <= h <= a + w)%Z) hist.

End History.
Import History.

(** ** The tracker refines the history *)

(** The tracker holds the part of the history that was recent at [last], and
    [last] is not before anything in it. *)
Definition tracks (max w : Z) (t : RestartTracker) (hist : list Z) (last : Z) : Prop :=
  max_restarts t = max /\ within t = w /\ (0 <= w)%Z /\
  restart_times t = recent w last hist /\ Forall (fun h => (h <= last)%Z) hist.

Lemma recent_recent w n1 n2 hist :
  (n1 <= n2)%Z -> recent w n2 (recent w n1 hist) = recent w n2 hist.
Proof.
  intros Hle. unfold recent. rewrite list_filter_filter.
  apply list_filter_iff. intros h. lia.
Qed.

Lemma prune_recent w now l :
  (0 <= w)%Z -> filter (fun time => (duration_since now time <= w)%Z) l = recent w now l.
Proof. intros Hw. apply list_filter_iff. intros h. by apply duration_since_le. Qed.

(** One step of the simulation. *)
Lemma record_restart_tracks max w t hist last now :
  tracks max w t hist last -> (last <= now)%Z ->
  exists t' hist' ok,
    record_restart t now = (t', ok) /\ grant_restart max w hist now = (hist', ok) /\
    tracks max w t' hist' now /\ hist' = hist ++ (if ok then [now] else []).
Proof.
  intros (<- & <- & Hw & Ht & Hall) Hle. unfold record_restart, grant_restart.
  rewrite prune_recent, Ht, recent_recent by done.
  assert (Hall' : Forall (fun h => (h <= now)%Z) hist)
    by (eapply Forall_impl; [done|]; simpl; lia).
  case_decide; do 3 eexists; (split_and!; [done|done| |by rewrite ?app_nil_r]).
  - unfold tracks, recent; simpl. rewrite filter_app, filter_cons, filter_nil.
    rewrite decide_True by lia. split_and!; try done.
    apply Forall_app; split; [done|]. constructor; [lia|done].
  - unfold tracks; simpl. auto.
Qed.

Lemma tracks_new max w last : (0 <= w)%Z -> tracks max w (RestartTracker_new max w) [] last.
Proof. unfold tracks; simpl; auto. Qed.
#[export] Hint Resolve tracks_new : rt.

Lemma record_all_decisions max w nows t hist last :
  tracks max w t hist last -> Sorted Z.le (last :: nows) ->
  record_all t nows = decisions max w hist nows.
Proof.
  revert t hist last. induction nows as [|now rest IH]; intros t hist last Ht Hs; simpl; [done|].
  apply Sorted_inv in Hs as [Hs Hd]. inv Hd.
  destruct (record_restart_tracks _ _ _ _ _ _ Ht H0) as (t' & h' & ok & -> & -> & Ht' & _).
  f_equal. eauto.
Qed.

(** ** Bounding the restarts of a window *)

Lemma in_window_snoc w a hist now :
  in_window w a (hist ++ [now]) =
  in_window w a hist ++ (if decide (a <= now <= a + w)%Z then [now] else []).
Proof.
  unfold in_window. by rewrite filter_app, filter_cons, filter_nil.
Qed.

Lemma in_window_recent w a hist now :
  Forall (fun h => (h <= now)%Z) hist -> (a <= now <= a + w)%Z ->
  length (in_window w a hist) <= length (recent w now hist).
Proof.
  intros Hall Hnow. unfold in_window, recent.
  induction hist as [|h hist IH]; [done|]. inv Hall. rewrite !filter_cons.
  repeat case_decide; simpl; try lia; specialize (IH H2); lia.
Qed.

(** The window bound is kept by every admitted restart. *)
Lemma grant_restart_window max w hist now hist' ok a :
  (0 <= max)%Z -> Forall (fun h => (h <= now)%Z) hist ->
  (Z.of_nat (length (in_window w a hist)) <= max)%Z ->
  grant_restart max w hist now = (hist', ok) ->
  (Z.of_nat (length (in_window w a hist')) <= max)%Z.
Proof.
  intros Hmax Hall Hb Hadm. unfold grant_restart in Hadm. case_decide; simplify_eq; [|done].
  rewrite in_window_snoc, length_app. case_decide; simpl; [|lia].
  pose proof (in_window_recent _ _ _ _ Hall H0). lia.
Qed.

Lemma allowed_restarts_window max w nows t hist last a :
  (0 <= max)%Z -> tracks max w t hist last -> Sorted Z.le (last :: nows) ->
  (Z.of_nat (length (in_window w a hist)) <= max)%Z ->
  (Z.of_nat (length (in_window w a (hist ++ allowed_restarts t nows))) <= max)%Z.
Proof.
  intros Hmax. revert t hist last.
  induction nows as [|now rest IH]; intros t hist last Ht Hs Hb; simpl; [by rewrite app_nil_r|].
  apply Sorted_inv in Hs as [Hs Hd]. inv Hd.
  destruct (record_restart_tracks _ _ _ _ _ _ Ht H0) as (t' & h' & ok & -> & Hadm & Ht' & ->).
  rewrite app_assoc. eapply IH; eauto.
  eapply (grant_restart_window _ _ hist now); eauto.
  destruct Ht as (_ & _ & _ & _ & Hall). eapply Forall_impl; [done|]. simpl; lia.
Qed.

(** ** Properties *)

(** C34: the restart tracker, which forgets old restarts, takes exactly the
    decisions of a supervisor that remembers every restart and allows one
    more while fewer than [max_restarts] of them are at most [within] old;
    the instants are those of a monotonic clock. *)
Theorem record_restart_refines_history max w nows :
  (0 <= w)%Z -> Sorted Z.le nows ->
  record_all (RestartTracker_new max w) nows = decisions max w [] nows.
Proof.
  intros Hw Hs. destruct nows as [|now rest]; [done|].
  eapply (record_all_decisions _ _ _ _ _ now); auto with rt.
  constructor; [done|]. constructor. lia.
Qed.

Lemma record_restart_refines_history_witness :
  record_all (RestartTracker_new 2 10) [0; 5; 7; 12; 30]%Z = decisions 2 10 [] [0; 5; 7; 12; 30]%Z /\
  decisions 2 10 [] [0; 5; 7; 12; 30]%Z = [true; true; false; true; true].
Proof.
  split; [|vm_compute; reflexivity].
  apply (record_restart_refines_history 2 10 [0; 5; 7; 12; 30]%Z); [lia|].
  repeat constructor; lia.
Defined.

(** "restart up to [max_restarts] times within a duration" means every
    window: whatever the instants of the failures, any closed interval of
    length [within] contains at most [max_restarts] of the allowed restarts. *)
Theorem restarts_bounded_in_every_window max w nows a :
  (0 <= max)%Z -> (0 <= w)%Z -> Sorted Z.le nows ->
  (Z.of_nat (length (in_window w a (allowed_restarts (RestartTracker_new max w) nows))) <= max)%Z.
Proof.
  intros Hmax Hw Hs. destruct nows as [|now rest]; [simpl; lia|].
  apply (allowed_restarts_window max w (now :: rest) _ [] now); simpl; auto with rt.
  constructor; [done|]. constructor. lia.
Qed.

Lemma restarts_bounded_in_every_window_witness :
  (Z.of_nat (length (in_window 10 2 (allowed_restarts (RestartTracker_new 2 10) [0; 5; 7; 12; 30]))) <= 2)%Z /\
  allowed_restarts (RestartTracker_new 2 10) [0; 5; 7; 12; 30]%Z = [0; 5; 12; 30]%Z.
Proof.
  split; [|vm_compute; reflexivity].
  apply (restarts_bounded_in_every_window 2 10 [0; 5; 7; 12; 30]%Z 2%Z); [lia|lia|].
  repeat constructor; lia.
Defined.
