(* ===== verification/Runtime.v ===== *)
(** * Runtime: actors, addresses, envelopes and contexts

    The shared state of a running actor system and the operations on it:
    src/actor.rs, src/address.rs, src/envelope.rs, src/error.rs,
    src/message.rs, src/watcher.rs, src/timer.rs, src/registry.rs and the
    methods of [Context] in src/context.rs. The tasks that these operations
    spawn are data here ([Task]); Tasks.v gives them their steps.

    - Everything behind an [Arc] (a channel, a [Notify], a watcher list, a
      timer flag, a registry) lives in the [World] under a location, so that
      clones of an [Addr] share it as they do in the code.
    - The actors of an application are one type [St] with one message type
      [User]; what an application's hooks and handlers do is a value of
      [Prog], a finite tree of calls ([Op]), which the model runs. A hook can
      therefore do what its [Context], addresses, child and timer handles
      offer, and nothing else: an actor that keeps an [ActorSystem] and calls
      its methods (spawn, shutdown, register, lookup) is not covered; those
      calls come from outside the actors. *)

From S2P Require Import Prelude Tokio Supervisor.

(** ** What an application supplies *)

Class Sys := {
  St : Type;      (** state of an actor (every [impl Actor]) *)
  User : Type;    (** messages of the application *)
  Rsp : Type;     (** [Message::Result] *)
  Strm : Type;    (** [futures::Stream]s attached to actors *)
  Item : Type;    (** their items *)
  stream_poll_next : Strm -> Strm * Poll (option Item);
}.

(** Locations: what an [Arc] points to. *)
Abbreviation loc := nat (only parsing).

(** [struct ActorId(u64)]; [struct TimerHandle]: the location of its flag. *)
Abbreviation ActorId := Z (only parsing).
Abbreviation TimerHandle := nat (only parsing).

Section Runtime.
Context {Y : Sys} {K : Tokio}.


(** ** src/actor.rs, src/error.rs, src/message.rs *)

Inductive MailboxError :=
| MailboxClosed
| Timeout
| MailboxFull.

#[export] Instance MailboxError_eq_dec : EqDecision MailboxError.
Proof. solve_decision. Defined.

(** [impl Display for MailboxError]. *)
Definition MailboxError_fmt (e : MailboxError) : string :=
  match e with
  | MailboxClosed => "Actor's mailbox is closed"
  | Timeout => "Requested operation timed out"
  | MailboxFull => "Actor's mailbox is full"
  end.

(** Messages: [Terminated] is the framework's own. *)
Inductive Msg :=
| Terminated (id : ActorId)
| UserMsg (u : User).

(** ** src/envelope.rs, the data *)

Record MessageEnvelope := mkEnv { msg : option Msg; response_tx : option loc }.
Record AsyncMessageEnvelope := mkAEnv { amsg : option Msg; aresponse_tx : option loc }.

Inductive ActorMessage :=
| Sync (e : MessageEnvelope)
| Async (e : AsyncMessageEnvelope).

Definition MessageEnvelope_new (m : Msg) : MessageEnvelope := mkEnv (Some m) None.
Definition MessageEnvelope_with_response (m : Msg) (tx : loc) : MessageEnvelope :=
  mkEnv (Some m) (Some tx).
Definition AsyncMessageEnvelope_new (m : Msg) : AsyncMessageEnvelope := mkAEnv (Some m) None.
Definition AsyncMessageEnvelope_with_response (m : Msg) (tx : loc) : AsyncMessageEnvelope :=
  mkAEnv (Some m) (Some tx).

(** The response channel an envelope owns. *)
Definition message_tx (m : ActorMessage) : option loc :=
  match m with Sync e => response_tx e | Async e => aresponse_tx e end.

(** ** src/address.rs, src/context.rs and src/timer.rs, the data *)

(** [struct Addr]: its fields point into the [World]; [Clone] copies the pointers. *)
Record Addr := mkAddr {
  addr_sender : loc;
  addr_id : ActorId;
  addr_watchers : loc;
  addr_stop_signal : loc;
}.

#[export] Instance Addr_eq_dec : EqDecision Addr.
Proof. solve_decision. Defined.

(** [struct Context]; a boxed [ChildHandle] is always an [Addr]. *)
Record Context := mkCtx {
  ctx_addr : Addr;
  ctx_stop_signal : option loc;
  ctx_shutdown : loc;
  ctx_children : list Addr;
  ctx_escalate_signal : loc;
  ctx_streams : list Strm;
}.

(** The factory closures: [move || child_opt.take().expect(..)] of
    [spawn_child_with_capacity], or an [FnMut] of the caller, which may panic
    ([None]) and whose result may depend on how often it was called. *)
Inductive Factory :=
| FOnce (child_opt : option St)
| FMut (f : nat -> option St) (calls : nat).

Definition factory_call (f : Factory) : option (St * Factory) :=
  match f with
  | FOnce (Some child) => Some (child, FOnce None)
  | FOnce None => None
  | FMut g n => match g n with Some child => Some (child, FMut g (S n)) | None => None end
  end.

(** The futures of [Addr::send], [Addr::send_async] and [Addr::send_timeout]:
    not yet polled, waiting for room in the mailbox, waiting for the reply. *)
Inductive SendFut :=
| SendInit (a : Addr) (m : Msg) (is_async : bool) (timeout : option Z)
| SendQueue (a : Addr) (m : Msg) (is_async : bool) (timeout : option Z) (rx : loc)
| SendRecv (rx : loc) (deadline : option Z).

(** ** Programs of the application *)

(** The API calls a hook or a handler can make. *)
Inductive Op :=
| OpStop                                                       (** [ctx.stop()] *)
| OpAddress                                                    (** [ctx.address()] *)
| OpWatch (a : Addr)                                           (** [ctx.watch(&a)] *)
| OpSpawnChild (f : Factory) (s : SupervisorStrategy) (capacity : Z)
| OpAddStream (s : Strm)                                       (** [ctx.add_stream(s)] *)
| OpRunLater (delay : Z) (m : Msg)
| OpRunInterval (interval : Z) (m : Msg)
| OpCancel (h : TimerHandle)                                   (** [handle.cancel()] *)
| OpStopActor (a : Addr)                                       (** [ChildHandle::stop] *)
| OpIsAlive (a : Addr)
| OpTrySend (a : Addr) (m : Msg)
| OpTrySendAsync (a : Addr) (m : Msg)
| OpDoSend (a : Addr) (m : Msg) (is_async : bool)              (** one poll *)
| OpSend (a : Addr) (m : Msg) (is_async : bool) (timeout : option Z)
| OpPoll (fut : nat).                                          (** one poll of a [send] *)

(** What a call returns. *)
Inductive OpRet :=
| RUnit
| RBool (b : bool)
| RAddr (a : Addr)
| RTimer (h : TimerHandle)
| RTrySend (r : Result unit MailboxError)
| RDoSend (r : Poll (Result unit MailboxError))
| RFut (fut : nat)
| RSend (r : option (Result Rsp MailboxError)).

(** A run of user code: it ends with the state it leaves and its result, or
    panics leaving a partly updated state, or calls the API. [Do] carries the
    state at the call, which is what is left when the call itself panics. *)
Inductive Prog (X : Type) : Type :=
| Ret (a : St) (x : X)
| Panic (a : St)
| Do (a : St) (op : Op) (k : OpRet -> Prog X).
Arguments Ret {X} _ _.
Arguments Panic {X} _.
Arguments Do {X} _ _ _.

(** A [BoxFuture]: each poll runs a program and gives the output or what is
    left to poll. *)
Inductive Fut := mkFut (p : Prog (Rsp + Fut)).

(** [trait Actor], [trait Handler], [trait AsyncHandler], [trait StreamHandler]. *)
Class Behaviour := {
  started : St -> Prog unit;
  stopped : St -> Prog unit;
  handle : St -> Msg -> Prog Rsp;
  handle_async : St -> Msg -> Fut;
  stream_handle : St -> Item -> Prog unit;
  stream_finished : St -> Prog unit;
}.

(** ** The world *)

(** Where the task of an actor stands. *)
Inductive Phase :=
| PSpawned                                             (** not polled yet *)
| PSelect (a : St) (ctx : Context) (streams : list Strm)  (** inside [select!] *)
| PAwait (f : Fut) (tx : option loc) (ctx : Context) (streams : list Strm)
                                                       (** awaiting an async handler *)
| PDone                                                (** returned *)
| PAborted.                                            (** unwound by a panic *)

(** The task spawned by [spawn_with_shutdown], which owns the actor and its
    context from the start, or by [spawn_child_with_strategy_and_capacity]. *)
Inductive Kind :=
| KRoot (actor : St) (ctx : Context)
| KChild (factory : Factory) (strategy : SupervisorStrategy)
         (tracker : option RestartTracker) (parent_escalate_signal : loc).

(** A task that sleeps: its first poll creates the timer. [TSending] is a
    [do_send] in progress; [due] is then the next tick of an interval. *)
Inductive Timer :=
| TNew
| TSleep (due : Z)
| TSending (due : Z).

Inductive Task :=
| TActor (kind : Kind) (addr : Addr) (shutdown : loc) (ph : Phase)
| TClient (f : SendFut + Result Rsp MailboxError)      (** a caller of [send] *)
| TLater (delay : Z) (h : TimerHandle) (a : Addr) (m : Msg) (t : Timer)
| TInterval (period : Z) (h : TimerHandle) (a : Addr) (m : Msg) (t : Timer)
| TUnregister (reg : loc) (name : string) (a : Addr) (t : Timer)
| TFinished.

(** What the tasks of actors did and when, oldest first: a history variable. *)
Inductive Event :=
| EStarted (a : Addr) (at_ : Z)       (** [started] is called *)
| EStopped (a : Addr) (at_ : Z)       (** [stopped] is called *)
| ENotified (a : Addr) (at_ : Z).     (** [notify_watchers] is called *)

Record World := mkWorld {
  w_next_id : Z;                              (** [NEXT_ID] *)
  w_fresh : loc;
  w_chans : gmap loc (Chan ActorMessage);
  w_signals : gmap loc Signal;
  w_bcasts : gmap loc Bcast;
  w_watchers : gmap loc (list Addr);
  w_oneshots : gmap loc (Oneshot Rsp);
  w_flags : gmap loc bool;
  w_registries : gmap loc (gmap string (nat * Addr));
  w_tasks : gmap nat Task;
  w_now : Z;
  w_log : list Event;
}.

Definition set_chans (m : gmap loc (Chan ActorMessage)) (w : World) : World :=
  mkWorld (w_next_id w) (w_fresh w) m (w_signals w) (w_bcasts w) (w_watchers w)
    (w_oneshots w) (w_flags w) (w_registries w) (w_tasks w) (w_now w) (w_log w).
Definition set_signals (m : gmap loc Signal) (w : World) : World :=
  mkWorld (w_next_id w) (w_fresh w) (w_chans w) m (w_bcasts w) (w_watchers w)
    (w_oneshots w) (w_flags w) (w_registries w) (w_tasks w) (w_now w) (w_log w).
Definition set_bcasts (m : gmap loc Bcast) (w : World) : World :=
  mkWorld (w_next_id w) (w_fresh w) (w_chans w) (w_signals w) m (w_watchers w)
    (w_oneshots w) (w_flags w) (w_registries w) (w_tasks w) (w_now w) (w_log w).
Definition set_watchers (m : gmap loc (list Addr)) (w : World) : World :=
  mkWorld (w_next_id w) (w_fresh w) (w_chans w) (w_signals w) (w_bcasts w) m
    (w_oneshots w) (w_flags w) (w_registries w) (w_tasks w) (w_now w) (w_log w).
Definition set_oneshots (m : gmap loc (Oneshot Rsp)) (w : World) : World :=
  mkWorld (w_next_id w) (w_fresh w) (w_chans w) (w_signals w) (w_bcasts w) (w_watchers w)
    m (w_flags w) (w_registries w) (w_tasks w) (w_now w) (w_log w).
Definition set_flags (m : gmap loc bool) (w : World) : World :=
  mkWorld (w_next_id w) (w_fresh w) (w_chans w) (w_signals w) (w_bcasts w) (w_watchers w)
    (w_oneshots w) m (w_registries w) (w_tasks w) (w_now w) (w_log w).
Definition set_registries (m : gmap loc (gmap string (nat * Addr))) (w : World) : World :=
  mkWorld (w_next_id w) (w_fresh w) (w_chans w) (w_signals w) (w_bcasts w) (w_watchers w)
    (w_oneshots w) (w_flags w) m (w_tasks w) (w_now w) (w_log w).
Definition set_tasks (m : gmap nat Task) (w : World) : World :=
  mkWorld (w_next_id w) (w_fresh w) (w_chans w) (w_signals w) (w_bcasts w) (w_watchers w)
    (w_oneshots w) (w_flags w) (w_registries w) m (w_now w) (w_log w).
Definition set_now (t : Z) (w : World) : World :=
  mkWorld (w_next_id w) (w_fresh w) (w_chans w) (w_signals w) (w_bcasts w) (w_watchers w)
    (w_oneshots w) (w_flags w) (w_registries w) (w_tasks w) t (w_log w).
Definition set_next_id (i : Z) (w : World) : World :=
  mkWorld i (w_fresh w) (w_chans w) (w_signals w) (w_bcasts w) (w_watchers w)
    (w_oneshots w) (w_flags w) (w_registries w) (w_tasks w) (w_now w) (w_log w).
Definition log_event (e : Event) (w : World) : World :=
  mkWorld (w_next_id w) (w_fresh w) (w_chans w) (w_signals w) (w_bcasts w) (w_watchers w)
    (w_oneshots w) (w_flags w) (w_registries w) (w_tasks w) (w_now w) (w_log w ++ [e]).

(** Allocation of a location (an [Arc::new], a task). *)
Definition alloc (w : World) : World * loc :=
  (mkWorld (w_next_id w) (S (w_fresh w)) (w_chans w) (w_signals w) (w_bcasts w) (w_watchers w)
     (w_oneshots w) (w_flags w) (w_registries w) (w_tasks w) (w_now w) (w_log w), w_fresh w).

Definition put_task (tid : nat) (t : Task) (w : World) : World :=
  set_tasks (<[tid := t]> (w_tasks w)) w.

(** [tokio::spawn]. *)
Definition spawn_task (t : Task) (w : World) : World * nat :=
  let '(w, l) := alloc w in (put_task l t w, l).

(** [ActorId::new]: [NEXT_ID.fetch_add(1)], which wraps around. *)
Definition ActorId_new (w : World) : World * ActorId :=
  (set_next_id (u64_wrap (w_next_id w + 1)) w, w_next_id w).

(** ** [Notify] and channels behind locations *)

Definition signal_at (w : World) (l : loc) : Signal := default signal_new (w_signals w !! l).
Definition bcast_at (w : World) (l : loc) : Bcast := default bcast_new (w_bcasts w !! l).
Definition watchers_at (w : World) (l : loc) : list Addr := default [] (w_watchers w !! l).

Definition notify_one (l : loc) (w : World) : World :=
  set_signals (<[l := signal_notify_one (signal_at w l)]> (w_signals w)) w.

(** One poll of [notified()] on a stop or escalate signal. *)
Definition poll_signal (l : loc) (w : World) : World * bool :=
  let '(s, b) := signal_poll (signal_at w l) in
  (set_signals (<[l := s]> (w_signals w)) w, b).

(** [Arc::new(Notify::new())]. *)
Definition new_signal (w : World) : World * loc :=
  let '(w, l) := alloc w in (set_signals (<[l := signal_new]> (w_signals w)) w, l).

Definition upd_bcast (f : Bcast -> Bcast) (l : loc) (w : World) : World :=
  set_bcasts (<[l := f (bcast_at w l)]> (w_bcasts w)) w.

(** [Sender::is_closed]. *)
Definition sender_is_closed (w : World) (l : loc) : bool :=
  match w_chans w !! l with Some c => mpsc_is_closed c | None => true end.

Definition sender_try_send (l : loc) (x : ActorMessage) (w : World)
  : World * Result unit TrySendError :=
  match w_chans w !! l with
  | Some c => let '(c', r) := mpsc_try_send c x in (set_chans (<[l := c']> (w_chans w)) w, r)
  | None => (w, Err TrySendClosed)
  end.

(** One poll of [sender.send(x)]. *)
Definition sender_send (l : loc) (x : ActorMessage) (w : World)
  : World * Poll (Result unit unit) :=
  match w_chans w !! l with
  | Some c => let '(c', r) := mpsc_send c x in (set_chans (<[l := c']> (w_chans w)) w, r)
  | None => (w, Ready (Err tt))
  end.

Definition upd_oneshot (f : Oneshot Rsp -> Oneshot Rsp) (l : loc) (w : World) : World :=
  match w_oneshots w !! l with
  | Some o => set_oneshots (<[l := f o]> (w_oneshots w)) w
  | None => w
  end.

(** Dropping an [Option<oneshot::Sender>]. *)
Definition drop_tx (tx : option loc) (w : World) : World :=
  match tx with Some l => upd_oneshot oneshot_drop_tx l w | None => w end.

(** [let _ = tx.send(result)] when there is a sender. *)
Definition reply (tx : option loc) (r : Rsp) (w : World) : World :=
  match tx with Some l => upd_oneshot (fun o => oneshot_send o r) l w | None => w end.

(** ** src/address.rs, the methods of [Addr] *)

Definition is_alive (a : Addr) (w : World) : bool := negb (sender_is_closed w (addr_sender a)).

Definition mailbox_error (e : TrySendError) : MailboxError :=
  match e with TrySendFull => MailboxFull | TrySendClosed => MailboxClosed end.

Definition try_send (a : Addr) (m : Msg) (w : World) : World * Result unit MailboxError :=
  let envelope := MessageEnvelope_new m in
  let '(w, r) := sender_try_send (addr_sender a) (Sync envelope) w in
  (w, map_err mailbox_error r).

Definition try_send_async (a : Addr) (m : Msg) (w : World) : World * Result unit MailboxError :=
  let envelope := AsyncMessageEnvelope_new m in
  let '(w, r) := sender_try_send (addr_sender a) (Async envelope) w in
  (w, map_err mailbox_error r).

(** One poll of the futures of [do_send] and [do_send_async]. *)
Definition poll_mailbox (p : Poll (Result unit unit)) : Poll (Result unit MailboxError) :=
  match p with
  | Ready r => Ready (map_err (fun _ => MailboxClosed) r)
  | Pending => Pending
  end.

Definition do_send (a : Addr) (m : Msg) (w : World) : World * Poll (Result unit MailboxError) :=
  let envelope := MessageEnvelope_new m in
  let '(w, p) := sender_send (addr_sender a) (Sync envelope) w in (w, poll_mailbox p).

Definition do_send_async (a : Addr) (m : Msg) (w : World)
  : World * Poll (Result unit MailboxError) :=
  let envelope := AsyncMessageEnvelope_new m in
  let '(w, p) := sender_send (addr_sender a) (Async envelope) w in (w, poll_mailbox p).

(** [oneshot::channel()]. *)
Definition new_oneshot (w : World) : World * loc :=
  let '(w, l) := alloc w in (set_oneshots (<[l := oneshot_channel]> (w_oneshots w)) w, l).

(** [rx.await], under [tokio::time::timeout] when there is a deadline: the
    reply is polled before the timer. *)
Definition poll_reply (rx : loc) (deadline : option Z) (w : World)
  : SendFut + Result Rsp MailboxError :=
  match oneshot_poll <$> w_oneshots w !! rx with
  | Some (Ready (Ok r)) => inr (Ok r)
  | Some (Ready (Err _)) => inr (Err MailboxClosed)
  | None => inr (Err MailboxClosed)
  | Some Pending =>
      match deadline with
      | Some d => if decide (d <= w_now w)%Z then inr (Err Timeout) else inl (SendRecv rx deadline)
      | None => inl (SendRecv rx deadline)
      end
  end.

(** The send into the mailbox: on failure the envelope is dropped, and with it
    the reply sender. The timeout starts when the message is in the mailbox. *)
Definition poll_enqueue (a : Addr) (m : Msg) (is_async : bool) (timeout : option Z) (rx : loc)
    (w : World) : World * (SendFut + Result Rsp MailboxError) :=
  let x := if is_async then Async (AsyncMessageEnvelope_with_response m rx)
           else Sync (MessageEnvelope_with_response m rx) in
  let '(w, p) := sender_send (addr_sender a) x w in
  match p with
  | Pending => (w, inl (SendQueue a m is_async timeout rx))
  | Ready (Err _) => (drop_tx (Some rx) w, inr (Err MailboxClosed))
  | Ready (Ok _) => (w, poll_reply rx ((fun d => w_now w + d)%Z <$> timeout) w)
  end.

(** One poll of [send], [send_async] or [send_timeout]. *)
Definition poll_send (f : SendFut) (w : World) : World * (SendFut + Result Rsp MailboxError) :=
  match f with
  | SendInit a m is_async timeout =>
      let '(w, rx) := new_oneshot w in poll_enqueue a m is_async timeout rx w
  | SendQueue a m is_async timeout rx => poll_enqueue a m is_async timeout rx w
  | SendRecv rx deadline => (w, poll_reply rx deadline w)
  end.

(** One poll of the future [fut]; the result once it is there. *)
Definition poll_client (fut : nat) (w : World) : World * option (Result Rsp MailboxError) :=
  match w_tasks w !! fut with
  | Some (TClient (inl f)) =>
      let '(w, r) := poll_send f w in
      (put_task fut (TClient r) w, match r with inl _ => None | inr r => Some r end)
  | Some (TClient (inr r)) => (w, Some r)
  | _ => (w, None)
  end.

(** [Addr::add_watcher]. *)
Definition add_watcher (a watcher : Addr) (w : World) : World :=
  set_watchers (<[addr_watchers a := watchers_at w (addr_watchers a) ++ [watcher]]> (w_watchers w)) w.

(** [impl Watcher for Addr]: the result of [try_send] is ignored. *)
Definition watcher_notify (watcher : Addr) (id : ActorId) (w : World) : World :=
  fst (try_send watcher (Terminated id) w).

Definition notify_watchers (a : Addr) (w : World) : World :=
  foldl (fun w watcher => watcher_notify watcher (addr_id a) w) w (watchers_at w (addr_watchers a)).

(** [impl ChildHandle for Addr]. *)
Definition child_stop (a : Addr) (w : World) : World := notify_one (addr_stop_signal a) w.

(** ** src/timer.rs *)

Definition TimerHandle_new (w : World) : World * TimerHandle :=
  let '(w, l) := alloc w in (set_flags (<[l := false]> (w_flags w)) w, l).
Definition cancel (h : TimerHandle) (w : World) : World := set_flags (<[h := true]> (w_flags w)) w.
Definition is_cancelled (h : TimerHandle) (w : World) : bool := default false (w_flags w !! h).

(** ** src/context.rs, the methods of [Context] *)

Definition Context_new (addr : Addr) (shutdown : loc) (w : World) : World * Context :=
  let '(w, e) := new_signal w in (w, mkCtx addr None shutdown [] e []).
Definition Context_with_stop_signal (addr : Addr) (stop_signal shutdown : loc) (w : World)
  : World * Context :=
  let '(w, e) := new_signal w in (w, mkCtx addr (Some stop_signal) shutdown [] e []).
Definition Context_with_signals (addr : Addr) (stop_signal shutdown escalate : loc) : Context :=
  mkCtx addr (Some stop_signal) shutdown [] escalate [].

Definition stop_children (ctx : Context) (w : World) : World :=
  foldl (fun w child => child_stop child w) w (ctx_children ctx).

Definition ctx_stop (ctx : Context) (w : World) : World :=
  match ctx_stop_signal ctx with Some l => notify_one l w | None => w end.

Definition ctx_watch (ctx : Context) (a : Addr) (w : World) : World := add_watcher a (ctx_addr ctx) w.

Definition set_ctx_children (l : list Addr) (ctx : Context) : Context :=
  mkCtx (ctx_addr ctx) (ctx_stop_signal ctx) (ctx_shutdown ctx) l (ctx_escalate_signal ctx)
    (ctx_streams ctx).
Definition set_ctx_streams (l : list Strm) (ctx : Context) : Context :=
  mkCtx (ctx_addr ctx) (ctx_stop_signal ctx) (ctx_shutdown ctx) (ctx_children ctx)
    (ctx_escalate_signal ctx) l.

Definition add_stream (s : Strm) (ctx : Context) : Context :=
  set_ctx_streams (ctx_streams ctx ++ [s]) ctx.
Definition take_streams (ctx : Context) : Context * list Strm :=
  (set_ctx_streams [] ctx, ctx_streams ctx).
Definition return_streams (l : list Strm) (ctx : Context) : Context :=
  set_ctx_streams (l ++ ctx_streams ctx) ctx.

Definition run_later (ctx : Context) (delay : Z) (m : Msg) (w : World) : World * TimerHandle :=
  let '(w, h) := TimerHandle_new w in
  (fst (spawn_task (TLater delay h (ctx_addr ctx) m TNew) w), h).

Definition run_interval (ctx : Context) (interval : Z) (m : Msg) (w : World) : World * TimerHandle :=
  let '(w, h) := TimerHandle_new w in
  (fst (spawn_task (TInterval interval h (ctx_addr ctx) m TNew) w), h).

(** [Addr::new]: no watchers yet. *)
Definition Addr_new (sender : loc) (id : ActorId) (stop_signal : loc) (w : World) : World * Addr :=
  let '(w, ws) := alloc w in
  (set_watchers (<[ws := []]> (w_watchers w)) w, mkAddr sender id ws stop_signal).

(** The channel, the identity and the signals of a new actor; [None] when
    [mpsc::channel] panics on the capacity. *)
Definition new_actor (capacity : Z) (w : World) : option (World * Addr) :=
  match mpsc_channel capacity with
  | None => None
  | Some c =>
      let '(w, tx) := alloc w in
      let w := set_chans (<[tx := c]> (w_chans w)) w in
      let '(w, id) := ActorId_new w in
      let '(w, stop) := new_signal w in
      Some (Addr_new tx id stop w)
  end.

(** [let mut tracker = match &strategy { .. }]. *)
Definition new_tracker (s : SupervisorStrategy) : option RestartTracker :=
  match s with
  | Restart max_restarts within => Some (RestartTracker_new max_restarts within)
  | _ => None
  end.

Definition spawn_child_with_strategy_and_capacity (ctx : Context) (f : Factory)
    (strategy : SupervisorStrategy) (capacity : Z) (w : World)
  : option (World * Context * Addr) :=
  match new_actor capacity w with
  | None => None
  | Some (w, child_addr) =>
      let '(w, _) := spawn_task
        (TActor (KChild f strategy (new_tracker strategy) (ctx_escalate_signal ctx))
                child_addr (ctx_shutdown ctx) PSpawned) w in
      let w := ctx_watch ctx child_addr w in
      Some (w, set_ctx_children (ctx_children ctx ++ [child_addr]) ctx, child_addr)
  end.

Definition spawn_child_with_strategy (ctx : Context) (f : Factory) (s : SupervisorStrategy)
    (w : World) : option (World * Context * Addr) :=
  spawn_child_with_strategy_and_capacity ctx f s 256 w.
Definition spawn_child_with_capacity (ctx : Context) (child : St) (capacity : Z) (w : World)
  : option (World * Context * Addr) :=
  spawn_child_with_strategy_and_capacity ctx (FOnce (Some child)) Stop capacity w.
Definition spawn_child (ctx : Context) (child : St) (w : World) : option (World * Context * Addr) :=
  spawn_child_with_capacity ctx child 256 w.

(** ** Running programs *)

(** One API call; [None] is a panic of the call. *)
Definition exec_op (op : Op) (ctx : Context) (w : World) : option (OpRet * Context * World) :=
  match op with
  | OpStop => Some (RUnit, ctx, ctx_stop ctx w)
  | OpAddress => Some (RAddr (ctx_addr ctx), ctx, w)
  | OpWatch a => Some (RUnit, ctx, ctx_watch ctx a w)
  | OpSpawnChild f s cap =>
      match spawn_child_with_strategy_and_capacity ctx f s cap w with
      | Some (w, ctx, a) => Some (RAddr a, ctx, w)
      | None => None
      end
  | OpAddStream s => Some (RUnit, add_stream s ctx, w)
  | OpRunLater d m => let '(w, h) := run_later ctx d m w in Some (RTimer h, ctx, w)
  | OpRunInterval d m => let '(w, h) := run_interval ctx d m w in Some (RTimer h, ctx, w)
  | OpCancel h => Some (RUnit, ctx, cancel h w)
  | OpStopActor a => Some (RUnit, ctx, child_stop a w)
  | OpIsAlive a => Some (RBool (is_alive a w), ctx, w)
  | OpTrySend a m => let '(w, r) := try_send a m w in Some (RTrySend r, ctx, w)
  | OpTrySendAsync a m => let '(w, r) := try_send_async a m w in Some (RTrySend r, ctx, w)
  | OpDoSend a m is_async =>
      let '(w, r) := if is_async then do_send_async a m w else do_send a m w in
      Some (RDoSend r, ctx, w)
  | OpSend a m is_async timeout =>
      let '(w, fut) := spawn_task (TClient (inl (SendInit a m is_async timeout))) w in
      Some (RFut fut, ctx, w)
  | OpPoll fut => let '(w, r) := poll_client fut w in Some (RSend r, ctx, w)
  end.

(** The state left, the result unless the program panicked, the context and
    the world. *)
Fixpoint run {X} (p : Prog X) (ctx : Context) (w : World) : St * option X * Context * World :=
  match p with
  | Ret a x => (a, Some x, ctx, w)
  | Panic a => (a, None, ctx, w)
  | Do a op k =>
      match exec_op op ctx w with
      | Some (r, ctx, w) => run (k r) ctx w
      | None => (a, None, ctx, w)
      end
  end.

End Runtime.

Arguments Ret {_ _} _ _.
Arguments Panic {_ _} _.
Arguments Do {_ _} _ _ _.
