(* ===== verification/Tasks.v ===== *)
(** * Tasks: the steps of a running actor system

    The tasks of src/system.rs and src/context.rs: the select loop of a
    top-level actor ([spawn_with_shutdown]) and of a supervised child
    ([spawn_child_with_strategy_and_capacity]), the stream polling of
    src/stream.rs, the timer tasks of [run_later] and [run_interval], the
    watcher task of [Registry::register], and the methods of [ActorSystem]
    and [Registry]. A step of the system is one poll of one task, or one call
    from outside the actors; the polls of different tasks interleave freely.
    One poll of an actor resolves at most one [select!]. *)

From S2P Require Import Prelude Tokio Supervisor Runtime.

Section Tasks.
Context {Y : Sys} {K : Tokio} {B : Behaviour}.

(** ** src/stream.rs *)

(** [StreamWrapper::poll_next]; [None] is a panic of the hook. *)
Definition StreamWrapper_poll_next (s : Strm) (a : St) (ctx : Context) (w : World)
  : Strm * St * Context * World * option (Poll bool) :=
  let '(s, p) := stream_poll_next s in
  match p with
  | Ready (Some item) =>
      let '(a, r, ctx, w) := run (stream_handle a item) ctx w in
      (s, a, ctx, w, match r with Some _ => Some (Ready true) | None => None end)
  | Ready None =>
      let '(a, r, ctx, w) := run (stream_finished a) ctx w in
      (s, a, ctx, w, match r with Some _ => Some (Ready false) | None => None end)
  | Pending => (s, a, ctx, w, Some Pending)
  end.

(** [poll_streams]: [retain_mut] over the streams; the flag is [any_ready]. *)
Fixpoint poll_streams (streams : list Strm) (a : St) (ctx : Context) (w : World)
  : list Strm * St * Context * World * option bool :=
  match streams with
  | [] => ([], a, ctx, w, Some false)
  | s :: rest =>
      let '(s, a, ctx, w, r) := StreamWrapper_poll_next s a ctx w in
      match r with
      | None => (s :: rest, a, ctx, w, None)
      | Some p =>
          let '(rest, a, ctx, w, any) := poll_streams rest a ctx w in
          match p with
          | Ready true => (s :: rest, a, ctx, w, (fun _ => true) <$> any)
          | Ready false => (rest, a, ctx, w, any)
          | Pending => (s :: rest, a, ctx, w, any)
          end
      end
  end.

(** ** src/envelope.rs, [handle] *)

(** The flag is [false] when the handler panicked; unwinding drops the
    envelope and with it the reply sender. *)
Definition MessageEnvelope_handle (e : MessageEnvelope) (a : St) (ctx : Context) (w : World)
  : St * bool * Context * World :=
  match msg e with
  | Some m =>
      let '(a, r, ctx, w) := run (handle a m) ctx w in
      match r with
      | Some result => (a, true, ctx, reply (response_tx e) result w)
      | None => (a, false, ctx, drop_tx (response_tx e) w)
      end
  | None => (a, true, ctx, drop_tx (response_tx e) w)
  end.

(** Outcome of a poll of an async handler's future. *)
Inductive AsyncPoll :=
| APending (f : Fut)
| ADone (a : St)
| APanicked (a : St).

(** One poll of the future made by [AsyncEnvelope::handle]. *)
Definition poll_async (f : Fut) (tx : option loc) (ctx : Context) (w : World)
  : AsyncPoll * Context * World :=
  let '(mkFut p) := f in
  let '(a, r, ctx, w) := run p ctx w in
  match r with
  | Some (inl result) => (ADone a, ctx, reply tx result w)
  | Some (inr f) => (APending f, ctx, w)
  | None => (APanicked a, ctx, drop_tx tx w)
  end.

Definition AsyncMessageEnvelope_handle (e : AsyncMessageEnvelope) (a : St) (ctx : Context)
    (w : World) : AsyncPoll * Context * World :=
  match amsg e with
  | Some m => poll_async (handle_async a m) (aresponse_tx e) ctx w
  | None => (ADone a, ctx, drop_tx (aresponse_tx e) w)
  end.

(** ** The actor tasks *)

(** The receiver is dropped with the task, and the messages still queued with
    it, each with its reply sender. *)
Definition close_mailbox (a : Addr) (w : World) : World :=
  match w_chans w !! addr_sender a with
  | Some c =>
      let '(c', dropped) := mpsc_drop_rx c in
      foldl (fun w m => drop_tx (message_tx m) w)
        (set_chans (<[addr_sender a := c']> (w_chans w)) w) dropped
  | None => w
  end.

(** The end of a task: by returning ([PDone]) or by a panic that nothing catches. *)
Definition end_task (tid : nat) (k : Kind) (addr : Addr) (sd : loc) (ph : Phase) (w : World) : World :=
  put_task tid (TActor k addr sd ph) (close_mailbox addr w).

(** The head of the loop: collect new streams, create the futures of [select!]. *)
Definition loop_head (tid : nat) (k : Kind) (addr : Addr) (sd : loc)
    (a : St) (ctx : Context) (streams : list Strm) (w : World) : World :=
  let '(ctx, new_streams) := take_streams ctx in
  put_task tid (TActor k addr sd (PSelect a ctx (streams ++ new_streams)))
    (upd_bcast (fun b => bcast_notified b tid) sd w).

(** The branch of [select! { biased; .. }] that completes. *)
Inductive Sel :=
| SelMsg (m : ActorMessage)     (** [Some(actor_msg) = rx.recv()] *)
| SelClosed                     (** [None = rx.recv()] *)
| SelStream
| SelShutdown
| SelStop
| SelEscalate
| SelPending                    (** none is ready *)
| SelPanic.                     (** a stream hook panicked *)

Definition recv_mailbox (addr : Addr) (w : World) : World * Poll (option ActorMessage) :=
  match w_chans w !! addr_sender addr with
  | Some c => let '(c', p) := mpsc_recv c in (set_chans (<[addr_sender addr := c']> (w_chans w)) w, p)
  | None => (w, Ready None)
  end.

(** One poll of the [select!], branch by branch in the order of the source. *)
Definition poll_select (tid : nat) (addr : Addr) (sd : loc)
    (a : St) (ctx : Context) (streams : list Strm) (w : World)
  : Sel * St * Context * list Strm * World :=
  let '(w, p) := recv_mailbox addr w in
  match p with
  | Ready (Some m) => (SelMsg m, a, ctx, streams, w)
  | Ready None => (SelClosed, a, ctx, streams, w)
  | Pending =>
      let '(streams, a, ctx, w, r) :=
        match streams with
        | [] => ([], a, ctx, w, Some false)
        | _ => poll_streams streams a ctx w
        end in
      match r with
      | None => (SelPanic, a, ctx, streams, w)
      | Some true => (SelStream, a, ctx, streams, w)
      | Some false =>
          if bcast_poll (bcast_at w sd) tid then (SelShutdown, a, ctx, streams, w)
          else
            let '(w, stop) := poll_signal (addr_stop_signal addr) w in
            if stop then (SelStop, a, ctx, streams, w)
            else
              let '(w, esc) := poll_signal (ctx_escalate_signal ctx) w in
              if esc then (SelEscalate, a, ctx, streams, w)
              else (SelPending, a, ctx, streams, w)
      end
  end.

Definition run_started (addr : Addr) (a : St) (ctx : Context) (w : World)
  : St * option unit * Context * World :=
  run (started a) ctx (log_event (EStarted addr (w_now w)) w).
Definition run_stopped (addr : Addr) (a : St) (ctx : Context) (w : World)
  : St * option unit * Context * World :=
  run (stopped a) ctx (log_event (EStopped addr (w_now w)) w).
Definition run_notify_watchers (addr : Addr) (w : World) : World :=
  notify_watchers addr (log_event (ENotified addr (w_now w)) w).

(** *** A top-level actor, src/system.rs *)

(** The start of the task. *)
Definition root_start (tid : nat) (k : Kind) (actor : St) (ctx : Context) (addr : Addr) (sd : loc)
    (w : World) : World :=
  let '(a, r, ctx, w) := run_started addr actor ctx w in
  match r with
  | Some _ => loop_head tid k addr sd a ctx [] w
  | None => end_task tid k addr sd PAborted w
  end.

(** After the loop, whether or not it ended by a panic. *)
Definition root_exit (tid : nat) (k : Kind) (addr : Addr) (sd : loc) (a : St) (ctx : Context)
    (w : World) : World :=
  let w := run_notify_watchers addr w in
  let w := stop_children ctx w in
  let '(_, r, _, w) := run_stopped addr a ctx w in
  end_task tid k addr sd (match r with Some _ => PDone | None => PAborted end) w.

(** *** A supervised child, src/context.rs *)

(** One turn of the ['restart] loop up to the head of the inner loop. *)
Definition child_start (tid : nat) (f : Factory) (strategy : SupervisorStrategy)
    (tracker : option RestartTracker) (esc : loc) (addr : Addr) (sd : loc) (w : World) : World :=
  match factory_call f with
  | None => end_task tid (KChild f strategy tracker esc) addr sd PAborted w
  | Some (child, f) =>
      let k := KChild f strategy tracker esc in
      let '(w, ctx) := Context_with_stop_signal addr (addr_stop_signal addr) sd w in
      let '(a, r, ctx, w) := run_started addr child ctx w in
      match r with
      | Some _ => loop_head tid k addr sd a ctx [] w
      | None => end_task tid k addr sd PAborted w
      end
  end.

(** After the ['restart] loop. *)
Definition child_terminate (tid : nat) (k : Kind) (addr : Addr) (sd : loc) (w : World) : World :=
  end_task tid k addr sd PDone (run_notify_watchers addr w).

(** The decision of the supervisor. *)
Definition supervise (tid : nat) (f : Factory) (strategy : SupervisorStrategy)
    (tracker : option RestartTracker) (esc : loc) (addr : Addr) (sd : loc)
    (panic_occurred : bool) (w : World) : World :=
  let k := KChild f strategy tracker esc in
  if panic_occurred then
    match strategy with
    | Stop => child_terminate tid k addr sd w
    | Restart _ _ =>
        match tracker with
        | Some t =>
            let '(t, ok) := record_restart t (w_now w) in
            if ok then child_start tid f strategy (Some t) esc addr sd w
            else child_terminate tid (KChild f strategy (Some t) esc) addr sd w
        | None => child_start tid f strategy None esc addr sd w
        end
    | Escalate => child_terminate tid k addr sd (notify_one esc w)
    end
  else child_terminate tid k addr sd w.

(** After the inner loop. *)
Definition child_exit (tid : nat) (f : Factory) (strategy : SupervisorStrategy)
    (tracker : option RestartTracker) (esc : loc) (addr : Addr) (sd : loc)
    (a : St) (ctx : Context) (panic_occurred : bool) (w : World) : World :=
  let w := stop_children ctx w in
  let '(_, r, _, w) := run_stopped addr a ctx w in
  match r with
  | Some _ => supervise tid f strategy tracker esc addr sd panic_occurred w
  | None => end_task tid (KChild f strategy tracker esc) addr sd PAborted w
  end.

(** [break panic_occurred] out of the select loop, in either kind of task. *)
Definition exit_loop (tid : nat) (k : Kind) (addr : Addr) (sd : loc) (a : St) (ctx : Context)
    (panic_occurred : bool) (w : World) : World :=
  match k with
  | KRoot _ _ => root_exit tid k addr sd a ctx w
  | KChild f strategy tracker esc =>
      child_exit tid f strategy tracker esc addr sd a ctx panic_occurred w
  end.

(** The outcome of a poll of an async handler. *)
Definition after_async (tid : nat) (k : Kind) (addr : Addr) (sd : loc) (tx : option loc)
    (streams : list Strm) (r : AsyncPoll) (ctx : Context) (w : World) : World :=
  match r with
  | APending f => put_task tid (TActor k addr sd (PAwait f tx ctx streams)) w
  | ADone a => loop_head tid k addr sd a ctx streams w
  | APanicked a => exit_loop tid k addr sd a ctx true w
  end.

(** A poll inside [select!]: when a branch completes the futures of the
    others are dropped and its body runs, up to the next [select!]. *)
Definition poll_in_select (tid : nat) (k : Kind) (addr : Addr) (sd : loc)
    (a : St) (ctx : Context) (streams : list Strm) (w : World) : World :=
  let '(sel, a, ctx, streams, w) := poll_select tid addr sd a ctx streams w in
  let w' := upd_bcast (fun b => bcast_drop b tid) sd w in
  match sel with
  | SelMsg (Sync e) =>
      let '(a, ok, ctx, w') := MessageEnvelope_handle e a ctx w' in
      if ok then loop_head tid k addr sd a ctx streams w'
      else exit_loop tid k addr sd a ctx true w'
  | SelMsg (Async e) =>
      let '(r, ctx, w') := AsyncMessageEnvelope_handle e a ctx w' in
      after_async tid k addr sd (aresponse_tx e) streams r ctx w'
  | SelClosed => exit_loop tid k addr sd a ctx false w'
  | SelStream => loop_head tid k addr sd a ctx streams w'
  | SelShutdown => exit_loop tid k addr sd a ctx false w'
  | SelStop => exit_loop tid k addr sd a ctx false w'
  | SelEscalate => exit_loop tid k addr sd a ctx true w'
  | SelPending => put_task tid (TActor k addr sd (PSelect a ctx streams)) w
  | SelPanic => end_task tid k addr sd PAborted w'
  end.

(** One poll of the task of an actor. *)
Definition poll_actor (tid : nat) (k : Kind) (addr : Addr) (sd : loc) (ph : Phase) (w : World)
  : World :=
  match ph with
  | PSpawned =>
      match k with
      | KRoot actor ctx => root_start tid k actor ctx addr sd w
      | KChild f strategy tracker esc => child_start tid f strategy tracker esc addr sd w
      end
  | PSelect a ctx streams => poll_in_select tid k addr sd a ctx streams w
  | PAwait f tx ctx streams =>
      let '(r, ctx, w) := poll_async f tx ctx w in
      after_async tid k addr sd tx streams r ctx w
  | PDone => w
  | PAborted => w
  end.

(** *** The timer tasks of [run_later] and [run_interval], src/context.rs *)

(** [let _ = addr.do_send(msg).await], then [next]. *)
Definition timer_send (tid : nat) (a : Addr) (m : Msg) (again next : Task) (w : World) : World :=
  let '(w, p) := do_send a m w in
  put_task tid (match p with Pending => again | Ready _ => next end) w.

Definition poll_later (tid : nat) (delay : Z) (h : TimerHandle) (a : Addr) (m : Msg) (t : Timer)
    (w : World) : World :=
  match t with
  | TNew => put_task tid (TLater delay h a m (TSleep (w_now w + delay))) w
  | TSleep due =>
      if decide (due <= w_now w)%Z then
        if is_cancelled h w then put_task tid TFinished w
        else timer_send tid a m (TLater delay h a m (TSending due)) TFinished w
      else w
  | TSending due => timer_send tid a m (TLater delay h a m (TSending due)) TFinished w
  end.

(** [tokio::time::interval] panics on a zero period; its first tick completes
    immediately and a late tick does not move the following ones. *)
Definition poll_interval (tid : nat) (period : Z) (h : TimerHandle) (a : Addr) (m : Msg) (t : Timer)
    (w : World) : World :=
  match t with
  | TNew =>
      if decide (period <= 0)%Z then put_task tid TFinished w
      else put_task tid (TInterval period h a m (TSleep (w_now w))) w
  | TSleep due =>
      if decide (due <= w_now w)%Z then
        if (negb (is_alive a w) || is_cancelled h w)%bool then put_task tid TFinished w
        else timer_send tid a m (TInterval period h a m (TSending (due + period)))
               (TInterval period h a m (TSleep (due + period))) w
      else w
  | TSending due =>
      timer_send tid a m (TInterval period h a m (TSending due))
        (TInterval period h a m (TSleep due)) w
  end.

(** ** src/registry.rs *)

Definition registry_at (w : World) (reg : loc) : gmap string (nat * Addr) :=
  default ∅ (w_registries w !! reg).

(** [Registry::new]: no names. *)
Definition Registry_new : gmap string (nat * Addr) := ∅.

(** The value stored is a [Box<dyn Any>]: the address with its type. *)
Definition register_manual (reg : loc) (name : string) (ty : nat) (a : Addr) (w : World) : World :=
  set_registries (<[reg := <[name := (ty, a)]> (registry_at w reg)]> (w_registries w)) w.

Definition register (reg : loc) (name : string) (ty : nat) (a : Addr) (w : World) : World :=
  fst (spawn_task (TUnregister reg name a TNew) (register_manual reg name ty a w)).

(** [downcast_ref] gives nothing for another type. *)
Definition lookup (reg : loc) (name : string) (ty : nat) (w : World) : option Addr :=
  match registry_at w reg !! name with
  | Some (ty', a) => if decide (ty = ty') then Some a else None
  | None => None
  end.

Definition unregister (reg : loc) (name : string) (w : World) : World :=
  set_registries (<[reg := delete name (registry_at w reg)]> (w_registries w)) w.

(** [Duration::from_millis(50)]. *)
Definition registry_period : Z := 50000000.

(** The watcher task of [register]: [while is_alive { sleep }; unregister]. *)
Definition poll_unregister (tid : nat) (reg : loc) (name : string) (a : Addr) (t : Timer) (w : World)
  : World :=
  let check :=
    if is_alive a w then put_task tid (TUnregister reg name a (TSleep (w_now w + registry_period))) w
    else put_task tid TFinished (unregister reg name w) in
  match t with
  | TNew => check
  | TSleep due => if decide (due <= w_now w)%Z then check else w
  | TSending _ => w
  end.

(** ** src/system.rs, [ActorSystem] *)

Record ActorSystem := mkSystem { sys_shutdown : loc; sys_registry : loc }.

Definition ActorSystem_new (w : World) : World * ActorSystem :=
  let '(w, s) := alloc w in
  let w := set_bcasts (<[s := bcast_new]> (w_bcasts w)) w in
  let '(w, r) := alloc w in
  (set_registries (<[r := Registry_new]> (w_registries w)) w, mkSystem s r).

(** [spawn_with_shutdown]; [None] when the channel cannot be made. *)
Definition spawn_with_shutdown (actor : St) (shutdown : loc) (capacity : Z) (w : World)
  : option (World * Addr) :=
  match new_actor capacity w with
  | None => None
  | Some (w, addr) =>
      let '(w, ctx) := Context_with_stop_signal addr (addr_stop_signal addr) shutdown w in
      Some (fst (spawn_task (TActor (KRoot actor ctx) addr shutdown PSpawned) w), addr)
  end.

Definition spawn_with_capacity (sys : ActorSystem) (actor : St) (capacity : Z) (w : World)
  : option (World * Addr) := spawn_with_shutdown actor (sys_shutdown sys) capacity w.
Definition spawn (sys : ActorSystem) (actor : St) (w : World) : option (World * Addr) :=
  spawn_with_capacity sys actor 256 w.

(** The registry of the system. *)
Definition ActorSystem_register (sys : ActorSystem) (name : string) (ty : nat) (a : Addr) (w : World) : World :=
  register (sys_registry sys) name ty a w.
Definition ActorSystem_register_manual (sys : ActorSystem) (name : string) (ty : nat) (a : Addr) (w : World)
  : World := register_manual (sys_registry sys) name ty a w.
Definition ActorSystem_lookup (sys : ActorSystem) (name : string) (ty : nat) (w : World) : option Addr :=
  lookup (sys_registry sys) name ty w.
Definition ActorSystem_unregister (sys : ActorSystem) (name : string) (w : World) : World :=
  unregister (sys_registry sys) name w.

Definition shutdown (sys : ActorSystem) (w : World) : World :=
  upd_bcast bcast_notify_waiters (sys_shutdown sys) w.

(** ** Steps *)

(** One poll of a task. *)
Definition poll_task (tid : nat) (w : World) : World :=
  match w_tasks w !! tid with
  | Some (TActor k addr sd ph) => poll_actor tid k addr sd ph w
  | Some (TClient _) => fst (poll_client tid w)
  | Some (TLater delay h a m t) => poll_later tid delay h a m t w
  | Some (TInterval period h a m t) => poll_interval tid period h a m t w
  | Some (TUnregister reg name a t) => poll_unregister tid reg name a t w
  | Some TFinished => w
  | None => w
  end.

(** A poll of a task, the passing of time, or a call from outside the actors. *)
Inductive Label :=
| LPoll (tid : nat)
| LTick (d : Z)
| LNewSystem
| LSpawn (sys : ActorSystem) (actor : St) (capacity : Z)
| LShutdown (sys : ActorSystem)
| LStop (a : Addr)
| LTrySend (a : Addr) (m : Msg) (is_async : bool)
| LSend (a : Addr) (m : Msg) (is_async : bool) (timeout : option Z)
| LRegister (sys : ActorSystem) (name : string) (ty : nat) (a : Addr)
| LRegisterManual (sys : ActorSystem) (name : string) (ty : nat) (a : Addr)
| LUnregister (sys : ActorSystem) (name : string)
| LCancel (h : TimerHandle).

Definition exec (l : Label) (w : World) : World :=
  match l with
  | LPoll tid => poll_task tid w
  | LTick d => set_now (w_now w + Z.max 0 d) w
  | LNewSystem => fst (ActorSystem_new w)
  | LSpawn sys actor capacity =>
      match spawn_with_capacity sys actor capacity w with Some (w, _) => w | None => w end
  | LShutdown sys => shutdown sys w
  | LStop a => child_stop a w
  | LTrySend a m is_async => fst (if is_async then try_send_async a m w else try_send a m w)
  | LSend a m is_async timeout =>
      fst (spawn_task (TClient (inl (SendInit a m is_async timeout))) w)
  | LRegister sys name ty a => ActorSystem_register sys name ty a w
  | LRegisterManual sys name ty a => ActorSystem_register_manual sys name ty a w
  | LUnregister sys name => ActorSystem_unregister sys name w
  | LCancel h => cancel h w
  end.

Definition exec_all (ls : list Label) (w : World) : World := foldl (fun w l => exec l w) w ls.

(** The start of the process: [NEXT_ID] is 1 and nothing has been created. *)
Definition world0 : World := mkWorld 1 0 ∅ ∅ ∅ ∅ ∅ ∅ ∅ ∅ 0 [].

Definition reachable (w : World) : Prop := exists ls, w = exec_all ls world0.

End Tasks.
