(* ===== verification/Demo.v ===== *)
(** * Demo: a small application, to run the model on concrete inputs

    The actors of this application are counters. It instantiates [Sys],
    [Behaviour] and, with the reference channels of [Tokio.Ref], the whole
    runtime; the witnesses of the runtime theorems evaluate it. *)

From S2P Require Import Prelude Tokio Supervisor Runtime Tasks.

Module Demo.

Inductive user :=
| Inc                                (** add one, reply with the new count *)
| Crash                              (** panic *)
| Quit                               (** [ctx.stop()] *)
| Kid (s : SupervisorStrategy)       (** spawn a supervised child *)
| Later (delay : Z)                  (** [ctx.run_later(delay, Inc)] *)
| Attach (items : list (Poll (option nat)))    (** [ctx.add_stream] *)
| Every (period : Z).                (** [ctx.run_interval(period, Inc)] *)

#[global] Instance demo_sys : Sys := {|
  St := nat;
  User := user;
  Rsp := nat;
  Strm := list (Poll (option nat));
  Item := nat;
  stream_poll_next := fun s => match s with [] => ([], Pending) | p :: s => (s, p) end;
|}.

Definition kid_factory (calls : nat) : Factory := FMut (Y := demo_sys) (fun _ => Some 0) calls.

Definition handle_user (n : nat) (u : user) : Prog nat :=
  match u with
  | Inc => Ret (Y := demo_sys) (S n) (S n)
  | Crash => Panic (Y := demo_sys) n
  | Quit => Do (Y := demo_sys) n OpStop (fun _ => Ret n n)
  | Kid s => Do (Y := demo_sys) n (OpSpawnChild (kid_factory 0) s 4) (fun _ => Ret n n)
  | Later delay => Do (Y := demo_sys) n (OpRunLater delay (UserMsg (Y := demo_sys) Inc)) (fun _ => Ret n n)
  | Every period => Do (Y := demo_sys) n (OpRunInterval period (UserMsg (Y := demo_sys) Inc)) (fun _ => Ret n n)
  | Attach items => Do (Y := demo_sys) n (OpAddStream items) (fun _ => Ret n n)
  end.

(** An async increment yields once before it replies. *)
Definition handle_user_async (n : nat) (m : Msg) : Fut :=
  match m with
  | UserMsg Inc => mkFut (Ret n (inr (mkFut (Ret (S n) (inl (S n))))))
  | UserMsg Crash => mkFut (Panic n)
  | _ => mkFut (Ret n (inl n))
  end.

#[global] Instance demo_behaviour : Behaviour := {|
  started := fun n => Ret n tt;
  stopped := fun n => Ret n tt;
  handle := fun n m => match m with UserMsg u => handle_user n u | Terminated _ => Ret n n end;
  handle_async := handle_user_async;
  stream_handle := fun n item => if decide (item = 99) then Panic n else Ret (n + item) tt;
  stream_finished := fun n => Do n OpStop (fun _ => Ret n tt);
|}.

Definition um (u : user) : Msg := UserMsg (Y := demo_sys) u.

(** A system with one counter, polled once: it is parked in [select!]. *)
Definition sys : ActorSystem := mkSystem 0 1.
Definition counter : Addr := mkAddr 2 1%Z 4 3.
Definition boot : list Label := [LNewSystem; LSpawn sys 7 3; LPoll 6].
Definition booted : World := exec_all boot world0.

(** The counter has a supervised child, parked with a crash and an increment queued. *)
Definition kid : Addr := mkAddr 7 2%Z 9 8.
Definition with_kid (s : SupervisorStrategy) : World :=
  exec_all [LTrySend counter (um (Kid s)) false; LPoll 6; LPoll 10;
            LTrySend kid (um Crash) false; LTrySend kid (um Inc) false] booted.
Definition kid_ctx : Context := mkCtx kid (Some 8) 0 [] 11 [].

Definition queue_of (a : Addr) (w : World) : option (list ActorMessage) :=
  mpsc_queue <$> w_chans w !! addr_sender a.

End Demo.
