(* ===== verification/RuntimeFacts.v ===== *)
(** * RuntimeFacts: what running user code can do to the world

    [ext w w'] says that [w'] is [w] extended: mailboxes keep their messages
    and stay open or closed, signals once given stay given, watchers stay
    registered, the tasks of actors do not move, new ones are newborn, and the clock,
    the shutdown broadcasts, the registries and the history are left exactly
    as they were. It is a preorder, every API call is an extension, and so is
    every run of a program ([run_ext]): the other files use it as the frame
    rule for hooks and handlers they know nothing else about. *)

From S2P Require Import Prelude Tokio Supervisor Runtime Tasks Demo.

Section Facts.
Context {Y : Sys} {K : Tokio} {L : TokioLaws K}.

(** ** Channels *)

Definition chan_ext (c c' : Chan ActorMessage) : Prop :=
  mpsc_open c' = mpsc_open c /\
  exists xs, mpsc_queue c' = mpsc_queue c ++ xs /\ (mpsc_open c = false -> xs = []).

#[global] Instance chan_ext_preorder : PreOrder chan_ext.
Proof.
  split.
  - intros c. split; [done|]. exists []. by rewrite app_nil_r.
  - intros c1 c2 c3 [Ho (xs & Hx & Hc)] [Ho' (ys & Hy & Hc')].
    split; [congruence|]. exists (xs ++ ys). rewrite Hy, Hx, app_assoc. split; [done|].
    intros Hf. rewrite Hc by done. rewrite Hc' by congruence. done.
Qed.

Lemma try_send_chan_ext (c c' : Chan ActorMessage) x r :
  mpsc_try_send c x = (c', r) -> chan_ext c c'.
Proof.
  destruct (mpsc_open c) eqn:Ho.
  - destruct (decide (mpsc_avail c = 0)) as [Ha|Ha].
    + rewrite mpsc_try_send_full by done. intros [= <- _]. done.
    + destruct (mpsc_try_send_ok _ c x Ho) as (c1 & -> & Hq & Ho1 & _); [lia|].
      intros [= <- _]. split; [congruence|]. exists [x]. split; [done|congruence].
  - rewrite mpsc_try_send_closed by done. intros [= <- _]. done.
Qed.

Lemma send_chan_ext (c c' : Chan ActorMessage) x r :
  mpsc_send c x = (c', r) -> chan_ext c c'.
Proof.
  destruct (mpsc_open c) eqn:Ho.
  - destruct (mpsc_send_open _ c x Ho) as (c1 & Ho1 & [[-> Hq]|(_ & -> & Hq)]);
      intros [= <- _]; (split; [congruence|]).
    + exists [x]. split; [done|congruence].
    + exists []. rewrite app_nil_r. done.
  - rewrite mpsc_send_closed by done. intros [= <- _]. done.
Qed.

(** ** The extension order *)

Definition is_client (t : Task) : bool := match t with TClient _ => true | _ => false end.
Definition is_actor (t : Task) : bool := match t with TActor _ _ _ _ => true | _ => false end.

(** The task of an actor that has just been spawned: not polled yet, and a
    supervised child has the tracker of its strategy. *)
Definition newborn (t : Task) : Prop :=
  match t with
  | TActor k _ _ ph =>
      ph = PSpawned /\ match k with KRoot _ _ => True | KChild _ s tracker _ => tracker = new_tracker s end
  | _ => True
  end.

Record ext (w w' : World) : Prop := mkExt {
  ext_fresh : w_fresh w <= w_fresh w';
  ext_chan l c : l < w_fresh w -> w_chans w !! l = Some c ->
    exists c', w_chans w' !! l = Some c' /\ chan_ext c c';
  ext_new_chan l c' : w_chans w !! l = None -> w_chans w' !! l = Some c' ->
    w_fresh w <= l < w_fresh w' /\ mpsc_open c' = true;
  ext_permit l : l < w_fresh w ->
    signal_permit (signal_at w l) = true -> signal_permit (signal_at w' l) = true;
  ext_watchers l : l < w_fresh w -> watchers_at w l `prefix_of` watchers_at w' l;
  ext_task tid t : tid < w_fresh w -> w_tasks w !! tid = Some t ->
    if is_client t then exists r, w_tasks w' !! tid = Some (TClient r)
    else w_tasks w' !! tid = Some t;
  ext_born tid t : is_actor t = true -> w_tasks w' !! tid = Some t ->
    w_tasks w !! tid = Some t \/ newborn t;
  ext_cancelled h : h < w_fresh w -> is_cancelled h w = true -> is_cancelled h w' = true;
  ext_bcasts : w_bcasts w' = w_bcasts w;
  ext_registries : w_registries w' = w_registries w;
  ext_now : w_now w' = w_now w;
  ext_log : w_log w' = w_log w;
}.

#[global] Instance ext_preorder : PreOrder ext.
Proof.
  split.
  - intros w. split; auto.
    + intros l c _ Hc. exists c. split; [done|reflexivity].
    + intros l c' H1 H2. congruence.
    + intros tid t _ Ht. destruct t; simpl; eauto.
  - intros w1 w2 w3 H12 H23. pose proof (ext_fresh _ _ H12). pose proof (ext_fresh _ _ H23).
    split.
    + lia.
    + intros l c Hl Hc. destruct (ext_chan _ _ H12 l c Hl Hc) as (c2 & Hc2 & E1).
      destruct (ext_chan _ _ H23 l c2) as (c3 & Hc3 & E2); [lia|done|].
      exists c3. split; [done|]. by etrans.
    + intros l c3 Hn Hc3. destruct (w_chans w2 !! l) as [c2|] eqn:Hc2.
      * destruct (ext_new_chan _ _ H12 l c2 Hn Hc2) as [Hl Ho].
        destruct (ext_chan _ _ H23 l c2) as (c3' & Hc3' & [Ho' _]); [lia|done|].
        simplify_eq. split; [lia|congruence].
      * destruct (ext_new_chan _ _ H23 l c3 Hc2 Hc3). split; [lia|done].
    + intros l Hl Hp. apply (ext_permit _ _ H23); [lia|]. by apply (ext_permit _ _ H12).
    + intros l Hl. etrans; [by apply (ext_watchers _ _ H12)|]. apply (ext_watchers _ _ H23). lia.
    + intros tid t Hl Ht. pose proof (ext_task _ _ H12 tid t Hl Ht) as H1.
      destruct (is_client t) eqn:Hct.
      * destruct H1 as [r Hr]. apply (ext_task _ _ H23 tid (TClient r)); [lia|done].
      * pose proof (ext_task _ _ H23 tid t) as H2. rewrite Hct in H2. apply H2; [lia|done].
    + intros tid t Ha Ht. destruct (ext_born _ _ H23 tid t Ha Ht); [|by right].
      by apply (ext_born _ _ H12).
    + intros h Hl Hc. apply (ext_cancelled _ _ H23); [lia|]. by apply (ext_cancelled _ _ H12).
    + by rewrite (ext_bcasts _ _ H23), (ext_bcasts _ _ H12).
    + by rewrite (ext_registries _ _ H23), (ext_registries _ _ H12).
    + by rewrite (ext_now _ _ H23), (ext_now _ _ H12).
    + by rewrite (ext_log _ _ H23), (ext_log _ _ H12).
Qed.

(** Discharges the components of [ext] that an operation does not touch. *)
Ltac ext_frame :=
  split; simpl; try done; try lia;
  try (let c := fresh in intros ? c ? ?; exists c; split; [done|reflexivity]);
  try (intros ? ? H1 H2; congruence);
  try (intros; by left);
  try (intros ? t ? ?; destruct t; simpl; by eauto).

Lemma alloc_ext w : ext w (fst (alloc w)).
Proof. ext_frame. Qed.

Lemma notify_one_ext l w : ext w (notify_one l w).
Proof.
  ext_frame. intros l' Hl. unfold signal_at, notify_one. simpl.
  destruct (decide (l = l')) as [->|]; simplify_map_eq; [|done].
  intros _. apply signal_notify_one_permit.
Qed.

Lemma new_signal_ext w : ext w (fst (new_signal w)).
Proof.
  ext_frame. intros l Hl. unfold signal_at. simpl. rewrite lookup_insert_ne by lia. done.
Qed.

Lemma set_chan_ext w l c c' :
  w_chans w !! l = Some c -> chan_ext c c' -> ext w (set_chans (<[l := c']> (w_chans w)) w).
Proof.
  intros Hc Hx. ext_frame.
  - intros l' c1 Hl Hc1. destruct (decide (l = l')) as [->|]; simplify_map_eq; eauto.
    exists c1. split; [done|reflexivity].
  - intros l' c1 Hn Hl'. rewrite lookup_insert in Hl'. case_decide; simplify_eq; congruence.
Qed.

Lemma sender_try_send_ext l x w : ext w (fst (sender_try_send l x w)).
Proof.
  unfold sender_try_send. destruct (w_chans w !! l) as [c|] eqn:Hc; [|simpl; reflexivity].
  destruct (mpsc_try_send c x) as [c' r] eqn:Hs. simpl.
  eapply set_chan_ext; eauto using try_send_chan_ext.
Qed.

Lemma sender_send_ext l x w : ext w (fst (sender_send l x w)).
Proof.
  unfold sender_send. destruct (w_chans w !! l) as [c|] eqn:Hc; [|simpl; reflexivity].
  destruct (mpsc_send c x) as [c' r] eqn:Hs. simpl.
  eapply set_chan_ext; eauto using send_chan_ext.
Qed.

Lemma add_watcher_ext a b w : ext w (add_watcher a b w).
Proof.
  ext_frame. intros l Hl. unfold watchers_at, add_watcher. simpl.
  destruct (decide (addr_watchers a = l)) as [->|]; simplify_map_eq; [|done].
  by eexists.
Qed.

Lemma upd_oneshot_ext f l w : ext w (upd_oneshot f l w).
Proof. unfold upd_oneshot. destruct (w_oneshots w !! l); [ext_frame|reflexivity]. Qed.

Lemma drop_tx_ext tx w : ext w (drop_tx tx w).
Proof. destruct tx; simpl; [apply upd_oneshot_ext|reflexivity]. Qed.

Lemma reply_ext tx r w : ext w (reply tx r w).
Proof. destruct tx; simpl; [apply upd_oneshot_ext|reflexivity]. Qed.

Lemma spawn_task_ext t w : newborn t -> ext w (fst (spawn_task t w)).
Proof.
  intros Hb. ext_frame.
  - intros tid t' Hl Ht. rewrite lookup_insert_ne by lia. destruct t'; simpl; eauto.
  - intros tid t' _. rewrite lookup_insert. case_decide; intros; simplify_eq; auto.
Qed.

Lemma put_client_ext tid f r w :
  w_tasks w !! tid = Some (TClient f) -> ext w (put_task tid (TClient r) w).
Proof.
  intros Hf. ext_frame.
  - intros tid' t Hl Ht. destruct (decide (tid = tid')) as [->|]; simplify_map_eq; eauto.
    destruct t; simpl; eauto.
  - intros tid' t' Ha. rewrite lookup_insert. case_decide; intros; simplify_eq; auto.
Qed.

Lemma new_oneshot_ext w : ext w (fst (new_oneshot w)).
Proof. ext_frame. Qed.

Lemma cancel_ext h w : ext w (cancel h w).
Proof.
  ext_frame. intros h' Hl. unfold is_cancelled, cancel. simpl.
  destruct (decide (h = h')) as [->|]; by simplify_map_eq.
Qed.

Lemma TimerHandle_new_ext w : ext w (fst (TimerHandle_new w)).
Proof.
  ext_frame. intros h Hl. unfold is_cancelled. simpl. by rewrite lookup_insert_ne by lia.
Qed.
Hint Resolve alloc_ext notify_one_ext new_signal_ext sender_try_send_ext sender_send_ext
  add_watcher_ext drop_tx_ext reply_ext spawn_task_ext new_oneshot_ext cancel_ext
  TimerHandle_new_ext : rt.

Lemma poll_enqueue_ext a m b t rx w : ext w (fst (poll_enqueue a m b t rx w)).
Proof.
  unfold poll_enqueue.
  pose proof (sender_send_ext (addr_sender a)
    (if b then Async (AsyncMessageEnvelope_with_response m rx)
     else Sync (MessageEnvelope_with_response m rx)) w) as Hx.
  destruct (sender_send _ _ w) as [w1 [|[[]|[]]]]; simpl in *; try done.
  etrans; [done|]. apply upd_oneshot_ext.
Qed.

Lemma poll_send_ext f w : ext w (fst (poll_send f w)).
Proof.
  destruct f; simpl; [|apply poll_enqueue_ext|reflexivity].
  etrans; [apply (new_oneshot_ext w)|]. apply poll_enqueue_ext.
Qed.

(** A [send] in progress does not touch the tasks. *)
Lemma poll_send_tasks f w : w_tasks (fst (poll_send f w)) = w_tasks w.
Proof.
  assert (Hq : forall a m b t rx w, w_tasks (fst (poll_enqueue a m b t rx w)) = w_tasks w).
  { intros. unfold poll_enqueue, sender_send.
    destruct (w_chans _ !! _); [destruct (mpsc_send _ _) as [? [|[[]|[]]]]|]; simpl; try done;
      unfold upd_oneshot; by case_match. }
  destruct f; simpl; [|apply Hq|done]. by rewrite Hq.
Qed.

Lemma poll_client_ext fut w : ext w (fst (poll_client fut w)).
Proof.
  unfold poll_client. destruct (w_tasks w !! fut) as [t|] eqn:Ht; [|reflexivity].
  destruct t as [|[f|r]| | | |]; try reflexivity.
  pose proof (poll_send_ext f w) as Hx. pose proof (poll_send_tasks f w) as Htk.
  destruct (poll_send f w) as [w1 r]; simpl in *.
  etrans; [done|]. eapply put_client_ext. by rewrite Htk.
Qed.

Lemma new_actor_ext cap w w' a :
  new_actor cap w = Some (w', a) -> ext w w'.
Proof.
  unfold new_actor. destruct (mpsc_channel cap) as [c|] eqn:Hc; [|done].
  destruct (mpsc_channel_new _ _ _ Hc) as (_ & _ & Ho). intros [= <- <-].
  split; simpl; auto; try lia.
  - intros l c1 Hl Hc1. exists c1. rewrite lookup_insert_ne by lia. split; [done|reflexivity].
  - intros l c1 Hn. rewrite lookup_insert. case_decide; intros; simplify_eq. split; [lia|done].
  - intros l Hl. unfold signal_at; simpl. rewrite lookup_insert_ne by lia. done.
  - intros l Hl. unfold watchers_at; simpl. rewrite lookup_insert_ne by lia. done.
  - intros tid t Hl Ht. destruct t; simpl; eauto.
Qed.

Lemma spawn_child_ext ctx f s cap w w' ctx' a :
  spawn_child_with_strategy_and_capacity ctx f s cap w = Some (w', ctx', a) -> ext w w'.
Proof.
  unfold spawn_child_with_strategy_and_capacity.
  destruct (new_actor cap w) as [[w1 a1]|] eqn:Hn; [|done].
  destruct (spawn_task _ w1) as [w2 tid] eqn:Hs. intros [= <- <- <-].
  etrans; [by eapply new_actor_ext|]. etrans; [|apply add_watcher_ext].
  change w2 with (fst (w2, tid)). rewrite <- Hs. by apply spawn_task_ext.
Qed.

(** ** Programs *)

Lemma exec_op_ext op ctx w r ctx' w' : exec_op op ctx w = Some (r, ctx', w') -> ext w w'.
Proof.
  destruct op; simpl; intros H; simplify_eq; try reflexivity;
    try (by auto with rt); try (unfold ctx_watch, child_stop; by auto with rt).
  - unfold ctx_stop. case_match; auto with rt. reflexivity.
  - repeat case_match; simplify_eq. eauto using spawn_child_ext.
  - etrans; [apply (TimerHandle_new_ext w)|]. by apply spawn_task_ext.
  - etrans; [apply (TimerHandle_new_ext w)|]. by apply spawn_task_ext.
  - pose proof (sender_try_send_ext (addr_sender a) (Sync (MessageEnvelope_new m)) w).
    unfold try_send in H. by destruct (sender_try_send _ _ w); simplify_eq.
  - pose proof (sender_try_send_ext (addr_sender a) (Async (AsyncMessageEnvelope_new m)) w).
    unfold try_send_async in H. by destruct (sender_try_send _ _ w); simplify_eq.
  - unfold do_send, do_send_async in H.
    pose proof (sender_send_ext (addr_sender a) (Sync (MessageEnvelope_new m)) w).
    pose proof (sender_send_ext (addr_sender a) (Async (AsyncMessageEnvelope_new m)) w).
    destruct is_async; by destruct (sender_send _ _ w); simplify_eq.
  - by apply spawn_task_ext.
  - pose proof (poll_client_ext fut w). by destruct (poll_client fut w); simplify_eq.
Qed.

Lemma run_ext {X} (p : Prog X) ctx w a r ctx' w' :
  run p ctx w = (a, r, ctx', w') -> ext w w'.
Proof.
  revert ctx w. induction p as [a0 x|a0|a0 op k IH]; simpl; intros ctx w H.
  - by simplify_eq.
  - by simplify_eq.
  - destruct (exec_op op ctx w) as [[[r1 ctx1] w1]|] eqn:Hop; simplify_eq; [|reflexivity].
    etrans; [by eapply exec_op_ext|]. eauto.
Qed.

(** ** Notifications *)

Lemma watcher_notify_ext a id w : ext w (watcher_notify a id w).
Proof.
  unfold watcher_notify, try_send.
  pose proof (sender_try_send_ext (addr_sender a) (Sync (MessageEnvelope_new (Terminated id))) w).
  by destruct (sender_try_send _ _ w).
Qed.

Lemma watcher_notify_tasks a id w : w_tasks (watcher_notify a id w) = w_tasks w.
Proof. unfold watcher_notify, try_send, sender_try_send. by repeat case_match; simplify_eq. Qed.

Lemma foldl_ext {X} (f : World -> X -> World) (xs : list X) w :
  (forall w x, ext w (f w x)) -> ext w (foldl f w xs).
Proof.
  intros Hf. revert w. induction xs as [|x xs IH]; intros w; simpl; [reflexivity|].
  etrans; [apply Hf|apply IH].
Qed.

Lemma foldl_tasks {X} (f : World -> X -> World) (xs : list X) w :
  (forall w x, w_tasks (f w x) = w_tasks w) -> w_tasks (foldl f w xs) = w_tasks w.
Proof.
  intros Hf. revert w. induction xs as [|x xs IH]; intros w; simpl; [done|]. by rewrite IH.
Qed.

Lemma notify_watchers_ext a w : ext w (notify_watchers a w).
Proof. apply foldl_ext. intros. apply watcher_notify_ext. Qed.

Lemma notify_watchers_tasks a w : w_tasks (notify_watchers a w) = w_tasks w.
Proof. apply foldl_tasks. intros. apply watcher_notify_tasks. Qed.

Lemma stop_children_ext ctx w : ext w (stop_children ctx w).
Proof. apply foldl_ext. intros. apply notify_one_ext. Qed.

Lemma stop_children_tasks ctx w : w_tasks (stop_children ctx w) = w_tasks w.
Proof. by apply foldl_tasks. Qed.

(** Once [stop_children] has run, every child holds a stop permit. *)
Lemma stop_children_permit ctx c w :
  c ∈ ctx_children ctx ->
  signal_permit (signal_at (stop_children ctx w) (addr_stop_signal c)) = true.
Proof.
  unfold stop_children. generalize (ctx_children ctx) as cs. intros cs Hin. revert w.
  assert (Hkeep : forall cs w l, signal_permit (signal_at w l) = true ->
    signal_permit (signal_at (foldl (fun w child => child_stop child w) w cs) l) = true).
  { clear Hin cs c. intros cs. induction cs as [|c cs IH]; intros w l Hp; simpl; [done|]. apply IH.
    unfold child_stop, notify_one, signal_at in *. simpl.
    destruct (decide (addr_stop_signal c = l)) as [->|]; simplify_map_eq; [|done].
    apply signal_notify_one_permit. }
  induction Hin as [c cs|c c0 cs Hin IH]; intros w; simpl; [|apply IH].
  apply Hkeep. unfold child_stop, notify_one, signal_at. simpl. simplify_map_eq.
  apply signal_notify_one_permit.
Qed.

End Facts.
