(* ===== verification/Wf.v ===== *)
(** * Wf: the well-formedness invariant of a running system

    Locations are allocated before they are used, the tasks of two actors
    never share a mailbox, and the mailbox of an actor is open exactly while
    its task runs. [wf] holds at the start of the process and is kept by
    every step ([exec_wf]). *)

From S2P Require Import Prelude Tokio Supervisor Runtime Tasks Demo RuntimeFacts.

Section Wf.
Context {Y : Sys} {K : Tokio} {L : TokioLaws K} {B : Behaviour}.

Definition live (ph : Phase) : bool :=
  match ph with PDone | PAborted => false | _ => true end.

Definition addr_ok (w : World) (a : Addr) : Prop :=
  addr_sender a < w_fresh w /\ addr_watchers a < w_fresh w /\ addr_stop_signal a < w_fresh w.

(** The context of an actor: its own address, and allocated children. *)
Definition ctx_ok (w : World) (addr : Addr) (ctx : Context) : Prop :=
  ctx_addr ctx = addr /\ Forall (addr_ok w) (ctx_children ctx) /\
  ctx_escalate_signal ctx < w_fresh w.

Definition phase_ctx (k : Kind) (ph : Phase) : option Context :=
  match ph with
  | PSpawned => match k with KRoot _ ctx => Some ctx | KChild _ _ _ _ => None end
  | PSelect _ ctx _ => Some ctx
  | PAwait _ _ ctx _ => Some ctx
  | _ => None
  end.

Definition kind_ok (w : World) (k : Kind) : Prop :=
  match k with KRoot _ _ => True | KChild _ _ _ esc => esc < w_fresh w end.

Record actor_ok (w : World) (k : Kind) (addr : Addr) (ph : Phase) : Prop := mkActorOk {
  ao_addr : addr_ok w addr;
  ao_kind : kind_ok w k;
  ao_chan : exists c, w_chans w !! addr_sender addr = Some c /\ mpsc_open c = live ph;
  ao_ctx ctx : phase_ctx k ph = Some ctx -> ctx_ok w addr ctx;
}.

Record wf (w : World) : Prop := mkWf {
  wf_chans l c : w_chans w !! l = Some c -> l < w_fresh w;
  wf_tasks tid t : w_tasks w !! tid = Some t -> tid < w_fresh w;
  wf_closed l c : w_chans w !! l = Some c -> mpsc_open c = false -> mpsc_queue c = [];
  wf_actor tid k addr sd ph :
    w_tasks w !! tid = Some (TActor k addr sd ph) -> actor_ok w k addr ph;
  wf_inj tid1 tid2 k1 k2 a1 a2 s1 s2 p1 p2 :
    w_tasks w !! tid1 = Some (TActor k1 a1 s1 p1) ->
    w_tasks w !! tid2 = Some (TActor k2 a2 s2 p2) ->
    addr_sender a1 = addr_sender a2 -> tid1 = tid2;
}.

(** ** Monotonicity *)

Lemma addr_ok_mono w w' a : w_fresh w <= w_fresh w' -> addr_ok w a -> addr_ok w' a.
Proof. unfold addr_ok. lia. Qed.

Lemma ctx_ok_mono w w' addr ctx : w_fresh w <= w_fresh w' -> ctx_ok w addr ctx -> ctx_ok w' addr ctx.
Proof.
  intros Hf (Ha & Hc & He). split_and!; [done| |lia].
  eapply Forall_impl; [done|]. intros. by eapply addr_ok_mono.
Qed.

Lemma kind_ok_mono w w' k : w_fresh w <= w_fresh w' -> kind_ok w k -> kind_ok w' k.
Proof. destruct k; simpl; [done|lia]. Qed.
Hint Resolve addr_ok_mono ctx_ok_mono kind_ok_mono : rt.

Lemma actor_ok_ext w w' k addr ph :
  ext w w' -> actor_ok w k addr ph -> actor_ok w' k addr ph.
Proof.
  intros Hx [Ha Hk (c & Hc & Ho) Hctx]. pose proof (ext_fresh _ _ Hx).
  split; eauto with rt.
  destruct Ha as [Hs _]. destruct (ext_chan _ _ Hx _ _ Hs Hc) as (c' & Hc' & [Ho' _]).
  exists c'. split; [done|congruence].
Qed.

Lemma chan_ext_closed (c c' : Chan ActorMessage) :
  chan_ext c c' -> (mpsc_open c = false -> mpsc_queue c = []) ->
  mpsc_open c' = false -> mpsc_queue c' = [].
Proof.
  intros [Ho (xs & Hq' & Hx)] Hq Hc. rewrite Ho in Hc. by rewrite Hq', (Hx Hc), (Hq Hc).
Qed.

Lemma wf_ext w w' :
  ext w w' -> wf w ->
  (forall tid t, w_tasks w' !! tid = Some t ->
     tid < w_fresh w' /\
     (w_tasks w !! tid = Some t \/ match t with TActor _ _ _ _ => False | _ => True end)) ->
  wf w'.
Proof.
  intros Hx Hw Ht. pose proof (ext_fresh _ _ Hx) as Hf. split.
  - intros l c Hc. destruct (w_chans w !! l) as [c0|] eqn:H0.
    + pose proof (wf_chans _ Hw _ _ H0). lia.
    + apply (ext_new_chan _ _ Hx _ _ H0) in Hc. lia.
  - intros tid t H. by apply (Ht tid t H).
  - intros l c Hc Ho. destruct (w_chans w !! l) as [c0|] eqn:H0.
    + destruct (ext_chan _ _ Hx l c0) as (c' & Hc' & Hcx); [by eapply wf_chans|done|].
      simplify_eq. eapply chan_ext_closed; eauto using wf_closed.
    + apply (ext_new_chan _ _ Hx _ _ H0) in Hc as [_ Hc]. congruence.
  - intros tid k addr sd ph H. apply Ht in H as [_ [H|[]]].
    eapply actor_ok_ext; eauto using wf_actor.
  - intros tid1 tid2 k1 k2 a1 a2 s1 s2 p1 p2 H1 H2.
    apply Ht in H1 as [_ [H1|[]]]. apply Ht in H2 as [_ [H2|[]]]. eapply wf_inj; eauto.
Qed.

(** ** Steps that only extend the world *)

Lemma wf_ext_tasks w w' : ext w w' -> wf w -> w_tasks w' = w_tasks w -> wf w'.
Proof.
  intros Hx Hw Ht. eapply wf_ext; eauto. intros tid t. rewrite Ht. intros H.
  pose proof (wf_tasks _ Hw _ _ H). pose proof (ext_fresh _ _ Hx). split; [lia|auto].
Qed.

(** Adding a task that is not an actor. *)
Lemma wf_spawn_other t w :
  match t with TActor _ _ _ _ => False | _ => True end -> wf w -> wf (fst (spawn_task t w)).
Proof.
  intros Hn Hw. eapply wf_ext; [apply spawn_task_ext; by destruct t|done|]. simpl. intros tid t'.
  rewrite lookup_insert. case_decide; intros H'; simplify_eq.
  - split; [lia|auto].
  - pose proof (wf_tasks _ Hw _ _ H'). split; [lia|auto].
Qed.

(** Replacing a task that is not an actor by another such task. *)
Lemma wf_put_other tid t0 t w :
  w_tasks w !! tid = Some t0 ->
  match t0 with TActor _ _ _ _ => False | _ => True end ->
  match t with TActor _ _ _ _ => False | _ => True end ->
  wf w -> wf (put_task tid t w).
Proof.
  intros H0 Hn0 Hn Hw. destruct Hw as [H1 H2 H3 H4 H5].
  assert (Ht : forall tid' k a sd ph, w_tasks (put_task tid t w) !! tid' = Some (TActor k a sd ph) ->
    w_tasks w !! tid' = Some (TActor k a sd ph)).
  { intros tid' k a sd ph. simpl. rewrite lookup_insert. case_decide; [|done].
    intros; simplify_eq. done. }
  split; simpl; eauto.
  - intros tid' t'. rewrite lookup_insert. case_decide; intros; simplify_eq; eauto.
  - intros tid' k a sd ph H. apply Ht, H4 in H. by destruct H.
Qed.

(** ** New actors *)

Lemma new_actor_spec cap w w' a :
  new_actor cap w = Some (w', a) -> wf w ->
  wf w' /\ addr_ok w' a /\ w_fresh w <= addr_sender a /\ w_tasks w' = w_tasks w /\
  exists c, w_chans w' !! addr_sender a = Some c /\ mpsc_open c = true.
Proof.
  intros Hn Hw. pose proof (new_actor_ext _ _ _ _ Hn) as Hx. unfold new_actor in Hn.
  destruct (mpsc_channel cap) as [c|] eqn:Hc; [|done]. simpl in Hn. injection Hn as <- <-.
  destruct (mpsc_channel_new _ _ _ Hc) as (_ & _ & Ho).
  split; [by apply (wf_ext_tasks w)|]. unfold addr_ok; simpl. split_and!; try done; try lia.
  exists c. by rewrite lookup_insert_eq.
Qed.

Lemma wf_spawn_actor k a sd w :
  newborn (TActor k a sd PSpawned) -> wf w -> actor_ok w k a PSpawned ->
  (forall tid k' a' sd' ph', w_tasks w !! tid = Some (TActor k' a' sd' ph') ->
     addr_sender a' <> addr_sender a) ->
  wf (fst (spawn_task (TActor k a sd PSpawned) w)).
Proof.
  intros Hb Hw Ha Hne. pose proof (spawn_task_ext (TActor k a sd PSpawned) w Hb) as Hx.
  destruct Hw as [H1 H2 H3 H4 H5]. split; simpl; eauto.
  - intros l c Hc. apply H1 in Hc. lia.
  - intros tid t. rewrite lookup_insert. case_decide; intros Hl; simplify_eq; [lia|].
    apply H2 in Hl. lia.
  - intros tid k' a' sd' ph'. rewrite lookup_insert. case_decide; intros Hl; simplify_eq.
    + by eapply actor_ok_ext.
    + eapply actor_ok_ext; eauto.
  - intros tid1 tid2 k1 k2 a1 a2 s1 s2 p1 p2. rewrite !lookup_insert.
    repeat case_decide; intros Ht1 Ht2 Hs; simplify_eq; eauto.
    + symmetry in Hs. by apply Hne in Ht2.
    + by apply Hne in Ht1.
Qed.

(** An address allocated after every task was made belongs to no task. *)
Lemma wf_fresh_sender w w' l :
  wf w -> w_tasks w' = w_tasks w -> w_fresh w <= l ->
  forall tid k a sd ph, w_tasks w' !! tid = Some (TActor k a sd ph) -> addr_sender a <> l.
Proof.
  intros Hw Ht Hl tid k a sd ph H. rewrite Ht in H.
  destruct (wf_actor _ Hw _ _ _ _ _ H) as [[Hs _] _ _ _]. lia.
Qed.

Lemma wf_add_watcher a b w : wf w -> wf (add_watcher a b w).
Proof. intros. eapply wf_ext_tasks; eauto using add_watcher_ext. Qed.

Lemma spawn_child_wf ctx f s cap w w' ctx' a :
  spawn_child_with_strategy_and_capacity ctx f s cap w = Some (w', ctx', a) ->
  wf w -> ctx_ok w (ctx_addr ctx) ctx -> wf w' /\ ctx_ok w' (ctx_addr ctx) ctx'.
Proof.
  unfold spawn_child_with_strategy_and_capacity.
  destruct (new_actor cap w) as [[w1 a1]|] eqn:Hn; [|done]. simpl. intros [= <- <- <-] Hw Hctx.
  pose proof (ext_fresh _ _ (new_actor_ext _ _ _ _ Hn)) as Hf.
  destruct (new_actor_spec _ _ _ _ Hn Hw) as (Hw1 & Ha1 & Hs1 & Ht1 & c & Hc & Ho).
  destruct Hctx as (_ & Hch & He). split.
  - apply wf_add_watcher. apply (wf_spawn_actor _ _ _ w1); [done|done| |].
    + split; simpl; eauto; [lia|done].
    + by apply (wf_fresh_sender w).
  - split_and!; simpl; [done| |lia]. apply Forall_app. split.
    + eapply Forall_impl; [done|]. intros a. unfold addr_ok. simpl. lia.
    + constructor; [|done]. unfold addr_ok in *. simpl. lia.
Qed.

(** ** Programs *)

Lemma poll_client_wf fut w : wf w -> wf (fst (poll_client fut w)).
Proof.
  intros Hw. unfold poll_client. destruct (w_tasks w !! fut) as [t|] eqn:Ht; [|done].
  destruct t as [|[f|r]| | | |]; try done.
  pose proof (poll_send_ext f w) as Hx. pose proof (poll_send_tasks f w) as Htk.
  destruct (poll_send f w) as [w1 r]; simpl in *.
  eapply (wf_put_other _ (TClient (inl f))); [by rewrite Htk|done..|]. by apply (wf_ext_tasks w).
Qed.

Lemma exec_op_wf op ctx w r ctx' w' :
  exec_op op ctx w = Some (r, ctx', w') -> wf w -> ctx_ok w (ctx_addr ctx) ctx ->
  wf w' /\ ctx_ok w' (ctx_addr ctx) ctx'.
Proof.
  intros H Hw Hctx. pose proof (exec_op_ext _ _ _ _ _ _ H) as Hx.
  pose proof (ext_fresh _ _ Hx) as Hf.
  assert (Hmono : ctx_ok w' (ctx_addr ctx) ctx) by (by eapply ctx_ok_mono).
  destruct op; simpl in H; simplify_eq; try (split; [|done]); try done;
    try (by apply (wf_ext_tasks w)).
  - unfold ctx_stop in *. case_match; [by apply (wf_ext_tasks w)|done].
  - repeat case_match; simplify_eq. eauto using spawn_child_wf.
  - apply (wf_spawn_other (TLater delay (w_fresh w) (ctx_addr ctx') m TNew)
      (fst (TimerHandle_new w))); [done|].
    apply (wf_ext_tasks w); [apply TimerHandle_new_ext|done|done].
  - apply (wf_spawn_other (TInterval interval (w_fresh w) (ctx_addr ctx') m TNew)
      (fst (TimerHandle_new w))); [done|].
    apply (wf_ext_tasks w); [apply TimerHandle_new_ext|done|done].
  - unfold try_send, sender_try_send in H. repeat case_match; simplify_eq; try done.
    split; [|done]. by apply (wf_ext_tasks w).
  - unfold try_send_async, sender_try_send in H. repeat case_match; simplify_eq; try done.
    split; [|done]. by apply (wf_ext_tasks w).
  - unfold do_send, do_send_async, sender_send in H. repeat case_match; simplify_eq; try done;
      (split; [|done]; by apply (wf_ext_tasks w)).
  - by apply (wf_spawn_other (TClient (inl (SendInit a m is_async timeout))) w).
  - pose proof (poll_client_wf fut w Hw). by destruct (poll_client fut w); simplify_eq.
Qed.

Lemma exec_op_ctx_addr op ctx w r ctx' w' :
  exec_op op ctx w = Some (r, ctx', w') -> ctx_addr ctx' = ctx_addr ctx.
Proof.
  destruct op; simpl; unfold spawn_child_with_strategy_and_capacity; intros H;
    repeat case_match; simplify_eq; done.
Qed.

Lemma run_wf {X} (p : Prog X) ctx w a r ctx' w' :
  run p ctx w = (a, r, ctx', w') -> wf w -> ctx_ok w (ctx_addr ctx) ctx ->
  wf w' /\ ctx_ok w' (ctx_addr ctx) ctx'.
Proof.
  revert ctx w. induction p as [a0 x|a0|a0 op k IH]; simpl; intros ctx w H Hw Hctx; simplify_eq.
  - done.
  - done.
  - destruct (exec_op op ctx w) as [[[r1 ctx1] w1]|] eqn:Hop; simplify_eq; [|done].
    destruct (exec_op_wf _ _ _ _ _ _ Hop Hw Hctx) as [Hw1 Hctx1].
    pose proof (exec_op_ctx_addr _ _ _ _ _ _ Hop) as Ha. rewrite <- Ha in *. eauto.
Qed.

(** ** Parts of a poll *)

(** [wf] looks at the channels, the tasks and the next location only. *)
Lemma actor_ok_congr w w' k addr ph :
  w_fresh w <= w_fresh w' -> w_chans w' !! addr_sender addr = w_chans w !! addr_sender addr ->
  actor_ok w k addr ph -> actor_ok w' k addr ph.
Proof. intros Hf Hc [H1 H2 H3 H4]. split; eauto with rt. by rewrite Hc. Qed.

Lemma wf_congr w w' :
  w_fresh w' = w_fresh w -> w_chans w' = w_chans w -> w_tasks w' = w_tasks w -> wf w -> wf w'.
Proof.
  intros Hf Hc Ht [H1 H2 H3 H4 H5]. split; rewrite ?Hf, ?Hc, ?Ht; try assumption.
  intros. apply (actor_ok_congr w); [by rewrite Hf|by rewrite Hc|]. eauto.
Qed.

(** A running task [tid] that owns the mailbox of [addr]. *)
Definition running (tid : nat) (addr : Addr) (w : World) : Prop :=
  wf w /\ exists k sd ph, w_tasks w !! tid = Some (TActor k addr sd ph) /\ live ph = true.

Lemma running_congr tid addr w w' :
  w_fresh w' = w_fresh w -> w_chans w' = w_chans w -> w_tasks w' = w_tasks w ->
  running tid addr w -> running tid addr w'.
Proof. intros Hf Hc Ht [Hw Hr]. split; [by apply (wf_congr w)|]. by rewrite Ht. Qed.

Lemma running_ext tid addr w w' :
  ext w w' -> wf w' -> running tid addr w -> running tid addr w'.
Proof.
  intros Hx Hw' [Hw (k & sd & ph & Ht & Hl)]. split; [done|]. exists k, sd, ph.
  split; [|done]. pose proof (wf_tasks _ Hw _ _ Ht) as Hlt. apply (ext_task _ _ Hx _ _ Hlt Ht).
Qed.

Lemma running_ext_tasks tid addr w w' :
  ext w w' -> w_tasks w' = w_tasks w -> running tid addr w -> running tid addr w'.
Proof.
  intros Hx Ht Hr. eapply running_ext; eauto. destruct Hr. by apply (wf_ext_tasks w).
Qed.

Lemma run_running {X} tid addr (p : Prog X) ctx w a r ctx' w' :
  run p ctx w = (a, r, ctx', w') -> running tid addr w -> ctx_ok w addr ctx ->
  running tid addr w' /\ ctx_ok w' addr ctx'.
Proof.
  intros Hrun Hr Hctx. pose proof (proj1 Hctx) as Ha. rewrite <- Ha in *.
  destruct (run_wf _ _ _ _ _ _ _ Hrun (proj1 Hr) Hctx).
  split; [|done]. eauto using running_ext, run_ext.
Qed.

(** The mailbox of a running task, and what happens to it. *)
Lemma running_chan tid addr w :
  running tid addr w ->
  exists c, w_chans w !! addr_sender addr = Some c /\ mpsc_open c = true.
Proof.
  intros [Hw (k & sd & ph & Ht & Hl)]. destruct (wf_actor _ Hw _ _ _ _ _ Ht) as [_ _ Hc _].
  by rewrite Hl in Hc.
Qed.

Lemma running_set_chan tid addr w c :
  running tid addr w -> mpsc_open c = true ->
  running tid addr (set_chans (<[addr_sender addr := c]> (w_chans w)) w).
Proof.
  intros Hr Ho. destruct (running_chan _ _ _ Hr) as (c0 & Hc0 & Ho0).
  destruct Hr as [[H1 H2 H3 H4 H5] Hr]. split; [|done]. split; simpl; eauto.
  - intros l c'. rewrite lookup_insert. case_decide; intros; simplify_eq; eauto.
  - intros l c'. rewrite lookup_insert. case_decide; intros; simplify_eq; [congruence|eauto].
  - intros tid' k a sd ph Ht. destruct (H4 _ _ _ _ _ Ht) as [G1 G2 G3 G4].
    split; simpl; eauto. rewrite lookup_insert. case_decide as Heq; [|done].
    rewrite <- Heq in G3. destruct G3 as (c1 & Hc1 & Hl1). exists c. split; [done|]. congruence.
Qed.

Lemma recv_mailbox_running tid addr w w' p :
  recv_mailbox addr w = (w', p) -> running tid addr w -> running tid addr w'.
Proof.
  intros Hrecv Hr. destruct (running_chan _ _ _ Hr) as (c & Hc & Ho).
  unfold recv_mailbox in Hrecv. rewrite Hc in Hrecv.
  destruct (mpsc_queue c) as [|x q] eqn:Hq.
  - destruct (mpsc_recv_empty _ _ Hq) as (c' & r & Heq & _ & _ & Ho'). rewrite Heq in Hrecv.
    simplify_eq. apply running_set_chan; [done|congruence].
  - destruct (mpsc_recv_some _ _ _ _ Hq) as (c' & Heq & _ & Ho'). rewrite Heq in Hrecv.
    simplify_eq. apply running_set_chan; [done|congruence].
Qed.

Lemma recv_mailbox_fresh addr w w' p : recv_mailbox addr w = (w', p) -> w_fresh w' = w_fresh w.
Proof. unfold recv_mailbox. repeat case_match; intros; simplify_eq; done. Qed.

Lemma poll_streams_running tid addr streams a ctx w streams' a' ctx' w' r :
  poll_streams streams a ctx w = (streams', a', ctx', w', r) ->
  running tid addr w -> ctx_ok w addr ctx -> running tid addr w' /\ ctx_ok w' addr ctx'.
Proof.
  revert a ctx w streams' a' ctx' w' r.
  induction streams as [|s rest IH]; intros a ctx w streams' a' ctx' w' r H Hr Hctx; simpl in H.
  { by simplify_eq. }
  destruct (StreamWrapper_poll_next s a ctx w) as [[[[s1 a1] ctx1] w1] r1] eqn:H1.
  assert (Hs : running tid addr w1 /\ ctx_ok w1 addr ctx1).
  { unfold StreamWrapper_poll_next in H1.
    destruct (stream_poll_next s) as [s2 [|[item|]]]; [by simplify_eq| |];
      destruct (run _ ctx w) as [[[? ?] ?] ?] eqn:Hrun; simplify_eq;
      eauto using run_running. }
  destruct Hs as [Hr1 Hc1]. destruct r1 as [p|]; [|by simplify_eq].
  destruct (poll_streams rest a1 ctx1 w1) as [[[[rest2 a2] ctx2] w2] r2] eqn:H2.
  specialize (IH _ _ _ _ _ _ _ _ H2 Hr1 Hc1). destruct p as [|[]]; by simplify_eq.
Qed.

Lemma poll_select_running tid addr sd a ctx streams w sel a' ctx' streams' w' :
  poll_select tid addr sd a ctx streams w = (sel, a', ctx', streams', w') ->
  running tid addr w -> ctx_ok w addr ctx -> running tid addr w' /\ ctx_ok w' addr ctx'.
Proof.
  unfold poll_select. destruct (recv_mailbox addr w) as [w1 p] eqn:Hrecv. intros H Hr Hctx.
  pose proof (recv_mailbox_running _ _ _ _ _ Hrecv Hr) as Hr1.
  pose proof (recv_mailbox_fresh _ _ _ _ Hrecv) as Hf.
  assert (Hctx1 : ctx_ok w1 addr ctx) by (eapply ctx_ok_mono; [|done]; lia).
  destruct p as [|[m|]]; [|by simplify_eq..].
  destruct (match streams with [] => _ | _ :: _ => _ end) as [[[[ss2 a2] ctx2] w2] r] eqn:Hps.
  assert (Hs : running tid addr w2 /\ ctx_ok w2 addr ctx2).
  { destruct streams; [by simplify_eq|]. eauto using poll_streams_running. }
  destruct Hs as [Hr2 Hc2]. destruct r as [[]|]; [by simplify_eq| |by simplify_eq].
  unfold poll_signal in H.
  repeat case_match; simplify_eq; (split; [|done]);
    (eapply running_congr; [..|exact Hr2]; done).
Qed.

(** *** Moving the task on *)

Lemma put_actor_wf tid addr k sd ph w :
  running tid addr w -> live ph = true -> kind_ok w k ->
  (forall ctx, phase_ctx k ph = Some ctx -> ctx_ok w addr ctx) ->
  wf (put_task tid (TActor k addr sd ph) w).
Proof.
  intros Hr Hl Hk Hctx. pose proof (running_chan _ _ _ Hr) as (c & Hc & Ho).
  destruct Hr as [[H1 H2 H3 H4 H5] (k0 & sd0 & ph0 & Ht & Hl0)]. split; simpl; eauto.
  - intros tid' t. rewrite lookup_insert. case_decide; intros; simplify_eq; eauto.
  - intros tid' k' a' sd' ph'. rewrite lookup_insert. case_decide; intros Ht'; simplify_eq.
    + destruct (H4 _ _ _ _ _ Ht) as [G1 _ _ _].
      split; eauto.
    + destruct (H4 _ _ _ _ _ Ht') as [G1 G2 G3 G4]. by split.
  - intros tid1 tid2 k1 k2 a1 a2 s1 s2 p1 p2. rewrite !lookup_insert.
    repeat case_decide; intros Ht1 Ht2 Hs; simplify_eq; eauto.
Qed.

(** The end of a task closes its mailbox. *)
Lemma drop_all_tasks ms w :
  let w' := foldl (fun w m => drop_tx (message_tx m) w) w ms in
  w_tasks w' = w_tasks w /\ w_chans w' = w_chans w /\ w_fresh w' = w_fresh w.
Proof.
  revert w. induction ms as [|m ms IH]; intros w; simpl; [done|].
  destruct (IH (drop_tx (message_tx m) w)) as (-> & -> & ->).
  unfold drop_tx, upd_oneshot. by repeat case_match.
Qed.

Lemma close_mailbox_spec tid addr w :
  running tid addr w ->
  w_tasks (close_mailbox addr w) = w_tasks w /\ w_fresh (close_mailbox addr w) = w_fresh w /\
  exists c', w_chans (close_mailbox addr w) = <[addr_sender addr := c']> (w_chans w) /\
    mpsc_open c' = false /\ mpsc_queue c' = [].
Proof.
  intros Hr. destruct (running_chan _ _ _ Hr) as (c & Hc & _). unfold close_mailbox. rewrite Hc.
  destruct (mpsc_drop_rx_spec _ c) as (c' & -> & Hq & Ho).
  destruct (drop_all_tasks (mpsc_queue c) (set_chans (<[addr_sender addr:=c']> (w_chans w)) w))
    as (-> & -> & ->). split_and!; [done|done|]. by exists c'.
Qed.

Lemma end_task_wf tid k addr sd ph w :
  running tid addr w -> live ph = false -> kind_ok w k -> wf (end_task tid k addr sd ph w).
Proof.
  intros Hr Hl Hk. destruct (close_mailbox_spec _ _ _ Hr) as (Ht & Hf & c' & Hc & Ho & Hq).
  destruct (running_chan _ _ _ Hr) as (c & Hc0 & Ho0).
  destruct Hr as [[H1 H2 H3 H4 H5] (k0 & sd0 & ph0 & Ht0 & Hl0)].
  unfold end_task. split; simpl; rewrite ?Hc, ?Hf, ?Ht.
  - intros l c1. rewrite lookup_insert. case_decide; intros; simplify_eq; eauto.
  - intros tid' t. rewrite lookup_insert. case_decide; intros; simplify_eq; eauto.
  - intros l c1. rewrite lookup_insert. case_decide; intros; simplify_eq; eauto.
  - intros tid' k' a' sd' ph'. rewrite lookup_insert. case_decide as Hd; intros Ht'; simplify_eq.
    + destruct (H4 _ _ _ _ _ Ht0) as [G1 _ _ _]. split.
      * unfold addr_ok in *; simpl. by rewrite Hf.
      * eapply kind_ok_mono; [|done]. simpl. lia.
      * simpl. rewrite Hc, lookup_insert_eq. exists c'. by rewrite Hl.
      * intros ctx. by destruct ph'.
    + apply (actor_ok_congr w); [simpl; lia| |eauto]. simpl. rewrite Hc.
      apply lookup_insert_ne. intros Heq. apply Hd. eapply H5; eauto.
  - intros tid1 tid2 k1 k2 a1 a2 s1 s2 p1 p2. rewrite !lookup_insert.
    repeat case_decide; intros Ht1 Ht2 Hs; simplify_eq; eauto.
Qed.

Lemma loop_head_wf tid k addr sd a ctx streams w :
  running tid addr w -> kind_ok w k -> ctx_ok w addr ctx ->
  wf (loop_head tid k addr sd a ctx streams w).
Proof.
  intros Hr Hk Hctx. unfold loop_head. simpl. apply put_actor_wf; try done.
  - eapply running_congr; [..|exact Hr]; done.
  - intros ctx' [= <-]. destruct Hctx as (H1 & H2 & H3). by split_and!.
Qed.

Lemma running_log tid addr e w : running tid addr w -> running tid addr (log_event e w).
Proof. by apply running_congr. Qed.

Lemma run_notify_watchers_running tid addr w :
  running tid addr w -> running tid addr (run_notify_watchers addr w).
Proof.
  intros Hr. unfold run_notify_watchers.
  apply (running_ext_tasks _ _ (log_event (ENotified addr (w_now w)) w));
    auto using notify_watchers_ext, notify_watchers_tasks, running_log.
Qed.

Lemma run_notify_watchers_fresh addr w : w_fresh w <= w_fresh (run_notify_watchers addr w).
Proof. apply (ext_fresh _ _ (notify_watchers_ext addr (log_event (ENotified addr (w_now w)) w))). Qed.

Lemma stop_children_running tid addr ctx w :
  running tid addr w -> running tid addr (stop_children ctx w).
Proof. intros Hr. apply (running_ext_tasks _ _ w); auto using stop_children_ext, stop_children_tasks. Qed.

Lemma root_exit_wf tid k addr sd a ctx w :
  running tid addr w -> kind_ok w k -> ctx_ok w addr ctx -> wf (root_exit tid k addr sd a ctx w).
Proof.
  intros Hr Hk Hctx. unfold root_exit, run_stopped.
  destruct (run (stopped a) ctx _) as [[[a1 r1] ctx1] w1] eqn:Hrun.
  pose proof (run_notify_watchers_fresh addr w) as F1.
  pose proof (ext_fresh _ _ (stop_children_ext ctx (run_notify_watchers addr w))) as F2.
  pose proof (ext_fresh _ _ (run_ext _ _ _ _ _ _ _ Hrun)) as F3. simpl in F3.
  eapply run_running in Hrun as [Hr1 _].
  - apply end_task_wf; [done|by destruct r1|]. eapply kind_ok_mono; [|done]. lia.
  - by apply running_log, stop_children_running, run_notify_watchers_running.
  - eapply ctx_ok_mono; [|done]. simpl. lia.
Qed.

Lemma child_start_wf tid f strategy tracker esc addr sd w :
  running tid addr w -> esc < w_fresh w ->
  wf (child_start tid f strategy tracker esc addr sd w).
Proof.
  intros Hr He. unfold child_start. destruct (factory_call f) as [[child f']|].
  - unfold run_started. simpl.
    destruct (run (started child) _ _) as [[[a1 r1] ctx1] w1] eqn:Hrun.
    pose proof (ext_fresh _ _ (run_ext _ _ _ _ _ _ _ Hrun)) as F. simpl in F.
    eapply (run_running tid addr) in Hrun as [Hr1 Hc1].
    + destruct r1; [apply loop_head_wf|apply end_task_wf]; auto; simpl; lia.
    + apply running_log. apply (running_ext_tasks _ _ w); [apply (new_signal_ext w)|done|done].
    + split_and!; simpl; [done|done|lia].
  - by apply end_task_wf.
Qed.

Lemma child_terminate_wf tid k addr sd w :
  running tid addr w -> kind_ok w k -> wf (child_terminate tid k addr sd w).
Proof.
  intros Hr Hk. apply end_task_wf; [by apply run_notify_watchers_running|done|].
  eapply kind_ok_mono; [apply run_notify_watchers_fresh|done].
Qed.

Lemma supervise_wf tid f strategy tracker esc addr sd b w :
  running tid addr w -> esc < w_fresh w ->
  wf (supervise tid f strategy tracker esc addr sd b w).
Proof.
  intros Hr He. unfold supervise.
  assert (Hn : running tid addr (notify_one esc w)) by (by apply (running_congr _ _ w)).
  repeat case_match; auto using child_terminate_wf, child_start_wf.
Qed.

Lemma exit_loop_wf tid k addr sd a ctx b w :
  running tid addr w -> kind_ok w k -> ctx_ok w addr ctx ->
  wf (exit_loop tid k addr sd a ctx b w).
Proof.
  intros Hr Hk Hctx. destruct k as [actor ctx0|f strategy tracker esc]; simpl.
  - by apply root_exit_wf.
  - unfold child_exit, run_stopped.
    destruct (run (stopped a) ctx _) as [[[a1 r1] ctx1] w1] eqn:Hrun. simpl in Hk.
    pose proof (ext_fresh _ _ (stop_children_ext ctx w)) as F2.
    pose proof (ext_fresh _ _ (run_ext _ _ _ _ _ _ _ Hrun)) as F3. simpl in F3.
    eapply (run_running tid addr) in Hrun as [Hr1 _].
    + destruct r1; [apply supervise_wf|apply end_task_wf]; auto; simpl; lia.
    + by apply running_log, stop_children_running.
    + eapply ctx_ok_mono; [|done]. simpl. lia.
Qed.

(** ** Polls *)

Lemma running_ext_tasks_ctx tid addr ctx w w' :
  ext w w' -> w_tasks w' = w_tasks w ->
  running tid addr w /\ ctx_ok w addr ctx -> running tid addr w' /\ ctx_ok w' addr ctx.
Proof.
  intros Hx Ht [Hr Hc]. split; [by apply (running_ext_tasks _ _ w)|].
  eapply ctx_ok_mono; [|done]. by apply ext_fresh.
Qed.

Lemma upd_oneshot_tasks f l w : w_tasks (upd_oneshot f l w) = w_tasks w.
Proof. unfold upd_oneshot. by case_match. Qed.

Lemma drop_tx_running tid addr ctx tx w :
  running tid addr w /\ ctx_ok w addr ctx ->
  running tid addr (drop_tx tx w) /\ ctx_ok (drop_tx tx w) addr ctx.
Proof.
  apply running_ext_tasks_ctx; [apply drop_tx_ext|]. destruct tx; simpl; auto using upd_oneshot_tasks.
Qed.

Lemma reply_running tid addr ctx tx r w :
  running tid addr w /\ ctx_ok w addr ctx ->
  running tid addr (reply tx r w) /\ ctx_ok (reply tx r w) addr ctx.
Proof.
  apply running_ext_tasks_ctx; [apply reply_ext|]. destruct tx; simpl; auto using upd_oneshot_tasks.
Qed.

Lemma MessageEnvelope_handle_running tid addr e a ctx w a' ok ctx' w' :
  MessageEnvelope_handle e a ctx w = (a', ok, ctx', w') ->
  running tid addr w -> ctx_ok w addr ctx ->
  (running tid addr w' /\ ctx_ok w' addr ctx') /\ w_fresh w <= w_fresh w'.
Proof.
  unfold MessageEnvelope_handle. intros H Hr Hc. destruct (msg e) as [m|].
  - destruct (run (handle a m) ctx w) as [[[a1 r1] ctx1] w1] eqn:Hrun.
    pose proof (ext_fresh _ _ (run_ext _ _ _ _ _ _ _ Hrun)) as F.
    eapply run_running in Hrun; [|done|done].
    destruct r1 as [r|]; simplify_eq.
    + pose proof (ext_fresh _ _ (reply_ext (response_tx e) r w1)). split; [|lia]. by apply reply_running.
    + pose proof (ext_fresh _ _ (drop_tx_ext (response_tx e) w1)). split; [|lia]. by apply drop_tx_running.
  - simplify_eq. split; [by apply drop_tx_running|]. apply ext_fresh, drop_tx_ext.
Qed.

Lemma poll_async_running tid addr f tx ctx w r ctx' w' :
  poll_async f tx ctx w = (r, ctx', w') ->
  running tid addr w -> ctx_ok w addr ctx ->
  (running tid addr w' /\ ctx_ok w' addr ctx') /\ w_fresh w <= w_fresh w'.
Proof.
  unfold poll_async. destruct f as [p]. intros H Hr Hc.
  destruct (run p ctx w) as [[[a1 r1] ctx1] w1] eqn:Hrun.
  pose proof (ext_fresh _ _ (run_ext _ _ _ _ _ _ _ Hrun)) as F.
  eapply run_running in Hrun; [|done|done].
  destruct r1 as [[x|f']|]; simplify_eq.
  - pose proof (ext_fresh _ _ (reply_ext tx x w1)). split; [|lia]. by apply reply_running.
  - done.
  - pose proof (ext_fresh _ _ (drop_tx_ext tx w1)). split; [|lia]. by apply drop_tx_running.
Qed.

Lemma after_async_wf tid k addr sd tx streams r ctx w :
  running tid addr w -> ctx_ok w addr ctx -> kind_ok w k ->
  wf (after_async tid k addr sd tx streams r ctx w).
Proof.
  intros Hr Hc Hk. destruct r; simpl.
  - apply put_actor_wf; try done. by intros ctx' [= <-].
  - by apply loop_head_wf.
  - by apply exit_loop_wf.
Qed.

Lemma AsyncMessageEnvelope_handle_running tid addr e a ctx w r ctx' w' :
  AsyncMessageEnvelope_handle e a ctx w = (r, ctx', w') ->
  running tid addr w -> ctx_ok w addr ctx ->
  (running tid addr w' /\ ctx_ok w' addr ctx') /\ w_fresh w <= w_fresh w'.
Proof.
  unfold AsyncMessageEnvelope_handle. destruct (amsg e); [apply poll_async_running|].
  intros H Hr Hc. simplify_eq. split; [by apply drop_tx_running|]. apply ext_fresh, drop_tx_ext.
Qed.

Lemma poll_streams_fresh streams a ctx w streams' a' ctx' w' r :
  poll_streams streams a ctx w = (streams', a', ctx', w', r) -> w_fresh w <= w_fresh w'.
Proof.
  revert a ctx w streams' a' ctx' w' r.
  induction streams as [|s rest IH]; intros a ctx w streams' a' ctx' w' r H; simpl in H.
  { by simplify_eq. }
  destruct (StreamWrapper_poll_next s a ctx w) as [[[[s1 a1] ctx1] w1] r1] eqn:H1.
  assert (Hs : w_fresh w <= w_fresh w1).
  { unfold StreamWrapper_poll_next in H1.
    destruct (stream_poll_next s) as [s2 [|[item|]]]; [by simplify_eq| |];
      destruct (run _ ctx w) as [[[? ?] ?] ?] eqn:Hrun; simplify_eq;
      eapply ext_fresh, run_ext; eauto. }
  destruct r1 as [p|]; [|by simplify_eq].
  destruct (poll_streams rest a1 ctx1 w1) as [[[[rest2 a2] ctx2] w2] r2] eqn:H2.
  specialize (IH _ _ _ _ _ _ _ _ H2). destruct p as [|[]]; simplify_eq; lia.
Qed.

Lemma poll_select_fresh tid addr sd a ctx streams w sel a' ctx' streams' w' :
  poll_select tid addr sd a ctx streams w = (sel, a', ctx', streams', w') ->
  w_fresh w <= w_fresh w'.
Proof.
  unfold poll_select. destruct (recv_mailbox addr w) as [w1 p] eqn:Hrecv. intros H.
  pose proof (recv_mailbox_fresh _ _ _ _ Hrecv) as Hf.
  destruct p as [|[m|]]; [|simplify_eq; lia..].
  destruct (match streams with [] => _ | _ :: _ => _ end) as [[[[ss2 a2] ctx2] w2] r] eqn:Hps.
  assert (Hs : w_fresh w1 <= w_fresh w2).
  { destruct streams; [by simplify_eq|]. eauto using poll_streams_fresh. }
  unfold poll_signal in H. repeat case_match; simplify_eq; simpl; lia.
Qed.

Lemma poll_in_select_wf tid k addr sd a ctx streams w :
  running tid addr w -> ctx_ok w addr ctx -> kind_ok w k ->
  wf (poll_in_select tid k addr sd a ctx streams w).
Proof.
  intros Hr Hctx Hk. unfold poll_in_select.
  destruct (poll_select tid addr sd a ctx streams w) as [[[[sel a1] ctx1] ss1] w1] eqn:Hsel.
  pose proof (poll_select_fresh _ _ _ _ _ _ _ _ _ _ _ _ Hsel) as F.
  destruct (poll_select_running _ _ _ _ _ _ _ _ _ _ _ _ Hsel Hr Hctx) as [Hr1 Hc1].
  assert (Hk1 : kind_ok w1 k) by eauto with rt.
  assert (Hr2 : running tid addr (upd_bcast (fun b => bcast_drop b tid) sd w1))
    by (by apply (running_congr _ _ w1)).
  destruct sel as [[e|e]| | | | | | |]; auto using exit_loop_wf, loop_head_wf, end_task_wf.
  - destruct (MessageEnvelope_handle _ _ _ _) as [[[a2 ok] ctx2] w2] eqn:He.
    destruct (MessageEnvelope_handle_running _ _ _ _ _ _ _ _ _ _ He Hr2 Hc1) as [[Hr3 Hc3] F3].
    simpl in F3. destruct ok; [apply loop_head_wf|apply exit_loop_wf]; eauto with rt.
  - destruct (AsyncMessageEnvelope_handle _ _ _ _) as [[r ctx2] w2] eqn:He.
    destruct (AsyncMessageEnvelope_handle_running _ _ _ _ _ _ _ _ _ He Hr2 Hc1) as [[Hr3 Hc3] F3].
    simpl in F3. apply after_async_wf; eauto with rt.
  - apply put_actor_wf; try done. by intros ctx' [= <-].
Qed.

Lemma poll_actor_wf tid k addr sd ph w :
  wf w -> w_tasks w !! tid = Some (TActor k addr sd ph) -> wf (poll_actor tid k addr sd ph w).
Proof.
  intros Hw Ht. destruct (wf_actor _ Hw _ _ _ _ _ Ht) as [Ha Hk _ Hctx].
  assert (Hr : live ph = true -> running tid addr w) by (intros; split; eauto 6).
  destruct ph as [|a ctx streams|f tx ctx streams| |]; simpl in *; try done; specialize (Hr eq_refl).
  - destruct k as [actor ctx|f strategy tracker esc]; [|by apply child_start_wf].
    unfold root_start, run_started. destruct (run _ ctx _) as [[[a1 r1] ctx1] w1] eqn:Hrun.
    eapply (run_running tid addr) in Hrun as [Hr1 Hc1]; [|by apply running_log|by apply Hctx].
    destruct r1; [by apply loop_head_wf|by apply end_task_wf].
  - apply poll_in_select_wf; auto.
  - destruct (poll_async f tx ctx w) as [[r ctx1] w1] eqn:Hp.
    destruct (poll_async_running _ _ _ _ _ _ _ _ _ Hp Hr (Hctx _ eq_refl)) as [[Hr1 Hc1] F].
    apply after_async_wf; eauto with rt.
Qed.

(** ** Every step *)

Lemma timer_send_wf tid t0 a m again next w :
  w_tasks w !! tid = Some t0 ->
  match t0 with TActor _ _ _ _ => False | _ => True end ->
  match again with TActor _ _ _ _ => False | _ => True end ->
  match next with TActor _ _ _ _ => False | _ => True end ->
  wf w -> wf (timer_send tid a m again next w).
Proof.
  intros Ht H0 Ha Hn Hw. unfold timer_send, do_send.
  pose proof (sender_send_ext (addr_sender a) (Sync (MessageEnvelope_new m)) w) as Hx.
  assert (Htk : w_tasks (fst (sender_send (addr_sender a) (Sync (MessageEnvelope_new m)) w)) = w_tasks w)
    by (unfold sender_send; by repeat case_match).
  destruct (sender_send _ _ w) as [w1 p]. simpl in *.
  apply (wf_put_other _ t0); [by rewrite Htk|done|by destruct p|by apply (wf_ext_tasks w)].
Qed.

Lemma poll_task_wf tid w : wf w -> wf (poll_task tid w).
Proof.
  intros Hw. unfold poll_task. destruct (w_tasks w !! tid) as [t|] eqn:Ht; [|done].
  destruct t as [k addr sd ph|f|delay h a m t|period h a m t|reg name a t|]; [..|done].
  - by apply poll_actor_wf.
  - by apply poll_client_wf.
  - unfold poll_later. destruct t; repeat case_match; try done;
      solve [eapply timer_send_wf; [exact Ht|done..] | eapply wf_put_other; [exact Ht|done..]].
  - unfold poll_interval. destruct t; repeat case_match; try done;
      solve [eapply timer_send_wf; [exact Ht|done..] | eapply wf_put_other; [exact Ht|done..]].
  - assert (Hu : wf (unregister reg name w)) by (by apply (wf_congr w)).
    unfold poll_unregister. destruct t; repeat case_match; try done;
      (eapply wf_put_other; [exact Ht|done|done|assumption]).
Qed.

Lemma spawn_wf actor sd cap w w' a :
  spawn_with_shutdown actor sd cap w = Some (w', a) -> wf w -> wf w'.
Proof.
  unfold spawn_with_shutdown. destruct (new_actor cap w) as [[w1 a1]|] eqn:Hn; [|done].
  intros H Hw. destruct (new_actor_spec _ _ _ _ Hn Hw) as (Hw1 & Ha1 & Hs1 & Ht1 & c & Hc & Ho).
  simpl in H. injection H as <- <-.
  apply (wf_spawn_actor _ _ _ (fst (new_signal w1))); [done|..].
  - apply (wf_ext_tasks w1); [apply new_signal_ext|done|done].
  - unfold addr_ok in *. split; simpl; try done.
    + unfold addr_ok; simpl; lia.
    + eauto.
    + intros ctx [= <-]. split_and!; simpl; [done|done|lia].
  - by apply (wf_fresh_sender w).
Qed.

Lemma exec_wf l w : wf w -> wf (exec l w).
Proof.
  intros Hw. destruct l as [tid|d| |sys actor cap|sys|a|a m is_async|a m is_async timeout|
    sys name ty a|sys name ty a|sys name|h]; simpl; try (by apply (wf_congr w)).
  - by apply poll_task_wf.
  - destruct Hw as [H1 H2 H3 H4 H5]. split; simpl; [| |done| |done].
    + intros l c Hc. apply H1 in Hc. lia.
    + intros tid t Ht. apply H2 in Ht. lia.
    + intros tid k a sd ph Ht. eapply (actor_ok_congr w); simpl; [lia|done|eauto].
  - unfold spawn_with_capacity.
    destruct (spawn_with_shutdown _ _ _ w) as [[w' a]|] eqn:Hs; [|done]. eauto using spawn_wf.
  - destruct is_async.
    + apply (wf_ext_tasks w); [|done|]; unfold try_send_async;
        pose proof (sender_try_send_ext (addr_sender a) (Async (AsyncMessageEnvelope_new m)) w);
        destruct (sender_try_send _ _ w) eqn:Hs; [done|].
      unfold sender_try_send in Hs. repeat case_match; by simplify_eq.
    + apply (wf_ext_tasks w); [|done|]; unfold try_send;
        pose proof (sender_try_send_ext (addr_sender a) (Sync (MessageEnvelope_new m)) w);
        destruct (sender_try_send _ _ w) eqn:Hs; [done|].
      unfold sender_try_send in Hs. repeat case_match; by simplify_eq.
  - by apply (wf_spawn_other (TClient _) w).
  - apply (wf_spawn_other (TUnregister _ _ _ _) (register_manual _ _ _ _ w)); [done|].
    by apply (wf_congr w).
Qed.

Lemma wf0 : wf world0.
Proof. split; simpl; intros; simplify_map_eq. Qed.

Lemma exec_all_wf ls w : wf w -> wf (exec_all ls w).
Proof.
  unfold exec_all. revert w. induction ls as [|l ls IH]; intros w Hw; simpl; auto using exec_wf.
Qed.

Lemma reachable_wf w : reachable w -> wf w.
Proof. intros [ls ->]. apply exec_all_wf, wf0. Qed.

End Wf.
