(* ===== verification/Isolation.v ===== *)
(** * Isolation: a poll of one actor leaves the others alone

    [iso tid l w w'] relates the worlds before and after a poll of the task
    [tid] whose mailbox is at [l]: every other task is where it was and every
    other mailbox has at most gained messages, whatever the actor did and
    even if it panicked; no other actor is started, and a task that was not
    there before is the task of a new actor, not polled yet. *)

From S2P Require Import Prelude Tokio Supervisor Runtime Tasks Demo RuntimeFacts Wf.

Section Isolation.
Context {Y : Sys} {K : Tokio} {L : TokioLaws K} {B : Behaviour}.

(** The instants at which [started] was called for the actor whose mailbox is
    at [l], oldest first. *)
Definition start_of (l : loc) (e : Event) : option Z :=
  match e with EStarted a t => if decide (addr_sender a = l) then Some t else None | _ => None end.
Definition starts (l : loc) (w : World) : list Z := omap (start_of l) (w_log w).

Lemma starts_log l e w : starts l (log_event e w) = starts l w ++ omap (start_of l) [e].
Proof. unfold starts. simpl. by rewrite omap_app. Qed.

Record iso (tid : nat) (l : loc) (w w' : World) : Prop := mkIso {
  iso_fresh : w_fresh w <= w_fresh w';
  iso_chan l' c : l' <> l -> l' < w_fresh w -> w_chans w !! l' = Some c ->
    exists c', w_chans w' !! l' = Some c' /\ chan_ext c c';
  iso_task tid' t : tid' <> tid -> tid' < w_fresh w -> w_tasks w !! tid' = Some t ->
    if is_client t then exists r, w_tasks w' !! tid' = Some (TClient r)
    else w_tasks w' !! tid' = Some t;
  iso_watchers l' : l' < w_fresh w -> watchers_at w l' `prefix_of` watchers_at w' l';
  iso_cancelled h : h < w_fresh w -> is_cancelled h w = true -> is_cancelled h w' = true;
  iso_registries : w_registries w' = w_registries w;
  iso_now : w_now w' = w_now w;
  iso_born tid' t : tid' <> tid -> is_actor t = true -> w_tasks w' !! tid' = Some t ->
    w_tasks w !! tid' = Some t \/ newborn t;
  iso_starts l' : l' <> l -> starts l' w' = starts l' w;
}.

Lemma ext_iso tid l w w' : ext w w' -> iso tid l w w'.
Proof.
  intros Hx. split.
  - by apply ext_fresh.
  - intros l' c _ Hl Hc. by eapply ext_chan.
  - intros tid' t _ Hl Ht. by apply (ext_task _ _ Hx).
  - intros l' Hl. by apply ext_watchers.
  - by apply ext_cancelled.
  - by apply ext_registries.
  - by apply ext_now.
  - intros tid' t _. by apply (ext_born _ _ Hx).
  - intros l' _. unfold starts. by rewrite (ext_log _ _ Hx).
Qed.

#[global] Instance iso_preorder tid l : PreOrder (iso tid l).
Proof.
  split.
  - intros w. by apply ext_iso.
  - intros w1 w2 w3 H12 H23. pose proof (iso_fresh _ _ _ _ H12). pose proof (iso_fresh _ _ _ _ H23).
    split.
    + lia.
    + intros l' c Hne Hl Hc. destruct (iso_chan _ _ _ _ H12 l' c Hne Hl Hc) as (c2 & Hc2 & E1).
      destruct (iso_chan _ _ _ _ H23 l' c2 Hne) as (c3 & Hc3 & E2); [lia|done|].
      exists c3. split; [done|]. by etrans.
    + intros tid' t Hne Hl Ht. pose proof (iso_task _ _ _ _ H12 tid' t Hne Hl Ht) as H1.
      destruct (is_client t) eqn:Hct.
      * destruct H1 as [r Hr]. apply (iso_task _ _ _ _ H23 tid' (TClient r) Hne); [lia|done].
      * pose proof (iso_task _ _ _ _ H23 tid' t Hne) as H2. rewrite Hct in H2. apply H2; [lia|done].
    + intros l' Hl. etrans; [by apply (iso_watchers _ _ _ _ H12)|]. apply (iso_watchers _ _ _ _ H23). lia.
    + intros h Hl Hc. apply (iso_cancelled _ _ _ _ H23); [lia|]. by apply (iso_cancelled _ _ _ _ H12).
    + by rewrite (iso_registries _ _ _ _ H23), (iso_registries _ _ _ _ H12).
    + by rewrite (iso_now _ _ _ _ H23), (iso_now _ _ _ _ H12).
    + intros tid' t Hne Ha Ht. destruct (iso_born _ _ _ _ H23 tid' t Hne Ha Ht); [|by right].
      by apply (iso_born _ _ _ _ H12).
    + intros l' Hne. by rewrite (iso_starts _ _ _ _ H23 l' Hne), (iso_starts _ _ _ _ H12 l' Hne).
Qed.

(** ** The parts of a poll *)

(** Nothing but broadcasts, signals and oneshots changes. *)
Lemma iso_congr tid l w w' :
  w_fresh w' = w_fresh w -> w_chans w' = w_chans w -> w_tasks w' = w_tasks w ->
  w_watchers w' = w_watchers w -> w_flags w' = w_flags w -> w_registries w' = w_registries w ->
  w_now w' = w_now w -> (forall l', l' <> l -> starts l' w' = starts l' w) -> iso tid l w w'.
Proof.
  intros Hf Hc Ht Hww Hfl Hrg Hn Hst. split; unfold is_cancelled; rewrite ?Hfl; rewrite ?Hf, ?Hc, ?Ht; auto.
  - intros l' c _ _ H. exists c. split; [done|reflexivity].
  - intros tid' t _ _ H. destruct t; simpl; eauto.
  - intros l' _. unfold watchers_at. by rewrite Hww.
Qed.

Lemma iso_put_task tid l t w : iso tid l w (put_task tid t w).
Proof.
  split; simpl; auto.
  - intros l' c _ _ Hc. exists c. split; [done|reflexivity].
  - intros tid' t' Hne _ Ht. rewrite lookup_insert_ne by done. destruct t'; simpl; eauto.
  - intros tid' t' Hne _. rewrite lookup_insert_ne by done. auto.
Qed.

Lemma iso_set_chan tid l c w : iso tid l w (set_chans (<[l := c]> (w_chans w)) w).
Proof.
  split; simpl; auto.
  - intros l' c' Hne _ Hc. exists c'. rewrite lookup_insert_ne by done. split; [done|reflexivity].
  - intros tid' t _ _ Ht. destruct t; simpl; eauto.
Qed.

Lemma iso_close_mailbox tid addr w : iso tid (addr_sender addr) w (close_mailbox addr w).
Proof.
  unfold close_mailbox. destruct (w_chans w !! addr_sender addr) as [c|]; [|reflexivity].
  destruct (mpsc_drop_rx c) as [c' ms]. etrans; [apply (iso_set_chan _ _ c')|].
  apply ext_iso, foldl_ext. intros. apply drop_tx_ext.
Qed.

Lemma iso_end_task tid k addr sd ph w : iso tid (addr_sender addr) w (end_task tid k addr sd ph w).
Proof. etrans; [apply iso_close_mailbox|apply iso_put_task]. Qed.

Lemma iso_loop_head tid k addr sd a ctx streams w :
  iso tid (addr_sender addr) w (loop_head tid k addr sd a ctx streams w).
Proof.
  unfold loop_head. simpl. etrans; [|apply iso_put_task]. by apply iso_congr.
Qed.

Lemma iso_log tid l e w w' :
  match e with EStarted a _ => addr_sender a = l | _ => True end ->
  iso tid l (log_event e w) w' -> iso tid l w w'.
Proof.
  intros He H. etrans; [|exact H]. apply iso_congr; try done. intros l' Hne.
  rewrite starts_log. simpl. destruct e; simpl; rewrite ?app_nil_r; try done.
  rewrite decide_False by congruence. by rewrite app_nil_r.
Qed.

Lemma iso_run {X} tid l (p : Prog X) ctx w a r ctx' w' :
  run p ctx w = (a, r, ctx', w') -> iso tid l w w'.
Proof. intros. eapply ext_iso, run_ext; eauto. Qed.

Lemma iso_notify_watchers tid l addr w : iso tid l w (run_notify_watchers addr w).
Proof. eapply (iso_log _ _ (ENotified addr _)); [done|]. apply ext_iso, notify_watchers_ext. Qed.

Lemma iso_child_start tid f strategy tracker esc addr sd w :
  iso tid (addr_sender addr) w (child_start tid f strategy tracker esc addr sd w).
Proof.
  unfold child_start. destruct (factory_call f) as [[child f']|]; [|apply iso_end_task].
  destruct (Context_with_stop_signal _ _ _ w) as [w0 ctx0] eqn:Hctx0.
  unfold run_started. destruct (run _ ctx0 _) as [[[a1 r1] ctx1] w1] eqn:Hrun.
  assert (H0 : iso tid (addr_sender addr) w w0).
  { unfold Context_with_stop_signal in Hctx0. pose proof (new_signal_ext w) as Hx.
    destruct (new_signal w) as [w2 e]; simplify_eq. by apply ext_iso. }
  etrans; [exact H0|]. eapply (iso_log _ _ (EStarted addr _)); [done|].
  etrans; [eapply iso_run; eauto|]. destruct r1; [apply iso_loop_head|apply iso_end_task].
Qed.

Lemma iso_child_terminate tid k addr sd w :
  iso tid (addr_sender addr) w (child_terminate tid k addr sd w).
Proof. etrans; [apply iso_notify_watchers|apply iso_end_task]. Qed.

Lemma iso_supervise tid f strategy tracker esc addr sd b w :
  iso tid (addr_sender addr) w (supervise tid f strategy tracker esc addr sd b w).
Proof.
  unfold supervise. repeat case_match; auto using iso_child_terminate, iso_child_start.
  etrans; [|apply iso_child_terminate]. apply ext_iso, notify_one_ext.
Qed.

Lemma iso_exit_loop tid k addr sd a ctx b w :
  iso tid (addr_sender addr) w (exit_loop tid k addr sd a ctx b w).
Proof.
  destruct k as [actor ctx0|f strategy tracker esc]; simpl.
  - unfold root_exit, run_stopped.
    destruct (run (stopped a) ctx _) as [[[a1 r1] ctx1] w1] eqn:Hrun.
    etrans; [apply (iso_notify_watchers _ _ addr)|].
    etrans; [apply ext_iso, (stop_children_ext ctx)|].
    eapply (iso_log _ _ (EStopped addr _)); [done|].
    etrans; [eapply iso_run; eauto|]. apply iso_end_task.
  - unfold child_exit, run_stopped.
    destruct (run (stopped a) ctx _) as [[[a1 r1] ctx1] w1] eqn:Hrun.
    etrans; [apply ext_iso, (stop_children_ext ctx)|].
    eapply (iso_log _ _ (EStopped addr _)); [done|].
    etrans; [eapply iso_run; eauto|]. destruct r1; [apply iso_supervise|apply iso_end_task].
Qed.

Lemma iso_poll_streams tid l streams a ctx w streams' a' ctx' w' r :
  poll_streams streams a ctx w = (streams', a', ctx', w', r) -> iso tid l w w'.
Proof.
  revert a ctx w streams' a' ctx' w' r.
  induction streams as [|s rest IH]; intros a ctx w streams' a' ctx' w' r H; simpl in H.
  { by simplify_eq. }
  destruct (StreamWrapper_poll_next s a ctx w) as [[[[s1 a1] ctx1] w1] r1] eqn:H1.
  assert (Hs : iso tid l w w1).
  { unfold StreamWrapper_poll_next in H1.
    destruct (stream_poll_next s) as [s2 [|[item|]]]; [by simplify_eq| |];
      destruct (run _ ctx w) as [[[? ?] ?] ?] eqn:Hrun; simplify_eq; by eapply iso_run. }
  etrans; [exact Hs|]. destruct r1 as [p|]; [|by simplify_eq].
  destruct (poll_streams rest a1 ctx1 w1) as [[[[rest2 a2] ctx2] w2] r2] eqn:H2.
  specialize (IH _ _ _ _ _ _ _ _ H2). destruct p as [|[]]; by simplify_eq.
Qed.

Lemma iso_poll_select tid addr sd a ctx streams w sel a' ctx' streams' w' :
  poll_select tid addr sd a ctx streams w = (sel, a', ctx', streams', w') ->
  iso tid (addr_sender addr) w w'.
Proof.
  unfold poll_select. destruct (recv_mailbox addr w) as [w1 p] eqn:Hrecv. intros H.
  assert (H1 : iso tid (addr_sender addr) w w1).
  { clear H. unfold recv_mailbox in Hrecv.
    repeat case_match; simplify_eq; [apply iso_set_chan|reflexivity]. }
  etrans; [exact H1|]. destruct p as [|[m|]]; [|by simplify_eq..].
  destruct (match streams with [] => _ | _ :: _ => _ end) as [[[[ss2 a2] ctx2] w2] r] eqn:Hps.
  assert (Hs : iso tid (addr_sender addr) w1 w2).
  { destruct streams; [by simplify_eq|]. eauto using iso_poll_streams. }
  etrans; [exact Hs|]. unfold poll_signal in H.
  repeat case_match; simplify_eq; try reflexivity; by apply iso_congr.
Qed.

Lemma iso_poll_async tid l f tx ctx w r ctx' w' :
  poll_async f tx ctx w = (r, ctx', w') -> iso tid l w w'.
Proof.
  unfold poll_async. destruct f as [p]. destruct (run p ctx w) as [[[a1 r1] ctx1] w1] eqn:Hrun.
  intros H. etrans; [by eapply iso_run|].
  destruct r1 as [[x|f']|]; simplify_eq; [|reflexivity|];
    apply ext_iso; auto using reply_ext, drop_tx_ext.
Qed.

Lemma iso_after_async tid k addr sd tx streams r ctx w :
  iso tid (addr_sender addr) w (after_async tid k addr sd tx streams r ctx w).
Proof. destruct r; simpl; auto using iso_put_task, iso_loop_head, iso_exit_loop. Qed.

Lemma iso_poll_in_select tid k addr sd a ctx streams w :
  iso tid (addr_sender addr) w (poll_in_select tid k addr sd a ctx streams w).
Proof.
  unfold poll_in_select.
  destruct (poll_select tid addr sd a ctx streams w) as [[[[sel a1] ctx1] ss1] w1] eqn:Hsel.
  etrans; [by eapply iso_poll_select|]. destruct sel as [m| | | | | | |]; try apply iso_put_task;
    (etrans; [apply (iso_congr _ _ w1 (upd_bcast (fun b => bcast_drop b tid) sd w1)); done|]);
    auto using iso_exit_loop, iso_loop_head, iso_end_task.
  destruct m as [e|e].
  - destruct (MessageEnvelope_handle _ _ _ _) as [[[a2 ok] ctx2] w2] eqn:He.
    assert (H2 : iso tid (addr_sender addr) (upd_bcast (fun b => bcast_drop b tid) sd w1) w2).
    { unfold MessageEnvelope_handle in He. destruct (msg e).
      - destruct (run _ _ _) as [[[a3 r3] ctx3] w3] eqn:Hrun. etrans; [by eapply iso_run|].
        destruct r3; simplify_eq; apply ext_iso; auto using reply_ext, drop_tx_ext.
      - simplify_eq. apply ext_iso, drop_tx_ext. }
    etrans; [exact H2|]. destruct ok; [apply iso_loop_head|apply iso_exit_loop].
  - destruct (AsyncMessageEnvelope_handle _ _ _ _) as [[r ctx2] w2] eqn:He.
    assert (H2 : iso tid (addr_sender addr) (upd_bcast (fun b => bcast_drop b tid) sd w1) w2).
    { unfold AsyncMessageEnvelope_handle in He. destruct (amsg e); [by eapply iso_poll_async|].
      simplify_eq. apply ext_iso, drop_tx_ext. }
    etrans; [exact H2|]. apply iso_after_async.
Qed.

Lemma iso_poll_actor tid k addr sd ph w :
  iso tid (addr_sender addr) w (poll_actor tid k addr sd ph w).
Proof.
  destruct ph as [|a ctx streams|f tx ctx streams| |]; simpl; try reflexivity.
  - destruct k as [actor ctx|f strategy tracker esc]; [|apply iso_child_start].
    unfold root_start, run_started. destruct (run _ ctx _) as [[[a1 r1] ctx1] w1] eqn:Hrun.
    eapply (iso_log _ _ (EStarted addr _)); [done|]. etrans; [by eapply iso_run|].
    destruct r1; [apply iso_loop_head|apply iso_end_task].
  - apply iso_poll_in_select.
  - destruct (poll_async f tx ctx w) as [[r ctx1] w1] eqn:Hp.
    etrans; [by eapply iso_poll_async|]. apply iso_after_async.
Qed.

End Isolation.
