(* ===== verification/Lifecycle.v ===== *)
(** * Lifecycle: addresses, mailboxes and the life of an actor

    What a holder of an [Addr] can rely on, for every reachable state of a
    system and every interleaving of its tasks: [is_alive] tells whether the
    task runs, a dead actor stays dead and refuses messages, other actors
    neither move its task nor take from its mailbox, and messages are handled
    one by one in the order they were queued, before any stop request. *)

From S2P Require Import Prelude Tokio Supervisor Runtime Tasks Demo RuntimeFacts Wf Isolation.

Section Lifecycle.
Context {Y : Sys} {K : Tokio} {L : TokioLaws K} {B : Behaviour}.

(** ** Frames: what a step of somebody else leaves in place *)

Lemma timer_send_ext a m w : ext w (fst (do_send a m w)) /\ w_tasks (fst (do_send a m w)) = w_tasks w.
Proof.
  unfold do_send. pose proof (sender_send_ext (addr_sender a) (Sync (MessageEnvelope_new m)) w).
  split.
  - by destruct (sender_send _ _ w).
  - unfold sender_send. by repeat case_match; simplify_eq.
Qed.

(** The steps of the tasks that are not actors: they move themselves and at
    most add a message to a mailbox. *)
Lemma poll_other_iso tid w :
  match w_tasks w !! tid with Some (TActor _ _ _ _) => False | _ => True end ->
  exists w1, ext w w1 /\
    w_chans (poll_task tid w) = w_chans w1 /\ w_flags (poll_task tid w) = w_flags w1 /\
    w_fresh (poll_task tid w) = w_fresh w1 /\
    (forall tid' t, tid' <> tid -> tid' < w_fresh w -> w_tasks w !! tid' = Some t ->
       w_tasks (poll_task tid w) !! tid' = Some t).
Proof.
  unfold poll_task. intros Hn. destruct (w_tasks w !! tid) as [t|] eqn:Ht;
    [|exists w; by split_and!].
  assert (Hput : forall w1 t, ext w w1 -> w_tasks w1 = w_tasks w ->
    exists w2, ext w w2 /\ w_chans (put_task tid t w1) = w_chans w2 /\
      w_flags (put_task tid t w1) = w_flags w2 /\
      w_fresh (put_task tid t w1) = w_fresh w2 /\
      (forall tid' t0, tid' <> tid -> tid' < w_fresh w -> w_tasks w !! tid' = Some t0 ->
       w_tasks (put_task tid t w1) !! tid' = Some t0)).
  { intros w1 t1 Hx Htk. exists w1. split_and!; try done. intros tid' t' Hne _ Ht'. simpl.
    by rewrite lookup_insert_ne, Htk by done. }
  assert (Hts : forall a m t1 t2, exists w2, ext w w2 /\
      w_chans (timer_send tid a m t1 t2 w) = w_chans w2 /\
      w_flags (timer_send tid a m t1 t2 w) = w_flags w2 /\
      w_fresh (timer_send tid a m t1 t2 w) = w_fresh w2 /\
      (forall tid' t0, tid' <> tid -> tid' < w_fresh w -> w_tasks w !! tid' = Some t0 ->
       w_tasks (timer_send tid a m t1 t2 w) !! tid' = Some t0)).
  { intros a m t1 t2. unfold timer_send. destruct (timer_send_ext a m w) as [Hx Htk].
    destruct (do_send a m w) as [w1 p]. by apply Hput. }
  destruct t as [k addr sd ph|f|delay h a m t|period h a m t|reg name a t|]; [done|..].
  - unfold poll_client. rewrite Ht. destruct f as [f|r]; [|exists w; by split_and!].
    pose proof (poll_send_ext f w). pose proof (poll_send_tasks f w).
    destruct (poll_send f w) as [w1 r]. by apply Hput.
  - unfold poll_later. destruct t; repeat case_decide; try case_match;
      solve [by apply Hput | apply Hts | exists w; by split_and!].
  - unfold poll_interval. destruct t; repeat case_decide; try case_match;
      solve [by apply Hput | apply Hts | exists w; by split_and!].
  - unfold poll_unregister. destruct t; repeat case_decide; try case_match;
      try (by apply Hput); try (exists w; by split_and!);
      (exists w; split_and!; try done; intros tid' t' Hne _ Ht'; simpl; by rewrite lookup_insert_ne).
  - exists w; by split_and!.
Qed.

(** What any step but a poll of [tid] itself leaves to the actor [tid]. *)
Record keeps (tid : nat) (addr : Addr) (w w' : World) : Prop := mkKeeps {
  keeps_task k sd ph :
    w_tasks w !! tid = Some (TActor k addr sd ph) -> w_tasks w' !! tid = Some (TActor k addr sd ph);
  keeps_chan c : w_chans w !! addr_sender addr = Some c ->
    exists c', w_chans w' !! addr_sender addr = Some c' /\ chan_ext c c';
}.

Lemma keeps_ext tid addr w w' :
  ext w w' -> wf w -> is_Some (w_tasks w !! tid) -> addr_ok w addr -> keeps tid addr w w'.
Proof.
  intros Hx Hw [t Ht] [Ha _]. pose proof (wf_tasks _ Hw _ _ Ht) as Hlt. split.
  - intros k sd ph Ht'. apply (ext_task _ _ Hx _ _ Hlt Ht').
  - intros c Hc. by apply (ext_chan _ _ Hx).
Qed.

Lemma keeps_congr tid addr w w' :
  w_tasks w' = w_tasks w -> w_chans w' = w_chans w -> keeps tid addr w w'.
Proof. intros Ht Hc. split; rewrite ?Ht, ?Hc; [done|]. intros c H. exists c. split; [done|reflexivity]. Qed.

Lemma spawn_ext actor sd cap w w' a :
  spawn_with_shutdown actor sd cap w = Some (w', a) -> ext w w'.
Proof.
  unfold spawn_with_shutdown. destruct (new_actor cap w) as [[w1 a1]|] eqn:Hn; [|done].
  intros H. simpl in H. injection H as <- <-. etrans; [by eapply new_actor_ext|].
  etrans; [apply (new_signal_ext w1)|]. by apply (spawn_task_ext (TActor _ _ _ _) (fst (new_signal w1))).
Qed.

Lemma exec_keeps l tid k addr sd ph w :
  wf w -> w_tasks w !! tid = Some (TActor k addr sd ph) -> l <> LPoll tid ->
  keeps tid addr w (exec l w).
Proof.
  intros Hw Ht Hl. destruct (wf_actor _ Hw _ _ _ _ _ Ht) as [Ha _ _ _].
  pose proof (wf_tasks _ Hw _ _ Ht) as Hlt.
  assert (Hext : forall w', ext w w' -> keeps tid addr w w') by (intros; eapply keeps_ext; eauto).
  destruct l as [tid'|d| |sys actor cap|sys|a|a m is_async|a m is_async timeout|
    sys name ty a|sys name ty a|sys name|h]; simpl; try (by apply keeps_congr).
  - assert (tid' <> tid) as Hne by congruence.
    destruct (w_tasks w !! tid') as [t|] eqn:Ht'; [|unfold poll_task; rewrite Ht'; by apply keeps_congr].
    assert (Hcase : (exists k a sd ph, t = TActor k a sd ph) \/
      match t with TActor _ _ _ _ => False | _ => True end) by (destruct t; eauto 6).
    destruct Hcase as [(k' & a' & sd' & ph' & ->)|Hna].
    + unfold poll_task. rewrite Ht'. pose proof (iso_poll_actor tid' k' a' sd' ph' w) as Hi. split.
      * intros k1 sd1 ph1 H1. by apply (iso_task _ _ _ _ Hi) in H1.
      * intros c Hc. destruct Ha as [Ha _]. apply (iso_chan _ _ _ _ Hi); [|done|done].
        intros Heq. apply Hne. symmetry. by eapply (wf_inj _ Hw).
    + destruct (poll_other_iso tid' w) as (w1 & Hx & Hc & _ & _ & Htk).
      { by rewrite Ht'. }
      split.
      * intros k1 sd1 ph1 H1. apply Htk; [congruence|done|done].
      * intros c Hc0. rewrite Hc. destruct Ha as [Ha _]. by apply (ext_chan _ _ Hx).
  - unfold spawn_with_capacity. destruct (spawn_with_shutdown _ _ _ w) as [[w' a]|] eqn:Hs.
    + eauto using spawn_ext.
    + by apply keeps_congr.
  - apply Hext. destruct is_async; [unfold try_send_async|unfold try_send].
    + pose proof (sender_try_send_ext (addr_sender a) (Async (AsyncMessageEnvelope_new m)) w).
      by destruct (sender_try_send _ _ w).
    + pose proof (sender_try_send_ext (addr_sender a) (Sync (MessageEnvelope_new m)) w).
      by destruct (sender_try_send _ _ w).
  - by apply Hext, (spawn_task_ext (TClient _) w).
  - pose proof (spawn_task_ext (TUnregister (sys_registry sys) name a TNew)
      (register_manual (sys_registry sys) name ty a w) I) as Hx.
    apply (keeps_ext tid addr) in Hx; [| |done|done].
    + destruct Hx as [X1 X2]. split; [exact X1|exact X2].
    + by apply (wf_congr w).
Qed.

(** A finished actor is left alone for ever. *)
Lemma exec_all_dead ls tid k addr sd ph w :
  wf w -> w_tasks w !! tid = Some (TActor k addr sd ph) -> live ph = false ->
  w_tasks (exec_all ls w) !! tid = Some (TActor k addr sd ph).
Proof.
  unfold exec_all. revert w. induction ls as [|l ls IH]; intros w Hw Ht Hd; simpl; [done|].
  apply IH; [by apply exec_wf| |done].
  assert (Hcase : l = LPoll tid \/ l <> LPoll tid).
  { destruct l as [tid'|d| |sys actor cap|sys|a|a m b|a m b t|sys n ty a|sys n ty a|sys n|h];
      try (by right). destruct (decide (tid' = tid)) as [->|]; [by left|right; congruence]. }
  destruct Hcase as [->|Hl].
  - simpl. unfold poll_task. rewrite Ht. by destruct ph.
  - by apply (keeps_task _ _ _ _ (exec_keeps l _ _ _ _ _ w Hw Ht Hl)).
Qed.

Lemma actor_chan tid k addr sd ph w :
  wf w -> w_tasks w !! tid = Some (TActor k addr sd ph) ->
  exists c, w_chans w !! addr_sender addr = Some c /\ mpsc_open c = live ph.
Proof. intros Hw Ht. by destruct (wf_actor _ Hw _ _ _ _ _ Ht). Qed.

Lemma is_alive_live tid k addr sd ph w :
  wf w -> w_tasks w !! tid = Some (TActor k addr sd ph) -> is_alive addr w = live ph.
Proof.
  intros Hw Ht. destruct (actor_chan _ _ _ _ _ _ Hw Ht) as (c & Hc & Ho).
  unfold is_alive, sender_is_closed. rewrite Hc, mpsc_is_closed_spec, Ho. by destruct (live ph).
Qed.

(** ** Handling the queue *)

(** The actor [tid] is parked in [select!] with the messages [q] queued. *)
Definition parked (tid : nat) (k : Kind) (addr : Addr) (sd : loc) (a : St) (ctx : Context)
    (streams : list Strm) (q : list ActorMessage) (w : World) : Prop :=
  w_tasks w !! tid = Some (TActor k addr sd (PSelect a ctx streams)) /\
  mpsc_queue <$> w_chans w !! addr_sender addr = Some q.

Lemma recv_mailbox_some addr w c m q :
  w_chans w !! addr_sender addr = Some c -> mpsc_queue c = m :: q ->
  exists c', recv_mailbox addr w =
      (set_chans (<[addr_sender addr := c']> (w_chans w)) w, Ready (Some m)) /\
    mpsc_queue c' = q /\ mpsc_open c' = mpsc_open c.
Proof.
  intros Hc Hq. destruct (mpsc_recv_some _ _ _ _ Hq) as (c' & Hr & Hq' & Ho).
  exists c'. unfold recv_mailbox. by rewrite Hc, Hr.
Qed.

Lemma recv_mailbox_empty addr w c :
  w_chans w !! addr_sender addr = Some c -> mpsc_queue c = [] ->
  exists c' p, recv_mailbox addr w =
      (set_chans (<[addr_sender addr := c']> (w_chans w)) w, p) /\ (p = Pending \/ p = Ready None) /\
    mpsc_queue c' = [] /\ mpsc_open c' = mpsc_open c.
Proof.
  intros Hc Hq. destruct (mpsc_recv_empty _ _ Hq) as (c' & p & Hr & Hp & Hq' & Ho).
  exists c', p. unfold recv_mailbox. by rewrite Hc, Hr.
Qed.

Lemma reply_fields tx r w :
  w_chans (reply tx r w) = w_chans w /\ w_tasks (reply tx r w) = w_tasks w /\
  w_bcasts (reply tx r w) = w_bcasts w.
Proof. destruct tx; simpl; [|done]. unfold upd_oneshot. by case_match. Qed.

(** What one poll of an actor with a message queued changes when the handler
    returns at once: the head is taken from the mailbox, the reply is made and
    the actor is back in its loop, whatever signals are pending. *)
Lemma poll_head_world tid k addr sd a ctx streams e m q a' r w :
  parked tid k addr sd a ctx streams (Sync e :: q) w -> ctx_streams ctx = [] ->
  msg e = Some m -> handle a m = Ret a' r ->
  let w' := poll_task tid w in
  exists c c', w_chans w !! addr_sender addr = Some c /\ fst (mpsc_recv c) = c' /\ mpsc_queue c' = q /\
    w_chans w' = <[addr_sender addr := c']> (w_chans w) /\
    w_tasks w' = <[tid := TActor k addr sd (PSelect a' ctx streams)]> (w_tasks w) /\
    w_oneshots w' = w_oneshots (reply (response_tx e) r w) /\
    w_fresh w' = w_fresh w /\ w_now w' = w_now w.
Proof.
  intros [Ht Hq] Hs Hm Hh. destruct (w_chans w !! addr_sender addr) as [c|] eqn:Hc; [|done].
  simpl in Hq. injection Hq as Hq. destruct (mpsc_recv_some _ _ _ _ Hq) as (c' & Hr & Hq' & _).
  exists c, c'. unfold poll_task. rewrite Ht. simpl.
  unfold poll_in_select, poll_select, recv_mailbox. rewrite Hc, Hr. simpl.
  unfold MessageEnvelope_handle. rewrite Hm, Hh. simpl. unfold loop_head, take_streams. simpl.
  rewrite Hs, app_nil_r.
  replace (set_ctx_streams [] ctx) with ctx by (destruct ctx; simpl in *; by subst).
  match goal with |- context [reply _ _ ?w0] => destruct (reply_fields (response_tx e) r w0) as (F1 & F2 & _) end.
  rewrite F1, F2. simpl. split_and!; try done; destruct (response_tx e) as [l|]; simpl; try done;
    unfold upd_oneshot; simpl; by destruct (w_oneshots w !! l).
Qed.

(** One poll handles the head of the queue. *)
Lemma poll_handles_head tid k addr sd a ctx streams e m q a' r w :
  parked tid k addr sd a ctx streams (Sync e :: q) w -> ctx_streams ctx = [] ->
  msg e = Some m -> handle a m = Ret a' r ->
  parked tid k addr sd a' ctx streams q (poll_task tid w) /\
  w_oneshots (poll_task tid w) = w_oneshots (reply (response_tx e) r w).
Proof.
  intros Hp Hs Hm Hh.
  destruct (poll_head_world _ _ _ _ _ _ _ _ _ _ _ _ _ Hp Hs Hm Hh) as (c & c' & _ & _ & Hq & Hc & Ht & Ho & _).
  split; [|done]. split; [by rewrite Ht, lookup_insert_eq|]. rewrite Hc, lookup_insert_eq. simpl. by rewrite Hq.
Qed.

(** The effect of a queue of messages whose handlers compute [f]: the state
    reached and the replies made, in order. *)
Definition env_msg (e : MessageEnvelope) : Msg := default (Terminated 0) (msg e).
Definition handle_all (f : St -> Msg -> St * Rsp) (es : list MessageEnvelope) (a : St) : St :=
  foldl (fun a e => fst (f a (env_msg e))) a es.
Fixpoint reply_all (f : St -> Msg -> St * Rsp) (es : list MessageEnvelope) (a : St) (w : World)
  : World :=
  match es with
  | [] => w
  | e :: es =>
      let '(a, r) := f a (env_msg e) in reply_all f es a (reply (response_tx e) r w)
  end.

Lemma reply_all_oneshots f es a w w' :
  w_oneshots w = w_oneshots w' -> w_oneshots (reply_all f es a w) = w_oneshots (reply_all f es a w').
Proof.
  revert a w w'. induction es as [|e es IH]; intros a w w' H; simpl; [done|].
  destruct (f a (env_msg e)) as [a' r]. apply IH. destruct (response_tx e); simpl; [|done].
  unfold upd_oneshot. rewrite H. by destruct (w_oneshots w' !! _); simpl; rewrite ?H.
Qed.

(** ** Stopping *)

(** A program that does not panic, wherever it runs. *)
Definition returns {X} (p : Prog X) : Prop :=
  forall ctx w, exists x, snd (fst (fst (run p ctx w))) = Some x.

(** After an orderly exit: the task is done, the mailbox closed, and every
    child has been told to stop. *)
Definition stopped_cleanly (tid : nat) (addr : Addr) (children : list Addr) (w : World) : Prop :=
  (exists k sd, w_tasks w !! tid = Some (TActor k addr sd PDone)) /\
  is_alive addr w = false /\
  Forall (fun c => signal_permit (signal_at w (addr_stop_signal c)) = true) children.

Lemma close_mailbox_signals addr w : w_signals (close_mailbox addr w) = w_signals w.
Proof.
  unfold close_mailbox. destruct (w_chans w !! _) as [c|]; [|done].
  destruct (mpsc_drop_rx c) as [c' ms].
  assert (H : forall ms w, w_signals (foldl (fun w m => drop_tx (message_tx m) w) w ms) = w_signals w).
  { clear. intros ms. induction ms as [|m ms IH]; intros w; simpl; [done|]. rewrite IH.
    unfold drop_tx, upd_oneshot. by repeat case_match. }
  by rewrite H.
Qed.

Lemma end_task_stopped tid k addr sd w :
  running tid addr w ->
  (exists k' sd', w_tasks (end_task tid k addr sd PDone w) !! tid = Some (TActor k' addr sd' PDone)) /\
  is_alive addr (end_task tid k addr sd PDone w) = false.
Proof.
  intros Hr. destruct (close_mailbox_spec _ _ _ Hr) as (Ht & Hf & c' & Hc & Ho & Hq). split.
  - exists k, sd. simpl. by simplify_map_eq.
  - unfold is_alive, sender_is_closed, end_task. simpl. rewrite Hc, lookup_insert_eq.
    by rewrite mpsc_is_closed_spec, Ho.
Qed.

Lemma permit_notified_end tid k addr sd ph l w :
  signal_permit (signal_at w l) = true ->
  signal_permit (signal_at (end_task tid k addr sd ph w) l) = true.
Proof. unfold signal_at, end_task. simpl. by rewrite close_mailbox_signals. Qed.

Lemma stop_children_permits ctx w :
  Forall (fun c => signal_permit (signal_at (stop_children ctx w) (addr_stop_signal c)) = true)
    (ctx_children ctx).
Proof. apply Forall_forall. intros c Hc. by apply stop_children_permit. Qed.

(** Running [stopped] and notifying the watchers do not take permits back. *)
Lemma permits_ext children w w' :
  ext w w' -> Forall (addr_ok w) children ->
  Forall (fun c => signal_permit (signal_at w (addr_stop_signal c)) = true) children ->
  Forall (fun c => signal_permit (signal_at w' (addr_stop_signal c)) = true) children.
Proof.
  intros Hx Hok Hp. apply Forall_forall. intros c Hc.
  rewrite Forall_forall in Hok, Hp. apply (ext_permit _ _ Hx); [apply (Hok c Hc)|by apply Hp].
Qed.

Lemma child_terminate_clean tid k addr sd children w :
  running tid addr w -> Forall (addr_ok w) children ->
  Forall (fun c => signal_permit (signal_at w (addr_stop_signal c)) = true) children ->
  stopped_cleanly tid addr children (child_terminate tid k addr sd w).
Proof.
  intros Hr Hok Hp. unfold child_terminate.
  destruct (end_task_stopped tid k addr sd _ (run_notify_watchers_running _ _ _ Hr)) as [H1 H2].
  split; [exact H1|split; [exact H2|]]. eapply Forall_impl.
  - apply (permits_ext children (log_event (ENotified addr (w_now w)) w)
      (run_notify_watchers addr w)); [apply notify_watchers_ext|exact Hok|exact Hp].
  - intros c. apply permit_notified_end.
Qed.

Lemma run_after_stop_children tid addr ctx a w a1 r1 ctx1 w1 :
  run_stopped addr a ctx (stop_children ctx w) = (a1, r1, ctx1, w1) ->
  running tid addr w -> ctx_ok w addr ctx ->
  running tid addr w1 /\ Forall (addr_ok w1) (ctx_children ctx) /\
  Forall (fun c => signal_permit (signal_at w1 (addr_stop_signal c)) = true) (ctx_children ctx).
Proof.
  unfold run_stopped. intros Hrun Hr Hctx.
  pose proof (run_ext _ _ _ _ _ _ _ Hrun) as Hx. pose proof (ext_fresh _ _ Hx) as Hf. simpl in Hf.
  pose proof (ext_fresh _ _ (stop_children_ext ctx w)) as Hf1.
  assert (Hok : Forall (addr_ok (stop_children ctx w)) (ctx_children ctx)).
  { eapply Forall_impl; [apply Hctx|]. intros; by eapply addr_ok_mono. }
  eapply (run_running tid addr) in Hrun as [Hr1 _].
  - split_and!; [done| |].
    + eapply Forall_impl; [apply Hok|]. intros; by eapply addr_ok_mono.
    + eapply permits_ext; [exact Hx|exact Hok|]. apply stop_children_permits.
  - by apply running_log, stop_children_running.
  - eapply ctx_ok_mono; [|done]. simpl. lia.
Qed.

(** Leaving the loop without a panic. *)
Lemma exit_loop_clean tid k addr sd a ctx w :
  running tid addr w -> ctx_ok w addr ctx -> returns (stopped a) ->
  stopped_cleanly tid addr (ctx_children ctx) (exit_loop tid k addr sd a ctx false w).
Proof.
  intros Hr Hctx Hret. destruct k as [actor ctx0|f strategy tracker esc]; simpl.
  - unfold root_exit.
    destruct (run_stopped addr a ctx _) as [[[a1 r1] ctx1] w1] eqn:Hrun.
    destruct (run_after_stop_children tid _ _ _ _ _ _ _ _ Hrun) as (Hr1 & Hok & Hp).
    + by apply run_notify_watchers_running.
    + eapply ctx_ok_mono; [apply run_notify_watchers_fresh|done].
    + unfold run_stopped in Hrun.
      destruct (Hret ctx (log_event (EStopped addr (w_now (stop_children ctx (run_notify_watchers addr w))))
        (stop_children ctx (run_notify_watchers addr w)))) as [x Hx]. rewrite Hrun in Hx. simpl in Hx.
      subst r1. destruct (end_task_stopped tid (KRoot actor ctx0) addr sd _ Hr1) as [H1 H2].
      split; [exact H1|split; [exact H2|]]. eapply Forall_impl; [exact Hp|]. intros c. apply permit_notified_end.
  - unfold child_exit.
    destruct (run_stopped addr a ctx _) as [[[a1 r1] ctx1] w1] eqn:Hrun.
    destruct (run_after_stop_children tid _ _ _ _ _ _ _ _ Hrun Hr Hctx) as (Hr1 & Hok & Hp).
    unfold run_stopped in Hrun.
    destruct (Hret ctx (log_event (EStopped addr (w_now (stop_children ctx w)))
      (stop_children ctx w))) as [x Hx]. rewrite Hrun in Hx. simpl in Hx. subst r1.
    by apply child_terminate_clean.
Qed.

(** A task that is parked is running. *)
Lemma parked_running tid k addr sd a ctx streams q w :
  wf w -> parked tid k addr sd a ctx streams q w ->
  running tid addr w /\ ctx_ok w addr ctx /\
  exists c, w_chans w !! addr_sender addr = Some c /\ mpsc_queue c = q /\ mpsc_open c = true.
Proof.
  intros Hw [Ht Hq]. destruct (wf_actor _ Hw _ _ _ _ _ Ht) as [_ _ (c & Hc & Ho) Hctx].
  rewrite Hc in Hq. simpl in Hq. injection Hq as Hq. split_and!; eauto.
  split; [done|]. eauto 6.
Qed.

(** What a poll has touched when it leaves the [select!] of an idle actor: its
    own mailbox and stop signal, and the futures it drops. *)
Record selected (addr : Addr) (w w1 : World) : Prop := mkSelected {
  sd_tasks : w_tasks w1 = w_tasks w;
  sd_watchers : w_watchers w1 = w_watchers w;
  sd_chans l : l <> addr_sender addr -> w_chans w1 !! l = w_chans w !! l;
  sd_signals l : l <> addr_stop_signal addr -> signal_at w1 l = signal_at w l;
}.

(** A parked actor without messages and streams leaves its loop when the
    channel is closed, or when a shutdown or a stop request is there. *)
Lemma poll_idle_exits tid k addr sd a ctx w :
  wf w -> parked tid k addr sd a ctx [] [] w ->
  bcast_woken (bcast_at w sd) tid = true \/
  signal_permit (signal_at w (addr_stop_signal addr)) = true ->
  exists w1, poll_task tid w = exit_loop tid k addr sd a ctx false w1 /\
    running tid addr w1 /\ ctx_ok w1 addr ctx /\ selected addr w w1.
Proof.
  intros Hw Hp Hsig. destruct (parked_running _ _ _ _ _ _ _ _ _ Hw Hp) as (Hr & Hctx & c & Hc & Hq & Ho).
  destruct Hp as [Ht _]. unfold poll_task. rewrite Ht. simpl. unfold poll_in_select.
  destruct (poll_select tid addr sd a ctx [] w) as [[[[sel a1] ctx1] ss1] w1] eqn:Hsel.
  destruct (poll_select_running _ _ _ _ _ _ _ _ _ _ _ _ Hsel Hr Hctx) as [Hr1 Hctx1].
  assert (Hcase : (sel = SelClosed \/ sel = SelShutdown \/ sel = SelStop) /\ a1 = a /\ ctx1 = ctx /\
    selected addr w w1).
  { unfold poll_select in Hsel.
    destruct (recv_mailbox_empty _ _ _ Hc Hq) as (c' & p & Hrecv & Hp & _). rewrite Hrecv in Hsel.
    assert (Hrs : selected addr w (set_chans (<[addr_sender addr := c']> (w_chans w)) w)).
    { split; simpl; try done. intros l Hl. by rewrite lookup_insert_ne. }
    destruct Hp as [->| ->]; [|by simplify_eq; auto].
    simpl in Hsel. unfold bcast_at in *. simpl in Hsel. rewrite bcast_poll_ready in Hsel.
    destruct (bcast_woken _ tid) eqn:Hb; [by simplify_eq; auto|].
    destruct Hsig as [Hsig|Hsig]; [congruence|].
    unfold poll_signal, signal_at in *. simpl in Hsel.
    pose proof (signal_poll_ready (default signal_new (w_signals w !! addr_stop_signal addr))) as Hs.
    rewrite Hsig in Hs. destruct (signal_poll _) as [s b]. simpl in Hs. subst b.
    simplify_eq. split_and!; auto. destruct Hrs as [R1 R2 R3 _]. split; [exact R1|exact R2|exact R3|].
    intros l Hl. unfold signal_at. simpl. by rewrite lookup_insert_ne. }
  destruct Hcase as (Hcase & -> & -> & [S1 S2 S3 S4]).
  exists (upd_bcast (fun b => bcast_drop b tid) sd w1). split_and!.
  - by destruct Hcase as [->|[->| ->]].
  - by apply (running_congr _ _ w1).
  - done.
  - by split.
Qed.

(** ** The properties *)

(** C30: in every reachable state [Addr::is_alive] is true exactly while the
    task of the actor has neither returned nor been unwound by a panic. *)
Theorem is_alive_iff_task_runs (w : World) tid k addr sd ph :
  reachable w -> w_tasks w !! tid = Some (TActor k addr sd ph) ->
  is_alive addr w = true <-> (ph <> PDone /\ ph <> PAborted).
Proof.
  intros Hr Ht. rewrite (is_alive_live _ _ _ _ _ _ (reachable_wf _ Hr) Ht).
  destruct ph; simpl; intuition congruence.
Qed.

(** C8: once the task of an actor has ended, then whatever the system does
    afterwards, [try_send] to it fails with [MailboxClosed], [do_send]
    completes with [MailboxClosed], and nothing is queued. *)
Theorem dead_actor_refuses_messages (w : World) tid k addr sd ph ls m :
  reachable w -> w_tasks w !! tid = Some (TActor k addr sd ph) ->
  ph = PDone \/ ph = PAborted ->
  let w' := exec_all ls w in
  snd (try_send addr m w') = Err MailboxClosed /\
  snd (try_send_async addr m w') = Err MailboxClosed /\
  snd (do_send addr m w') = Ready (Err MailboxClosed) /\
  mpsc_queue <$> w_chans w' !! addr_sender addr = Some [].
Proof.
  intros Hr Ht Hph w'. pose proof (reachable_wf _ Hr) as Hw.
  assert (Hd : live ph = false) by (by destruct Hph; subst).
  pose proof (exec_all_wf ls _ Hw) as Hw'.
  pose proof (exec_all_dead ls _ _ _ _ _ _ Hw Ht Hd) as Ht'. fold w' in Hw', Ht'.
  destruct (actor_chan _ _ _ _ _ _ Hw' Ht') as (c & Hc & Ho). rewrite Hd in Ho.
  unfold try_send, try_send_async, do_send, sender_try_send, sender_send. rewrite Hc.
  rewrite !mpsc_try_send_closed, mpsc_send_closed by done. simpl.
  by rewrite (wf_closed _ Hw' _ _ Hc Ho).
Qed.

(** C5: a step of the system that is not a poll of the actor's own task,
    whatever it is and even if the code it runs panics, does not move the
    task of the actor and takes nothing from its mailbox. *)
Theorem actors_are_isolated (w : World) tid k addr sd ph l c :
  reachable w -> w_tasks w !! tid = Some (TActor k addr sd ph) ->
  w_chans w !! addr_sender addr = Some c -> l <> LPoll tid ->
  w_tasks (exec l w) !! tid = Some (TActor k addr sd ph) /\
  is_alive addr (exec l w) = is_alive addr w /\
  exists c' xs, w_chans (exec l w) !! addr_sender addr = Some c' /\
    mpsc_queue c' = mpsc_queue c ++ xs.
Proof.
  intros Hr Ht Hc Hl. pose proof (reachable_wf _ Hr) as Hw.
  pose proof (exec_keeps l _ _ _ _ _ w Hw Ht Hl) as [Hk1 Hk2]. apply Hk1 in Ht as Ht'.
  rewrite !(is_alive_live tid k addr sd ph) by auto using exec_wf.
  destruct (Hk2 _ Hc) as (c' & Hc' & _ & xs & Hq & _). eauto 8.
Qed.

(** C7: an actor handles its messages one at a time in the order they were
    queued. While the handlers return normally, polling an actor parked with
    the messages [es] once per message leaves it parked with an empty queue, in
    the state obtained by folding the handlers over [es], with the replies made
    in that order. No stop, shutdown or escalate request is looked at before:
    nothing is assumed of the signals. *)
Theorem messages_handled_in_order f es (w : World) tid k addr sd a ctx streams :
  parked tid k addr sd a ctx streams (Sync <$> es) w -> ctx_streams ctx = [] ->
  Forall (fun e => is_Some (msg e) /\
            forall a, handle a (env_msg e) = Ret (fst (f a (env_msg e))) (snd (f a (env_msg e)))) es ->
  let w' := Nat.iter (length es) (poll_task tid) w in
  parked tid k addr sd (handle_all f es a) ctx streams [] w' /\
  w_oneshots w' = w_oneshots (reply_all f es a w).
Proof.
  intros Hp Hs Hes. revert a w Hp. induction Hes as [|e es [[m Hm] Hh] Hes IH]; intros a w Hp; simpl.
  - done.
  - assert (Em : env_msg e = m) by (unfold env_msg; by rewrite Hm). rewrite Em in *.
    destruct (poll_handles_head _ _ _ _ _ _ _ _ _ _ _ _ _ Hp Hs Hm (Hh a)) as [Hp1 Ho1].
    rewrite <- Nat.iter_succ, Nat.iter_succ_r.
    destruct (f a m) as [a' r]. simpl in *. destruct (IH a' _ Hp1) as [Hp2 Ho2].
    split; [exact Hp2|]. rewrite Ho2. by apply reply_all_oneshots.
Qed.

(** An idle actor (parked, no message queued, no stream attached) that has
    been asked to stop, by [ctx.stop()] or by its parent, stops at its next
    poll: its task returns, its mailbox is closed and each of its children is
    asked to stop in turn. *)
Theorem stop_request_stops_idle_actor (w : World) tid k addr sd a ctx :
  reachable w -> parked tid k addr sd a ctx [] [] w ->
  signal_permit (signal_at w (addr_stop_signal addr)) = true -> returns (stopped a) ->
  stopped_cleanly tid addr (ctx_children ctx) (poll_task tid w).
Proof.
  intros Hr Hp Hs Hret.
  destruct (poll_idle_exits _ _ _ _ _ _ _ (reachable_wf _ Hr) Hp (or_intror Hs)) as (w1 & -> & ? & ? & _).
  by apply exit_loop_clean.
Qed.

(** C32: [ActorSystem::shutdown] stops every actor of the system that is idle
    and waiting for the notification when it is called: polled afterwards, its
    task returns, its mailbox is closed and its children are asked to stop. *)
Theorem shutdown_stops_idle_actor (w : World) sys tid k addr a ctx :
  reachable w -> parked tid k addr (sys_shutdown sys) a ctx [] [] w ->
  bcast_live (bcast_at w (sys_shutdown sys)) tid = true -> returns (stopped a) ->
  stopped_cleanly tid addr (ctx_children ctx) (poll_task tid (shutdown sys w)).
Proof.
  intros Hr Hp Hlive Hret.
  destruct (poll_idle_exits tid k addr (sys_shutdown sys) a ctx (shutdown sys w)) as (w1 & -> & ? & ? & _).
  - by apply (exec_wf (LShutdown sys)), reachable_wf.
  - exact Hp.
  - left. unfold shutdown, upd_bcast, bcast_at. simpl. rewrite lookup_insert_eq. simpl.
    rewrite bcast_notify_woken. unfold bcast_at in Hlive. by rewrite Hlive.
  - by apply exit_loop_clean.
Qed.

(** A shutdown is lost on an actor that has a message queued when it is
    called: the message wins the biased [select!], the notification is dropped
    with the other branches, and the actor is parked again with nothing
    pending. *)
Theorem shutdown_lost_behind_a_message (w : World) sys tid k addr a ctx streams e m q a' r :
  parked tid k addr (sys_shutdown sys) a ctx streams (Sync e :: q) w -> ctx_streams ctx = [] ->
  msg e = Some m -> handle a m = Ret a' r ->
  let w' := poll_task tid (shutdown sys w) in
  parked tid k addr (sys_shutdown sys) a' ctx streams q w' /\
  bcast_poll (bcast_at w' (sys_shutdown sys)) tid = false.
Proof.
  intros Hp Hs Hm Hh w'.
  destruct (poll_handles_head tid k addr (sys_shutdown sys) a ctx streams e m q a' r (shutdown sys w)
    Hp Hs Hm Hh) as [Hp' _]. split; [exact Hp'|]. subst w'.
  destruct Hp as [Ht Hq]. destruct (w_chans w !! addr_sender addr) as [c|] eqn:Hc; [|done].
  simpl in Hq. injection Hq as Hq.
  destruct (recv_mailbox_some addr (shutdown sys w) c (Sync e) q Hc Hq) as (c' & Hrecv & _).
  unfold poll_task. simpl. rewrite Ht. simpl. unfold poll_in_select, poll_select. rewrite Hrecv. simpl.
  unfold MessageEnvelope_handle. rewrite Hm, Hh. simpl. unfold loop_head, upd_bcast, bcast_at. simpl.
  match goal with |- context [reply _ _ ?w0] => destruct (reply_fields (response_tx e) r w0) as (_ & _ & F3) end.
  rewrite F3. simpl. rewrite lookup_insert_eq. simpl.
  rewrite bcast_poll_ready, bcast_notified_woken, lookup_insert_eq. simpl.
  rewrite bcast_drop_woken. by rewrite bool_decide_true.
Qed.

End Lifecycle.

(** ** Witnesses *)

Section Witnesses.
Import Demo.

Lemma booted_reachable : reachable booted.
Proof. by exists boot. Qed.

Lemma exec_all_reachable ls w : reachable w -> reachable (exec_all ls w).
Proof. intros [ls0 ->]. exists (ls0 ++ ls). unfold exec_all. by rewrite foldl_app. Qed.

Lemma is_alive_iff_task_runs_witness :
  is_alive counter booted = true <->
  (PSelect 7 (mkCtx counter (Some 3) 0 [] 5 []) [] <> PDone /\
   PSelect 7 (mkCtx counter (Some 3) 0 [] 5 []) [] <> PAborted).
Proof.
  eapply (is_alive_iff_task_runs booted 6); [exact booted_reachable|vm_compute; reflexivity].
Defined.

(** The counter after a crash. *)
Definition crashed : World :=
  exec_all [LTrySend counter (um Crash) false; LPoll 6] booted.

Lemma dead_actor_refuses_messages_witness :
  snd (try_send counter (um Inc) (exec_all [LTick 5; LPoll 6] crashed)) = Err MailboxClosed.
Proof.
  refine (proj1 (dead_actor_refuses_messages crashed 6 _ counter _ PDone [LTick 5; LPoll 6] (um Inc)
    _ _ _)).
  - apply exec_all_reachable, booted_reachable.
  - vm_compute. reflexivity.
  - by left.
Defined.

(** Two counters: the second sits while the first crashes. *)
Definition two : World :=
  exec_all [LSpawn sys 40 2; LPoll 11; LTrySend (mkAddr 7 2 9 8) (um Inc) false;
            LTrySend counter (um Crash) false] booted.

Lemma actors_are_isolated_witness :
  is_alive (mkAddr 7 2 9 8) (exec (LPoll 6) two) = is_alive (mkAddr 7 2 9 8) two.
Proof.
  refine (proj1 (proj2 (actors_are_isolated two 11 _ (mkAddr 7 2 9 8) 0 _ (LPoll 6) _ _ _ _ _))).
  - apply exec_all_reachable, booted_reachable.
  - vm_compute. reflexivity.
  - vm_compute. reflexivity.
  - discriminate.
Defined.

Definition three_incs : World :=
  exec_all [LStop counter; LTrySend counter (um Inc) false;
            LTrySend counter (um Inc) false; LTrySend counter (um Inc) false] booted.

Definition incs : list MessageEnvelope := replicate 3 (MessageEnvelope_new (um Inc)).

Lemma messages_handled_in_order_witness :
  exists k, parked 6 k counter 0 10 (mkCtx counter (Some 3) 0 [] 5 []) [] []
    (Nat.iter 3 (poll_task 6) three_incs).
Proof.
  eexists. refine (proj1 (messages_handled_in_order (fun n _ => (S n, S n)) incs three_incs 6 _ counter 0
    7 _ _ _ _ _)).
  - split; vm_compute; reflexivity.
  - reflexivity.
  - repeat constructor; eauto.
Defined.

Lemma stopped_returns (n : nat) : returns (stopped n).
Proof. intros ctx w. by exists tt. Qed.

Lemma stop_request_stops_idle_actor_witness :
  stopped_cleanly 6 counter [] (poll_task 6 (exec_all [LStop counter] booted)).
Proof.
  eapply (stop_request_stops_idle_actor (exec_all [LStop counter] booted) 6 _ counter 0 7
    (mkCtx counter (Some 3) 0 [] 5 [])).
  - apply exec_all_reachable, booted_reachable.
  - split; vm_compute; reflexivity.
  - vm_compute. reflexivity.
  - apply stopped_returns.
Defined.

Lemma shutdown_stops_idle_actor_witness :
  stopped_cleanly 6 counter [] (poll_task 6 (shutdown sys booted)).
Proof.
  eapply (shutdown_stops_idle_actor booted sys 6 _ counter 7 (mkCtx counter (Some 3) 0 [] 5 [])).
  - exact booted_reachable.
  - split; vm_compute; reflexivity.
  - vm_compute. reflexivity.
  - apply stopped_returns.
Defined.

Lemma shutdown_lost_behind_a_message_witness :
  bcast_poll (bcast_at (poll_task 6 (shutdown sys
    (exec_all [LTrySend counter (um Inc) false] booted))) 0) 6 = false.
Proof.
  refine (proj2 (shutdown_lost_behind_a_message (exec_all [LTrySend counter (um Inc) false] booted) sys 6
    _ counter 7 (mkCtx counter (Some 3) 0 [] 5 []) [] (MessageEnvelope_new (um Inc)) (um Inc)
    _ _ _ _ _ _ _)).
  - split; vm_compute; reflexivity.
  - reflexivity.
  - reflexivity.
  - reflexivity.
Defined.

End Witnesses.
