(* ===== verification/Replies.v ===== *)
(** * Replies: no caller is forgotten

    [Addr::send] waits on a oneshot channel whose sender travels inside the
    message. The invariant of this file says where that sender is while the
    caller waits: in the mailbox of an actor, or with the async handler that
    works on the message. Every way an actor can end (return, panic of a
    handler, abort by a panic in a hook, receiver dropped with messages still
    queued) resolves the oneshots it held, so a caller that is still waiting
    is always waiting for an actor that still runs. *)

From S2P Require Import Prelude Tokio Supervisor Runtime Tasks Demo RuntimeFacts Wf Isolation Lifecycle.

Section Replies.
Context {Y : Sys} {K : Tokio} {L : TokioLaws K} {B : Behaviour}.

(** ** Where the sender of a oneshot is *)

Definition in_mailbox (w : World) (l : loc) : Prop :=
  exists s c m, w_chans w !! s = Some c /\ m ∈ mpsc_queue c /\ message_tx m = Some l.

(** With the async handler of an actor other than [me]. *)
Definition in_await (me : option nat) (w : World) (l : loc) : Prop :=
  exists tid k addr sd f ctx ss,
    w_tasks w !! tid = Some (TActor k addr sd (PAwait f (Some l) ctx ss)) /\ Some tid <> me.

Definition owner (w : World) (s : loc) : Prop :=
  exists tid k addr sd ph, w_tasks w !! tid = Some (TActor k addr sd ph) /\ addr_sender addr = s.

Definition resolved (w : World) (l : loc) : Prop :=
  exists o, w_oneshots w !! l = Some o /\ oneshot_poll o <> Pending.

(** The invariant while the task [me] is being polled and holds [hand]. *)
Record replies (me : option nat) (hand : option loc) (w : World) : Prop := mkReplies {
  rp_fresh l o : w_oneshots w !! l = Some o -> l < w_fresh w;
  rp_owner s c : w_chans w !! s = Some c -> owner w s;
  rp_wait tid l d : w_tasks w !! tid = Some (TClient (inl (SendRecv l d))) ->
    is_Some (w_oneshots w !! l) /\
    (resolved w l \/ hand = Some l \/ in_mailbox w l \/ in_await me w l);
}.

(** ** Oneshots only move from pending to resolved *)

Definition oneshots_le (w w' : World) : Prop :=
  forall l, l < w_fresh w -> is_Some (w_oneshots w !! l) ->
    is_Some (w_oneshots w' !! l) /\ (resolved w l -> resolved w' l).

Lemma oneshots_le_congr w w' :
  w_oneshots w' = w_oneshots w -> oneshots_le w w'.
Proof. intros H l _ Hs. unfold resolved. by rewrite H. Qed.

Lemma oneshots_le_trans w1 w2 w3 :
  w_fresh w1 <= w_fresh w2 -> oneshots_le w1 w2 -> oneshots_le w2 w3 -> oneshots_le w1 w3.
Proof.
  intros Hf H12 H23 l Hl Hs. destruct (H12 l Hl Hs) as [Hs2 Hr2].
  destruct (H23 l) as [Hs3 Hr3]; [lia|done|]. auto.
Qed.

(** Using up a sender keeps what was resolved and resolves its own oneshot. *)
Lemma upd_oneshot_resolves f l w :
  (forall o, oneshot_poll (f o) <> Pending) ->
  oneshots_le w (upd_oneshot f l w) /\ (is_Some (w_oneshots w !! l) -> resolved (upd_oneshot f l w) l).
Proof.
  intros Hf. unfold upd_oneshot. destruct (w_oneshots w !! l) as [o|] eqn:Ho.
  - split.
    + intros l' _ Hs. unfold resolved. simpl. rewrite lookup_insert. case_decide as Hd; [|done].
      subst. split; [done|]. intros _. eexists. split; [done|apply Hf].
    + intros _. eexists. simpl. rewrite lookup_insert_eq. split; [done|apply Hf].
  - split; [by apply oneshots_le_congr|]. by intros [? ?].
Qed.

Lemma oneshot_drop_resolves (o : Oneshot Rsp) : oneshot_poll (oneshot_drop_tx o) <> Pending.
Proof.
  destruct (oneshot_poll o) eqn:Ho.
  - by rewrite oneshot_drop_poll.
  - by rewrite oneshot_drop_done; rewrite Ho.
Qed.

Lemma oneshot_send_resolves (o : Oneshot Rsp) r : oneshot_poll (oneshot_send o r) <> Pending.
Proof.
  destruct (oneshot_poll o) eqn:Ho.
  - by rewrite oneshot_send_poll.
  - by rewrite oneshot_send_done; rewrite Ho.
Qed.

Lemma drop_tx_le tx w :
  oneshots_le w (drop_tx tx w) /\
  (forall l, tx = Some l -> is_Some (w_oneshots w !! l) -> resolved (drop_tx tx w) l).
Proof.
  destruct tx as [l|]; simpl; [|split; [by apply oneshots_le_congr|done]].
  destruct (upd_oneshot_resolves oneshot_drop_tx l w oneshot_drop_resolves) as [H1 H2].
  split; [done|]. by intros l' [= <-].
Qed.

Lemma reply_le tx r w :
  oneshots_le w (reply tx r w) /\
  (forall l, tx = Some l -> is_Some (w_oneshots w !! l) -> resolved (reply tx r w) l).
Proof.
  destruct tx as [l|]; simpl; [|split; [by apply oneshots_le_congr|done]].
  destruct (upd_oneshot_resolves (fun o => oneshot_send o r) l w
    (fun o => oneshot_send_resolves o r)) as [H1 H2].
  split; [done|]. by intros l' [= <-].
Qed.

(** ** The frame rule of the invariant *)

Lemma in_mailbox_ext w w' l : wf w -> ext w w' -> in_mailbox w l -> in_mailbox w' l.
Proof.
  intros Hw Hx (s & c & m & Hc & Hm & Htx).
  destruct (ext_chan _ _ Hx s c (wf_chans _ Hw _ _ Hc) Hc) as (c' & Hc' & _ & xs & Hq & _).
  exists s, c', m. split_and!; [done| |done]. rewrite Hq. apply elem_of_app. by left.
Qed.

Lemma ext_actor w w' tid k a sd ph :
  wf w -> ext w w' -> w_tasks w !! tid = Some (TActor k a sd ph) ->
  w_tasks w' !! tid = Some (TActor k a sd ph).
Proof. intros Hw Hx Ht. apply (ext_task _ _ Hx _ _ (wf_tasks _ Hw _ _ Ht) Ht). Qed.

Lemma replies_frame me hand w w' :
  wf w -> ext w w' ->
  (forall s c, w_chans w !! s = None -> w_chans w' !! s = Some c -> owner w' s) ->
  (forall l o, w_oneshots w' !! l = Some o -> l < w_fresh w') ->
  oneshots_le w w' ->
  (forall tid l d, w_tasks w' !! tid = Some (TClient (inl (SendRecv l d))) ->
     w_tasks w !! tid = Some (TClient (inl (SendRecv l d))) \/
     is_Some (w_oneshots w' !! l) /\ in_mailbox w' l) ->
  replies me hand w -> replies me hand w'.
Proof.
  intros Hw Hx Hown Hfr Hle Hcl [R1 R2 R3]. split.
  - done.
  - intros s c Hc. destruct (w_chans w !! s) as [c0|] eqn:Hc0; [|by eapply Hown].
    destruct (R2 _ _ Hc0) as (tid & k & addr & sd & ph & Ht & Hs).
    exists tid, k, addr, sd, ph. split; [|done]. by apply (ext_actor w).
  - intros tid l d Ht. destruct (Hcl _ _ _ Ht) as [Ht0|[Hs Hm]]; [|by auto].
    destruct (R3 _ _ _ Ht0) as [Hs HR]. destruct Hs as [o Ho]. pose proof (R1 _ _ Ho) as Hlt.
    destruct (Hle l Hlt ltac:(by rewrite Ho)) as [Hs' Hr']. split; [done|].
    destruct HR as [HR|[HR|[HR|HR]]]; auto.
    + right; right; left. by apply (in_mailbox_ext w).
    + right; right; right. destruct HR as (t & k & a & sd & f & ctx & ss & Hta & Hne).
      exists t, k, a, sd, f, ctx, ss. split; [|done]. by apply (ext_actor w).
Qed.

(** Steps that touch neither oneshots nor clients and make no channel. *)
Lemma replies_quiet me hand w w' :
  wf w -> ext w w' -> w_oneshots w' = w_oneshots w ->
  (forall s c, w_chans w' !! s = Some c -> is_Some (w_chans w !! s)) ->
  (forall tid f, w_tasks w' !! tid = Some (TClient f) ->
     w_tasks w !! tid = Some (TClient f) \/ match f with inl (SendRecv _ _) => False | _ => True end) ->
  replies me hand w -> replies me hand w'.
Proof.
  intros Hw Hx Ho Hc Ht HR. apply (replies_frame me hand w); try done.
  - intros s c Hn Hs. apply Hc in Hs as [? ?]. congruence.
  - intros l o Hl. rewrite Ho in Hl. apply (rp_fresh _ _ _ HR) in Hl.
    pose proof (ext_fresh _ _ Hx). lia.
  - by apply oneshots_le_congr.
  - intros tid l d H. destruct (Ht _ _ H) as [H0|[]]. by left.
Qed.

(** The invariant reads only these parts of the world. *)
Lemma replies_congr me hand w w' :
  w_fresh w' = w_fresh w -> w_chans w' = w_chans w -> w_tasks w' = w_tasks w ->
  w_oneshots w' = w_oneshots w -> replies me hand w -> replies me hand w'.
Proof.
  intros Hf Hc Ht Ho [R1 R2 R3].
  split; unfold owner, resolved, in_mailbox, in_await; rewrite ?Hf, ?Hc, ?Ht, ?Ho; auto.
Qed.

(** ** Sends *)

Lemma sender_send_quiet s x w w' p :
  sender_send s x w = (w', p) ->
  w_oneshots w' = w_oneshots w /\ w_tasks w' = w_tasks w /\ w_fresh w' = w_fresh w /\
  (forall s' c, w_chans w' !! s' = Some c -> is_Some (w_chans w !! s')).
Proof.
  unfold sender_send. destruct (w_chans w !! s) as [c|] eqn:Hc.
  - destruct (mpsc_send c x) as [c' r]. intros [= <- <-]. split_and!; try done. simpl.
    intros s' c1. rewrite lookup_insert. case_decide; intros; subst; eauto.
  - intros [= <- <-]. split_and!; eauto.
Qed.

Lemma sender_try_send_quiet s x w w' r :
  sender_try_send s x w = (w', r) ->
  w_oneshots w' = w_oneshots w /\ w_tasks w' = w_tasks w /\
  (forall s' c, w_chans w' !! s' = Some c -> is_Some (w_chans w !! s')).
Proof.
  unfold sender_try_send. destruct (w_chans w !! s) as [c|] eqn:Hc.
  - destruct (mpsc_try_send c x) as [c' r']. intros [= <- <-]. split_and!; try done. simpl.
    intros s' c1. rewrite lookup_insert. case_decide; intros; subst; eauto.
  - intros [= <- <-]. split_and!; eauto.
Qed.

Lemma replies_quiet_tasks me hand w w' :
  wf w -> ext w w' -> w_oneshots w' = w_oneshots w -> w_tasks w' = w_tasks w ->
  (forall s c, w_chans w' !! s = Some c -> is_Some (w_chans w !! s)) ->
  replies me hand w -> replies me hand w'.
Proof. intros Hw Hx Ho Ht Hc. apply replies_quiet; auto. intros tid f. rewrite Ht. auto. Qed.

(** What one poll of a [send] future leaves: if it goes on to wait for the
    reply, its message is in the mailbox or it was waiting already. *)
Lemma poll_enqueue_spec a m b t rx w w' r :
  poll_enqueue a m b t rx w = (w', r) ->
  oneshots_le w w' /\ w_fresh w' = w_fresh w /\
  (forall l o, w_oneshots w' !! l = Some o -> is_Some (w_oneshots w !! l)) /\
  (forall s c, w_chans w' !! s = Some c -> is_Some (w_chans w !! s)) /\
  (forall l d, r = inl (SendRecv l d) -> is_Some (w_oneshots w' !! l) /\ in_mailbox w' l).
Proof.
  unfold poll_enqueue.
  set (x := if b then Async (AsyncMessageEnvelope_with_response m rx)
            else Sync (MessageEnvelope_with_response m rx)).
  destruct (sender_send (addr_sender a) x w) as [w1 p] eqn:Hsend.
  destruct (sender_send_quiet _ _ _ _ _ Hsend) as (Ho & Ht & Hf & Hc).
  destruct p as [|[[]|e]].
  - intros [= <- <-]. split_and!; try done; [by apply oneshots_le_congr|]. by rewrite Ho.
  - intros [= <- <-]. split_and!; try done; [by apply oneshots_le_congr|by rewrite Ho|].
    intros l d Hr. unfold poll_reply in Hr.
    destruct (w_oneshots w1 !! rx) as [o|] eqn:Hrx; simpl in Hr; [|done].
    assert (l = rx) as ->.
    { destruct (oneshot_poll o) as [|[?|?]]; try done. repeat case_match; by simplify_eq. }
    split; [by rewrite Hrx|]. unfold sender_send in Hsend.
    destruct (w_chans w !! addr_sender a) as [c|] eqn:Hca; [|done].
    destruct (mpsc_send c x) as [c' r'] eqn:Hms. simplify_eq. simpl.
    exists (addr_sender a), c', x. simpl. rewrite lookup_insert_eq. split_and!; [done| |by destruct b].
    destruct (mpsc_open c) eqn:Hop.
    + destruct (mpsc_send_open _ c x Hop) as (c1 & _ & [[E Hq]|(_ & E & _)]); rewrite E in Hms; [|done].
      simplify_eq. rewrite Hq. apply elem_of_app. right. by apply list_elem_of_singleton.
    + by rewrite mpsc_send_closed in Hms.
  - intros [= <- <-]. destruct (drop_tx_le (Some rx) w1) as [Hle _].
    split_and!; try done.
    + apply (oneshots_le_trans _ w1); [by rewrite Hf|by apply oneshots_le_congr|done].
    + simpl. unfold upd_oneshot. by case_match.
    + simpl. unfold upd_oneshot. destruct (w_oneshots w1 !! rx) as [o1|] eqn:H1.
      * intros l o. simpl. rewrite lookup_insert. rewrite Ho in H1.
        case_decide; intros; subst; [by rewrite H1|]. rewrite Ho in *. eauto.
      * intros l o. rewrite Ho. eauto.
    + simpl. unfold upd_oneshot. by case_match.
Qed.

Lemma poll_send_spec f w w' r :
  (forall l o, w_oneshots w !! l = Some o -> l < w_fresh w) -> poll_send f w = (w', r) ->
  oneshots_le w w' /\
  (forall l o, w_oneshots w' !! l = Some o -> l < w_fresh w') /\
  (forall s c, w_chans w' !! s = Some c -> is_Some (w_chans w !! s)) /\
  (forall l d, r = inl (SendRecv l d) ->
     f = SendRecv l d \/ is_Some (w_oneshots w' !! l) /\ in_mailbox w' l).
Proof.
  intros Hfr. destruct f as [a m b t|a m b t rx|rx d]; simpl.
  - intros H. destruct (poll_enqueue_spec _ _ _ _ _ _ _ _ H) as (Hle & Hf & Ho & Hc & Hr).
    simpl in *. split; [|split; [|split; [exact Hc|intros l d E; right; by apply (Hr l d)]]].
    + eapply oneshots_le_trans; [|intros l Hl Hs|exact Hle]; [simpl; lia|].
      unfold resolved. simpl. by rewrite lookup_insert_ne by lia.
    + intros l o Hl. rewrite Hf. apply Ho in Hl as [o' Hl]. revert Hl. rewrite lookup_insert.
      case_decide; intros Hl; simplify_eq; [lia|]. apply Hfr in Hl. lia.
  - intros H. destruct (poll_enqueue_spec _ _ _ _ _ _ _ _ H) as (Hle & Hf & Ho & Hc & Hr).
    split; [done|split; [|split; [exact Hc|intros l d E; right; by apply (Hr l d)]]].
    intros l o Hl. rewrite Hf. apply Ho in Hl as [o' Hl]. eauto.
  - intros [= <- <-]. split_and!; [by apply oneshots_le_congr|done|by eauto|].
    intros l d' Hr. left. unfold poll_reply in Hr. repeat case_match; by simplify_eq.
Qed.

Lemma poll_client_replies me hand fut w :
  wf w -> replies me hand w -> replies me hand (fst (poll_client fut w)).
Proof.
  intros Hw HR. pose proof (poll_client_ext fut w) as Hx. unfold poll_client in *.
  destruct (w_tasks w !! fut) as [[k a sd ph|[f|r]|dl h a m t|p h a m t|rg n a t|]|] eqn:Ht; try done.
  pose proof (poll_send_tasks f w) as Htk.
  destruct (poll_send f w) as [w1 r] eqn:Hps. simpl in *.
  destruct (poll_send_spec _ _ _ _ (rp_fresh _ _ _ HR) Hps) as (Hle & Hfr & Hc & Hr).
  apply (replies_frame me hand w); try done.
  - intros s c Hn Hs. apply Hc in Hs as [? ?]. congruence.
  - intros tid l d. simpl. rewrite lookup_insert. case_decide; intros Hl; simplify_eq.
    + destruct (Hr l d eq_refl) as [->|Hm]; [by left|by right].
    + left. by rewrite <- Htk.
Qed.

(** ** Programs *)

Lemma new_actor_quiet cap w w' a :
  new_actor cap w = Some (w', a) ->
  w_oneshots w' = w_oneshots w /\ w_tasks w' = w_tasks w /\
  (forall s c, w_chans w' !! s = Some c -> s = addr_sender a \/ is_Some (w_chans w !! s)).
Proof.
  unfold new_actor. destruct (mpsc_channel cap) as [c|]; [|done]. simpl. intros [= <- <-]. simpl.
  split_and!; try done. intros s c'. rewrite lookup_insert. case_decide; intros; subst; eauto.
Qed.

(** A new actor: its channel and its task are made together. *)
Lemma replies_new_actor me hand cap w w1 w' a k sd :
  new_actor cap w = Some (w1, a) -> wf w -> ext w w' ->
  w_oneshots w' = w_oneshots w -> w_chans w' = w_chans w1 ->
  (exists tid, tid >= w_fresh w /\ w_tasks w' = <[tid := TActor k a sd PSpawned]> (w_tasks w)) ->
  replies me hand w -> replies me hand w'.
Proof.
  intros Hn Hw Hx Ho Hc (tid & Hge & Ht) HR.
  destruct (new_actor_quiet _ _ _ _ Hn) as (_ & _ & Hch).
  apply (replies_frame me hand w); try done.
  - intros s c Hs0 Hs. rewrite Hc in Hs. apply Hch in Hs as [->|[? ?]]; [|congruence].
    exists tid, k, a, sd, PSpawned. by rewrite Ht, lookup_insert_eq.
  - intros l o Hl. rewrite Ho in Hl. apply (rp_fresh _ _ _ HR) in Hl. pose proof (ext_fresh _ _ Hx). lia.
  - by apply oneshots_le_congr.
  - intros tid' l d. rewrite Ht, lookup_insert. case_decide; [done|by left].
Qed.

Lemma exec_op_replies me hand op ctx w r ctx' w' :
  exec_op op ctx w = Some (r, ctx', w') -> wf w -> replies me hand w -> replies me hand w'.
Proof.
  intros H Hw HR. pose proof (exec_op_ext _ _ _ _ _ _ H) as Hx.
  assert (Hq : w_oneshots w' = w_oneshots w -> w_tasks w' = w_tasks w ->
    (forall s c, w_chans w' !! s = Some c -> is_Some (w_chans w !! s)) -> replies me hand w').
  { intros. by apply (replies_quiet_tasks me hand w). }
  assert (Hspawn : forall tid t, tid >= w_fresh w -> w_tasks w' = <[tid := t]> (w_tasks w) ->
    match t with TClient (inl (SendRecv _ _)) => False | _ => True end ->
    w_oneshots w' = w_oneshots w -> w_chans w' = w_chans w -> replies me hand w').
  { intros tid t Hge Ht Hn Ho Hc. apply (replies_quiet me hand w); try done.
    - intros s c. rewrite Hc. eauto.
    - intros tid' f. rewrite Ht, lookup_insert. case_decide; intros; simplify_eq; auto. }
  destruct op; simpl in H.
  - injection H as <- <- <-. unfold ctx_stop in *. case_match; [|done]. apply Hq; simpl; eauto.
  - injection H as <- <- <-. done.
  - injection H as <- <- <-. apply Hq; simpl; eauto.
  - destruct (spawn_child_with_strategy_and_capacity ctx f s capacity w) as [[[w2 ctx2] a]|] eqn:Hs; [|done].
    injection H as <- <- <-. unfold spawn_child_with_strategy_and_capacity in Hs.
    destruct (new_actor capacity w) as [[w1 a1]|] eqn:Hn; [|done].
    destruct (new_actor_quiet _ _ _ _ Hn) as (Ho & Ht & _).
    pose proof (ext_fresh _ _ (new_actor_ext _ _ _ _ Hn)). simpl in Hs. injection Hs as <- <- <-.
    eapply (replies_new_actor me hand capacity w w1); try done.
    simpl. rewrite <- Ht. eauto.
  - injection H as <- <- <-. done.
  - injection H as <- <- <-. eapply Hspawn; [| |..]; try done. simpl. lia.
  - injection H as <- <- <-. eapply Hspawn; [| |..]; try done. simpl. lia.
  - injection H as <- <- <-. apply Hq; simpl; eauto.
  - injection H as <- <- <-. apply Hq; simpl; eauto.
  - injection H as <- <- <-. done.
  - unfold try_send in H. destruct (sender_try_send _ _ w) as [w1 r1] eqn:Hs.
    injection H as <- <- <-. destruct (sender_try_send_quiet _ _ _ _ _ Hs) as (? & ? & ?). auto.
  - unfold try_send_async in H. destruct (sender_try_send _ _ w) as [w1 r1] eqn:Hs.
    injection H as <- <- <-. destruct (sender_try_send_quiet _ _ _ _ _ Hs) as (? & ? & ?). auto.
  - destruct is_async; unfold do_send, do_send_async in H;
      destruct (sender_send _ _ w) as [w1 r1] eqn:Hs; injection H as <- <- <-;
      destruct (sender_send_quiet _ _ _ _ _ Hs) as (? & ? & ? & ?); auto.
  - injection H as <- <- <-. eapply Hspawn; [| |..]; try done. simpl. lia.
  - pose proof (poll_client_replies me hand fut w Hw HR).
    destruct (poll_client fut w). injection H as <- <- <-. done.
Qed.

Lemma run_replies {X} me hand (p : Prog X) ctx w a r ctx' w' :
  run p ctx w = (a, r, ctx', w') -> wf w -> ctx_ok w (ctx_addr ctx) ctx ->
  replies me hand w -> replies me hand w'.
Proof.
  revert ctx w. induction p as [a0 x|a0|a0 op k IH]; simpl; intros ctx w H Hw Hctx HR.
  - by simplify_eq.
  - by simplify_eq.
  - destruct (exec_op op ctx w) as [[[r1 ctx1] w1]|] eqn:Hop; [|by simplify_eq].
    destruct (exec_op_wf _ _ _ _ _ _ Hop Hw Hctx) as [Hw1 Hctx1].
    pose proof (exec_op_ctx_addr _ _ _ _ _ _ Hop) as Ha. rewrite <- Ha in Hctx1.
    eapply (IH r1); eauto using exec_op_replies.
Qed.

(** ** The parts of a poll *)

Lemma replies_hand me hand w : replies me None w -> replies me hand w.
Proof.
  intros [R1 R2 R3]. split; try done. intros tid l d Ht. destruct (R3 _ _ _ Ht) as [Hs HR].
  split; [done|]. destruct HR as [?|[[=]|?]]; auto.
Qed.

(** The sender in hand is used up. *)
Lemma replies_resolve me tx w w' :
  wf w -> ext w w' -> w_tasks w' = w_tasks w -> w_chans w' = w_chans w ->
  (forall l o, w_oneshots w' !! l = Some o -> is_Some (w_oneshots w !! l)) ->
  oneshots_le w w' -> (forall l, tx = Some l -> is_Some (w_oneshots w !! l) -> resolved w' l) ->
  replies me tx w -> replies me None w'.
Proof.
  intros Hw Hx Ht Hc Hd Hle Hres HR.
  assert (HR' : replies me tx w').
  { apply (replies_frame me tx w); try done.
    - intros s c Hn. rewrite Hc. congruence.
    - intros l o Hl. apply Hd in Hl as [o' Hl]. apply (rp_fresh _ _ _ HR) in Hl.
      pose proof (ext_fresh _ _ Hx). lia.
    - intros tid l d. rewrite Ht. by left. }
  destruct HR' as [R1 R2 R3]. split; try done. intros tid l d Htl.
  destruct (R3 _ _ _ Htl) as [Hs Hcase]. split; [done|]. rewrite Ht in Htl.
  destruct (rp_wait _ _ _ HR _ _ _ Htl) as [Hs0 _].
  destruct Hcase as [?|[?|?]]; auto.
Qed.

Lemma upd_oneshot_dom f l w l' o :
  w_oneshots (upd_oneshot f l w) !! l' = Some o -> is_Some (w_oneshots w !! l').
Proof.
  unfold upd_oneshot. destruct (w_oneshots w !! l) as [o1|] eqn:Ho; [|by eauto]. simpl.
  rewrite lookup_insert. case_decide; intros; subst; eauto.
Qed.

Lemma upd_oneshot_chans f l w : w_chans (upd_oneshot f l w) = w_chans w.
Proof. unfold upd_oneshot. by case_match. Qed.

Lemma drop_tx_replies me tx w : wf w -> replies me tx w -> replies me None (drop_tx tx w).
Proof.
  intros Hw. destruct (drop_tx_le tx w) as [H1 H2]. pose proof (drop_tx_ext tx w).
  apply replies_resolve; try done; destruct tx; simpl in *;
    eauto using upd_oneshot_tasks, upd_oneshot_chans, upd_oneshot_dom.
Qed.

Lemma reply_replies me tx r w : wf w -> replies me tx w -> replies me None (reply tx r w).
Proof.
  intros Hw. destruct (reply_le tx r w) as [H1 H2]. pose proof (reply_ext tx r w).
  apply replies_resolve; try done; destruct tx; simpl in *;
    eauto using upd_oneshot_tasks, upd_oneshot_chans, upd_oneshot_dom.
Qed.

(** Receiving moves the sender from the mailbox to the hand. *)
Lemma recv_mailbox_replies me addr w w' p :
  recv_mailbox addr w = (w', p) -> replies me None w ->
  replies me (match p with Ready (Some m) => message_tx m | _ => None end) w'.
Proof.
  unfold recv_mailbox. destruct (w_chans w !! addr_sender addr) as [c|] eqn:Hc;
    [|by intros [= <- <-]].
  destruct (mpsc_recv c) as [c' p'] eqn:Hr. intros [= <- <-] [R1 R2 R3]. split; [done| |].
  - intros s c1. simpl. rewrite lookup_insert. case_decide; intros; subst; by eapply R2.
  - intros tid l d Ht. destruct (R3 _ _ _ Ht) as [Hs HR]. split; [done|].
    destruct HR as [?|[[=]|[HR|?]]]; auto. destruct HR as (s & c1 & m & Hc1 & Hm & Htx).
    destruct (decide (s = addr_sender addr)) as [->|Hne].
    + simplify_eq. destruct (mpsc_queue c) as [|x q] eqn:Hq; [by apply not_elem_of_nil in Hm|].
      destruct (mpsc_recv_some _ _ _ _ Hq) as (c2 & Hr2 & Hq2 & _). rewrite Hr2 in Hr. simplify_eq.
      apply elem_of_cons in Hm as [->|Hm]; [by auto|]. right; right; left.
      exists (addr_sender addr), c', m. simpl. by rewrite lookup_insert_eq.
    + right; right; left. exists s, c1, m. simpl. by rewrite lookup_insert_ne.
Qed.

(** Dropping the receiver resolves the oneshot of every message queued. *)
Lemma drop_all_resolves ms w :
  (forall l o, w_oneshots w !! l = Some o -> l < w_fresh w) ->
  let w' := foldl (fun w m => drop_tx (message_tx m) w) w ms in
  oneshots_le w w' /\ (forall l o, w_oneshots w' !! l = Some o -> l < w_fresh w') /\
  (forall m l, m ∈ ms -> message_tx m = Some l -> is_Some (w_oneshots w !! l) -> resolved w' l).
Proof.
  revert w. induction ms as [|m0 ms IH]; intros w Hfr; simpl.
  { split_and!; [by apply oneshots_le_congr|done|]. by intros m l Hm%not_elem_of_nil. }
  destruct (drop_tx_le (message_tx m0) w) as [Hle Hres].
  assert (Hf : w_fresh (drop_tx (message_tx m0) w) = w_fresh w).
  { unfold drop_tx, upd_oneshot. by repeat case_match. }
  destruct (IH (drop_tx (message_tx m0) w)) as (Hle' & Hfr' & Hres').
  { intros l o Hl. rewrite Hf. unfold drop_tx in Hl. destruct (message_tx m0).
    - apply upd_oneshot_dom in Hl as [? ?]. eauto.
    - eauto. }
  split_and!; [|done|].
  - eapply oneshots_le_trans; [|exact Hle|exact Hle']. by rewrite Hf.
  - intros m l Hm Htx Hs. pose proof Hs as [o Ho]. pose proof (Hfr _ _ Ho) as Hlt.
    destruct (Hle l Hlt Hs) as [Hs1 Hr1]. apply elem_of_cons in Hm as [->|Hm]; [|by eauto].
    apply Hle'; [by rewrite Hf|done|]. by apply Hres.
Qed.

Lemma close_mailbox_replies me hand addr w :
  is_Some (w_chans w !! addr_sender addr) -> replies me hand w -> replies me hand (close_mailbox addr w).
Proof.
  intros [c Hc] [R1 R2 R3]. unfold close_mailbox. rewrite Hc.
  destruct (mpsc_drop_rx_spec _ c) as (c' & -> & Hq & Ho).
  set (w0 := set_chans (<[addr_sender addr:=c']> (w_chans w)) w).
  destruct (drop_all_tasks (mpsc_queue c) w0) as (Ht & Hch & Hf).
  destruct (drop_all_resolves (mpsc_queue c) w0 R1) as (Hle & Hfr & Hres). split; [done| |].
  - intros s c1. rewrite Hch. simpl. intros Hs. unfold owner. rewrite Ht. simpl.
    revert Hs. rewrite lookup_insert. case_decide; intros; subst; by eapply R2.
  - intros tid l d. rewrite Ht. intros Htl. destruct (R3 _ _ _ Htl) as [Hs HR].
    pose proof Hs as [o Hlo]. destruct (Hle l (R1 _ _ Hlo) Hs) as [Hs' Hr']. split; [done|].
    destruct HR as [?|[?|[HR|HR]]]; auto.
    + destruct HR as (s & c1 & m & Hc1 & Hm & Htx).
      destruct (decide (s = addr_sender addr)) as [->|Hne].
      * simplify_eq. left. by eapply Hres.
      * right; right; left. exists s, c1, m. rewrite Hch. simpl. by rewrite lookup_insert_ne.
    + right; right; right. destruct HR as (t & k & a & sd' & f & ctx & ss & Hta & Hne).
      exists t, k, a, sd', f, ctx, ss. by rewrite Ht.
Qed.

(** The sender an actor task holds between polls. *)
Definition phase_tx (ph : Phase) : option loc :=
  match ph with PAwait _ tx _ _ => tx | _ => None end.

Lemma put_actor_replies tid k addr sd ph w :
  (exists k sd ph, w_tasks w !! tid = Some (TActor k addr sd ph)) ->
  replies (Some tid) (phase_tx ph) w -> replies None None (put_task tid (TActor k addr sd ph) w).
Proof.
  intros (k0 & sd0 & ph0 & Ht0) [R1 R2 R3]. split; simpl; [done| |].
  - intros s c Hc. destruct (R2 _ _ Hc) as (t & k1 & a1 & sd1 & ph1 & Ht1 & Hs).
    destruct (decide (t = tid)) as [->|Hne].
    + simplify_eq. exists tid, k, addr, sd, ph. simpl. by rewrite lookup_insert_eq.
    + exists t, k1, a1, sd1, ph1. simpl. by rewrite lookup_insert_ne.
  - intros tid' l d. rewrite lookup_insert. case_decide; [done|]. intros Htl.
    destruct (R3 _ _ _ Htl) as [Hs HR]. split; [done|].
    destruct HR as [?|[HR|[HR|HR]]]; auto.
    + right; right; right. destruct ph; try done. simpl in HR. subst.
      repeat eexists; [|done]. simpl. by rewrite lookup_insert_eq.
    + right; right; right. destruct HR as (t & k1 & a1 & sd1 & f & ctx & ss & Hta & Hne).
      exists t, k1, a1, sd1, f, ctx, ss. simpl. rewrite lookup_insert_ne by congruence. done.
Qed.

Lemma poll_starts tid k addr sd ph w :
  w_tasks w !! tid = Some (TActor k addr sd ph) -> replies None None w ->
  replies (Some tid) (phase_tx ph) w.
Proof.
  intros Ht [R1 R2 R3]. split; try done. intros tid' l d Htl. destruct (R3 _ _ _ Htl) as [Hs HR].
  split; [done|]. destruct HR as [?|[[=]|[?|HR]]]; auto.
  destruct HR as (t & k1 & a1 & sd1 & f & ctx & ss & Hta & _).
  destruct (decide (t = tid)) as [->|Hne].
  - simplify_eq. simpl. auto.
  - right; right; right. exists t, k1, a1, sd1, f, ctx, ss. split; [done|congruence].
Qed.

(** A running task with the invariant in hand. *)
Definition mine (tid : nat) (addr : Addr) (hand : option loc) (w : World) : Prop :=
  running tid addr w /\ replies (Some tid) hand w.

Lemma mine_congr tid addr hand w w' :
  w_fresh w' = w_fresh w -> w_chans w' = w_chans w -> w_tasks w' = w_tasks w ->
  w_oneshots w' = w_oneshots w -> mine tid addr hand w -> mine tid addr hand w'.
Proof.
  intros Hf Hc Ht Ho [H1 H2]. split; [by apply (running_congr _ _ w)|by apply (replies_congr _ _ w)].
Qed.

Lemma run_mine {X} tid addr hand (p : Prog X) ctx w a r ctx' w' :
  run p ctx w = (a, r, ctx', w') -> mine tid addr hand w -> ctx_ok w addr ctx ->
  mine tid addr hand w' /\ ctx_ok w' addr ctx'.
Proof.
  intros Hrun [Hr HR] Hctx. destruct (run_running _ _ _ _ _ _ _ _ _ Hrun Hr Hctx) as [Hr1 Hc1].
  split; [split; [done|]|done]. pose proof (proj1 Hctx) as Ha. subst addr.
  eapply run_replies; eauto. apply Hr.
Qed.

Lemma put_mine tid addr k sd ph w :
  mine tid addr (phase_tx ph) w -> replies None None (put_task tid (TActor k addr sd ph) w).
Proof. intros [[_ (k0 & sd0 & ph0 & Ht & _)] HR]. apply put_actor_replies; eauto. Qed.

Lemma end_task_replies tid k addr sd ph w :
  phase_tx ph = None -> mine tid addr None w -> replies None None (end_task tid k addr sd ph w).
Proof.
  intros Hph [Hr HR]. destruct (close_mailbox_spec _ _ _ Hr) as (Ht & _).
  destruct (running_chan _ _ _ Hr) as (c & Hc & _).
  destruct Hr as [_ (k0 & sd0 & ph0 & Ht0 & _)]. apply put_actor_replies.
  - rewrite Ht. eauto.
  - rewrite Hph. by apply close_mailbox_replies; [rewrite Hc|].
Qed.

Lemma loop_head_replies tid k addr sd a ctx streams w :
  mine tid addr None w -> replies None None (loop_head tid k addr sd a ctx streams w).
Proof.
  intros Hm. unfold loop_head. simpl. apply put_mine. simpl.
  by apply (mine_congr _ _ _ w).
Qed.

Lemma watcher_notify_quiet a id w :
  w_oneshots (watcher_notify a id w) = w_oneshots w /\
  (forall s c, w_chans (watcher_notify a id w) !! s = Some c -> is_Some (w_chans w !! s)).
Proof.
  unfold watcher_notify, try_send.
  destruct (sender_try_send _ _ w) as [w1 r] eqn:Hs.
  by destruct (sender_try_send_quiet _ _ _ _ _ Hs) as (? & ? & ?).
Qed.

Lemma notify_watchers_quiet a w :
  w_oneshots (notify_watchers a w) = w_oneshots w /\
  (forall s c, w_chans (notify_watchers a w) !! s = Some c -> is_Some (w_chans w !! s)).
Proof.
  unfold notify_watchers. generalize (watchers_at w (addr_watchers a)) as ws. intros ws. revert w.
  induction ws as [|x ws IH]; intros w; simpl; [by eauto|].
  destruct (watcher_notify_quiet x (addr_id a) w) as [H1 H2].
  destruct (IH (watcher_notify x (addr_id a) w)) as [H3 H4]. split; [congruence|].
  intros s c Hc. apply H4 in Hc as [c' Hc']. eauto.
Qed.

Lemma notify_watchers_mine tid addr hand w :
  mine tid addr hand w -> mine tid addr hand (run_notify_watchers addr w).
Proof.
  intros Hm. pose proof (run_notify_watchers_running _ _ _ (proj1 Hm)) as Hr. split; [done|].
  unfold run_notify_watchers. set (w0 := log_event (ENotified addr (w_now w)) w).
  assert (Hm0 : mine tid addr hand w0) by (by apply (mine_congr _ _ _ w)).
  destruct (notify_watchers_quiet addr w0) as [H1 H2]. destruct Hm0 as [[Hw0 _] HR0].
  apply (replies_quiet_tasks _ _ w0); auto using notify_watchers_ext, notify_watchers_tasks.
Qed.

Lemma stop_children_fields ctx w :
  w_fresh (stop_children ctx w) = w_fresh w /\ w_chans (stop_children ctx w) = w_chans w /\
  w_oneshots (stop_children ctx w) = w_oneshots w.
Proof.
  unfold stop_children. generalize (ctx_children ctx) as cs. intros cs. revert w.
  induction cs as [|c cs IH]; intros w; simpl; [done|]. by destruct (IH (child_stop c w)) as (-> & -> & ->).
Qed.

Lemma stop_children_mine tid addr hand ctx w :
  mine tid addr hand w -> mine tid addr hand (stop_children ctx w).
Proof.
  destruct (stop_children_fields ctx w) as (? & ? & ?).
  apply mine_congr; auto using stop_children_tasks.
Qed.

Lemma child_start_replies tid f strategy tracker esc addr sd w :
  mine tid addr None w -> replies None None (child_start tid f strategy tracker esc addr sd w).
Proof.
  intros Hm. unfold child_start. destruct (factory_call f) as [[child f']|]; [|by apply end_task_replies].
  unfold run_started. simpl. destruct (run (started child) _ _) as [[[a1 r1] ctx1] w1] eqn:Hrun.
  eapply (run_mine tid addr None) in Hrun as [Hm1 Hc1].
  - destruct r1; [by apply loop_head_replies|by apply end_task_replies].
  - destruct Hm as [Hr HR]. split.
    + apply running_log. apply (running_ext_tasks _ _ w); [apply (new_signal_ext w)|done|done].
    + apply (replies_congr _ _ (fst (new_signal w))); try done.
      apply (replies_quiet_tasks _ _ w); try done; eauto using new_signal_ext. apply Hr.
  - split_and!; simpl; [done|done|lia].
Qed.

Lemma child_terminate_replies tid k addr sd w :
  mine tid addr None w -> replies None None (child_terminate tid k addr sd w).
Proof. intros Hm. by apply end_task_replies, notify_watchers_mine. Qed.

Lemma supervise_replies tid f strategy tracker esc addr sd b w :
  mine tid addr None w -> replies None None (supervise tid f strategy tracker esc addr sd b w).
Proof.
  intros Hm. unfold supervise.
  assert (Hn : mine tid addr None (notify_one esc w)) by (by apply (mine_congr _ _ _ w)).
  repeat case_match; auto using child_terminate_replies, child_start_replies.
Qed.

Lemma exit_loop_replies tid k addr sd a ctx b w :
  mine tid addr None w -> ctx_ok w addr ctx -> replies None None (exit_loop tid k addr sd a ctx b w).
Proof.
  intros Hm Hctx. pose proof (run_notify_watchers_fresh addr w) as F1.
  destruct k as [actor ctx0|f strategy tracker esc]; simpl.
  - unfold root_exit, run_stopped.
    destruct (run (stopped a) ctx _) as [[[a1 r1] ctx1] w1] eqn:Hrun.
    pose proof (ext_fresh _ _ (stop_children_ext ctx (run_notify_watchers addr w))) as F2.
    eapply (run_mine tid addr None) in Hrun as [Hm1 _].
    + by apply end_task_replies; [destruct r1|].
    + apply (mine_congr _ _ _ (stop_children ctx (run_notify_watchers addr w))); try done.
      by apply stop_children_mine, notify_watchers_mine.
    + eapply ctx_ok_mono; [|done]. simpl. lia.
  - unfold child_exit, run_stopped.
    destruct (run (stopped a) ctx _) as [[[a1 r1] ctx1] w1] eqn:Hrun.
    pose proof (ext_fresh _ _ (stop_children_ext ctx w)) as F2.
    eapply (run_mine tid addr None) in Hrun as [Hm1 _].
    + destruct r1; [by apply supervise_replies|by apply end_task_replies].
    + apply (mine_congr _ _ _ (stop_children ctx w)); try done. by apply stop_children_mine.
    + eapply ctx_ok_mono; [|done]. simpl. lia.
Qed.

Lemma poll_streams_mine tid addr hand streams a ctx w streams' a' ctx' w' r :
  poll_streams streams a ctx w = (streams', a', ctx', w', r) ->
  mine tid addr hand w -> ctx_ok w addr ctx -> mine tid addr hand w' /\ ctx_ok w' addr ctx'.
Proof.
  revert a ctx w streams' a' ctx' w' r.
  induction streams as [|s rest IH]; intros a ctx w streams' a' ctx' w' r H Hr Hctx; simpl in H.
  { by simplify_eq. }
  destruct (StreamWrapper_poll_next s a ctx w) as [[[[s1 a1] ctx1] w1] r1] eqn:H1.
  assert (Hs : mine tid addr hand w1 /\ ctx_ok w1 addr ctx1).
  { unfold StreamWrapper_poll_next in H1.
    destruct (stream_poll_next s) as [s2 [|[item|]]]; [by simplify_eq| |];
      destruct (run _ ctx w) as [[[? ?] ?] ?] eqn:Hrun; simplify_eq; eauto using run_mine. }
  destruct Hs as [Hr1 Hc1]. destruct r1 as [p|]; [|by simplify_eq].
  destruct (poll_streams rest a1 ctx1 w1) as [[[[rest2 a2] ctx2] w2] r2] eqn:H2.
  specialize (IH _ _ _ _ _ _ _ _ H2 Hr1 Hc1). destruct p as [|[]]; by simplify_eq.
Qed.

Definition sel_tx (sel : Sel) : option loc :=
  match sel with SelMsg m => message_tx m | _ => None end.

Lemma poll_select_mine tid addr sd a ctx streams w sel a' ctx' streams' w' :
  poll_select tid addr sd a ctx streams w = (sel, a', ctx', streams', w') ->
  mine tid addr None w -> ctx_ok w addr ctx -> mine tid addr (sel_tx sel) w' /\ ctx_ok w' addr ctx'.
Proof.
  intros H Hm Hctx. destruct (poll_select_running _ _ _ _ _ _ _ _ _ _ _ _ H (proj1 Hm) Hctx) as [Hr' Hc'].
  split; [split; [done|]|done]. unfold poll_select in H.
  destruct (recv_mailbox addr w) as [w1 p] eqn:Hrecv.
  pose proof (recv_mailbox_replies _ _ _ _ _ Hrecv (proj2 Hm)) as HR1.
  pose proof (recv_mailbox_running _ _ _ _ _ Hrecv (proj1 Hm)) as Hr1.
  pose proof (recv_mailbox_fresh _ _ _ _ Hrecv) as Hf.
  assert (Hctx1 : ctx_ok w1 addr ctx) by (eapply ctx_ok_mono; [|done]; lia).
  destruct p as [|[m|]]; [|by simplify_eq..].
  destruct (match streams with [] => _ | _ :: _ => _ end) as [[[[ss2 a2] ctx2] w2] r] eqn:Hps.
  assert (Hs : mine tid addr None w2 /\ ctx_ok w2 addr ctx2).
  { destruct streams; [simplify_eq; by split|]. eapply poll_streams_mine; [exact Hps|by split|done]. }
  destruct Hs as [[_ HR2] _]. unfold poll_signal in H.
  repeat case_match; simplify_eq; simpl; try done; by apply (replies_congr _ _ w2).
Qed.

Lemma poll_async_mine tid addr f tx ctx w r ctx' w' :
  poll_async f tx ctx w = (r, ctx', w') -> mine tid addr tx w -> ctx_ok w addr ctx ->
  mine tid addr (match r with APending _ => tx | _ => None end) w' /\ ctx_ok w' addr ctx'.
Proof.
  intros H Hm Hctx. destruct (poll_async_running _ _ _ _ _ _ _ _ _ H (proj1 Hm) Hctx) as [[Hr' Hc'] _].
  split; [split; [done|]|done]. unfold poll_async in H. destruct f as [p].
  destruct (run p ctx w) as [[[a1 r1] ctx1] w1] eqn:Hrun.
  eapply (run_mine tid addr tx) in Hrun as [[Hr1 HR1] _]; [|done|done].
  destruct r1 as [[x|f']|]; simplify_eq; [|done|].
  - apply reply_replies; [apply Hr1|done].
  - apply drop_tx_replies; [apply Hr1|done].
Qed.

Lemma AsyncMessageEnvelope_handle_mine tid addr e a ctx w r ctx' w' :
  AsyncMessageEnvelope_handle e a ctx w = (r, ctx', w') ->
  mine tid addr (aresponse_tx e) w -> ctx_ok w addr ctx ->
  mine tid addr (match r with APending _ => aresponse_tx e | _ => None end) w' /\ ctx_ok w' addr ctx'.
Proof.
  unfold AsyncMessageEnvelope_handle. destruct (amsg e); [apply poll_async_mine|].
  intros H [Hr HR] Hc. simplify_eq. destruct (drop_tx_running tid addr ctx' (aresponse_tx e) w (conj Hr Hc)).
  split; [split; [done|]|done]. apply drop_tx_replies; [apply Hr|done].
Qed.

Lemma MessageEnvelope_handle_mine tid addr e a ctx w a' ok ctx' w' :
  MessageEnvelope_handle e a ctx w = (a', ok, ctx', w') ->
  mine tid addr (response_tx e) w -> ctx_ok w addr ctx -> mine tid addr None w' /\ ctx_ok w' addr ctx'.
Proof.
  intros H Hm Hctx.
  destruct (MessageEnvelope_handle_running _ _ _ _ _ _ _ _ _ _ H (proj1 Hm) Hctx) as [[Hr' Hc'] _].
  split; [split; [done|]|done]. unfold MessageEnvelope_handle in H. destruct (msg e) as [m|].
  - destruct (run (handle a m) ctx w) as [[[a1 r1] ctx1] w1] eqn:Hrun.
    eapply (run_mine tid addr (response_tx e)) in Hrun as [[Hr1 HR1] _]; [|done|done].
    destruct r1; simplify_eq; [apply reply_replies|apply drop_tx_replies]; try done; apply Hr1.
  - simplify_eq. apply drop_tx_replies; apply Hm.
Qed.

Lemma after_async_replies tid k addr sd tx streams r ctx w :
  mine tid addr (match r with APending _ => tx | _ => None end) w -> ctx_ok w addr ctx ->
  replies None None (after_async tid k addr sd tx streams r ctx w).
Proof.
  intros Hm Hc. destruct r; simpl.
  - by apply put_mine.
  - by apply loop_head_replies.
  - by apply exit_loop_replies.
Qed.

Lemma poll_in_select_replies tid k addr sd a ctx streams w :
  mine tid addr None w -> ctx_ok w addr ctx ->
  replies None None (poll_in_select tid k addr sd a ctx streams w).
Proof.
  intros Hm Hctx. unfold poll_in_select.
  destruct (poll_select tid addr sd a ctx streams w) as [[[[sel a1] ctx1] ss1] w1] eqn:Hsel.
  destruct (poll_select_mine _ _ _ _ _ _ _ _ _ _ _ _ Hsel Hm Hctx) as [Hm1 Hc1].
  assert (Hm2 : mine tid addr (sel_tx sel) (upd_bcast (fun b => bcast_drop b tid) sd w1))
    by (by apply (mine_congr _ _ _ w1)).
  destruct sel as [[e|e]| | | | | | |]; simpl in *;
    auto using exit_loop_replies, loop_head_replies, end_task_replies, put_mine.
  - destruct (MessageEnvelope_handle _ _ _ _) as [[[a2 ok] ctx2] w2] eqn:He.
    destruct (MessageEnvelope_handle_mine _ _ _ _ _ _ _ _ _ _ He Hm2 Hc1) as [Hm3 Hc3].
    destruct ok; [by apply loop_head_replies|by apply exit_loop_replies].
  - destruct (AsyncMessageEnvelope_handle _ _ _ _) as [[r ctx2] w2] eqn:He.
    destruct (AsyncMessageEnvelope_handle_mine _ _ _ _ _ _ _ _ _ He Hm2 Hc1) as [Hm3 Hc3].
    by apply after_async_replies.
Qed.

Lemma poll_actor_replies tid k addr sd ph w :
  wf w -> w_tasks w !! tid = Some (TActor k addr sd ph) -> replies None None w ->
  replies None None (poll_actor tid k addr sd ph w).
Proof.
  intros Hw Ht HR. destruct (wf_actor _ Hw _ _ _ _ _ Ht) as [_ _ _ Hctx].
  pose proof (poll_starts _ _ _ _ _ _ Ht HR) as HR'.
  assert (Hm : live ph = true -> mine tid addr (phase_tx ph) w)
    by (intros; split; [split; eauto 6|done]).
  destruct ph as [|a ctx streams|f tx ctx streams| |]; simpl in *; try done; specialize (Hm eq_refl).
  - destruct k as [actor ctx|f strategy tracker esc]; [|by apply child_start_replies].
    unfold root_start, run_started. destruct (run _ ctx _) as [[[a1 r1] ctx1] w1] eqn:Hrun.
    eapply (run_mine tid addr None) in Hrun as [Hm1 _].
    + destruct r1; [by apply loop_head_replies|by apply end_task_replies].
    + by apply (mine_congr _ _ _ w).
    + by apply Hctx.
  - apply poll_in_select_replies; auto.
  - destruct (poll_async f tx ctx w) as [[r ctx1] w1] eqn:Hp.
    destruct (poll_async_mine _ _ _ _ _ _ _ _ _ Hp Hm (Hctx _ eq_refl)) as [Hm1 Hc1].
    by apply after_async_replies.
Qed.

(** ** Every step *)

Definition is_actor (t : Task) : bool := match t with TActor _ _ _ _ => true | _ => false end.

Lemma put_other_replies tid t0 t w :
  w_tasks w !! tid = Some t0 -> is_actor t0 = false -> is_actor t = false -> is_client t = false ->
  replies None None w -> replies None None (put_task tid t w).
Proof.
  intros Ht0 H0 H1 H2 [R1 R2 R3].
  assert (Hkeep : forall tid' k a sd ph, w_tasks w !! tid' = Some (TActor k a sd ph) ->
    <[tid := t]> (w_tasks w) !! tid' = Some (TActor k a sd ph)).
  { intros tid' k a sd ph Ht. rewrite lookup_insert_ne; [done|]. intros ->. by simplify_eq. }
  split; simpl; [done| |].
  - intros s c Hc. destruct (R2 _ _ Hc) as (t1 & k & a & sd & ph & Ht & Hs).
    exists t1, k, a, sd, ph. split; [|done]. by apply Hkeep.
  - intros tid' l d. rewrite lookup_insert. case_decide; [intros [= ->]; done|]. intros Htl.
    destruct (R3 _ _ _ Htl) as [Hs HR]. split; [done|]. destruct HR as [?|[[=]|[?|HR]]]; auto.
    right; right; right. destruct HR as (t1 & k & a & sd & f & ctx & ss & Hta & _).
    exists t1, k, a, sd, f, ctx, ss. split; [|done]. by apply Hkeep.
Qed.

Lemma timer_send_replies tid t0 a m again next w :
  wf w -> w_tasks w !! tid = Some t0 -> is_actor t0 = false ->
  is_actor again = false -> is_client again = false -> is_actor next = false -> is_client next = false ->
  replies None None w -> replies None None (timer_send tid a m again next w).
Proof.
  intros Hw Ht H0 H1 H2 H3 H4 HR. unfold timer_send, do_send.
  pose proof (sender_send_ext (addr_sender a) (Sync (MessageEnvelope_new m)) w) as Hx.
  destruct (sender_send _ _ w) as [w1 p] eqn:Hs. simpl in Hx.
  destruct (sender_send_quiet _ _ _ _ _ Hs) as (Ho & Htk & _ & Hc).
  apply (put_other_replies _ t0); try done; [by rewrite Htk|by destruct p|by destruct p|].
  by apply (replies_quiet_tasks _ _ w).
Qed.

Lemma poll_task_replies tid w : wf w -> replies None None w -> replies None None (poll_task tid w).
Proof.
  intros Hw HR. unfold poll_task. destruct (w_tasks w !! tid) as [t|] eqn:Ht; [|done].
  destruct t as [k addr sd ph|f|delay h a m t|period h a m t|reg name a t|]; [..|done].
  - by apply poll_actor_replies.
  - by apply poll_client_replies.
  - unfold poll_later. destruct t; repeat case_match; try done;
      solve [eapply timer_send_replies; [done|exact Ht|done..] | eapply put_other_replies; [exact Ht|done..]].
  - unfold poll_interval. destruct t; repeat case_match; try done;
      solve [eapply timer_send_replies; [done|exact Ht|done..] | eapply put_other_replies; [exact Ht|done..]].
  - assert (Hu : replies None None (unregister reg name w)) by (by apply (replies_congr _ _ w)).
    unfold poll_unregister. destruct t; repeat case_match; try done;
      (eapply put_other_replies; [exact Ht|done|done|done|assumption]).
Qed.

(** A new task that is not an actor and not a caller already waiting. *)
Lemma spawn_other_replies t w :
  wf w -> match t with TActor _ _ _ _ | TClient (inl (SendRecv _ _)) => False | _ => True end ->
  replies None None w -> replies None None (fst (spawn_task t w)).
Proof.
  intros Hw Hn HR. apply (replies_quiet _ _ w); try done.
  - apply spawn_task_ext. by destruct t.
  - intros tid f. simpl. rewrite lookup_insert. case_decide; intros; simplify_eq; auto.
Qed.

Lemma sender_try_send_replies me hand s x w :
  wf w -> replies me hand w -> replies me hand (fst (sender_try_send s x w)).
Proof.
  intros Hw HR. pose proof (sender_try_send_ext s x w) as Hx.
  destruct (sender_try_send s x w) as [w1 r] eqn:Hs.
  destruct (sender_try_send_quiet _ _ _ _ _ Hs) as (? & ? & ?). by apply (replies_quiet_tasks _ _ w).
Qed.

Lemma exec_replies l w : wf w -> replies None None w -> replies None None (exec l w).
Proof.
  intros Hw HR. destruct l as [tid|d| |sys actor cap|sys|a|a m is_async|a m is_async timeout|
    sys name ty a|sys name ty a|sys name|h]; simpl; try (by apply (replies_congr _ _ w)).
  - by apply poll_task_replies.
  - destruct HR as [R1 R2 R3]. split; [|exact R2|exact R3]. simpl. intros l o Ho. apply R1 in Ho. lia.
  - unfold spawn_with_capacity. destruct (spawn_with_shutdown _ _ _ w) as [[w' a]|] eqn:Hs; [|done].
    pose proof (spawn_ext _ _ _ _ _ _ Hs) as Hx. unfold spawn_with_shutdown in Hs.
    destruct (new_actor cap w) as [[w1 a1]|] eqn:Hn; [|done].
    destruct (new_actor_quiet _ _ _ _ Hn) as (Ho & Ht & _).
    pose proof (ext_fresh _ _ (new_actor_ext _ _ _ _ Hn)) as Hf. simpl in Hs. injection Hs as <- <-.
    eapply (replies_new_actor _ _ cap w w1); try done. simpl. rewrite <- Ht.
    exists (S (w_fresh w1)). split; [lia|done].
  - destruct is_async; [unfold try_send_async|unfold try_send].
    + pose proof (sender_try_send_replies None None (addr_sender a) (Async (AsyncMessageEnvelope_new m)) w Hw HR).
      by destruct (sender_try_send _ _ w).
    + pose proof (sender_try_send_replies None None (addr_sender a) (Sync (MessageEnvelope_new m)) w Hw HR).
      by destruct (sender_try_send _ _ w).
  - by apply (spawn_other_replies (TClient _) w).
  - apply (spawn_other_replies (TUnregister _ _ _ _) (register_manual _ _ _ _ w)); try done.
    + by apply (wf_congr w).
    + by apply (replies_congr _ _ w).
Qed.

Lemma reachable_replies w : reachable w -> replies None None w.
Proof.
  intros [ls ->]. unfold exec_all.
  assert (H0 : replies None None world0) by (split; simpl; intros; simplify_map_eq).
  pose proof wf0 as Hw0. revert H0 Hw0. generalize world0. induction ls as [|l ls IH]; intros w HR Hw; simpl; [done|].
  apply IH; [by apply exec_replies|by apply exec_wf].
Qed.

(** The actor a waiting caller waits for. *)
Lemma waiting_live w ct l d :
  reachable w -> w_tasks w !! ct = Some (TClient (inl (SendRecv l d))) ->
  oneshot_poll <$> w_oneshots w !! l = Some Pending ->
  exists tid k addr sd ph, w_tasks w !! tid = Some (TActor k addr sd ph) /\ live ph = true /\
    ((exists c m, w_chans w !! addr_sender addr = Some c /\ m ∈ mpsc_queue c /\ message_tx m = Some l) \/
     phase_tx ph = Some l).
Proof.
  intros Hr Ht Ho. pose proof (reachable_wf _ Hr) as Hw. pose proof (reachable_replies _ Hr) as HR.
  destruct (rp_wait _ _ _ HR _ _ _ Ht) as [_ [Hres|[[=]|[Hm|Ha]]]].
  - destruct Hres as (o & Ho' & Hp). rewrite Ho' in Ho. simpl in Ho. congruence.
  - destruct Hm as (s & c & m & Hc & Hm & Htx).
    destruct (rp_owner _ _ _ HR _ _ Hc) as (tid & k & addr & sd & ph & Hta & Hs). subst s.
    destruct (actor_chan _ _ _ _ _ _ Hw Hta) as (c' & Hc' & Hop). simplify_eq.
    exists tid, k, addr, sd, ph. split_and!; [done| |eauto 6].
    destruct (live ph) eqn:Hl; [done|].
    rewrite (wf_closed _ Hw _ _ Hc Hop) in Hm. by apply not_elem_of_nil in Hm.
  - destruct Ha as (tid & k & addr & sd & f & ctx & ss & Hta & _). eauto 15.
Qed.

(** ** The properties *)

(** C3: a caller of [Addr::send] that is still waiting for its reply is
    waiting for an actor whose task still runs, and that actor has the message
    in its mailbox or is working on it: no reply sender is ever lost. *)
Theorem waiting_caller_has_live_actor (w : World) ct l d :
  reachable w -> w_tasks w !! ct = Some (TClient (inl (SendRecv l d))) ->
  oneshot_poll <$> w_oneshots w !! l = Some Pending ->
  exists tid k addr sd ph, w_tasks w !! tid = Some (TActor k addr sd ph) /\
    is_alive addr w = true /\
    ((exists c m, w_chans w !! addr_sender addr = Some c /\ m ∈ mpsc_queue c /\ message_tx m = Some l) \/
     (exists f ctx ss, ph = PAwait f (Some l) ctx ss)).
Proof.
  intros Hr Ht Ho. destruct (waiting_live _ _ _ _ Hr Ht Ho) as (tid & k & addr & sd & ph & Hta & Hl & Hwh).
  exists tid, k, addr, sd, ph. split; [done|]. split.
  - by rewrite (is_alive_live _ _ _ _ _ _ (reachable_wf _ Hr) Hta).
  - destruct Hwh as [Hm|Hp]; [by left|right]. destruct ph; try done. simpl in Hp. subst. eauto.
Qed.

(** C29: when every actor has ended, by returning or by a panic, each caller
    that was waiting for a reply gets a result at its next poll: its reply if
    it was made in time, an error otherwise. *)
Theorem callers_released_when_actors_end (w : World) ct l d :
  reachable w -> w_tasks w !! ct = Some (TClient (inl (SendRecv l d))) ->
  (forall tid k addr sd ph, w_tasks w !! tid = Some (TActor k addr sd ph) -> is_alive addr w = false) ->
  exists r, snd (poll_client ct w) = Some r.
Proof.
  intros Hr Ht Hdead. unfold poll_client. rewrite Ht. simpl. unfold poll_reply.
  destruct (rp_wait _ _ _ (reachable_replies _ Hr) _ _ _ Ht) as [[o Ho] _]. rewrite Ho. simpl.
  destruct (oneshot_poll o) as [|[r|e]] eqn:Hp; simpl; [|by eauto..].
  exfalso. destruct (waiting_live w ct l d Hr Ht) as (tid & k & addr & sd & ph & Hta & Hl & _).
  - rewrite Ho. simpl. by rewrite Hp.
  - apply Hdead in Hta as Hd. rewrite (is_alive_live _ _ _ _ _ _ (reachable_wf _ Hr) Hta) in Hd. congruence.
Qed.

Lemma send_open_room (c : Chan ActorMessage) x :
  mpsc_open c = true -> 0 < mpsc_avail c ->
  exists c', mpsc_send c x = (c', Ready (Ok tt)) /\ mpsc_queue c' = mpsc_queue c ++ [x] /\ mpsc_open c' = true.
Proof.
  intros Ho Ha. destruct (mpsc_send_open _ c x Ho) as (c' & Ho' & [[H1 H2]|(H1 & _)]); [eauto|lia].
Qed.

(** The first poll of a [send]: the message is queued and the caller waits. *)
Lemma poll_send_queues ct addr m w c :
  w_tasks w !! ct = Some (TClient (inl (SendInit addr m false None))) ->
  w_chans w !! addr_sender addr = Some c -> mpsc_open c = true -> 0 < mpsc_avail c ->
  exists c', let w' := poll_task ct w in
    poll_client ct w = (w', None) /\ c' = fst (mpsc_send c (Sync (MessageEnvelope_with_response m (w_fresh w)))) /\
    w_tasks w' = <[ct := TClient (inl (SendRecv (w_fresh w) None))]> (w_tasks w) /\
    w_chans w' = <[addr_sender addr := c']> (w_chans w) /\
    mpsc_queue c' = mpsc_queue c ++ [Sync (MessageEnvelope_with_response m (w_fresh w))] /\
    w_oneshots w' = <[w_fresh w := oneshot_channel]> (w_oneshots w).
Proof.
  intros Ht Hc Ho Ha.
  destruct (send_open_room c (Sync (MessageEnvelope_with_response m (w_fresh w))) Ho Ha) as (c' & Hs & Hq & _).
  exists c'. unfold poll_task. rewrite Ht. unfold poll_client. rewrite Ht. simpl.
  unfold poll_enqueue, sender_send. simpl. rewrite Hc, Hs. simpl. unfold poll_reply. simpl.
  rewrite lookup_insert_eq. simpl. rewrite oneshot_channel_poll. simpl. by split_and!.
Qed.

(** A request to an idle actor is answered. When the caller's future is
    polled, then the actor, then the caller again, the caller has the result
    of the handler and the actor the state the handler left. *)
Theorem send_gets_reply (w : World) tid k addr sd a ctx streams ct m c a' r :
  reachable w -> parked tid k addr sd a ctx streams [] w -> ctx_streams ctx = [] ->
  w_chans w !! addr_sender addr = Some c -> 0 < mpsc_avail c ->
  w_tasks w !! ct = Some (TClient (inl (SendInit addr m false None))) ->
  handle a m = Ret a' r ->
  let w' := exec_all [LPoll ct; LPoll tid; LPoll ct] w in
  w_tasks w' !! ct = Some (TClient (inr (Ok r))) /\
  parked tid k addr sd a' ctx streams [] w'.
Proof.
  intros Hr Hp Hss Hc Ha Hct Hh. pose proof (reachable_wf _ Hr) as Hw.
  destruct (parked_running _ _ _ _ _ _ _ _ _ Hw Hp) as (_ & _ & c0 & Hc0 & Hq0 & Ho0).
  rewrite Hc in Hc0. injection Hc0 as <-. destruct Hp as [Htid _].
  assert (Hne : ct <> tid) by (intros ->; congruence).
  destruct (poll_send_queues ct addr m w c Hct Hc Ho0 Ha) as (c1 & _ & _ & T1 & C1 & Q1 & O1).
  set (w1 := poll_task ct w) in *. rewrite Hq0 in Q1.
  assert (P1 : parked tid k addr sd a ctx streams [Sync (MessageEnvelope_with_response m (w_fresh w))] w1).
  { split; [by rewrite T1, lookup_insert_ne|]. rewrite C1, lookup_insert_eq. simpl. by rewrite Q1. }
  destruct (poll_head_world _ _ _ _ _ _ _ _ _ _ _ _ _ P1 Hss eq_refl Hh) as (c2 & c3 & _ & _ & Q2 & C2 & T2' & O2 & _).
  set (w2 := poll_task tid w1) in *. simpl in O2. unfold upd_oneshot in O2.
  rewrite O1, lookup_insert_eq in O2. simpl in O2.
  assert (P2 : parked tid k addr sd a' ctx streams [] w2).
  { split; [by rewrite T2', lookup_insert_eq|]. rewrite C2, lookup_insert_eq. simpl. by rewrite Q2. }
  assert (T2 : w_tasks w2 !! ct = Some (TClient (inl (SendRecv (w_fresh w) None)))).
  { rewrite T2', lookup_insert_ne by done. by rewrite T1, lookup_insert_eq. }
  simpl. fold w1. fold w2. unfold poll_task at 1 2. rewrite T2. unfold poll_client. rewrite T2. simpl.
  unfold poll_reply. rewrite O2, !lookup_insert_eq. simpl.
  rewrite oneshot_send_poll by apply oneshot_channel_poll. simpl. split; [done|].
  destruct P2 as [P2 Q2']. split; simpl; [by rewrite lookup_insert_ne|done].
Qed.

End Replies.

(** ** Witnesses *)

Section Witnesses.
Import Demo.

(** An async increment has been asked for and the handler has yielded. *)
Definition asked : World :=
  exec_all [LSend counter (um Inc) true None; LPoll 7; LPoll 6] booted.

Lemma waiting_caller_has_live_actor_witness :
  exists tid k addr sd ph, w_tasks asked !! tid = Some (TActor k addr sd ph) /\
    is_alive addr asked = true /\
    ((exists c m, w_chans asked !! addr_sender addr = Some c /\ m ∈ mpsc_queue c /\ message_tx m = Some 8) \/
     (exists f ctx ss, ph = PAwait f (Some 8) ctx ss)).
Proof.
  apply (waiting_caller_has_live_actor asked 7 8 None).
  - apply exec_all_reachable, booted_reachable.
  - vm_compute. reflexivity.
  - vm_compute. reflexivity.
Defined.

(** The actor crashes on the message before the caller's one. *)
Definition abandoned : World :=
  exec_all [LTrySend counter (um Crash) false; LSend counter (um Inc) false None; LPoll 7; LPoll 6] booted.

Lemma callers_released_when_actors_end_witness :
  exists r, snd (poll_client 7 abandoned) = Some r.
Proof.
  apply (callers_released_when_actors_end abandoned 7 8 None).
  - apply exec_all_reachable, booted_reachable.
  - vm_compute. reflexivity.
  - intros tid k addr sd ph Ht.
    assert (E : w_tasks abandoned = {[6 := TActor (KRoot 7 (mkCtx counter (Some 3) 0 [] 5 [])) counter 0 PDone;
                                      7 := TClient (inl (SendRecv 8 None))]})
      by (vm_compute; reflexivity).
    rewrite E in Ht. apply lookup_insert_Some in Ht as [[<- [= <- <- <- <-]]|[Hne Ht]].
    + vm_compute. reflexivity.
    + by apply lookup_singleton_Some in Ht as [_ [=]].
Defined.

Definition asking : World := exec_all [LSend counter (um Inc) false None] booted.

Lemma send_gets_reply_witness :
  w_tasks (exec_all [LPoll 7; LPoll 6; LPoll 7] asking) !! 7 = Some (TClient (inr (Ok 8))).
Proof.
  refine (proj1 (send_gets_reply asking 6 _ counter 0 7 (mkCtx counter (Some 3) 0 [] 5 []) [] 7 (um Inc)
    (Ref.mkChan 3 [] true) 8 8 _ _ _ _ _ _ _)).
  - apply exec_all_reachable, booted_reachable.
  - split; vm_compute; reflexivity.
  - reflexivity.
  - vm_compute. reflexivity.
  - vm_compute. lia.
  - vm_compute. reflexivity.
  - reflexivity.
Defined.

End Witnesses.
