(* ===== verification/Supervision.v ===== *)
(** * Supervision: what happens when a handler panics

    A panic in a handler never leaves the task of its actor: a top-level
    actor is stopped, a child is stopped, restarted or escalated as its
    strategy says, and whoever watches the actor is told. The exact effect of
    [notify_watchers] is computed here too, with the panics that are not
    caught: those of a stream hook. *)

From S2P Require Import Prelude Tokio Supervisor Runtime Tasks Demo RuntimeFacts Wf Isolation Lifecycle.

Section Supervision.
Context {Y : Sys} {K : Tokio} {L : TokioLaws K} {B : Behaviour}.

(** A program that panics, wherever it runs. *)
Definition panics {X} (p : Prog X) : Prop :=
  forall ctx w, snd (fst (fst (run p ctx w))) = None.

(** ** From the panic to the end of the loop *)

Lemma exec_op_children op ctx w r ctx' w' :
  exec_op op ctx w = Some (r, ctx', w') -> ctx_children ctx `prefix_of` ctx_children ctx'.
Proof.
  destruct op; simpl; unfold spawn_child_with_strategy_and_capacity; intros H;
    repeat case_match; simplify_eq; try done; by apply prefix_app_r.
Qed.

Lemma run_children {X} (p : Prog X) ctx w a r ctx' w' :
  run p ctx w = (a, r, ctx', w') -> ctx_children ctx `prefix_of` ctx_children ctx'.
Proof.
  revert ctx w. induction p as [a0 x|a0|a0 op k IH]; simpl; intros ctx w H; [by simplify_eq..|].
  destruct (exec_op op ctx w) as [[[r1 ctx1] w1]|] eqn:Hop; [|by simplify_eq].
  etrans; [by eapply exec_op_children|eauto].
Qed.

(** The world in which the loop is left after a panic. *)
Record panicked (tid : nat) (addr : Addr) (ctx : Context) (q : list ActorMessage) (w : World)
    (ctx1 : Context) (w1 : World) : Prop := mkPanicked {
  pk_running : running tid addr w1;
  pk_ctx : ctx_ok w1 addr ctx1;
  pk_now : w_now w1 = w_now w;
  pk_fresh : w_fresh w <= w_fresh w1;
  pk_children : ctx_children ctx `prefix_of` ctx_children ctx1;
  pk_queue : exists c xs, w_chans w1 !! addr_sender addr = Some c /\ mpsc_queue c = q ++ xs;
}.

Lemma drop_tx_fields tx w :
  w_chans (drop_tx tx w) = w_chans w /\ w_now (drop_tx tx w) = w_now w /\
  w_fresh (drop_tx tx w) = w_fresh w /\ w_tasks (drop_tx tx w) = w_tasks w.
Proof. destruct tx; simpl; [|done]. unfold upd_oneshot. by case_match. Qed.

Lemma poll_panics tid k addr sd a ctx streams e m q w :
  wf w -> parked tid k addr sd a ctx streams (Sync e :: q) w ->
  msg e = Some m -> panics (handle a m) ->
  exists a1 ctx1 w1, poll_task tid w = exit_loop tid k addr sd a1 ctx1 true w1 /\
    panicked tid addr ctx q w ctx1 w1.
Proof.
  intros Hw Hp Hm Hpan.
  destruct (parked_running _ _ _ _ _ _ _ _ _ Hw Hp) as (Hr & Hctx & c & Hc & Hq & Ho).
  destruct Hp as [Ht _].
  destruct (recv_mailbox_some _ _ _ _ _ Hc Hq) as (c' & Hrecv & Hq' & Ho').
  unfold poll_task. rewrite Ht. simpl. unfold poll_in_select, poll_select. rewrite Hrecv.
  set (w0 := upd_bcast _ _ _). unfold MessageEnvelope_handle. rewrite Hm.
  pose proof (Hpan ctx w0) as Hn.
  destruct (run (handle a m) ctx w0) as [[[a1 r1] ctx1] w1] eqn:Hrun. simpl in Hn. subst r1.
  exists a1, ctx1, (drop_tx (response_tx e) w1). split; [done|].
  assert (Hr0 : running tid addr w0).
  { apply (running_congr _ _ (set_chans (<[addr_sender addr:=c']> (w_chans w)) w)); try done.
    apply running_set_chan; [done|congruence]. }
  pose proof (run_ext _ _ _ _ _ _ _ Hrun) as Hx.
  destruct (run_running _ _ _ _ _ _ _ _ _ Hrun Hr0 Hctx) as [Hr1 Hc1].
  destruct (drop_tx_running tid addr ctx1 (response_tx e) w1 (conj Hr1 Hc1)) as [Hr2 Hc2].
  destruct (drop_tx_fields (response_tx e) w1) as (F1 & F2 & F3 & F4).
  split; try done.
  - by rewrite F2, (ext_now _ _ Hx).
  - rewrite F3. apply (ext_fresh _ _ Hx).
  - by eapply run_children.
  - rewrite F1. destruct (ext_chan _ _ Hx (addr_sender addr) c') as (c2 & Hc2' & _ & xs & Hxs & _).
    + apply (wf_chans _ Hw _ _ Hc).
    + subst w0. simpl. by rewrite lookup_insert_eq.
    + exists c2, xs. by rewrite Hxs, Hq'.
Qed.

(** ** Giving up *)

(** The cases in which a panic ends the actor for good. *)
Definition gives_up (k : Kind) (now : Z) : Prop :=
  match k with
  | KRoot _ _ => True
  | KChild _ Stop _ _ => True
  | KChild _ Escalate _ _ => True
  | KChild _ (Restart _ _) (Some t) _ => snd (record_restart t now) = false
  | KChild _ (Restart _ _) None _ => False
  end.

Lemma returns_some {X} (p : Prog X) ctx w a r ctx' w' :
  returns p -> run p ctx w = (a, r, ctx', w') -> exists x, r = Some x.
Proof. intros Hp Hrun. destruct (Hp ctx w) as [x Hx]. rewrite Hrun in Hx. eauto. Qed.

Lemma exit_loop_gives_up tid k addr sd a ctx w :
  running tid addr w -> ctx_ok w addr ctx -> returns (stopped a) -> gives_up k (w_now w) ->
  stopped_cleanly tid addr (ctx_children ctx) (exit_loop tid k addr sd a ctx true w).
Proof.
  intros Hr Hctx Hret Hgu. destruct k as [actor ctx0|f strategy tracker esc].
  - by apply (exit_loop_clean tid (KRoot actor ctx0)).
  - simpl. unfold child_exit.
    destruct (run_stopped addr a ctx _) as [[[a1 r1] ctx1] w1] eqn:Hrun.
    destruct (run_after_stop_children tid _ _ _ _ _ _ _ _ Hrun Hr Hctx) as (Hr1 & Hok & Hp).
    pose proof (ext_now _ _ (run_ext _ _ _ _ _ _ _ Hrun)) as Hnow. simpl in Hnow.
    rewrite (ext_now _ _ (stop_children_ext ctx w)) in Hnow.
    destruct (returns_some _ _ _ _ _ _ _ Hret Hrun) as [x ->]. simpl. unfold supervise.
    destruct strategy as [|n d|]; [by apply child_terminate_clean| |].
    + destruct tracker as [t|]; [|done]. simpl in Hgu. rewrite Hnow.
      destruct (record_restart t (w_now w)) as [t' ok]. simpl in Hgu. subst ok.
      by apply child_terminate_clean.
    + apply child_terminate_clean; try done.
      * by apply (running_congr _ _ w1).
      * eapply permits_ext; [apply notify_one_ext|done|done].
Qed.

Lemma stopped_cleanly_prefix tid addr cs cs' w :
  cs `prefix_of` cs' -> stopped_cleanly tid addr cs' w -> stopped_cleanly tid addr cs w.
Proof.
  intros [rest ->] (H1 & H2 & H3). split; [done|split; [done|]]. by apply Forall_app in H3 as [? _].
Qed.

(** ** The exact effect of [notify_watchers] *)

(** How many of the watchers are addresses of the mailbox at [s]. *)
Definition watching (s : loc) (ws : list Addr) : nat :=
  length (filter (fun a => addr_sender a = s) ws).

Lemma watcher_notify_spec x id w s c :
  w_chans w !! s = Some c ->
  exists c', w_chans (watcher_notify x id w) !! s = Some c' /\ mpsc_open c' = mpsc_open c /\
    if decide (addr_sender x = s /\ mpsc_open c = true /\ 0 < mpsc_avail c)
    then mpsc_queue c' = mpsc_queue c ++ [Sync (MessageEnvelope_new (Terminated id))] /\
         S (mpsc_avail c') = mpsc_avail c
    else c' = c.
Proof.
  intros Hc. unfold watcher_notify, try_send, sender_try_send.
  destruct (decide (addr_sender x = s)) as [Hs|Hs].
  - rewrite Hs, Hc. set (e := Sync _). destruct (mpsc_open c) eqn:Ho.
    + destruct (decide (mpsc_avail c = 0)) as [Ha|Ha].
      * rewrite mpsc_try_send_full by done. simpl. exists c. rewrite lookup_insert_eq.
        rewrite decide_False by (intros (_ & _ & ?); lia). done.
      * destruct (mpsc_try_send_ok _ c e Ho) as (c' & -> & Hq & Ho' & Hav); [lia|]. simpl.
        exists c'. rewrite lookup_insert_eq, decide_True by (split_and!; [done|done|lia]). done.
    + rewrite mpsc_try_send_closed by done. simpl. exists c. rewrite lookup_insert_eq.
      rewrite decide_False by (intros (_ & ? & _); done). done.
  - exists c. rewrite decide_False by (intros (? & _); done).
    destruct (w_chans w !! addr_sender x) as [cx|]; [|done].
    destruct (mpsc_try_send cx _) as [cx' r]. simpl. by rewrite lookup_insert_ne.
Qed.

Lemma notify_all_spec ws id w s c :
  w_chans w !! s = Some c ->
  exists c', w_chans (foldl (fun w x => watcher_notify x id w) w ws) !! s = Some c' /\
    mpsc_open c' = mpsc_open c /\
    mpsc_queue c' = mpsc_queue c ++
      (if mpsc_open c
       then replicate (watching s ws `min` mpsc_avail c) (Sync (MessageEnvelope_new (Terminated id)))
       else []).
Proof.
  revert w c. induction ws as [|x ws IH]; intros w c Hc; simpl.
  { exists c. split_and!; [done|done|]. destruct (mpsc_open c); simpl; by rewrite app_nil_r. }
  destruct (watcher_notify_spec x id w s c Hc) as (c1 & Hc1 & Ho1 & Hspec).
  destruct (IH _ _ Hc1) as (c2 & Hc2 & Ho2 & Hq2). exists c2. split_and!; [done|congruence|].
  rewrite Hq2, Ho1. unfold watching. rewrite filter_cons. case_decide as Hd.
  - destruct Hd as (Hs & Ho & Ha). destruct Hspec as [Hq1 Hav]. rewrite Ho, Hq1, <- Hav.
    rewrite decide_True by done. simpl. by rewrite <- app_assoc.
  - subst c1. destruct (mpsc_open c) eqn:Ho; [|done]. case_decide as Hs; [|done].
    assert (mpsc_avail c = 0) as -> by (destruct (mpsc_avail c); [done|]; exfalso; apply Hd; split_and!; [done|done|lia]).
    by rewrite !Nat.min_0_r.
Qed.

(** ** The properties *)

(** C31: a panic in a handler is contained in its actor. A top-level actor, a
    child with strategy [Stop] or [Escalate] and a child whose restart limit
    is used up end in an orderly way: the task returns, the mailbox is closed
    and every child is asked to stop. *)
Theorem panic_stops_actor (w : World) tid k addr sd a ctx streams e m q :
  reachable w -> parked tid k addr sd a ctx streams (Sync e :: q) w ->
  msg e = Some m -> panics (handle a m) -> (forall a', returns (stopped a')) ->
  gives_up k (w_now w) ->
  stopped_cleanly tid addr (ctx_children ctx) (poll_task tid w).
Proof.
  intros Hr Hp Hm Hpan Hret Hgu.
  destruct (poll_panics _ _ _ _ _ _ _ _ _ _ _ (reachable_wf _ Hr) Hp Hm Hpan)
    as (a1 & ctx1 & w1 & -> & [P1 P2 P3 P4 P5 _]).
  apply (stopped_cleanly_prefix _ _ _ (ctx_children ctx1)); [done|].
  apply exit_loop_gives_up; try done. by rewrite P3.
Qed.

(** A child with strategy [Escalate] that panics also signals its parent,
    whose loop treats the signal as a panic of its own. *)
Theorem panic_escalates (w : World) tid f tracker esc addr sd a ctx streams e m q :
  reachable w -> parked tid (KChild f Escalate tracker esc) addr sd a ctx streams (Sync e :: q) w ->
  msg e = Some m -> panics (handle a m) -> (forall a', returns (stopped a')) ->
  signal_permit (signal_at (poll_task tid w) esc) = true.
Proof.
  intros Hr Hp Hm Hpan Hret. pose proof (reachable_wf _ Hr) as Hw.
  destruct (wf_actor _ Hw _ _ _ _ _ (proj1 Hp)) as [_ Hk _ _]. simpl in Hk.
  destruct (poll_panics _ _ _ _ _ _ _ _ _ _ _ Hw Hp Hm Hpan)
    as (a1 & ctx1 & w1 & -> & [P1 P2 P3 P4 P5 _]).
  simpl. unfold child_exit. destruct (run_stopped addr a1 ctx1 _) as [[[a2 r2] ctx2] w2] eqn:Hrun.
  pose proof (ext_fresh _ _ (run_ext _ _ _ _ _ _ _ Hrun)) as F1. simpl in F1.
  pose proof (ext_fresh _ _ (stop_children_ext ctx1 w1)) as F2.
  destruct (returns_some _ _ _ _ _ _ _ (Hret a1) Hrun) as [x ->]. simpl.
  unfold child_terminate. apply permit_notified_end. unfold run_notify_watchers.
  apply (ext_permit _ _ (notify_watchers_ext addr _)); [simpl; lia|].
  unfold signal_at. simpl. rewrite lookup_insert_eq. apply signal_notify_one_permit.
Qed.

(** C6: a child with strategy [Restart] that panics in a handler while its limit
    allows, and whose factory and hooks return, is restarted in place: the same
    address and the same mailbox, with every message that was queued behind
    the fatal one. The new instance comes from the factory and runs its
    [started] hook in a context without children and streams, so that what it
    goes on with is the state, the children and the streams that the hook
    leaves, and nothing of the instance before it. *)
Theorem panic_restarts_child (w : World) tid f n d t esc addr sd a ctx streams e m q child f' t' :
  reachable w ->
  parked tid (KChild f (Restart n d) (Some t) esc) addr sd a ctx streams (Sync e :: q) w ->
  msg e = Some m -> panics (handle a m) -> (forall a', returns (stopped a')) ->
  record_restart t (w_now w) = (t', true) -> factory_call f = Some (child, f') ->
  returns (started child) ->
  exists ctx0 w0 a1 ctx1 w1 xs,
    ctx_addr ctx0 = addr /\ ctx_children ctx0 = [] /\ ctx_streams ctx0 = [] /\
    run (started child) ctx0 w0 = (a1, Some tt, ctx1, w1) /\
    parked tid (KChild f' (Restart n d) (Some t') esc) addr sd a1 (fst (take_streams ctx1)) (ctx_streams ctx1) (q ++ xs)
      (poll_task tid w) /\
    is_alive addr (poll_task tid w) = true.
Proof.
  intros Hr Hp Hm Hpan Hret Hrec Hf Hst. pose proof (reachable_wf _ Hr) as Hw.
  assert (Hw' : wf (poll_task tid w)) by (by apply poll_task_wf).
  destruct (poll_panics _ _ _ _ _ _ _ _ _ _ _ Hw Hp Hm Hpan)
    as (a1 & ctx1 & w1 & E & [P1 P2 P3 P4 P5 (c & xs & Hc & Hq)]). rewrite E in *.
  simpl in *. unfold child_exit in *.
  destruct (run_stopped addr a1 ctx1 _) as [[[a2 r2] ctx2] w2] eqn:Hrun.
  pose proof (run_ext _ _ _ _ _ _ _ Hrun) as Hx. pose proof (ext_now _ _ Hx) as Hnow. simpl in Hnow.
  rewrite (ext_now _ _ (stop_children_ext ctx1 w1)), P3 in Hnow.
  destruct (returns_some _ _ _ _ _ _ _ (Hret a1) Hrun) as [x ->]. simpl in *.
  rewrite Hnow, Hrec in *. unfold child_start in *. rewrite Hf in *.
  assert (Hc1 : w_chans (log_event (EStopped addr (w_now (stop_children ctx1 w1))) (stop_children ctx1 w1))
    !! addr_sender addr = Some c).
  { simpl. assert (H : forall cs w, w_chans (foldl (fun w child => child_stop child w) w cs) = w_chans w)
      by (intros cs; induction cs as [|? ? IH]; intros; simpl; [done|by rewrite IH]).
    unfold stop_children. by rewrite H. }
  destruct (ext_chan _ _ Hx (addr_sender addr) c) as (c2 & Hc2 & _ & ys & Hys & _); [|done|].
  { pose proof (wf_chans _ (proj1 P1) _ _ Hc). simpl.
    pose proof (ext_fresh _ _ (stop_children_ext ctx1 w1)). lia. }
  pose proof (ext_fresh _ _ (stop_children_ext ctx1 w1)) as F1. pose proof (ext_fresh _ _ Hx) as F2. simpl in F2.
  pose proof (wf_chans _ (proj1 P1) _ _ Hc) as F3.
  simpl in *. destruct (run_started addr child _ _) as [[[a3 r3] ctx3] w3] eqn:Hrun3.
  unfold run_started in Hrun3. pose proof (run_ext _ _ _ _ _ _ _ Hrun3) as Hx3.
  destruct (returns_some _ _ _ _ _ _ _ Hst Hrun3) as [[] ->].
  destruct (ext_chan _ _ Hx3 (addr_sender addr) c2) as (c3 & Hc3 & _ & zs & Hzs & _); [simpl; lia|done|].
  unfold loop_head in *. destruct (take_streams ctx3) as [ctx4 new] eqn:Hts. simpl in *.
  set (w' := put_task _ _ _) in *.
  assert (Ht' : w_tasks w' !! tid = Some (TActor (KChild f' (Restart n d) (Some t') esc) addr sd (PSelect a3 ctx4 new)))
    by (subst w'; simpl; by rewrite lookup_insert_eq).
  eexists _, _, a3, ctx3, w3, (xs ++ ys ++ zs). split; [|split; [|split; [|split; [exact Hrun3|split]]]]; [done..| |].
  - unfold take_streams in Hts. injection Hts as <- <-. split; [exact Ht'|]. subst w'. simpl. rewrite Hc3. simpl.
    by rewrite Hzs, Hys, Hq, !app_assoc.
  - by rewrite (is_alive_live _ _ _ _ _ _ Hw' Ht').
Qed.

(** C33: [notify_watchers] puts one [Terminated] message per registration into
    each open mailbox, behind what is queued there, until the mailbox is full;
    what does not fit is lost, and closed mailboxes are left alone. *)
Theorem notify_watchers_delivers (w : World) a s c :
  w_chans w !! s = Some c ->
  exists c', w_chans (notify_watchers a w) !! s = Some c' /\ mpsc_open c' = mpsc_open c /\
    mpsc_queue c' = mpsc_queue c ++
      (if mpsc_open c
       then replicate (watching s (watchers_at w (addr_watchers a)) `min` mpsc_avail c)
              (Sync (MessageEnvelope_new (Terminated (addr_id a))))
       else []).
Proof. apply notify_all_spec. Qed.

Lemma drop_all_frame ms (w : World) :
  let w' := foldl (fun w m => drop_tx (message_tx m) w) w ms in
  w_log w' = w_log w /\ w_signals w' = w_signals w /\ w_chans w' = w_chans w.
Proof.
  revert w. induction ms as [|m ms IH]; intros w; simpl; [done|].
  destruct (IH (drop_tx (message_tx m) w)) as (-> & -> & ->). unfold drop_tx, upd_oneshot. by repeat case_match.
Qed.

(** The end of a task closes its mailbox and does nothing else. *)
Lemma end_task_frame tid k addr sd ph (w : World) :
  let w' := end_task tid k addr sd ph w in
  w_log w' = w_log w /\ w_signals w' = w_signals w /\
  (forall l, l <> addr_sender addr -> w_chans w' !! l = w_chans w !! l).
Proof.
  simpl. unfold close_mailbox. destruct (w_chans w !! addr_sender addr) as [c|]; [|done].
  destruct (mpsc_drop_rx c) as [c' ms].
  destruct (drop_all_frame ms (set_chans (<[addr_sender addr := c']> (w_chans w)) w)) as (-> & -> & ->).
  split_and!; [done..|]. intros l Hl. simpl. by rewrite lookup_insert_ne.
Qed.

Lemma poll_streams_log streams a ctx (w : World) streams' a' ctx' w' r :
  poll_streams streams a ctx w = (streams', a', ctx', w', r) -> w_log w' = w_log w.
Proof.
  revert a ctx w streams' a' ctx' w' r.
  induction streams as [|s rest IH]; intros a ctx w streams' a' ctx' w' r; simpl; [by intros [= _ _ _ <- _]|].
  unfold StreamWrapper_poll_next. destruct (stream_poll_next s) as [s1 p].
  assert (Hrest : forall (a1 : St) ctx1 w1 (flag : bool), w_log w1 = w_log w ->
    (let '(rest, a, ctx, w, any) := poll_streams rest a1 ctx1 w1 in
     if flag then (s1 :: rest, a, ctx, w, (fun _ => true) <$> any) else (rest, a, ctx, w, any)) =
      (streams', a', ctx', w', r) -> w_log w' = w_log w).
  { intros a1 ctx1 w1 flag Hl. destruct (poll_streams rest a1 ctx1 w1) as [[[[rest2 a3] ctx3] w3] r3] eqn:H2.
    apply IH in H2. destruct flag; intros; simplify_eq; congruence. }
  destruct p as [|[item|]].
  - destruct (poll_streams rest a ctx w) as [[[[rest2 a3] ctx3] w3] r3] eqn:H2. apply IH in H2. by intros [= _ _ _ <- _].
  - destruct (run (stream_handle a item) ctx w) as [[[a2 r2] ctx2] w2] eqn:Hrun.
    pose proof (ext_log _ _ (run_ext _ _ _ _ _ _ _ Hrun)) as Hl.
    destruct r2; [by apply (Hrest a2 ctx2 w2 true)|by intros [= _ _ _ <- _]].
  - destruct (run (stream_finished a) ctx w) as [[[a2 r2] ctx2] w2] eqn:Hrun.
    pose proof (ext_log _ _ (run_ext _ _ _ _ _ _ _ Hrun)) as Hl.
    destruct r2; [by apply (Hrest a2 ctx2 w2 false)|by intros [= _ _ _ <- _]].
Qed.

(** C40: a panic in a stream hook, [handle] or [finished] of any of the streams
    of an actor, is not caught: it aborts the task. The mailbox is closed, but
    that is all that happens beyond what the hooks themselves did ([w2]):
    [stopped] does not run, no signal is given, so that no child is asked to
    stop, and no other mailbox gets anything, so that no watcher is told. *)
Theorem stream_panic_aborts (w : World) tid k addr sd a ctx streams streams' a' ctx' w2 :
  reachable w -> parked tid k addr sd a ctx streams [] w ->
  snd (recv_mailbox addr w) = Pending ->
  poll_streams streams a ctx (fst (recv_mailbox addr w)) = (streams', a', ctx', w2, None) ->
  let w' := poll_task tid w in
  w_tasks w' !! tid = Some (TActor k addr sd PAborted) /\ is_alive addr w' = false /\
  w_log w' = w_log w /\ w_signals w' = w_signals w2 /\
  (forall l, l <> addr_sender addr -> w_chans w' !! l = w_chans w2 !! l).
Proof.
  intros Hr Hp Hrecv Hs w'. pose proof (reachable_wf _ Hr) as Hw.
  assert (Hw' : wf w') by (by apply poll_task_wf).
  assert (Hlog1 : w_log (fst (recv_mailbox addr w)) = w_log w)
    by (unfold recv_mailbox; repeat case_match; by simplify_eq).
  pose proof (poll_streams_log _ _ _ _ _ _ _ _ _ Hs) as Hlog2.
  assert (E : w' = end_task tid k addr sd PAborted (upd_bcast (fun b => bcast_drop b tid) sd w2)).
  { subst w'. destruct Hp as [Ht _]. unfold poll_task. rewrite Ht. simpl. unfold poll_in_select, poll_select.
    destruct (recv_mailbox addr w) as [w1 p]. simpl in *. subst p.
    destruct streams as [|s rest]; [by simpl in Hs|]. by rewrite Hs. }
  destruct (end_task_frame tid k addr sd PAborted (upd_bcast (fun b => bcast_drop b tid) sd w2)) as (H1 & H2 & H3).
  rewrite <- E in H1, H2, H3.
  assert (Ht' : w_tasks w' !! tid = Some (TActor k addr sd PAborted)) by (rewrite E; simpl; by rewrite lookup_insert_eq).
  split; [exact Ht'|]. split; [by rewrite (is_alive_live _ _ _ _ _ _ Hw' Ht')|]. simpl in H1, H2, H3. split; [congruence|].
  by split.
Qed.

End Supervision.

(** ** Witnesses *)

Section Witnesses.
Import Demo.

Lemma crash_panics n : panics (handle n (um Crash)).
Proof. by intros ctx w. Qed.

Definition crash_env : MessageEnvelope := MessageEnvelope_new (um Crash).

Lemma with_kid_reachable s : reachable (with_kid s).
Proof. apply exec_all_reachable, booted_reachable. Qed.

(** A top-level actor with a child: the child is asked to stop. *)
Definition parent_crashes : World :=
  exec_all [LTrySend counter (um Crash) false] (with_kid Stop).

Lemma panic_stops_actor_witness :
  stopped_cleanly 6 counter [kid] (poll_task 6 parent_crashes).
Proof.
  eapply (panic_stops_actor parent_crashes 6 _ counter 0 7 (mkCtx counter (Some 3) 0 [kid] 5 []) []
    crash_env (um Crash)).
  - apply exec_all_reachable, with_kid_reachable.
  - split; vm_compute; reflexivity.
  - reflexivity.
  - apply crash_panics.
  - apply stopped_returns.
  - exact I.
Defined.

Lemma panic_escalates_witness :
  signal_permit (signal_at (poll_task 10 (with_kid Escalate)) 5) = true.
Proof.
  eapply (panic_escalates (with_kid Escalate) 10 _ _ 5 kid 0 0 kid_ctx [] crash_env (um Crash)).
  - apply with_kid_reachable.
  - split; vm_compute; reflexivity.
  - reflexivity.
  - apply crash_panics.
  - apply stopped_returns.
Defined.

Lemma panic_restarts_child_witness :
  exists k a1 ctx' streams xs, parked 10 k kid 0 a1 ctx' streams ([Sync (MessageEnvelope_new (um Inc))] ++ xs)
    (poll_task 10 (with_kid (Restart 2 10))).
Proof.
  destruct (panic_restarts_child (with_kid (Restart 2 10)) 10 (kid_factory 1) 2 10
    (RestartTracker_new 2 10) 5 kid 0 0 kid_ctx [] crash_env (um Crash)
    [Sync (MessageEnvelope_new (um Inc))] 0 (kid_factory 2) (mkTracker [0%Z] 2 10))
    as (ctx0 & w0 & a1 & ctx1 & w1 & xs & _ & _ & _ & _ & H & _).
  - apply with_kid_reachable.
  - split; vm_compute; reflexivity.
  - reflexivity.
  - apply crash_panics.
  - apply stopped_returns.
  - vm_compute. reflexivity.
  - reflexivity.
  - intros ctx w. eexists. reflexivity.
  - eauto 6.
Defined.

Lemma notify_watchers_delivers_witness :
  exists c', w_chans (notify_watchers kid (with_kid Stop)) !! 2 = Some c' /\
    mpsc_queue c' = [Sync (MessageEnvelope_new (Terminated 2))].
Proof.
  destruct (notify_watchers_delivers (with_kid Stop) kid 2 (Ref.mkChan 3 [] true)) as (c' & H1 & _ & H2).
  - vm_compute. reflexivity.
  - exists c'. split; [exact H1|]. rewrite H2. vm_compute. reflexivity.
Defined.

(** A stream whose first item makes the hook panic. *)
Definition bad_item : list (Poll (option nat)) := [Ready (Some 99)].
Definition streaming : World :=
  exec_all [LTrySend counter (um (Attach bad_item)) false; LPoll 6] booted.

Definition after_bad_item := poll_streams [bad_item] (7 : @St demo_sys) (mkCtx counter (Some 3) 0 [] 5 [])
  (fst (recv_mailbox counter streaming)).

Lemma stream_panic_aborts_witness :
  is_alive counter (poll_task 6 streaming) = false /\ w_log (poll_task 6 streaming) = w_log streaming /\
  w_signals (poll_task 6 streaming) = w_signals (snd (fst after_bad_item)).
Proof.
  assert (Hn : snd after_bad_item = None) by (vm_compute; reflexivity).
  destruct after_bad_item as [[[[streams' a'] ctx'] w2] r] eqn:E. simpl in Hn. subst r.
  destruct (stream_panic_aborts streaming 6 (KRoot (7 : @St demo_sys) (mkCtx counter (Some 3) 0 [] 5 [])) counter 0 7
    (mkCtx counter (Some 3) 0 [] 5 []) [bad_item] streams' a' ctx' w2) as (_ & H1 & H2 & H3 & _).
  - apply exec_all_reachable, booted_reachable.
  - split; vm_compute; reflexivity.
  - vm_compute. reflexivity.
  - exact E.
  - split; [exact H1|]. split; [exact H2|exact H3].
Defined.

End Witnesses.
