(* ===== verification/Intensity.v ===== *)
(** * Intensity: how often a supervised child is started

    The bound on restarts that Supervisor.v proves of the tracker alone,
    carried to the running system: in every reachable world the calls of
    [started] recorded in the history for a child with strategy [Restart] are
    one first start and the restarts its tracker granted, so that no window of
    length [within] holds more than [max_restarts] restarts, whatever the
    scheduling, the messages and the behaviour of the actors. *)

From S2P Require Import Prelude Tokio Supervisor Runtime Tasks Demo RuntimeFacts Wf Isolation Lifecycle.
Import Supervisor.History.

Section Intensity.
Context {Y : Sys} {K : Tokio} {L : TokioLaws K} {B : Behaviour}.

(** ** The invariant of one child *)

(** Where a child stands between its starts. *)
Inductive Stage := SNew | SStarting | SLive | SDead.

Definition stage_of (ph : Phase) : Stage :=
  match ph with
  | PSpawned => SNew
  | PSelect _ _ _ | PAwait _ _ _ _ => SLive
  | PDone | PAborted => SDead
  end.

(** The starts [ss] of the child against the restarts [hist] it was granted. *)
Definition stage_hist (now : Z) (ss hist : list Z) (st : Stage) : Prop :=
  match st with
  | SNew => ss = [] /\ hist = []
  | SStarting => exists s, ss ++ [now] = s :: hist
  | SLive => exists s, ss = s :: hist
  | SDead => tail ss `prefix_of` hist
  end.

Definition restarts_ok (now : Z) (ss : list Z) (k : Kind) (st : Stage) : Prop :=
  match k with
  | KChild _ (Restart max d) tracker _ =>
      (0 <= max)%Z -> (0 <= d)%Z ->
      exists t hist last, tracker = Some t /\ tracks max d t hist last /\ (last <= now)%Z /\
        (forall a, Z.of_nat (length (in_window d a hist)) <= max)%Z /\ stage_hist now ss hist st
  | _ => True
  end.

Lemma stage_new_starting now ss hist : stage_hist now ss hist SNew -> stage_hist now ss hist SStarting.
Proof. intros [-> ->]. by exists now. Qed.

Lemma stage_started now ss hist :
  stage_hist now ss hist SStarting -> stage_hist now (ss ++ [now]) hist SLive.
Proof. done. Qed.

Lemma stage_dead now ss hist st : stage_hist now ss hist st -> stage_hist now ss hist SDead.
Proof.
  destruct st; simpl; [intros [-> ->]; done| |intros [s ->]; done|done].
  intros [s Hs]. destruct ss as [|s0 ss]; [apply prefix_nil|]. simpl in *. simplify_eq. by eexists.
Qed.

(** The invariant says nothing of the factory, the signal or, but for a start
    in progress, the clock. *)
Lemma restarts_ok_map now now' ss ss' f f' s tracker esc st st' :
  (now <= now')%Z ->
  (forall hist, stage_hist now ss hist st -> stage_hist now' ss' hist st') ->
  restarts_ok now ss (KChild f s tracker esc) st -> restarts_ok now' ss' (KChild f' s tracker esc) st'.
Proof.
  intros Hle Hs. destruct s; simpl; try done.
  intros H Hm Hd. destruct (H Hm Hd) as (t & hist & last & -> & Ht & Hl & Hw & Hst).
  exists t, hist, last. split_and!; auto. lia.
Qed.

Lemma restarts_ok_now now now' ss k ph :
  (now <= now')%Z -> restarts_ok now ss k (stage_of ph) -> restarts_ok now' ss k (stage_of ph).
Proof.
  destruct k as [|f s tracker esc]; [done|]. intros Hle. apply restarts_ok_map; [done|].
  intros hist. by destruct ph.
Qed.

Lemma restarts_ok_dead now ss k st : restarts_ok now ss k st -> restarts_ok now ss k SDead.
Proof.
  destruct k as [|f s tracker esc]; [done|]. apply restarts_ok_map; [lia|]. intros hist. apply stage_dead.
Qed.

Lemma restarts_ok_newborn now k addr sd ph :
  newborn (TActor k addr sd ph) -> restarts_ok now [] k (stage_of ph).
Proof.
  intros [-> Hk]. destruct k as [|f s tracker esc]; [done|]. subst tracker.
  destruct s as [|max d|]; simpl; try done. intros Hm Hd.
  exists (RestartTracker_new max d), [], now. by split_and!.
Qed.

(** A child with strategy [Restart] has a tracker. *)
Lemma restarts_ok_none now ss f max d esc st st' :
  restarts_ok now ss (KChild f (Restart max d) None esc) st ->
  restarts_ok now ss (KChild f (Restart max d) None esc) st'.
Proof. intros H Hm Hd. by destruct (H Hm Hd) as (? & ? & ? & ? & _). Qed.

(** A decision of the tracker. *)
Lemma restarts_ok_record now ss f max d t t' ok esc :
  record_restart t now = (t', ok) ->
  restarts_ok now ss (KChild f (Restart max d) (Some t) esc) SLive ->
  restarts_ok now ss (KChild f (Restart max d) (Some t') esc) (if ok then SStarting else SLive).
Proof.
  intros Hrec H Hm Hd. destruct (H Hm Hd) as (t0 & hist & last & [= <-] & Ht & Hl & Hw & s & ->).
  destruct (record_restart_tracks _ _ _ _ _ _ Ht Hl) as (t1 & hist' & ok' & Hr & Hg & Ht' & Hh).
  rewrite Hrec in Hr. simplify_eq. exists t1, (hist ++ if ok' then [now] else []), now.
  split_and!; try done.
  - intros a. eapply grant_restart_window; [done| |apply Hw|exact Hg].
    destruct Ht as (_ & _ & _ & _ & Hall). eapply Forall_impl; [done|]. simpl; lia.
  - destruct ok'; simpl; exists s; [done|]. by rewrite app_nil_r.
Qed.

(** ** A poll of the child *)

(** [w'] has the clock and the starts of [w] at [l]. *)
Definition same_starts (l : loc) (w w' : World) : Prop :=
  w_now w' = w_now w /\ starts l w' = starts l w.

#[local] Instance same_starts_preorder l : PreOrder (same_starts l).
Proof. split; [done|]. intros w1 w2 w3 [H1 H2] [H3 H4]. split; congruence. Qed.

Lemma same_starts_ext l w w' : ext w w' -> same_starts l w w'.
Proof. intros Hx. split; [by apply ext_now|]. unfold starts. by rewrite (ext_log _ _ Hx). Qed.

Lemma same_starts_run {X} l (p : Prog X) ctx w a r ctx' w' :
  run p ctx w = (a, r, ctx', w') -> same_starts l w w'.
Proof. intros. eapply same_starts_ext, run_ext; eauto. Qed.

Lemma same_starts_stopped l addr a ctx w a' r ctx' w' :
  run_stopped addr a ctx w = (a', r, ctx', w') -> same_starts l w w'.
Proof.
  intros H. etrans; [|by eapply same_starts_run]. split; [done|].
  rewrite starts_log. by rewrite app_nil_r.
Qed.

Lemma same_starts_notify l addr w : same_starts l w (run_notify_watchers addr w).
Proof.
  etrans; [|eapply same_starts_ext, notify_watchers_ext]. split; [done|].
  rewrite starts_log. by rewrite app_nil_r.
Qed.

Lemma same_starts_close l addr w : same_starts l w (close_mailbox addr w).
Proof.
  unfold close_mailbox. destruct (w_chans w !! addr_sender addr) as [c|]; [|reflexivity].
  destruct (mpsc_drop_rx c) as [c' ms].
  etrans; [|eapply same_starts_ext, foldl_ext; intros; apply drop_tx_ext]. done.
Qed.

(** The invariant of the task [tid] at [w], for the kind and the stage given. *)
Definition history_ok (addr : Addr) (k : Kind) (st : Stage) (w : World) : Prop :=
  restarts_ok (w_now w) (starts (addr_sender addr) w) k st.

Lemma history_ok_same addr k st w w' :
  same_starts (addr_sender addr) w w' -> history_ok addr k st w -> history_ok addr k st w'.
Proof. intros [H1 H2]. unfold history_ok. by rewrite H1, H2. Qed.

Lemma history_ok_start addr f f' s tracker esc now w :
  now = w_now w -> history_ok addr (KChild f s tracker esc) SStarting w ->
  history_ok addr (KChild f' s tracker esc) SLive (log_event (EStarted addr now) w).
Proof.
  intros ->. unfold history_ok. rewrite starts_log. cbn [omap list_omap start_of]. rewrite decide_True by done.
  apply restarts_ok_map; [done|]. intros hist. apply stage_started.
Qed.

(** What a poll of the task leaves. *)
Definition outcome (tid : nat) (addr : Addr) (w : World) : Prop :=
  exists k sd ph, w_tasks w !! tid = Some (TActor k addr sd ph) /\ ph <> PSpawned /\
    history_ok addr k (stage_of ph) w.

Lemma outcome_put tid k addr sd ph w :
  ph <> PSpawned -> history_ok addr k (stage_of ph) w ->
  outcome tid addr (put_task tid (TActor k addr sd ph) w).
Proof. intros Hp H. exists k, sd, ph. simpl. by rewrite lookup_insert_eq. Qed.

Lemma outcome_end tid k addr sd ph st w :
  live ph = false -> history_ok addr k st w -> outcome tid addr (end_task tid k addr sd ph w).
Proof.
  intros Hl H. apply outcome_put; [by destruct ph|]. eapply history_ok_same; [apply same_starts_close|].
  destruct ph; try done; by eapply restarts_ok_dead.
Qed.

Lemma outcome_loop_head tid k addr sd a ctx streams w :
  history_ok addr k SLive w -> outcome tid addr (loop_head tid k addr sd a ctx streams w).
Proof. intros H. unfold loop_head. simpl. by apply outcome_put. Qed.

Lemma outcome_child_start tid f strategy tracker esc addr sd w :
  history_ok addr (KChild f strategy tracker esc) SStarting w ->
  outcome tid addr (child_start tid f strategy tracker esc addr sd w).
Proof.
  intros H. unfold child_start. destruct (factory_call f) as [[child f']|]; [|by eapply outcome_end].
  unfold run_started. simpl. destruct (run (started child) _ _) as [[[a1 r1] ctx1] w1] eqn:Hrun.
  assert (H1 : history_ok addr (KChild f' strategy tracker esc) SLive w1).
  { eapply history_ok_same; [by eapply same_starts_run|]. apply (history_ok_start _ f); [done|].
    eapply history_ok_same; [apply same_starts_ext, (new_signal_ext w)|exact H]. }
  destruct r1; [by apply outcome_loop_head|by eapply outcome_end].
Qed.

Lemma outcome_child_terminate tid k addr sd st w :
  history_ok addr k st w -> outcome tid addr (child_terminate tid k addr sd w).
Proof.
  intros H. eapply outcome_end; [done|]. eapply history_ok_same; [apply same_starts_notify|exact H].
Qed.

Lemma outcome_supervise tid f strategy tracker esc addr sd b w :
  history_ok addr (KChild f strategy tracker esc) SLive w ->
  outcome tid addr (supervise tid f strategy tracker esc addr sd b w).
Proof.
  intros H. unfold supervise. destruct b; [|by eapply outcome_child_terminate].
  destruct strategy as [|max d|]; [by eapply outcome_child_terminate| |].
  - destruct tracker as [t|]; [|by apply outcome_child_start, (restarts_ok_none _ _ _ _ _ _ SLive)].
    destruct (record_restart t (w_now w)) as [t' ok] eqn:Hrec.
    pose proof (restarts_ok_record _ _ f max d _ _ _ esc Hrec H) as H'.
    destruct ok; [by apply outcome_child_start|by eapply outcome_child_terminate].
  - eapply outcome_child_terminate, history_ok_same; [|exact H]. apply same_starts_ext, notify_one_ext.
Qed.

Lemma outcome_exit_loop tid k addr sd a ctx b w :
  history_ok addr k SLive w -> outcome tid addr (exit_loop tid k addr sd a ctx b w).
Proof.
  intros H. destruct k as [actor ctx0|f strategy tracker esc]; simpl.
  - unfold root_exit. destruct (run_stopped _ _ _ _) as [[[a1 r1] ctx1] w1].
    apply (outcome_end _ _ _ _ _ SLive); [by destruct r1|done].
  - unfold child_exit. destruct (run_stopped _ _ _ _) as [[[a1 r1] ctx1] w1] eqn:Hrun.
    assert (H1 : history_ok addr (KChild f strategy tracker esc) SLive w1).
    { eapply history_ok_same; [|exact H]. etrans; [eapply same_starts_ext, (stop_children_ext ctx)|].
      by eapply same_starts_stopped. }
    destruct r1; [by apply outcome_supervise|by eapply outcome_end].
Qed.

Lemma same_starts_async l f tx ctx w r ctx' w' :
  poll_async f tx ctx w = (r, ctx', w') -> same_starts l w w'.
Proof.
  unfold poll_async. destruct f as [p]. destruct (run p ctx w) as [[[a1 r1] ctx1] w1] eqn:Hrun.
  intros H. etrans; [by eapply same_starts_run|].
  destruct r1 as [[x|f']|]; simplify_eq; [|reflexivity|];
    apply same_starts_ext; auto using reply_ext, drop_tx_ext.
Qed.

Lemma outcome_after_async tid k addr sd tx streams r ctx w :
  history_ok addr k SLive w -> outcome tid addr (after_async tid k addr sd tx streams r ctx w).
Proof. intros H. destruct r; simpl; auto using outcome_loop_head, outcome_exit_loop. by apply outcome_put. Qed.

Lemma same_starts_streams l streams a ctx w streams' a' ctx' w' r :
  poll_streams streams a ctx w = (streams', a', ctx', w', r) -> same_starts l w w'.
Proof.
  revert a ctx w streams' a' ctx' w' r.
  induction streams as [|s rest IH]; intros a ctx w streams' a' ctx' w' r H; simpl in H.
  { by simplify_eq. }
  destruct (StreamWrapper_poll_next s a ctx w) as [[[[s1 a1] ctx1] w1] r1] eqn:H1.
  assert (Hs : same_starts l w w1).
  { unfold StreamWrapper_poll_next in H1.
    destruct (stream_poll_next s) as [s2 [|[item|]]]; [by simplify_eq| |];
      destruct (run _ ctx w) as [[[? ?] ?] ?] eqn:Hrun; simplify_eq; by eapply same_starts_run. }
  etrans; [exact Hs|]. destruct r1 as [p|]; [|by simplify_eq].
  destruct (poll_streams rest a1 ctx1 w1) as [[[[rest2 a2] ctx2] w2] r2] eqn:H2.
  specialize (IH _ _ _ _ _ _ _ _ H2). destruct p as [|[]]; by simplify_eq.
Qed.

Lemma same_starts_select l tid addr sd a ctx streams w sel a' ctx' streams' w' :
  poll_select tid addr sd a ctx streams w = (sel, a', ctx', streams', w') -> same_starts l w w'.
Proof.
  unfold poll_select. destruct (recv_mailbox addr w) as [w1 p] eqn:Hrecv. intros H.
  assert (H1 : same_starts l w w1).
  { clear H. unfold recv_mailbox in Hrecv. repeat case_match; by simplify_eq. }
  etrans; [exact H1|]. destruct p as [|[m|]]; [|by simplify_eq..].
  destruct (match streams with [] => _ | _ :: _ => _ end) as [[[[ss2 a2] ctx2] w2] r] eqn:Hps.
  assert (Hs : same_starts l w1 w2).
  { destruct streams; [by simplify_eq|]. eauto using same_starts_streams. }
  etrans; [exact Hs|]. unfold poll_signal in H. repeat case_match; by simplify_eq.
Qed.

Lemma outcome_poll_in_select tid k addr sd a ctx streams w :
  history_ok addr k SLive w -> outcome tid addr (poll_in_select tid k addr sd a ctx streams w).
Proof.
  intros H. unfold poll_in_select.
  destruct (poll_select tid addr sd a ctx streams w) as [[[[sel a1] ctx1] ss1] w1] eqn:Hsel.
  assert (H1 : history_ok addr k SLive w1) by (eapply history_ok_same; [by eapply same_starts_select|done]).
  assert (H2 : history_ok addr k SLive (upd_bcast (fun b => bcast_drop b tid) sd w1)) by done.
  destruct sel as [[e|e]| | | | | | |]; auto using outcome_exit_loop, outcome_loop_head.
  - destruct (MessageEnvelope_handle _ _ _ _) as [[[a2 ok] ctx2] w2] eqn:He.
    assert (H3 : history_ok addr k SLive w2).
    { eapply history_ok_same; [|exact H2]. unfold MessageEnvelope_handle in He. destruct (msg e).
      - destruct (run _ _ _) as [[[a3 r3] ctx3] w3] eqn:Hrun. etrans; [by eapply same_starts_run|].
        destruct r3; simplify_eq; apply same_starts_ext; auto using reply_ext, drop_tx_ext.
      - simplify_eq. apply same_starts_ext, drop_tx_ext. }
    destruct ok; [by apply outcome_loop_head|by apply outcome_exit_loop].
  - destruct (AsyncMessageEnvelope_handle _ _ _ _) as [[r ctx2] w2] eqn:He.
    apply outcome_after_async. eapply history_ok_same; [|exact H2].
    unfold AsyncMessageEnvelope_handle in He. destruct (amsg e); [by eapply same_starts_async|].
    simplify_eq. apply same_starts_ext, drop_tx_ext.
  - by apply outcome_put.
  - by eapply outcome_end.
Qed.

Lemma outcome_poll_actor tid k addr sd ph w :
  w_tasks w !! tid = Some (TActor k addr sd ph) -> history_ok addr k (stage_of ph) w ->
  outcome tid addr (poll_actor tid k addr sd ph w).
Proof.
  intros Ht H. destruct ph as [|a ctx streams|f tx ctx streams| |]; simpl in *.
  - destruct k as [actor ctx|f strategy tracker esc].
    + unfold root_start. destruct (run_started _ _ _ _) as [[[a1 r1] ctx1] w1].
      destruct r1; [by apply outcome_loop_head|by apply (outcome_end _ _ _ _ _ SLive)].
    + apply outcome_child_start. revert H. apply restarts_ok_map; [lia|]. intros hist. apply stage_new_starting.
  - by apply outcome_poll_in_select.
  - destruct (poll_async f tx ctx w) as [[r ctx1] w1] eqn:Hp. apply outcome_after_async.
    eapply history_ok_same; [by eapply same_starts_async|done].
  - by exists k, sd, PDone.
  - by exists k, sd, PAborted.
Qed.

(** ** The invariant of the system *)

Record intensity (w : World) : Prop := mkIntensity {
  in_task tid k addr sd ph :
    w_tasks w !! tid = Some (TActor k addr sd ph) -> history_ok addr k (stage_of ph) w;
  in_starts l : starts l w <> [] ->
    exists tid k addr sd ph, w_tasks w !! tid = Some (TActor k addr sd ph) /\
      addr_sender addr = l /\ ph <> PSpawned;
}.

(** A task that was just spawned has no starts. *)
Lemma newborn_ok w tid k addr sd ph :
  wf w ->
  (forall l, starts l w <> [] -> exists tid k addr sd ph,
     w_tasks w !! tid = Some (TActor k addr sd ph) /\ addr_sender addr = l /\ ph <> PSpawned) ->
  w_tasks w !! tid = Some (TActor k addr sd ph) -> newborn (TActor k addr sd ph) ->
  history_ok addr k (stage_of ph) w.
Proof.
  intros Hw Hs Ht Hb. unfold history_ok.
  destruct (decide (starts (addr_sender addr) w = [])) as [->|Hne]; [by eapply restarts_ok_newborn|].
  destruct (Hs _ Hne) as (tid' & k' & a' & sd' & ph' & Ht' & Ha & Hp).
  pose proof (wf_inj _ Hw _ _ _ _ _ _ _ _ _ _ Ht Ht' (eq_sym Ha)) as <-.
  rewrite Ht in Ht'. simplify_eq. by destruct Hb.
Qed.

Lemma poll_actor_intensity tid k addr sd ph w :
  wf w -> intensity w -> w_tasks w !! tid = Some (TActor k addr sd ph) ->
  intensity (poll_actor tid k addr sd ph w).
Proof.
  intros Hw [I1 I2] Ht. pose proof (poll_actor_wf _ _ _ _ _ _ Hw Ht) as Hw'.
  pose proof (iso_poll_actor tid k addr sd ph w) as Hi.
  destruct (outcome_poll_actor _ _ _ _ _ _ Ht (I1 _ _ _ _ _ Ht)) as (k1 & sd1 & ph1 & Ht1 & Hp1 & Ho1).
  set (w' := poll_actor tid k addr sd ph w) in *.
  assert (Hs : forall l, starts l w' <> [] -> exists tid k addr sd ph,
    w_tasks w' !! tid = Some (TActor k addr sd ph) /\ addr_sender addr = l /\ ph <> PSpawned).
  { intros l. destruct (decide (l = addr_sender addr)) as [->|Hne]; [by exists tid, k1, addr, sd1, ph1|].
    rewrite (iso_starts _ _ _ _ Hi) by done. intros (tid2 & k2 & a2 & sd2 & ph2 & Ht2 & Ha2 & Hp2)%I2.
    exists tid2, k2, a2, sd2, ph2. split_and!; [|done|done].
    apply (iso_task _ _ _ _ Hi) in Ht2 as Ht2'; [done| |by eapply (wf_tasks _ Hw)].
    intros ->. rewrite Ht in Ht2. by simplify_eq. }
  split; [|exact Hs]. intros tid2 k2 a2 sd2 ph2 Ht2.
  destruct (decide (tid2 = tid)) as [->|Hne]; [rewrite Ht1 in Ht2; by simplify_eq|].
  destruct (iso_born _ _ _ _ Hi _ _ Hne (eq_refl : is_actor (TActor k2 a2 sd2 ph2) = true) Ht2) as [Hold|Hb];
    [|by eapply newborn_ok].
  eapply history_ok_same; [|by eapply I1]. split; [by apply (iso_now _ _ _ _ Hi)|].
  apply (iso_starts _ _ _ _ Hi). intros Heq. by apply Hne, (wf_inj _ Hw _ _ _ _ _ _ _ _ _ _ Hold Ht).
Qed.

(** A step that polls no actor. *)
Record bystander (w w' : World) : Prop := mkBystander {
  by_now : (w_now w <= w_now w')%Z;
  by_log : w_log w' = w_log w;
  by_born tid t : is_actor t = true -> w_tasks w' !! tid = Some t -> w_tasks w !! tid = Some t \/ newborn t;
}.

Lemma bystander_ext w w' : ext w w' -> bystander w w'.
Proof.
  intros Hx. split; [by rewrite (ext_now _ _ Hx)|by apply ext_log|by apply (ext_born _ _ Hx)].
Qed.

Lemma bystander_same w w' :
  (w_now w <= w_now w')%Z -> w_log w' = w_log w -> w_tasks w' = w_tasks w -> bystander w w'.
Proof. intros Hn Hl Ht. split; [done|done|]. rewrite Ht. auto. Qed.

Lemma bystander_put tid t w w' : is_actor t = false -> bystander w w' -> bystander w (put_task tid t w').
Proof.
  intros Ha [H1 H2 H3]. split; [done|done|]. simpl. intros tid' t' Ha'.
  rewrite lookup_insert. case_decide; intros; simplify_eq; [congruence|auto].
Qed.

Lemma timer_send_bystander tid a m again next w :
  is_actor again = false -> is_actor next = false -> bystander w (timer_send tid a m again next w).
Proof.
  intros Ha Hn. unfold timer_send. destruct (timer_send_ext a m w) as [Hx _].
  destruct (do_send a m w) as [w1 p]. apply bystander_put; [by destruct p|by apply bystander_ext].
Qed.

Lemma bystander_refl w : bystander w w.
Proof. by apply bystander_same. Qed.

Lemma poll_other_bystander tid w :
  match w_tasks w !! tid with Some (TActor _ _ _ _) => False | _ => True end ->
  bystander w (poll_task tid w).
Proof.
  unfold poll_task. destruct (w_tasks w !! tid) as [t|] eqn:Ht; [|intros; apply bystander_refl].
  intros Hn. destruct t as [k addr sd ph|f|delay h a m t|period h a m t|reg name a t|]; [done|..].
  - apply bystander_ext, poll_client_ext.
  - unfold poll_later. destruct t; repeat case_decide; try case_match;
      auto using bystander_refl, bystander_put, timer_send_bystander.
  - unfold poll_interval. destruct t; repeat case_decide; try case_match;
      auto using bystander_refl, bystander_put, timer_send_bystander.
  - unfold poll_unregister. destruct t; repeat case_decide; try case_match;
      auto using bystander_refl, bystander_put; apply bystander_put; try done; by apply bystander_same.
  - apply bystander_refl.
Qed.

Lemma exec_bystander l w :
  (forall tid, l = LPoll tid -> match w_tasks w !! tid with Some (TActor _ _ _ _) => False | _ => True end) ->
  bystander w (exec l w).
Proof.
  intros Hn. destruct l as [tid|d| |sys actor cap|sys|a|a m is_async|a m is_async timeout|
    sys name ty a|sys name ty a|sys name|h]; simpl; try (by apply bystander_same).
  - by apply poll_other_bystander, Hn.
  - apply bystander_same; simpl; [lia|done|done].
  - unfold spawn_with_capacity. destruct (spawn_with_shutdown _ _ _ w) as [[w' a]|] eqn:Hs;
      [|apply bystander_refl]. eauto using bystander_ext, spawn_ext.
  - apply bystander_ext. destruct is_async; [unfold try_send_async|unfold try_send].
    + pose proof (sender_try_send_ext (addr_sender a) (Async (AsyncMessageEnvelope_new m)) w).
      by destruct (sender_try_send _ _ w).
    + pose proof (sender_try_send_ext (addr_sender a) (Sync (MessageEnvelope_new m)) w).
      by destruct (sender_try_send _ _ w).
  - by apply bystander_ext, (spawn_task_ext (TClient _) w).
  - destruct (bystander_ext _ _ (spawn_task_ext (TUnregister (sys_registry sys) name a TNew)
      (register_manual (sys_registry sys) name ty a w) I)) as [X1 X2 X3]. by split.
Qed.

Lemma bystander_intensity w w' :
  wf w' -> bystander w w' -> intensity w ->
  (forall tid k addr sd ph, w_tasks w !! tid = Some (TActor k addr sd ph) ->
     w_tasks w' !! tid = Some (TActor k addr sd ph)) ->
  intensity w'.
Proof.
  intros Hw' [B1 B2 B3] [I1 I2] Hk.
  assert (Es : forall l, starts l w' = starts l w) by (intros; unfold starts; by rewrite B2).
  assert (Hs : forall l, starts l w' <> [] -> exists tid k addr sd ph,
    w_tasks w' !! tid = Some (TActor k addr sd ph) /\ addr_sender addr = l /\ ph <> PSpawned).
  { intros l. rewrite Es. intros (tid & k & a & sd & ph & Ht & Ha & Hp)%I2. eauto 10. }
  split; [|exact Hs]. intros tid k addr sd ph Ht.
  destruct (B3 _ _ (eq_refl : is_actor (TActor k addr sd ph) = true) Ht) as [Hold|Hb];
    [|by eapply newborn_ok].
  unfold history_ok. rewrite Es. eapply restarts_ok_now; [exact B1|by eapply I1].
Qed.

Lemma exec_intensity l w : wf w -> intensity w -> intensity (exec l w).
Proof.
  intros Hw HI.
  assert (Hcase : (exists tid k addr sd ph, l = LPoll tid /\ w_tasks w !! tid = Some (TActor k addr sd ph)) \/
    (forall tid, l = LPoll tid -> match w_tasks w !! tid with Some (TActor _ _ _ _) => False | _ => True end)).
  { destruct l as [tid| | | | | | | | | | |]; try (by right).
    destruct (w_tasks w !! tid) as [[k addr sd ph| | | | |]|] eqn:Ht;
      [left; by exists tid, k, addr, sd, ph|right; intros tid' [= <-]; by rewrite Ht..]. }
  destruct Hcase as [(tid & k & addr & sd & ph & -> & Ht)|Hn].
  - simpl. unfold poll_task. rewrite Ht. by apply poll_actor_intensity.
  - apply (bystander_intensity w); auto using exec_wf, exec_bystander.
    intros tid k addr sd ph Ht. assert (Hl : l <> LPoll tid).
    { intros ->. specialize (Hn tid eq_refl). by rewrite Ht in Hn. }
    by apply (keeps_task _ _ _ _ (exec_keeps l _ _ _ _ _ w Hw Ht Hl)).
Qed.

Lemma reachable_intensity w : reachable w -> intensity w.
Proof.
  intros [ls ->]. cut (wf (exec_all ls world0) /\ intensity (exec_all ls world0)); [by intros [_ ?]|].
  induction ls as [|l ls IH] using rev_ind.
  - split; [apply wf0|]. split; [intros *; simpl; by rewrite lookup_empty|done].
  - unfold exec_all in *. rewrite foldl_snoc. destruct IH. split; auto using exec_wf, exec_intensity.
Qed.

(** C12: the bound on restarts as the user of a supervised child sees it. In every
    reachable state of the system, the calls of [started] for a child with
    strategy [Restart(max, d)], after the first one, are at most [max] in any
    closed interval of time of length [d]. Nothing is assumed of the
    scheduling, of the other actors or of the code of the child, which may
    panic at any poll. *)
Theorem child_restarts_bounded (w : World) tid f max d tracker esc addr sd ph a :
  reachable w -> w_tasks w !! tid = Some (TActor (KChild f (Restart max d) tracker esc) addr sd ph) ->
  (0 <= max)%Z -> (0 <= d)%Z ->
  (Z.of_nat (length (in_window d a (tail (starts (addr_sender addr) w)))) <= max)%Z.
Proof.
  intros Hr Ht Hm Hd. pose proof (in_task _ (reachable_intensity _ Hr) _ _ _ _ _ Ht) as H.
  destruct (restarts_ok_dead _ _ _ _ H Hm Hd) as (t & hist & last & _ & _ & _ & Hb & [xs Hp]).
  specialize (Hb a). rewrite Hp in Hb. unfold in_window in *. rewrite filter_app, length_app in Hb. lia.
Qed.

End Intensity.

(** ** Witnesses *)

Section Witnesses.
Import Demo.

(** A child that may be restarted once in 10 ticks: it crashes at the instant
    0 and is restarted, crashes again at 4 and is given up. *)
Definition crashed_twice : World :=
  exec_all [LPoll 10; LPoll 10; LTick 4; LTrySend kid (um Crash) false; LPoll 10] (with_kid (Restart 1 10)).

Lemma child_restarts_bounded_witness :
  (Z.of_nat (length (in_window 10 (-3) (tail (starts 7 crashed_twice)))) <= 1)%Z /\
  starts 7 crashed_twice = [0; 0]%Z /\ is_alive kid crashed_twice = false.
Proof.
  split; [|split; vm_compute; reflexivity].
  eapply (child_restarts_bounded crashed_twice 10 _ 1 10 _ _ kid _ _ (-3)); [|vm_compute; reflexivity|lia|lia].
  apply exec_all_reachable, exec_all_reachable, booted_reachable.
Defined.

End Witnesses.
