(* ===== verification/Services.v ===== *)
(** * Services: timers and the name registry

    The guarantees of [Context::run_later] and [Context::run_interval] (their
    tasks are in Tasks.v, their handles in Runtime.v) and of the [Registry] of
    src/registry.rs. *)

From S2P Require Import Prelude Tokio Supervisor Runtime Tasks Demo RuntimeFacts Wf Isolation Lifecycle.

Section Services.
Context {Y : Sys} {K : Tokio} {L : TokioLaws K} {B : Behaviour}.

(** ** Frames for tasks that are not actors *)

Lemma poll_iso tid w :
  wf w ->
  (forall tid' t, tid' <> tid -> w_tasks w !! tid' = Some t -> is_client t = false ->
     w_tasks (poll_task tid w) !! tid' = Some t) /\
  (forall h, h < w_fresh w -> is_cancelled h w = true -> is_cancelled h (poll_task tid w) = true) /\
  w_fresh w <= w_fresh (poll_task tid w).
Proof.
  intros Hw. destruct (w_tasks w !! tid) as [t|] eqn:Ht.
  2:{ unfold poll_task. rewrite Ht. by split_and!. }
  assert (Hcase : (exists k a sd ph, t = TActor k a sd ph) \/
    match t with TActor _ _ _ _ => False | _ => True end) by (destruct t; eauto 6).
  destruct Hcase as [(k & a & sd & ph & ->)|Hna].
  - unfold poll_task. rewrite Ht. pose proof (iso_poll_actor tid k a sd ph w) as Hi. split_and!.
    + intros tid' t Hne Ht' Hc. pose proof (wf_tasks _ Hw _ _ Ht').
      pose proof (iso_task _ _ _ _ Hi tid' t Hne) as Hk. rewrite Hc in Hk. auto.
    + apply (iso_cancelled _ _ _ _ Hi).
    + apply (iso_fresh _ _ _ _ Hi).
  - destruct (poll_other_iso tid w) as (w1 & Hx & _ & Hf & Hfr & Htk); [by rewrite Ht|]. split_and!.
    + intros tid' t' Hne Ht' _. apply Htk; [done|by eapply wf_tasks|done].
    + intros h Hh Hc. unfold is_cancelled. rewrite Hf. by apply (ext_cancelled _ _ Hx).
    + rewrite Hfr. apply (ext_fresh _ _ Hx).
Qed.

Lemma exec_other_frame l w :
  wf w -> (forall tid, l <> LPoll tid) ->
  (forall tid t, w_tasks w !! tid = Some t -> is_client t = false -> w_tasks (exec l w) !! tid = Some t) /\
  (forall h, h < w_fresh w -> is_cancelled h w = true -> is_cancelled h (exec l w) = true) /\
  w_fresh w <= w_fresh (exec l w).
Proof.
  intros Hw Hl.
  assert (Hext : forall w', ext w w' ->
    (forall tid t, w_tasks w !! tid = Some t -> is_client t = false -> w_tasks w' !! tid = Some t) /\
    (forall h, h < w_fresh w -> is_cancelled h w = true -> is_cancelled h w' = true) /\
    w_fresh w <= w_fresh w').
  { intros w' Hx. split_and!; [|apply (ext_cancelled _ _ Hx)|apply (ext_fresh _ _ Hx)].
    intros tid t Ht Hc. pose proof (ext_task _ _ Hx tid t (wf_tasks _ Hw _ _ Ht) Ht) as H. by rewrite Hc in H. }
  destruct l as [tid'|d| |sys actor cap|sys|a|a m is_async|a m is_async timeout|
    sys name ty a|sys name ty a|sys name|h]; simpl; try (split_and!; simpl; auto; lia).
  - by destruct (Hl tid').
  - unfold spawn_with_capacity. destruct (spawn_with_shutdown _ _ _ w) as [[w' a]|] eqn:Hs.
    + by eapply Hext, spawn_ext.
    + by apply Hext.
  - apply Hext. destruct is_async; [unfold try_send_async|unfold try_send].
    + pose proof (sender_try_send_ext (addr_sender a) (Async (AsyncMessageEnvelope_new m)) w).
      by destruct (sender_try_send _ _ w).
    + pose proof (sender_try_send_ext (addr_sender a) (Sync (MessageEnvelope_new m)) w).
      by destruct (sender_try_send _ _ w).
  - apply (Hext (fst (spawn_task (TClient (inl (SendInit a m is_async timeout))) w))); by apply spawn_task_ext.
  - split_and!; [|by auto|lia]. intros tid t Ht Hc. pose proof (wf_tasks _ Hw _ _ Ht).
    rewrite lookup_insert_ne by lia. done.
  - apply (Hext (cancel h w)), cancel_ext.
Qed.

(** A timer task that has not fired and whose handle has been cancelled. *)
Definition silenced (tid : nat) (h : TimerHandle) (w : World) : Prop :=
  h < w_fresh w /\ is_cancelled h w = true /\
  match w_tasks w !! tid with
  | Some (TLater _ h' _ _ t) => h' = h /\ match t with TSending _ => False | _ => True end
  | Some (TInterval _ h' _ _ t) => h' = h /\ match t with TSending _ => False | _ => True end
  | Some TFinished => True
  | _ => False
  end.

(** A poll of such a task sends nothing and does not wake it up. *)
Lemma silenced_poll tid h w :
  silenced tid h w -> silenced tid h (poll_task tid w) /\ w_chans (poll_task tid w) = w_chans w.
Proof.
  intros (Hf & Hc & Ht). unfold poll_task, silenced.
  destruct (w_tasks w !! tid) as [[k a sd ph|f|delay h' a m t|period h' a m t|reg name a t|]|] eqn:Htk; try done;
    try (rewrite Htk; by split_and!).
  - destruct Ht as [-> Ht]. unfold poll_later. destruct t; [| |done]; simpl.
    + rewrite lookup_insert_eq. by split_and!.
    + rewrite Hc. case_decide; simpl; [rewrite lookup_insert_eq|rewrite Htk]; by split_and!.
  - destruct Ht as [-> Ht]. unfold poll_interval. destruct t; [| |done]; simpl.
    + case_decide; simpl; rewrite lookup_insert_eq; by split_and!.
    + rewrite Hc, orb_true_r. case_decide; simpl; [rewrite lookup_insert_eq|rewrite Htk]; by split_and!.
Qed.

Lemma silenced_exec tid h l w : wf w -> silenced tid h w -> silenced tid h (exec l w).
Proof.
  intros Hw Hs.
  assert (Hcase : l = LPoll tid \/ (exists tid', l = LPoll tid' /\ tid' <> tid) \/ forall tid', l <> LPoll tid').
  { destruct l as [tid'| | | | | | | | | | |]; try (right; right; congruence).
    destruct (decide (tid' = tid)) as [->|]; [by left|right; left; eauto]. }
  assert (Hframe : (forall t, w_tasks w !! tid = Some t -> is_client t = false ->
      w_tasks (exec l w) !! tid = Some t) ->
    (forall h, h < w_fresh w -> is_cancelled h w = true -> is_cancelled h (exec l w) = true) ->
    w_fresh w <= w_fresh (exec l w) -> silenced tid h (exec l w)).
  { intros H1 H2 H3. destruct Hs as (Hf & Hc & Ht). split_and!; [lia|by apply H2|].
    destruct (w_tasks w !! tid) as [t|] eqn:Htk; [|done]. rewrite (H1 t) by (by destruct t). by destruct t. }
  destruct Hcase as [->|[(tid' & -> & Hne)|Hl]].
  - by apply silenced_poll.
  - destruct (poll_iso tid' w Hw) as (H1 & H2 & H3). apply Hframe; [|done|done].
    intros t Ht Hc. by apply H1.
  - destruct (exec_other_frame l w Hw Hl) as (H1 & H2 & H3). apply Hframe; auto.
Qed.

(** ** The properties *)

(** C39: a timer that is cancelled before it fires never fires: whatever runs
    afterwards, no poll of its task puts a message into any mailbox. *)
Theorem cancelled_timer_never_fires (w : World) tid h ls :
  reachable w -> silenced tid h w ->
  let w' := exec_all ls w in w_chans (poll_task tid w') = w_chans w'.
Proof.
  intros Hr Hs w'. apply (silenced_poll tid h). subst w'. unfold exec_all.
  pose proof (reachable_wf _ Hr) as Hw. clear Hr. revert w Hw Hs.
  induction ls as [|l ls IH]; intros w Hw Hs; simpl; [done|].
  apply IH; [by apply exec_wf|by apply silenced_exec].
Qed.

(** A one-shot timer that is due, not cancelled and finds room in the
    mailbox puts its message there, behind what is queued, and is finished. *)
Theorem due_timer_fires (w : World) tid delay h a m due c :
  w_tasks w !! tid = Some (TLater delay h a m (TSleep due)) -> (due <= w_now w)%Z ->
  is_cancelled h w = false -> w_chans w !! addr_sender a = Some c ->
  mpsc_open c = true -> 0 < mpsc_avail c ->
  w_tasks (poll_task tid w) !! tid = Some TFinished /\
  mpsc_queue <$> w_chans (poll_task tid w) !! addr_sender a =
    Some (mpsc_queue c ++ [Sync (MessageEnvelope_new m)]).
Proof.
  intros Ht Hdue Hc Hch Ho Ha. unfold poll_task. rewrite Ht. simpl. rewrite decide_True, Hc by done.
  unfold timer_send, do_send, sender_send. rewrite Hch.
  destruct (mpsc_send_open _ c (Sync (MessageEnvelope_new m)) Ho) as (c' & _ & [[-> Hq]|(H0 & _)]); [|lia].
  simpl. rewrite !lookup_insert_eq. split; [done|]. simpl. by rewrite Hq.
Qed.

(** The registry is a map from names: after [register] the name gives the
    address at the type it was registered with and nothing at any other type,
    other names give what they gave before, and [unregister] undoes it. *)
Theorem registry_is_a_map (w : World) reg name ty a name' ty' :
  let w' := register reg name ty a w in
  lookup reg name ty' w' = (if decide (ty' = ty) then Some a else None) /\
  (name' <> name -> lookup reg name' ty' w' = lookup reg name' ty' w) /\
  lookup reg name ty' (unregister reg name w') = None /\
  (name' <> name -> lookup reg name' ty' (unregister reg name w') = lookup reg name' ty' w).
Proof.
  unfold lookup, registry_at. simpl. rewrite !lookup_insert_eq. simpl. split_and!.
  - by rewrite lookup_insert_eq.
  - intros Hne. by rewrite lookup_insert_ne.
  - by rewrite lookup_delete_eq.
  - intros Hne. rewrite lookup_delete_ne by done. unfold registry_at. simpl.
    rewrite lookup_insert_eq. simpl. by rewrite lookup_insert_ne.
Qed.

(** When the watcher task of a registration finds its actor dead it
    removes the name, and does so whoever holds the name by then: a name that
    was taken over by another, live actor is lost to it. *)
Theorem stale_watcher_unregisters_successor (w : World) tid reg name old due ty :
  w_tasks w !! tid = Some (TUnregister reg name old (TSleep due)) -> (due <= w_now w)%Z ->
  is_alive old w = false ->
  lookup reg name ty (poll_task tid w) = None.
Proof.
  intros Ht Hdue Hdead. unfold poll_task. rewrite Ht. unfold poll_unregister.
  rewrite decide_True, Hdead by done. unfold lookup, registry_at. simpl.
  rewrite lookup_insert_eq. simpl. by rewrite lookup_delete_eq.
Qed.

End Services.

(** ** Witnesses *)

Section Witnesses.
Import Demo.

(** The counter has asked for an [Inc] after 10; the timer task 8 sleeps. *)
Definition timer_world : World :=
  exec_all [LTrySend counter (um (Later 10)) false; LPoll 6; LPoll 8] booted.
Definition cancelled_world : World := exec_all [LCancel 7] timer_world.

Lemma cancelled_timer_never_fires_witness :
  w_chans (poll_task 8 (exec_all [LTick 20] cancelled_world)) = w_chans (exec_all [LTick 20] cancelled_world).
Proof.
  apply (cancelled_timer_never_fires cancelled_world 8 7 [LTick 20]).
  - do 2 apply exec_all_reachable. apply booted_reachable.
  - vm_compute. split_and!; [lia|done|done|done].
Defined.

Lemma due_timer_fires_witness :
  w_tasks (poll_task 8 (exec_all [LTick 20] timer_world)) !! 8 = Some TFinished /\
  mpsc_queue <$> w_chans (poll_task 8 (exec_all [LTick 20] timer_world)) !! addr_sender counter =
    Some ([] ++ [Sync (MessageEnvelope_new (um Inc))]).
Proof.
  apply (due_timer_fires (exec_all [LTick 20] timer_world) 8 10 7 counter (um Inc) 10 (Ref.mkChan 3 [] true));
    try (vm_compute; reflexivity).
  - vm_compute. discriminate.
  - vm_compute. lia.
Defined.

(** A name is taken over while the watcher of its dead first holder sleeps. *)
Definition second : Addr := mkAddr 8 2%Z 10 9.
Definition taken_over : World :=
  exec_all [LRegister sys "x" 0 counter; LPoll 7; LSpawn sys 1 3; LTrySend counter (um Crash) false; LPoll 6;
            LRegister sys "x" 0 second; LTick registry_period] booted.

Lemma stale_watcher_unregisters_successor_witness :
  lookup 1 "x" 0 taken_over = Some second /\ is_alive second taken_over = true /\
  lookup 1 "x" 0 (poll_task 7 taken_over) = None.
Proof.
  split_and!; [vm_compute; reflexivity|vm_compute; reflexivity|].
  apply (stale_watcher_unregisters_successor taken_over 7 1 "x" counter registry_period 0).
  - vm_compute. reflexivity.
  - vm_compute. discriminate.
  - vm_compute. reflexivity.
Defined.

End Witnesses.
