(* ===== verification/Names.v ===== *)
(** * Names: what the name registry promises over a run (src/registry.rs)

    [Registry] stores addresses of any actor type behind [Box<dyn Any>]. Here
    its contents are related to the calls made on it: through any run of the
    system, in which actors and the watcher tasks of [register] interleave
    with the calls, [lookup::<A>] only returns what was last registered under
    the name, and only at the type [A] it was registered with. *)

From S2P Require Import Prelude Tokio Supervisor Runtime Tasks Demo RuntimeFacts Wf Isolation Lifecycle.

Section Names.
Context {Y : Sys} {K : Tokio} {L : TokioLaws K} {B : Behaviour}.

(** ** The abstract registry *)

(** What the calls leave registered under a name, were it never removed by a
    watcher: the type and the address. *)
Definition registration (reg : loc) (name : string) (acc : option (nat * Addr)) (l : Label) : option (nat * Addr) :=
  match l with
  | LRegister sys n ty a | LRegisterManual sys n ty a =>
      if decide (sys_registry sys = reg /\ n = name) then Some (ty, a) else acc
  | LUnregister sys n => if decide (sys_registry sys = reg /\ n = name) then None else acc
  | _ => acc
  end.

Definition registered (reg : loc) (name : string) (ls : list Label) : option (nat * Addr) :=
  foldl (registration reg name) None ls.

(** ** What the steps of the system do to the registries *)

(** [w'] registers nothing that [w] does not. *)
Definition fewer (w w' : World) : Prop :=
  forall reg name v, registry_at w' reg !! name = Some v -> registry_at w reg !! name = Some v.

Lemma fewer_same w w' : w_registries w' = w_registries w -> fewer w w'.
Proof. intros E reg name v. unfold registry_at. by rewrite E. Qed.

Lemma registry_insert (w : World) reg reg' (m : gmap string (nat * Addr)) :
  registry_at (set_registries (<[reg := m]> (w_registries w)) w) reg' =
    if decide (reg = reg') then m else registry_at w reg'.
Proof.
  unfold registry_at. simpl. rewrite lookup_insert. by case_decide.
Qed.

Lemma unregister_fewer reg name w : fewer w (unregister reg name w).
Proof.
  intros reg' name' v. unfold unregister. rewrite registry_insert. case_decide; subst; [|done].
  by intros [_ ?]%lookup_delete_Some.
Qed.

Lemma timer_send_registries tid a m t1 t2 (w : World) : w_registries (timer_send tid a m t1 t2 w) = w_registries w.
Proof.
  unfold timer_send. destruct (timer_send_ext a m w) as [Hx _]. pose proof (ext_registries _ _ Hx) as H.
  by destruct (do_send a m w).
Qed.

Lemma poll_fewer tid w : fewer w (poll_task tid w).
Proof.
  unfold poll_task.
  destruct (w_tasks w !! tid) as [[k addr sd ph|f|delay h a m t|period h a m t|reg name a t|]|]; [..|by apply fewer_same].
  - apply fewer_same, (iso_registries _ _ _ _ (iso_poll_actor tid k addr sd ph w)).
  - apply fewer_same, (ext_registries _ _ (poll_client_ext tid w)).
  - apply fewer_same. unfold poll_later. destruct t; repeat case_match; rewrite ?timer_send_registries; done.
  - apply fewer_same. unfold poll_interval. destruct t; repeat case_match; rewrite ?timer_send_registries; done.
  - unfold poll_unregister. assert (Hu : fewer w (put_task tid TFinished (unregister reg name w))).
    { intros reg' name' v H. apply (unregister_fewer reg name w). exact H. }
    destruct t; repeat case_match; (exact Hu || by apply fewer_same).
  - by apply fewer_same.
Qed.

(** The calls that are not on a registry. *)
Lemma exec_fewer l w :
  match l with LRegister _ _ _ _ | LRegisterManual _ _ _ _ => False | _ => True end -> fewer w (exec l w).
Proof.
  destruct l as [tid|d| |sys actor cap|sys|a|a m is_async|a m is_async timeout|
    sys name ty a|sys name ty a|sys name|h]; intros Hl; try done; simpl; try (by apply fewer_same).
  - apply poll_fewer.
  - intros reg name v. unfold registry_at. simpl. rewrite lookup_insert. case_decide; subst; simpl; [|done].
    by unfold Registry_new; rewrite lookup_empty.
  - unfold spawn_with_capacity. destruct (spawn_with_shutdown _ _ _ w) as [[w' a]|] eqn:Hs; [|by apply fewer_same].
    apply fewer_same, ext_registries. by eapply spawn_ext.
  - apply fewer_same. destruct is_async; [unfold try_send_async|unfold try_send].
    + pose proof (ext_registries _ _ (sender_try_send_ext (addr_sender a) (Async (AsyncMessageEnvelope_new m)) w)).
      by destruct (sender_try_send _ _ w).
    + pose proof (ext_registries _ _ (sender_try_send_ext (addr_sender a) (Sync (MessageEnvelope_new m)) w)).
      by destruct (sender_try_send _ _ w).
  - apply unregister_fewer.
Qed.

(** A registration replaces what was there. *)
Lemma exec_register l sys name ty a w reg name' v :
  l = LRegister sys name ty a \/ l = LRegisterManual sys name ty a ->
  registry_at (exec l w) reg !! name' = Some v ->
  if decide (sys_registry sys = reg /\ name = name') then v = (ty, a) else registry_at w reg !! name' = Some v.
Proof.
  assert (Hm : forall w', w_registries w' = w_registries (register_manual (sys_registry sys) name ty a w) ->
    registry_at w' reg !! name' = Some v ->
    if decide (sys_registry sys = reg /\ name = name') then v = (ty, a) else registry_at w reg !! name' = Some v).
  { intros w' E H. apply (fewer_same _ _ E) in H. unfold register_manual in H. rewrite registry_insert in H.
    destruct (decide (sys_registry sys = reg)) as [->|Hr]; [|rewrite decide_False by naive_solver; done].
    rewrite lookup_insert in H. destruct (decide (name = name')) as [->|Hn].
    - rewrite decide_True by done. congruence.
    - rewrite decide_False by naive_solver. done. }
  intros [->| ->] H; apply (Hm _ ltac:(reflexivity) H).
Qed.

Lemma registry_sound ls reg name v :
  registry_at (exec_all ls world0) reg !! name = Some v -> registered reg name ls = Some v.
Proof.
  unfold exec_all, registered. induction ls as [|l ls IH] using rev_ind.
  { done. }
  rewrite !foldl_app. simpl. intros H.
  set (w := foldl (fun w l => exec l w) world0 ls) in *.
  assert (Hf : fewer w (exec l w) -> registry_at w reg !! name = Some v) by (intros Hf; by apply Hf).
  destruct l as [tid|d| |sys actor cap|sys|a|a m is_async|a m is_async timeout|
    sys n ty a|sys n ty a|sys n|h]; cbn [registration]; try (apply IH, Hf, exec_fewer; exact I).
  - apply (exec_register _ sys n ty a) in H; [|by left]. case_decide; [by subst|by apply IH].
  - apply (exec_register _ sys n ty a) in H; [|by right]. case_decide; [by subst|by apply IH].
  - case_decide as Hd; [|apply IH, Hf, exec_fewer; exact I]. destruct Hd as [<- <-]. exfalso.
    simpl in H. unfold ActorSystem_unregister, unregister in H.
    rewrite registry_insert, decide_True, lookup_delete_eq in H by done. done.
Qed.

(** ** The properties *)

(** C25: a typed lookup is sound: in every run, an address that [lookup::<A>]
    returns for a name is the one that was registered last under this name,
    it was registered as an address of an actor of type [A], and the name was
    not unregistered since. *)
Theorem lookup_returns_registered ls sys name ty a :
  ActorSystem_lookup sys name ty (exec_all ls world0) = Some a ->
  registered (sys_registry sys) name ls = Some (ty, a).
Proof.
  unfold ActorSystem_lookup, lookup. destruct (registry_at _ _ !! name) as [[ty' a']|] eqn:H; [|done].
  case_decide; [|done]. intros [= <-]. subst. by apply registry_sound.
Qed.

End Names.

(** ** Witness *)

Section Witnesses.
Import Ref Demo.

(** The name is given to a second actor, of another type. *)
Definition name_calls : list Label :=
  boot ++ [LRegister sys "x" 0 counter; LPoll 7; LSpawn sys 1 3; LRegisterManual sys "x" 5 (mkAddr 8 2%Z 10 9)].

Lemma lookup_returns_registered_witness :
  registered 1 "x" name_calls = Some (5, mkAddr 8 2%Z 10 9) /\
  ActorSystem_lookup sys "x" 0 (exec_all name_calls world0) = None.
Proof.
  split; [|vm_compute; reflexivity].
  apply (lookup_returns_registered name_calls sys "x" 5 (mkAddr 8 2%Z 10 9)). vm_compute. reflexivity.
Defined.

End Witnesses.
