(* ===== verification/Timers.v ===== *)
(** * Timers: when [run_later] and [run_interval] send

    The timer tasks of src/context.rs sleep, check their handle and send their
    message to the actor. Whatever else runs, however late they are polled and
    however long the mailbox is full, a one-shot timer sends at most once and
    not before its delay is over, and an interval timer never runs ahead of
    its period. *)

From S2P Require Import Prelude Tokio Supervisor Runtime Tasks Demo RuntimeFacts Wf Isolation Lifecycle Services.

Section Timers.
Context {Y : Sys} {K : Tokio} {L : TokioLaws K} {B : Behaviour}.

(** ** Time *)

Lemma timer_send_now tid a m again next w : w_now (timer_send tid a m again next w) = w_now w.
Proof. unfold timer_send, do_send, sender_send. by repeat case_match; simplify_eq. Qed.

(** Polls take no time. *)
Lemma poll_task_now tid w : w_now (poll_task tid w) = w_now w.
Proof.
  unfold poll_task. destruct (w_tasks w !! tid) as [[k a sd ph|f|delay h a m t|period h a m t|reg name a t|]|]; try done.
  - apply (iso_now _ _ _ _ (iso_poll_actor tid k a sd ph w)).
  - apply (ext_now _ _ (poll_client_ext tid w)).
  - unfold poll_later. destruct t; repeat case_match; by rewrite ?timer_send_now.
  - unfold poll_interval. destruct t; repeat case_match; by rewrite ?timer_send_now.
  - unfold poll_unregister. destruct t; by repeat case_match.
Qed.

Lemma exec_now l w : (w_now w <= w_now (exec l w))%Z.
Proof.
  destruct l as [tid|d| |sys actor cap|sys|a|a m is_async|a m is_async timeout|
    sys name ty a|sys name ty a|sys name|h]; simpl; try lia.
  - by rewrite poll_task_now.
  - unfold spawn_with_capacity. destruct (spawn_with_shutdown _ _ _ w) as [[w' a]|] eqn:Hs; [|lia].
    by rewrite (ext_now _ _ (spawn_ext _ _ _ _ _ _ Hs)).
  - destruct is_async; unfold try_send, try_send_async, sender_try_send; repeat case_match; simplify_eq; simpl; lia.
Qed.

Lemma exec_all_now ls w : (w_now w <= w_now (exec_all ls w))%Z.
Proof.
  unfold exec_all. revert w. induction ls as [|l ls IH]; intros w; simpl; [lia|].
  pose proof (exec_now l w). pose proof (IH (exec l w)). lia.
Qed.

(** Any step leaves a task that is not a caller alone, unless it polls it. *)
Lemma exec_keeps_task l tid t w :
  wf w -> l <> LPoll tid -> w_tasks w !! tid = Some t -> is_client t = false ->
  w_tasks (exec l w) !! tid = Some t.
Proof.
  intros Hw Hl Ht Hc.
  assert (Hcase : (exists tid', l = LPoll tid' /\ tid' <> tid) \/ forall tid', l <> LPoll tid').
  { destruct l as [tid'| | | | | | | | | | |]; try (right; congruence). left. exists tid'. split; congruence. }
  destruct Hcase as [(tid' & -> & Hne)|Hn].
  - apply (poll_iso tid' w Hw); auto.
  - by apply (exec_other_frame l w Hw Hn).
Qed.

(** ** What a timer task delivers *)

(** What is in the mailbox behind the sender [l]. *)
Definition mailbox (l : loc) (w : World) : list ActorMessage :=
  default [] (mpsc_queue <$> w_chans w !! l).

(** What a step puts into it. *)
Definition arrivals (l : loc) (w w' : World) : list ActorMessage := drop (length (mailbox l w)) (mailbox l w').

Definition polls (tid : nat) (lab : Label) : bool := match lab with LPoll t => bool_decide (t = tid) | _ => false end.

Lemma polls_spec tid lab : if polls tid lab then lab = LPoll tid else lab <> LPoll tid.
Proof. destruct lab; simpl; try done. case_bool_decide; congruence. Qed.

(** What the polls of the task [tid] put into a mailbox in a run, and when. *)
Fixpoint delivered (tid : nat) (l : loc) (ls : list Label) (w : World) : list (Z * ActorMessage) :=
  match ls with
  | [] => []
  | lab :: ls =>
      (if polls tid lab then pair (w_now w) <$> arrivals l w (exec lab w) else [])
      ++ delivered tid l ls (exec lab w)
  end.

Lemma delivered_past tid l ls w k t x :
  delivered tid l ls w !! k = Some (t, x) -> (t <= w_now (exec_all ls w))%Z.
Proof.
  revert w k. induction ls as [|lab ls IH]; intros w k; simpl; [done|]. intros Hk.
  apply lookup_app_Some in Hk as [Hk|[_ Hk]]; [|by apply (IH (exec lab w)) in Hk].
  pose proof (exec_now lab w). pose proof (exec_all_now ls (exec lab w)). unfold exec_all in *. simpl.
  assert (t = w_now w); [|lia]. destruct (polls tid lab); [|done]. apply list_lookup_fmap_Some in Hk as (y & [= -> _] & _). done.
Qed.

(** The mailboxes after a [do_send] of a timer: its message at the end of the
    one it is for, unless it is full or closed, and nothing anywhere else. *)
Definition sent (a : Addr) (m : Msg) (w : World) : bool :=
  match snd (do_send a m w) with Ready (Ok _) => true | _ => false end.

Definition posts (l : loc) (xs : list ActorMessage) (w w' : World) : Prop :=
  mailbox l w' = mailbox l w ++ xs /\ forall l', l' <> l -> w_chans w' !! l' = w_chans w !! l'.

Lemma posts_arrivals l xs w w' : posts l xs w w' -> arrivals l w w' = xs.
Proof. intros [H _]. unfold arrivals. rewrite H. by rewrite drop_app_length. Qed.

Lemma posts_none l w w' : w_chans w' = w_chans w -> posts l [] w w'.
Proof. intros E. unfold posts, mailbox. rewrite E, app_nil_r. done. Qed.

Lemma timer_send_posts tid a m again next w :
  posts (addr_sender a) (if sent a m w then [Sync (MessageEnvelope_new m)] else []) w (timer_send tid a m again next w).
Proof.
  unfold sent, timer_send, do_send, sender_send. destruct (w_chans w !! addr_sender a) as [c|] eqn:Hc.
  2:{ simpl. by apply posts_none. }
  set (x := Sync (MessageEnvelope_new m)).
  assert (Hq : mpsc_queue (fst (mpsc_send c x)) = mpsc_queue c ++
    match snd (mpsc_send c x) with Ready (Ok _) => [x] | _ => [] end).
  { destruct (mpsc_open c) eqn:Ho.
    - destruct (mpsc_send_open _ c x Ho) as (c' & _ & [[-> Hq]|(_ & -> & Hq)]); simpl; by rewrite Hq, ?app_nil_r.
    - rewrite (mpsc_send_closed _ c x Ho). simpl. by rewrite app_nil_r. }
  destruct (mpsc_send c x) as [c' p]. simpl in Hq |- *. split.
  - unfold mailbox. simpl. rewrite lookup_insert_eq, Hc. simpl. rewrite Hq. by destruct p as [|[]].
  - intros l' Hl. simpl. by rewrite lookup_insert_ne.
Qed.

(** The earliest time of the next delivery. *)
Definition earliest (t : Task) (now : Z) : option Z :=
  match t with
  | TLater delay _ _ _ TNew => Some (now + delay)%Z
  | TLater _ _ _ _ (TSleep due) => Some due
  | TLater _ _ _ _ (TSending due) => Some due
  | TInterval _ _ _ _ TNew => Some now
  | TInterval _ _ _ _ (TSleep due) => Some due
  | TInterval period _ _ _ (TSending due) => Some (due - period)%Z
  | _ => None
  end.

Definition timer_period (t : Task) : option Z :=
  match t with TInterval period _ _ _ _ => Some period | _ => None end.

(** A timer task between polls: a send in progress is due, and an interval
    that has started has a positive period. *)
Definition timer_ok (t : Task) (now : Z) : Prop :=
  match t with
  | TLater _ _ _ _ (TSending due) => (due <= now)%Z
  | TInterval _ _ _ _ TNew => True
  | TInterval period _ _ _ (TSleep _) => (0 < period)%Z
  | TInterval period _ _ _ (TSending due) => (0 < period)%Z /\ (due - period <= now)%Z
  | TLater _ _ _ _ _ | TFinished => True
  | _ => False
  end.

(** A delivery is not before [lo], and the next ones are a period later each;
    a one-shot timer has no next one. *)
Definition on_time (period : option Z) (lo : option Z) (times : list Z) : Prop :=
  match lo with
  | None => times = []
  | Some lo =>
      match period with
      | Some p => forall k t, times !! k = Some t -> (lo + Z.of_nat k * p <= t)%Z
      | None => times = [] \/ exists t, times = [t] /\ (lo <= t)%Z
      end
  end.

Lemma on_time_mono period lo lo' times :
  on_time period (Some lo) times -> (lo' <= lo)%Z -> on_time period (Some lo') times.
Proof.
  intros H Hlo. destruct period as [p|]; simpl in *.
  - intros k t Hk. specialize (H k t Hk). lia.
  - destruct H as [->|(t & -> & Ht)]; [by left|right; exists t; split; [done|lia]].
Qed.

Definition task_on_time (t : Task) (now : Z) : list Z -> Prop := on_time (timer_period t) (earliest t now).

(** Waiting does not bring a delivery forward. *)
Lemma task_on_time_later t now now' times :
  (now <= now')%Z -> task_on_time t now' times -> task_on_time t now times.
Proof.
  intros Hn. unfold task_on_time.
  destruct t as [| |d h a m [|due|due]|p h a m [|due|due]| |]; try done; intros H.
  - apply (on_time_mono None (now' + d)); [done|lia].
  - apply (on_time_mono (Some p) now'); [done|lia].
Qed.

Lemma timer_ok_later t now now' : (now <= now')%Z -> timer_ok t now -> timer_ok t now'.
Proof. intros Hn. destruct t as [| |d h a m [|due|due]|p h a m [|due|due]| |]; simpl; try done; lia. Qed.

(** What [do_send] makes of the task. *)
Lemma timer_send_task tid a m again next w :
  w_tasks (timer_send tid a m again next w) !! tid =
    Some (match snd (do_send a m w) with Pending => again | Ready _ => next end).
Proof.
  unfold timer_send. destruct (do_send a m w) as [w1 p]. simpl. by rewrite lookup_insert_eq.
Qed.

(** The first delivery of an interval timer. *)
Lemma on_time_first p lo now rest :
  (lo <= now)%Z -> on_time (Some p) (Some (lo + p)%Z) rest -> on_time (Some p) (Some lo) (now :: rest).
Proof.
  intros Hlo Hr k t. destruct k as [|k]; simpl; [intros [= <-]; lia|]. intros Hk.
  specialize (Hr k t Hk). lia.
Qed.

(** The actor and the message of a timer. *)
Definition timer_target (t : Task) : option (Addr * Msg) :=
  match t with TLater _ _ a m _ | TInterval _ _ a m _ => Some (a, m) | _ => None end.

Ltac six := split; [|split; [|split; [|split; [|split]]]].

(** One poll of the task: what it is afterwards, what it posts, and that what
    it delivers then and later is on time. *)
Lemma timer_poll tid t w a m :
  w_tasks w !! tid = Some t -> timer_ok t (w_now w) -> timer_target t = Some (a, m) ->
  exists t' xs, w_tasks (poll_task tid w) !! tid = Some t' /\ timer_ok t' (w_now w) /\
    (t' = TFinished \/ timer_target t' = Some (a, m)) /\
    posts (addr_sender a) xs w (poll_task tid w) /\ Forall (fun x => x = Sync (MessageEnvelope_new m)) xs /\
    forall rest, task_on_time t' (w_now w) rest -> task_on_time t (w_now w) (((fun _ => w_now w) <$> xs) ++ rest).
Proof.
  intros Ht Hok Htg. unfold poll_task. rewrite Ht. unfold task_on_time.
  assert (Hput : forall t1, posts (addr_sender a) [] w (put_task tid t1 w)) by (intros; by apply posts_none).
  assert (Hself : posts (addr_sender a) [] w w) by (by apply posts_none).
  pose proof (fun again next => timer_send_posts tid a m again next w) as Hsend. unfold sent in Hsend.
  destruct t as [| |d h a' m' [|due|due]|p h a' m' [|due|due]| |]; simpl in *; try done; injection Htg as -> ->.
  - rewrite lookup_insert_eq. eexists _, []. six; [done|..]; simpl; auto.
  - case_decide as Hd; [|eexists _, []; six; [exact Ht|..]; simpl; auto]. destruct (is_cancelled h w).
    + simpl. rewrite lookup_insert_eq. eexists _, []. six; [done|..]; simpl; auto.
    + rewrite timer_send_task. eexists _, _. six; [done| | |apply Hsend|by repeat case_match; auto|];
        destruct (snd (do_send a m w)) as [|[]]; simpl; auto; intros rest ->; first [right; by eauto | by left].
  - rewrite timer_send_task. eexists _, _. six; [done| | |apply Hsend|by repeat case_match; auto|];
      destruct (snd (do_send a m w)) as [|[]]; simpl; auto; intros rest ->; first [right; by eauto | by left].
  - case_decide; simpl; rewrite lookup_insert_eq; eexists _, []; (six; [done| | |done|done|]); simpl; auto; try lia.
    by intros rest -> k t.
  - case_decide as Hd; [|eexists _, []; six; [exact Ht|..]; simpl; auto].
    destruct (is_alive a w), (is_cancelled h w); simpl;
      try (rewrite lookup_insert_eq; eexists _, []; (six; [done| |by left|done|done|]); [done|]; by intros rest -> k t).
    rewrite timer_send_task. eexists _, _. six; [done| | |apply Hsend|by repeat case_match; auto|];
      destruct (snd (do_send a m w)) as [|[]]; simpl; auto; try lia; intros rest H.
    + by replace (due + p - p)%Z with due in H by lia.
    + by apply (on_time_first p due).
    + apply (on_time_mono (Some p) (due + p)); [done|lia].
  - rewrite timer_send_task. eexists _, _. six; [done| | |apply Hsend|by repeat case_match; auto|];
      destruct (snd (do_send a m w)) as [|[]]; simpl; auto; try lia; intros rest H.
    + apply (on_time_first p); [lia|]. by replace (due - p + p)%Z with due by lia.
    + apply (on_time_mono (Some p) due); [done|lia].
Qed.

(** A task that is finished posts nothing. *)
Lemma finished_run tid l ls w : wf w -> w_tasks w !! tid = Some TFinished -> delivered tid l ls w = [].
Proof.
  revert w. induction ls as [|lab ls IH]; intros w Hw Ht; simpl; [done|].
  pose proof (polls_spec tid lab) as Hl. destruct (polls tid lab).
  - subst lab. simpl. unfold poll_task at 1. rewrite Ht. unfold arrivals. rewrite drop_all. simpl.
    apply (IH (exec (LPoll tid) w)); [by apply exec_wf|]. simpl. unfold poll_task. by rewrite Ht.
  - apply IH; [by apply exec_wf|]. by apply exec_keeps_task.
Qed.

Lemma timer_run tid ls t w a m :
  wf w -> w_tasks w !! tid = Some t -> timer_ok t (w_now w) -> timer_target t = Some (a, m) ->
  let out := delivered tid (addr_sender a) ls w in
  task_on_time t (w_now w) out.*1 /\ Forall (fun x => snd x = Sync (MessageEnvelope_new m)) out.
Proof.
  revert t w. induction ls as [|l ls IH]; intros t w Hw Ht Hok Htg; simpl.
  { split; [|constructor]. unfold task_on_time, on_time. repeat case_match; auto. intros k x. by rewrite lookup_nil. }
  pose proof (exec_now l w) as Hn. pose proof (polls_spec tid l) as Hl. destruct (polls tid l).
  - subst l. destruct (timer_poll tid t w a m Ht Hok Htg) as (t' & xs & Ht' & Hok' & Htg' & Hp & Hxs & Hrest).
    cbn [exec]. rewrite (posts_arrivals _ _ _ _ Hp).
    assert (task_on_time t' (w_now w) (delivered tid (addr_sender a) ls (poll_task tid w)).*1 /\
      Forall (fun x => snd x = Sync (MessageEnvelope_new m)) (delivered tid (addr_sender a) ls (poll_task tid w))) as [H1 H2].
    { destruct Htg' as [->|Htg'].
      - rewrite (finished_run tid _ ls); [split; [done|constructor]|by apply (exec_wf (LPoll tid))|done].
      - pose proof (IH t' (poll_task tid w) (exec_wf (LPoll tid) w Hw) Ht') as IH'. rewrite poll_task_now in IH'. by apply IH'. }
    split.
    + rewrite fmap_app, <- list_fmap_compose. by apply Hrest.
    + apply Forall_app. split; [|done]. apply Forall_fmap. by eapply Forall_impl.
  - simpl. destruct (IH t (exec l w)) as [H1 H2]; [by apply exec_wf| | |done|].
    + apply exec_keeps_task; [done..|]. by destruct t.
    + by apply (timer_ok_later _ (w_now w)).
    + split; [|done]. by apply (task_on_time_later _ _ (w_now (exec l w))).
Qed.

(** ** The properties *)

(** C26: timers are never early. From the call of [run_interval] on, whatever
    runs and however the task is delayed, what the polls of its task put into
    the mailbox of the actor is its message, and the one with index [k] comes
    not before [k] periods have passed since the call, so that there are at
    most [1 + elapsed / period]. *)
Theorem interval_never_early (w : World) tid period h a m ls :
  reachable w -> w_tasks w !! tid = Some (TInterval period h a m TNew) ->
  let out := delivered tid (addr_sender a) ls w in
  (forall k t x, out !! k = Some (t, x) ->
     x = Sync (MessageEnvelope_new m) /\ (w_now w + Z.of_nat k * period <= t)%Z) /\
  ((0 < period)%Z -> (Z.of_nat (length out) <= 1 + (w_now (exec_all ls w) - w_now w) / period)%Z).
Proof.
  intros Hr Ht out. destruct (timer_run tid ls _ w a m (reachable_wf _ Hr) Ht I eq_refl) as [Hot Hmsg]. fold out in Hot, Hmsg.
  unfold task_on_time in Hot. simpl in Hot.
  assert (Hk : forall k t x, out !! k = Some (t, x) -> (w_now w + Z.of_nat k * period <= t)%Z).
  { intros k t x Hk. apply Hot. by rewrite list_lookup_fmap, Hk. }
  split; [intros k t x Hx; split; [by apply (Forall_lookup_1 _ _ _ _ Hmsg Hx)|by eapply Hk]|]. intros Hp.
  destruct (length out) as [|n] eqn:Hlen.
  { pose proof (Z.div_pos (w_now (exec_all ls w) - w_now w) period). pose proof (exec_all_now ls w). lia. }
  destruct (lookup_lt_is_Some_2 out n) as [[t x] Hn]; [lia|].
  pose proof (Hk n t x Hn) as H1. pose proof (delivered_past _ _ _ _ _ _ _ Hn) as H2.
  assert (Z.of_nat n <= (w_now (exec_all ls w) - w_now w) / period)%Z; [|lia].
  apply Z.div_le_lower_bound; lia.
Qed.

(** A one-shot timer delivers at most once, and not before its delay. *)
Theorem later_fires_once_in_time (w : World) tid delay h a m ls :
  reachable w -> w_tasks w !! tid = Some (TLater delay h a m TNew) ->
  let out := delivered tid (addr_sender a) ls w in
  out = [] \/ exists t, out = [(t, Sync (MessageEnvelope_new m))] /\ (w_now w + delay <= t)%Z.
Proof.
  intros Hr Ht out. destruct (timer_run tid ls _ w a m (reachable_wf _ Hr) Ht I eq_refl) as [Hot Hmsg]. fold out in Hot, Hmsg.
  unfold task_on_time in Hot. simpl in Hot. destruct Hot as [Hn|(t & Hn & Hd)].
  - left. by apply fmap_nil_inv in Hn.
  - right. exists t. destruct out as [|[t' x] [|]]; simplify_eq/=. apply Forall_cons in Hmsg as [Hx _]. simpl in Hx. by subst x.
Qed.

End Timers.

(** ** Witness *)

Section Witnesses.
Import Demo.

(** The counter has asked for an [Inc] every 10; the timer task 8 is new. *)
Definition interval_world : World := exec_all [LTrySend counter (um (Every 10)) false; LPoll 6] booted.

(** The task is polled late, then often. *)
Definition late_polls : list Label :=
  [LPoll 8; LPoll 8; LTick 25; LPoll 8; LPoll 6; LPoll 6; LPoll 8; LPoll 8; LTick 4; LPoll 8; LTick 1; LPoll 8].

Example late_deliveries : (delivered 8 (addr_sender counter) late_polls interval_world).*1 = [0; 25; 25; 30]%Z.
Proof. vm_compute. reflexivity. Qed.

Lemma interval_never_early_witness :
  let out := delivered 8 (addr_sender counter) late_polls interval_world in
  (forall k t x, out !! k = Some (t, x) ->
    x = Sync (MessageEnvelope_new (um Inc)) /\ (w_now interval_world + Z.of_nat k * 10 <= t)%Z) /\
  ((0 < 10)%Z -> (Z.of_nat (length out) <=
    1 + (w_now (exec_all late_polls interval_world) - w_now interval_world) / 10)%Z).
Proof.
  apply (interval_never_early interval_world 8 10 7 counter (um Inc) late_polls).
  - apply exec_all_reachable, booted_reachable.
  - vm_compute. reflexivity.
Defined.

End Witnesses.
