(* ===== verification/Ids.v ===== *)
(** * Ids: an [ActorId] names one actor

    [ActorId::new] takes the next value of a global counter (src/actor.rs). A
    [Terminated] message carries nothing but such an id, so a watcher can tell
    its watched actors apart only if no two actors have the same one. The
    counter is 64 bits wide and wraps around: the theorem holds as long as
    fewer than 2^64 objects have been made.

    The poll of an actor is broken up into micro-steps (calls of the API,
    steps that make no task, updates of its own task), so that an invariant of
    this kind is checked on three cases. *)

From S2P Require Import Prelude Tokio Supervisor Runtime Tasks Demo RuntimeFacts Wf Isolation Lifecycle.

Section Ids.
Context {Y : Sys} {K : Tokio} {L : TokioLaws K} {B : Behaviour}.

(** ** Micro-steps of a poll *)

(** Steps that make no task and no id. *)
Record quiet (w w' : World) : Prop := mkQuiet {
  qu_tasks : w_tasks w' = w_tasks w;
  qu_next : w_next_id w' = w_next_id w;
  qu_fresh : w_fresh w <= w_fresh w';
}.

#[global] Instance quiet_preorder : PreOrder quiet.
Proof.
  split; [done|]. intros w1 w2 w3 [T1 N1 F1] [T2 N2 F2]. split; [congruence|congruence|lia].
Qed.

Inductive micro (tid : nat) (addr : Addr) : World -> World -> Prop :=
| micro_op op ctx w r ctx' w' : exec_op op ctx w = Some (r, ctx', w') -> micro tid addr w w'
| micro_quiet w w' : quiet w w' -> micro tid addr w w'
| micro_put k sd ph w : micro tid addr w (put_task tid (TActor k addr sd ph) w).

Definition steps (tid : nat) (addr : Addr) : relation World := rtc (micro tid addr).

Lemma steps_quiet tid addr w1 w2 w3 : quiet w1 w2 -> steps tid addr w2 w3 -> steps tid addr w1 w3.
Proof. intros Hq. by apply rtc_l, micro_quiet. Qed.

Lemma steps_put tid addr k sd ph w : steps tid addr w (put_task tid (TActor k addr sd ph) w).
Proof. apply rtc_once, micro_put. Qed.

Lemma run_steps {X} tid addr (p : Prog X) ctx w a r ctx' w' :
  run p ctx w = (a, r, ctx', w') -> steps tid addr w w'.
Proof.
  revert ctx w. induction p as [a0 x|a0|a0 op k IH]; simpl; intros ctx w H; [by simplify_eq..|].
  destruct (exec_op op ctx w) as [[[r1 ctx1] w1]|] eqn:Hop; [|by simplify_eq].
  eapply rtc_l; [by eapply micro_op|]. by eapply IH.
Qed.

Lemma upd_oneshot_quiet f l w : quiet w (upd_oneshot f l w).
Proof. unfold upd_oneshot. by case_match. Qed.
Lemma drop_tx_quiet tx w : quiet w (drop_tx tx w).
Proof. destruct tx; [apply upd_oneshot_quiet|done]. Qed.
Lemma reply_quiet tx r w : quiet w (reply tx r w).
Proof. destruct tx; [apply upd_oneshot_quiet|done]. Qed.

Lemma foldl_quiet {X} (g : World -> X -> World) xs w :
  (forall w x, quiet w (g w x)) -> quiet w (foldl g w xs).
Proof.
  intros Hg. revert w. induction xs as [|x xs IH]; intros w; simpl; [done|]. etrans; [apply Hg|apply IH].
Qed.

Lemma set_chans_quiet m w : quiet w (set_chans m w).
Proof. done. Qed.

Lemma close_mailbox_quiet addr w : quiet w (close_mailbox addr w).
Proof.
  unfold close_mailbox. destruct (w_chans w !! addr_sender addr) as [c|]; [|done].
  destruct (mpsc_drop_rx c) as [c' ms]. etrans; [apply set_chans_quiet|]. apply foldl_quiet. intros.
  apply drop_tx_quiet.
Qed.

Lemma watcher_notify_silent a i w : quiet w (watcher_notify a i w).
Proof. unfold watcher_notify, try_send, sender_try_send. by repeat case_match; simplify_eq. Qed.

Lemma run_notify_watchers_quiet addr w : quiet w (run_notify_watchers addr w).
Proof.
  unfold run_notify_watchers, notify_watchers. set (w0 := log_event _ w).
  transitivity w0; [done|]. apply foldl_quiet. intros. apply watcher_notify_silent.
Qed.

Lemma stop_children_quiet ctx w : quiet w (stop_children ctx w).
Proof. by apply foldl_quiet. Qed.

Lemma recv_mailbox_quiet addr w w' p : recv_mailbox addr w = (w', p) -> quiet w w'.
Proof. unfold recv_mailbox. intros H. by repeat case_match; simplify_eq. Qed.

(** ** The poll of an actor *)

Lemma end_task_steps tid k addr sd ph w : steps tid addr w (end_task tid k addr sd ph w).
Proof. eapply steps_quiet; [apply close_mailbox_quiet|apply steps_put]. Qed.

Lemma loop_head_steps tid k addr sd a ctx streams w : steps tid addr w (loop_head tid k addr sd a ctx streams w).
Proof. eapply (steps_quiet _ _ _ (upd_bcast _ sd w)); [done|apply steps_put]. Qed.

Lemma child_start_steps tid f strategy tracker esc addr sd w :
  steps tid addr w (child_start tid f strategy tracker esc addr sd w).
Proof.
  unfold child_start. destruct (factory_call f) as [[child f']|]; [|apply end_task_steps].
  unfold run_started. simpl. destruct (run _ _ _) as [[[a1 r1] ctx1] w1] eqn:Hrun.
  eapply steps_quiet; [|etrans; [by eapply run_steps|]].
  - split; simpl; [done|done|lia].
  - destruct r1; [apply loop_head_steps|apply end_task_steps].
Qed.

Lemma child_terminate_steps tid k addr sd w : steps tid addr w (child_terminate tid k addr sd w).
Proof. eapply steps_quiet; [apply run_notify_watchers_quiet|apply end_task_steps]. Qed.

Lemma supervise_steps tid f strategy tracker esc addr sd b w :
  steps tid addr w (supervise tid f strategy tracker esc addr sd b w).
Proof.
  unfold supervise. repeat case_match; auto using child_terminate_steps, child_start_steps.
  eapply (steps_quiet _ _ _ (notify_one esc w)); [done|apply child_terminate_steps].
Qed.

Lemma exit_loop_steps tid k addr sd a ctx b w : steps tid addr w (exit_loop tid k addr sd a ctx b w).
Proof.
  destruct k as [actor ctx0|f strategy tracker esc]; simpl.
  - unfold root_exit, run_stopped. destruct (run (stopped a) ctx _) as [[[a1 r1] ctx1] w1] eqn:Hrun.
    eapply steps_quiet; [apply (run_notify_watchers_quiet addr)|].
    eapply steps_quiet; [apply (stop_children_quiet ctx)|].
    eapply (steps_quiet _ _ _ (log_event _ _)); [done|]. etrans; [by eapply run_steps|apply end_task_steps].
  - unfold child_exit, run_stopped. destruct (run (stopped a) ctx _) as [[[a1 r1] ctx1] w1] eqn:Hrun.
    eapply steps_quiet; [apply (stop_children_quiet ctx)|].
    eapply (steps_quiet _ _ _ (log_event _ _)); [done|]. etrans; [by eapply run_steps|].
    destruct r1; [apply supervise_steps|apply end_task_steps].
Qed.

Lemma poll_streams_steps tid addr streams a ctx w streams' a' ctx' w' r :
  poll_streams streams a ctx w = (streams', a', ctx', w', r) -> steps tid addr w w'.
Proof.
  revert a ctx w streams' a' ctx' w' r.
  induction streams as [|s rest IH]; intros a ctx w streams' a' ctx' w' r H; simpl in H; [by simplify_eq|].
  destruct (StreamWrapper_poll_next s a ctx w) as [[[[s1 a1] ctx1] w1] r1] eqn:H1.
  assert (Hs : steps tid addr w w1).
  { unfold StreamWrapper_poll_next in H1.
    destruct (stream_poll_next s) as [s2 [|[item|]]]; [by simplify_eq| |];
      destruct (run _ ctx w) as [[[? ?] ?] ?] eqn:Hrun; simplify_eq; by eapply run_steps. }
  etrans; [exact Hs|]. destruct r1 as [p|]; [|by simplify_eq].
  destruct (poll_streams rest a1 ctx1 w1) as [[[[rest2 a2] ctx2] w2] r2] eqn:H2.
  specialize (IH _ _ _ _ _ _ _ _ H2). destruct p as [|[]]; by simplify_eq.
Qed.

Lemma poll_select_steps tid addr sd a ctx streams w sel a' ctx' streams' w' :
  poll_select tid addr sd a ctx streams w = (sel, a', ctx', streams', w') -> steps tid addr w w'.
Proof.
  unfold poll_select. destruct (recv_mailbox addr w) as [w1 p] eqn:Hrecv. intros H.
  eapply steps_quiet; [by eapply recv_mailbox_quiet|]. destruct p as [|[m|]]; [|by simplify_eq..].
  destruct (match streams with [] => _ | _ :: _ => _ end) as [[[[ss2 a2] ctx2] w2] r] eqn:Hps.
  etrans; [destruct streams; [by simplify_eq|by eapply poll_streams_steps]|]. unfold poll_signal in H.
  repeat case_match; simplify_eq; try done; by apply rtc_once, micro_quiet.
Qed.

Lemma poll_async_steps tid addr f tx ctx w r ctx' w' :
  poll_async f tx ctx w = (r, ctx', w') -> steps tid addr w w'.
Proof.
  unfold poll_async. destruct f as [p]. destruct (run p ctx w) as [[[a1 r1] ctx1] w1] eqn:Hrun. intros H.
  etrans; [by eapply run_steps|].
  destruct r1 as [[x|f']|]; simplify_eq; [|done|]; apply rtc_once, micro_quiet; auto using reply_quiet, drop_tx_quiet.
Qed.

Lemma after_async_steps tid k addr sd tx streams r ctx w :
  steps tid addr w (after_async tid k addr sd tx streams r ctx w).
Proof. destruct r; simpl; auto using steps_put, loop_head_steps, exit_loop_steps. Qed.

Lemma MessageEnvelope_handle_steps tid addr e a ctx w a' ok ctx' w' :
  MessageEnvelope_handle e a ctx w = (a', ok, ctx', w') -> steps tid addr w w'.
Proof.
  unfold MessageEnvelope_handle. destruct (msg e) as [m|].
  - destruct (run _ _ _) as [[[a1 r1] ctx1] w1] eqn:Hrun. intros H. etrans; [by eapply run_steps|].
    destruct r1; simplify_eq; apply rtc_once, micro_quiet; auto using reply_quiet, drop_tx_quiet.
  - intros H. simplify_eq. apply rtc_once, micro_quiet, drop_tx_quiet.
Qed.

Lemma poll_in_select_steps tid k addr sd a ctx streams w :
  steps tid addr w (poll_in_select tid k addr sd a ctx streams w).
Proof.
  unfold poll_in_select.
  destruct (poll_select tid addr sd a ctx streams w) as [[[[sel a1] ctx1] ss1] w1] eqn:Hsel.
  etrans; [by eapply poll_select_steps|]. destruct sel as [[e|e]| | | | | | |]; try apply steps_put;
    (eapply (steps_quiet _ _ _ (upd_bcast _ sd w1)); [done|]);
    auto using exit_loop_steps, loop_head_steps, end_task_steps.
  - destruct (MessageEnvelope_handle _ _ _ _) as [[[a2 ok] ctx2] w2] eqn:He.
    etrans; [by eapply MessageEnvelope_handle_steps|]. destruct ok; [apply loop_head_steps|apply exit_loop_steps].
  - destruct (AsyncMessageEnvelope_handle _ _ _ _) as [[r ctx2] w2] eqn:He. etrans; [|apply after_async_steps].
    unfold AsyncMessageEnvelope_handle in He. destruct (amsg e); [by eapply poll_async_steps|].
    simplify_eq. apply rtc_once, micro_quiet, drop_tx_quiet.
Qed.

Lemma poll_actor_steps tid k addr sd ph w : steps tid addr w (poll_actor tid k addr sd ph w).
Proof.
  destruct ph as [|a ctx streams|f tx ctx streams| |]; simpl; try done.
  - destruct k as [actor ctx|f strategy tracker esc]; [|apply child_start_steps].
    unfold root_start, run_started. destruct (run _ ctx _) as [[[a1 r1] ctx1] w1] eqn:Hrun.
    eapply (steps_quiet _ _ _ (log_event _ w)); [done|]. etrans; [by eapply run_steps|].
    destruct r1; [apply loop_head_steps|apply end_task_steps].
  - apply poll_in_select_steps.
  - destruct (poll_async f tx ctx w) as [[r ctx1] w1] eqn:Hp.
    etrans; [by eapply poll_async_steps|]. apply after_async_steps.
Qed.

(** ** The invariant *)

(** The id of the actor that the task [tid] runs. *)
Definition id_of (w : World) (tid : nat) : option Z :=
  match w_tasks w !! tid with Some (TActor _ a _ _) => Some (addr_id a) | _ => None end.

Record ids_ok (w : World) : Prop := mkIdsOk {
  io_next : (1 <= w_next_id w <= 1 + Z.of_nat (w_fresh w))%Z;
  io_range tid i : id_of w tid = Some i -> (1 <= i < w_next_id w)%Z;
  io_inj tid1 tid2 i : id_of w tid1 = Some i -> id_of w tid2 = Some i -> tid1 = tid2;
}.

(** Fewer locations than ids: the counter has not wrapped around. *)
Definition few (w : World) : Prop := (Z.of_nat (w_fresh w) < 2 ^ 64 - 1)%Z.

Definition ids_step (w w' : World) : Prop :=
  w_fresh w <= w_fresh w' /\ (few w' -> ids_ok w -> ids_ok w').

#[global] Instance ids_step_preorder : PreOrder ids_step.
Proof.
  split; [done|]. intros w1 w2 w3 [F1 H1] [F2 H2]. split; [lia|]. intros Hf Ho.
  apply H2, H1; [done| |done]. unfold few in *. lia.
Qed.

(** Steps that make no id. *)
Lemma ids_same w w' :
  w_fresh w <= w_fresh w' -> w_next_id w' = w_next_id w ->
  (forall tid i, id_of w' tid = Some i -> id_of w tid = Some i) -> ids_step w w'.
Proof.
  intros Hf Hn Hid. split; [done|]. intros _ [H1 H2 H3]. split; [lia|rewrite Hn; eauto|eauto].
Qed.

(** A new actor gets the next id. *)
Lemma ids_spawn w w' tid k a sd ph :
  w_fresh w < w_fresh w' -> w_next_id w' = u64_wrap (w_next_id w + 1) -> addr_id a = w_next_id w ->
  w_tasks w' = <[tid := TActor k a sd ph]> (w_tasks w) -> ids_step w w'.
Proof.
  intros Hf Hn Ha Ht. split; [lia|]. intros Hfew [H1 H2 H3]. unfold few in Hfew.
  assert (Hn' : w_next_id w' = (w_next_id w + 1)%Z) by (rewrite Hn; unfold u64_wrap; apply Z.mod_small; lia).
  assert (Hid : forall t i, id_of w' t = Some i -> t = tid /\ i = w_next_id w \/ t <> tid /\ id_of w t = Some i).
  { intros t i. unfold id_of. rewrite Ht, lookup_insert. case_decide; [intros [= <-]|]; subst; auto. }
  split; [lia|..].
  - intros t i Hi. apply Hid in Hi as [[-> ->]|[_ Hi]]; [lia|]. apply H2 in Hi. lia.
  - intros t1 t2 i Hi1 Hi2. apply Hid in Hi1 as [[-> ->]|[_ Hi1]]; apply Hid in Hi2 as [[-> Hi2']|[_ Hi2]];
      [done|apply H2 in Hi2; lia|apply H2 in Hi1; lia|eauto].
Qed.

(** A task that is not an actor's. *)
Lemma id_of_put_other w tid t : is_actor t = false -> forall tid' i,
  id_of (put_task tid t w) tid' = Some i -> id_of w tid' = Some i.
Proof.
  intros Ht tid' i. unfold id_of. simpl. rewrite lookup_insert. case_decide; [|done]. by destruct t.
Qed.

Lemma ids_spawn_other t w : is_actor t = false -> ids_step w (fst (spawn_task t w)).
Proof. intros Ht. apply ids_same; [simpl; lia|done|]. by apply (id_of_put_other (fst (alloc w))). Qed.

Lemma quiet_ids w w' : quiet w w' -> ids_step w w'.
Proof. intros [Ht Hn Hf]. apply ids_same; [done|done|]. intros tid i. unfold id_of. by rewrite Ht. Qed.

Lemma poll_send_next f w : w_next_id (fst (poll_send f w)) = w_next_id w.
Proof.
  assert (Hq : forall a m b t rx w, w_next_id (fst (poll_enqueue a m b t rx w)) = w_next_id w).
  { intros. unfold poll_enqueue, sender_send.
    destruct (w_chans _ !! _); [destruct (mpsc_send _ _) as [? [|[[]|[]]]]|]; simpl; try done;
      unfold upd_oneshot; by case_match. }
  destruct f; simpl; [|apply Hq|done]. by rewrite Hq.
Qed.

Lemma poll_client_ids fut w : ids_step w (fst (poll_client fut w)).
Proof.
  pose proof (ext_fresh _ _ (poll_client_ext fut w)) as Hf. unfold poll_client in *.
  destruct (w_tasks w !! fut) as [[| [f|r]| | | |]|]; try done.
  pose proof (poll_send_next f w) as Hn. pose proof (poll_send_tasks f w) as Ht.
  destruct (poll_send f w) as [w1 r]. simpl in *. apply ids_same; [done|done|].
  intros tid i Hi. apply id_of_put_other in Hi; [|done]. unfold id_of in *. by rewrite <- Ht.
Qed.

Lemma new_actor_ids cap w w1 a :
  new_actor cap w = Some (w1, a) ->
  w_fresh w < w_fresh w1 /\ w_next_id w1 = u64_wrap (w_next_id w + 1) /\ addr_id a = w_next_id w /\ w_tasks w1 = w_tasks w.
Proof.
  unfold new_actor. destruct (mpsc_channel cap); [|done]. simpl. intros [= <- <-]. simpl. split_and!; done || lia.
Qed.

Lemma exec_op_ids op ctx w r ctx' w' : exec_op op ctx w = Some (r, ctx', w') -> ids_step w w'.
Proof.
  assert (Htry : forall s x w, quiet w (fst (sender_try_send s x w)))
    by (intros; unfold sender_try_send; by repeat case_match).
  assert (Hsend : forall s x w, quiet w (fst (sender_send s x w)))
    by (intros; unfold sender_send; by repeat case_match).
  destruct op; simpl; intros H; try (simplify_eq; by apply quiet_ids).
  - simplify_eq. unfold ctx_stop. case_match; by apply quiet_ids.
  - destruct (spawn_child_with_strategy_and_capacity ctx f s capacity w) as [[[w2 ctx2] a]|] eqn:Hs; [|done].
    injection H as <- <- <-. unfold spawn_child_with_strategy_and_capacity in Hs.
    destruct (new_actor capacity w) as [[w1 a1]|] eqn:Hn; [|done].
    destruct (new_actor_ids _ _ _ _ Hn) as (Hf & Hnx & Ha & Ht). simpl in Hs. injection Hs as <- <- <-.
    eapply (ids_spawn w _ (w_fresh w1)); [simpl; lia|done|done|]. simpl. by rewrite Ht.
  - injection H as <- <- <-. apply ids_same; [simpl; lia|done|]. by apply (id_of_put_other w (S (w_fresh w)) (TLater _ _ _ _ _)).
  - injection H as <- <- <-. apply ids_same; [simpl; lia|done|]. by apply (id_of_put_other w (S (w_fresh w)) (TInterval _ _ _ _ _)).
  - unfold try_send in H. pose proof (Htry (addr_sender a) (Sync (MessageEnvelope_new m)) w).
    destruct (sender_try_send _ _ w). simplify_eq. by apply quiet_ids.
  - unfold try_send_async in H. pose proof (Htry (addr_sender a) (Async (AsyncMessageEnvelope_new m)) w).
    destruct (sender_try_send _ _ w). simplify_eq. by apply quiet_ids.
  - unfold do_send, do_send_async in H. pose proof (Hsend (addr_sender a) (Sync (MessageEnvelope_new m)) w).
    pose proof (Hsend (addr_sender a) (Async (AsyncMessageEnvelope_new m)) w).
    destruct is_async; destruct (sender_send _ _ w); simplify_eq; by apply quiet_ids.
  - injection H as <- <- <-. by apply ids_spawn_other.
  - pose proof (poll_client_ids fut w). destruct (poll_client fut w). by simplify_eq.
Qed.

(** The task being polled stays the actor's. *)
Definition owns (tid : nat) (addr : Addr) (w : World) : Prop :=
  tid < w_fresh w /\ exists k sd ph, w_tasks w !! tid = Some (TActor k addr sd ph).

Lemma micro_ids tid addr w w' : micro tid addr w w' -> owns tid addr w -> ids_step w w' /\ owns tid addr w'.
Proof.
  intros Hm [Hlt (k0 & sd0 & ph0 & Ht)]. destruct Hm as [op ctx w r ctx' w' Hop|w w' Hq|k sd ph w].
  - split; [by eapply exec_op_ids|]. pose proof (exec_op_ext _ _ _ _ _ _ Hop) as Hx.
    split; [pose proof (ext_fresh _ _ Hx); lia|]. exists k0, sd0, ph0. apply (ext_task _ _ Hx tid _ Hlt Ht).
  - split; [by apply quiet_ids|]. destruct Hq as [Hqt _ Hqf]. split; [lia|]. rewrite Hqt. eauto.
  - split.
    + apply ids_same; [done|done|]. intros tid' i. unfold id_of. simpl. rewrite lookup_insert.
      case_decide; [subst; by rewrite Ht|done].
    + split; [done|]. simpl. rewrite lookup_insert_eq. eauto.
Qed.

Lemma steps_ids tid addr w w' : steps tid addr w w' -> owns tid addr w -> ids_step w w'.
Proof.
  induction 1 as [|w1 w2 w3 Hm _ IH]; intros Ho; [done|].
  destruct (micro_ids _ _ _ _ Hm Ho) as [H1 H2]. etrans; [exact H1|auto].
Qed.

Lemma timer_send_ids tid a m again next w :
  is_actor again = false -> is_actor next = false -> ids_step w (timer_send tid a m again next w).
Proof.
  intros H1 H2. unfold timer_send, do_send.
  assert (Hq : quiet w (fst (sender_send (addr_sender a) (Sync (MessageEnvelope_new m)) w)))
    by (unfold sender_send; by repeat case_match).
  destruct (sender_send _ _ w) as [w1 p]. simpl in *. etrans; [by apply quiet_ids|].
  apply ids_same; [done|done|]. apply id_of_put_other. by destruct p.
Qed.

Lemma poll_task_ids tid w : wf w -> ids_step w (poll_task tid w).
Proof.
  intros Hw. unfold poll_task. destruct (w_tasks w !! tid) as [t|] eqn:Ht; [|done].
  assert (Hput : forall t w', is_actor t = false -> quiet w w' -> ids_step w (put_task tid t w')).
  { intros t' w' Ha Hq. etrans; [by apply quiet_ids|]. apply ids_same; [done|done|by apply id_of_put_other]. }
  destruct t as [k addr sd ph|f|delay h a m t|period h a m t|reg name a t|]; [..|done].
  - apply (steps_ids tid addr); [apply poll_actor_steps|]. split; [by eapply wf_tasks|eauto].
  - apply poll_client_ids.
  - unfold poll_later. destruct t; repeat case_match; try done; solve [by apply timer_send_ids|by apply Hput].
  - unfold poll_interval. destruct t; repeat case_match; try done; solve [by apply timer_send_ids|by apply Hput].
  - unfold poll_unregister. destruct t; repeat case_match; try done; by apply Hput.
Qed.

Lemma exec_ids l w : wf w -> ids_step w (exec l w).
Proof.
  intros Hw. destruct l as [tid|d| |sys actor cap|sys|a|a m is_async|a m is_async timeout|
    sys name ty a|sys name ty a|sys name|h]; simpl; try (by apply quiet_ids).
  - by apply poll_task_ids.
  - apply quiet_ids. split; simpl; done || lia.
  - unfold spawn_with_capacity, spawn_with_shutdown. destruct (new_actor cap w) as [[w1 a1]|] eqn:Hn; [|done].
    destruct (new_actor_ids _ _ _ _ Hn) as (Hf & Hnx & Ha & Ht). simpl.
    eapply (ids_spawn w); [simpl; lia|done|done|]. simpl. by rewrite Ht.
  - apply quiet_ids. destruct is_async; unfold try_send, try_send_async, sender_try_send; by repeat case_match; simplify_eq.
  - by apply (ids_spawn_other (TClient _)).
  - apply ids_same; [simpl; lia|done|]. by apply (id_of_put_other w (w_fresh w) (TUnregister _ _ _ _)).
Qed.

Lemma reachable_ids w : reachable w -> few w -> ids_ok w.
Proof.
  intros [ls ->] Hf. assert (Hst : ids_step world0 (exec_all ls world0)).
  { unfold exec_all. assert (Hw : wf world0) by apply wf0. revert Hw. clear Hf. generalize world0.
    induction ls as [|l ls IH]; intros w Hw; simpl; [done|].
    etrans; [by apply exec_ids|]. by apply IH, exec_wf. }
  apply Hst; [done|]. split; simpl; [lia|..]; unfold id_of; simpl; intros *; by rewrite lookup_empty.
Qed.

(** ** The property *)

(** C27: an [ActorId] names one actor. In every world that a run can reach with
    fewer than 2^64 - 1 objects made, two actors with the same id are the same
    actor, whoever spawned them and however often they were restarted; ids are
    positive and the next one is not in use. *)
Theorem actor_ids_unique (w : World) tid1 tid2 k1 k2 a1 a2 sd1 sd2 ph1 ph2 :
  reachable w -> (Z.of_nat (w_fresh w) < 2 ^ 64 - 1)%Z ->
  w_tasks w !! tid1 = Some (TActor k1 a1 sd1 ph1) -> w_tasks w !! tid2 = Some (TActor k2 a2 sd2 ph2) ->
  (addr_id a1 = addr_id a2 <-> tid1 = tid2) /\ (1 <= addr_id a1 < w_next_id w)%Z.
Proof.
  intros Hr Hf H1 H2. destruct (reachable_ids w Hr Hf) as [_ Hrange Hinj].
  assert (E1 : id_of w tid1 = Some (addr_id a1)) by (unfold id_of; by rewrite H1).
  assert (E2 : id_of w tid2 = Some (addr_id a2)) by (unfold id_of; by rewrite H2).
  split; [split|by eapply Hrange].
  - intros E. rewrite E in E1. by eapply Hinj.
  - intros ->. congruence.
Qed.

End Ids.

(** ** Witness *)

Section Witnesses.
Import Demo.

Lemma actor_ids_unique_witness :
  (addr_id counter = addr_id kid <-> 6 = 10) /\ (1 <= addr_id counter < w_next_id (with_kid Stop))%Z.
Proof.
  eapply (actor_ids_unique (with_kid Stop) 6 10).
  - apply exec_all_reachable, booted_reachable.
  - vm_compute. reflexivity.
  - vm_compute. reflexivity.
  - vm_compute. reflexivity.
Defined.

End Witnesses.
