(* ===== verification/Mail.v ===== *)
(** * Mail: what handlers do to mailboxes

    A poll of a parked actor runs the handler of its first message in a known
    world, [try_send] adds the message exactly when there is room, and an
    actor that goes back to its loop is parked again. The applications use
    these lemmas to follow messages from one actor to the next. *)

From S2P Require Import Prelude Tokio Supervisor Runtime Tasks RuntimeFacts Wf Isolation Lifecycle.

Section Mail.
Context {Y : Sys} {K : Tokio} {L : TokioLaws K} {B : Behaviour}.

(** What is queued for an actor. *)
Definition inbox (a : Addr) (w : World) : option (list ActorMessage) :=
  mpsc_queue <$> w_chans w !! addr_sender a.

(** What an open channel with a free place takes. *)
Definition room (c : Chan ActorMessage) : bool := (mpsc_open c && bool_decide (0 < mpsc_avail c))%bool.

Lemma try_send_queue (c : Chan ActorMessage) x :
  mpsc_queue (fst (mpsc_try_send c x)) = mpsc_queue c ++ (if room c then [x] else []).
Proof.
  unfold room. destruct (mpsc_open c) eqn:Ho; simpl.
  - destruct (decide (0 < mpsc_avail c)) as [Ha|Ha].
    + destruct (mpsc_try_send_ok _ c x Ho Ha) as (c' & E & Hq & _). rewrite E. simpl. by rewrite Hq, bool_decide_true.
    + rewrite mpsc_try_send_full, bool_decide_false by (done || lia). by rewrite app_nil_r.
  - rewrite mpsc_try_send_closed by done. by rewrite app_nil_r.
Qed.

Lemma try_send_world a m w :
  fst (try_send a m w) =
    match w_chans w !! addr_sender a with
    | Some c => set_chans (<[addr_sender a := fst (mpsc_try_send c (Sync (MessageEnvelope_new m)))]> (w_chans w)) w
    | None => w
    end.
Proof.
  unfold try_send, sender_try_send. destruct (w_chans w !! addr_sender a) as [c|]; [|done].
  by destruct (mpsc_try_send c _).
Qed.

(** ** Polls *)

(** The world in which a handler runs: its message taken, the futures of the
    [select!] dropped. *)
Definition received (tid : nat) (addr : Addr) (sd : loc) (c : Chan ActorMessage) (w : World) : World :=
  upd_bcast (fun b => bcast_drop b tid) sd (set_chans (<[addr_sender addr := c]> (w_chans w)) w).

(** A poll of a parked actor runs the handler of the first message. *)
Lemma poll_runs_head tid k addr sd a ctx streams m q w :
  parked tid k addr sd a ctx streams (Sync (MessageEnvelope_new m) :: q) w ->
  exists c, mpsc_queue c = q /\
    forall a' r ctx' w1, run (handle a m) ctx (received tid addr sd c w) = (a', Some r, ctx', w1) ->
      poll_task tid w = loop_head tid k addr sd a' ctx' streams w1.
Proof.
  intros [Ht Hq]. destruct (w_chans w !! addr_sender addr) as [c|] eqn:Hc; [|done].
  simpl in Hq. injection Hq as Hq.
  destruct (recv_mailbox_some _ _ _ _ _ Hc Hq) as (c' & Hrecv & Hq' & _).
  exists c'. split; [done|]. intros a' r ctx' w1 Hrun.
  unfold poll_task. rewrite Ht. simpl. unfold poll_in_select, poll_select. rewrite Hrecv. simpl.
  unfold MessageEnvelope_handle. simpl. unfold received in Hrun. simpl in Hrun. by rewrite Hrun.
Qed.

(** The mailbox of a parked actor with nothing queued, when a sender is left:
    the stream is polled. *)
Lemma poll_runs_item tid k addr sd a ctx s s' item w :
  parked tid k addr sd a ctx [s] [] w -> snd (recv_mailbox addr w) = Pending ->
  stream_poll_next s = (s', Ready (Some item)) ->
  exists c, mpsc_queue c = [] /\
    forall a' r ctx' w1,
      run (stream_handle a item) ctx (set_chans (<[addr_sender addr := c]> (w_chans w)) w) = (a', Some r, ctx', w1) ->
      poll_task tid w = loop_head tid k addr sd a' ctx' [s'] (upd_bcast (fun b => bcast_drop b tid) sd w1).
Proof.
  intros [Ht Hq] Hpend Hs. destruct (w_chans w !! addr_sender addr) as [c|] eqn:Hc; [|done].
  simpl in Hq. injection Hq as Hq.
  destruct (recv_mailbox_empty _ _ _ Hc Hq) as (c' & p & Hrecv & _ & Hq' & _).
  rewrite Hrecv in Hpend. simpl in Hpend. subst p.
  exists c'. split; [done|]. intros a' r ctx' w1 Hrun.
  unfold poll_task. rewrite Ht. simpl. unfold poll_in_select, poll_select. rewrite Hrecv. simpl.
  unfold StreamWrapper_poll_next. rewrite Hs, Hrun. done.
Qed.

(** A stream that ends is dropped after its hook, which asks the actor to
    stop: the actor leaves its loop in the same poll. *)
Lemma poll_runs_finished tid k addr sd a ctx s s' w :
  parked tid k addr sd a ctx [s] [] w -> snd (recv_mailbox addr w) = Pending ->
  stream_poll_next s = (s', Ready None) ->
  exists c, mpsc_queue c = [] /\
    forall a' r ctx' w1,
      run (stream_finished a) ctx (set_chans (<[addr_sender addr := c]> (w_chans w)) w) = (a', Some r, ctx', w1) ->
      signal_permit (signal_at w1 (addr_stop_signal addr)) = true ->
      exists w2, poll_task tid w = exit_loop tid k addr sd a' ctx' false w2 /\
        w_chans w2 = w_chans w1 /\ w_watchers w2 = w_watchers w1.
Proof.
  intros [Ht Hq] Hpend Hs. destruct (w_chans w !! addr_sender addr) as [c|] eqn:Hc; [|done].
  simpl in Hq. injection Hq as Hq.
  destruct (recv_mailbox_empty _ _ _ Hc Hq) as (c' & p & Hrecv & _ & Hq' & _).
  rewrite Hrecv in Hpend. simpl in Hpend. subst p.
  exists c'. split; [done|]. intros a' r ctx' w1 Hrun Hsig.
  unfold poll_task. rewrite Ht. simpl. unfold poll_in_select, poll_select. rewrite Hrecv. simpl.
  unfold StreamWrapper_poll_next. rewrite Hs, Hrun. simpl.
  destruct (bcast_poll (bcast_at w1 sd) tid); [by eexists|]. unfold poll_signal, signal_at in *.
  pose proof (signal_poll_ready (default signal_new (w_signals w1 !! addr_stop_signal addr))) as Hr.
  rewrite Hsig in Hr. destruct (signal_poll _) as [sg b]. simpl in Hr. subst b. by eexists.
Qed.

Lemma loop_head_parked tid k addr sd a ctx streams q w :
  ctx_streams ctx = [] -> inbox addr w = Some q ->
  parked tid k addr sd a ctx streams q (loop_head tid k addr sd a ctx streams w).
Proof.
  intros Hs Hq. unfold loop_head, take_streams. simpl. rewrite Hs, app_nil_r.
  replace (set_ctx_streams [] ctx) with ctx by (destruct ctx; simpl in *; by subst).
  split; simpl; [by rewrite lookup_insert_eq|exact Hq].
Qed.

(** ** Idle actors *)

(** The actor is idle in the state [a], and nobody waits for its mailbox. *)
Record idle_at (tid : nat) (k : Kind) (addr : Addr) (sd : loc) (ctx : Context) (a : St) (w : World) : Prop := mkIdle {
  id_wf : wf w;
  id_parked : parked tid k addr sd a ctx [] [] w;
  id_chan : exists c, w_chans w !! addr_sender addr = Some c /\ mpsc_waiting c = 0;
}.

Lemma idle_chan tid k addr sd ctx a w :
  idle_at tid k addr sd ctx a w -> exists c, w_chans w !! addr_sender addr = Some c /\
    mpsc_queue c = [] /\ mpsc_open c = true /\ mpsc_waiting c = 0 /\ 0 < mpsc_avail c.
Proof.
  intros [Hw Hp (c & Hc & Hwt)].
  destruct (parked_running _ _ _ _ _ _ _ _ _ Hw Hp) as (_ & _ & c' & Hc' & Hq & Ho).
  rewrite Hc in Hc'. injection Hc' as <-. exists c. split_and!; try done. by apply mpsc_idle_room.
Qed.

(** A spawned actor, polled once, is idle. *)
Lemma spawned_idle sys a cap w w' addr a' :
  wf w -> spawn_with_capacity sys a cap w = Some (w', addr) -> started a = Ret a' tt ->
  exists k ctx, ctx_streams ctx = [] /\
    idle_at (pred (w_fresh w')) k addr (sys_shutdown sys) ctx a' (exec (LPoll (pred (w_fresh w'))) w').
Proof.
  intros Hw Hsp Hst. assert (Hw' : wf w') by (by apply (spawn_wf _ _ _ _ _ _ Hsp)).
  unfold spawn_with_capacity, spawn_with_shutdown, new_actor in Hsp.
  destruct (mpsc_channel cap) as [c|] eqn:Hch; [|done]. simpl in Hsp. injection Hsp as <- <-. simpl in *.
  destruct (mpsc_channel_new _ _ _ Hch) as (Hq & _ & _). pose proof (mpsc_waiting_new _ _ _ Hch) as Hwt.
  eexists _, _. split; cycle 1.
  - split; [by apply (exec_wf (LPoll _))|..];
      unfold poll_task; simpl; rewrite lookup_insert_eq; simpl; unfold root_start, run_started; rewrite Hst; simpl.
    + split; simpl; [by rewrite lookup_insert_eq|]. rewrite lookup_insert_eq. simpl. by rewrite Hq.
    + exists c. by rewrite lookup_insert_eq.
  - done.
Qed.

(** A new system with a first actor, as the examples start: nothing panics, and
    the actor, polled once, is idle. *)
Lemma new_system_spawn a a' w :
  wf w -> started a = Ret a' tt ->
  exists w1 system w' addr k ctx, ActorSystem_new w = (w1, system) /\ spawn system a w1 = Some (w', addr) /\
    ctx_streams ctx = [] /\
    idle_at (pred (w_fresh w')) k addr (sys_shutdown system) ctx a' (exec (LPoll (pred (w_fresh w'))) w').
Proof.
  intros Hw Hst. destruct (ActorSystem_new w) as [w1 system] eqn:Hsys.
  assert (Hw1 : wf w1) by (replace w1 with (exec LNewSystem w) by (unfold exec; by rewrite Hsys); by apply exec_wf).
  destruct (spawn system a w1) as [[w' addr]|] eqn:Hsp.
  - destruct (spawned_idle system a 256 w1 w' addr a' Hw1 Hsp Hst) as (k & ctx & Hs & Hid).
    by exists w1, system, w', addr, k, ctx.
  - exfalso. unfold spawn, spawn_with_capacity, spawn_with_shutdown, new_actor in Hsp.
    destruct (mpsc_channel_ok ActorMessage 256) as [c Hc]; [lia|]. rewrite Hc in Hsp. simpl in Hsp. done.
Qed.

(** ** Leaving *)

Lemma stop_children_chans ctx w : w_chans (stop_children ctx w) = w_chans w.
Proof.
  unfold stop_children. generalize (ctx_children ctx) as cs. intros cs. revert w.
  induction cs as [|c cs IH]; intros w; simpl; [done|]. by rewrite IH.
Qed.

Lemma drop_all_chans ms w :
  w_chans (foldl (fun w m => drop_tx (message_tx m) w) w ms) = w_chans w.
Proof.
  revert w. induction ms as [|m ms IH]; intros w; simpl; [done|]. rewrite IH.
  unfold drop_tx, upd_oneshot. by repeat case_match.
Qed.

(** The end of a task touches no other mailbox. *)
Lemma end_task_chans tid k addr sd ph l w :
  l <> addr_sender addr -> w_chans (end_task tid k addr sd ph w) !! l = w_chans w !! l.
Proof.
  intros Hl. unfold end_task, close_mailbox. simpl.
  destruct (w_chans w !! addr_sender addr) as [c|]; [|done]. destruct (mpsc_drop_rx c) as [c' ms].
  rewrite drop_all_chans. simpl. by rewrite lookup_insert_ne.
Qed.

Lemma run_notify_watchers_none addr w :
  watchers_at w (addr_watchers addr) = [] ->
  run_notify_watchers addr w = log_event (ENotified addr (w_now w)) w.
Proof. intros H. unfold run_notify_watchers, notify_watchers, watchers_at in *. simpl. by rewrite H. Qed.

Lemma reachable_exec_all ls (w : World) : reachable w -> reachable (exec_all ls w).
Proof. intros [ls' ->]. exists (ls' ++ ls). unfold exec_all. by rewrite foldl_app. Qed.

Lemma reachable_world0 : reachable world0.
Proof. by exists []. Qed.

End Mail.
