(* ===== verification/Linear.v ===== *)
(** * Linear: an actor is a linearizable object

    Many callers use one actor at once: the futures of their [Addr::send]s and
    the task of the actor are polled in any order, messages are posted with
    [try_send] in between, mailboxes fill up and callers time out. This file
    shows that the outcome is the one of a sequential run. The history of the
    actor lists the messages in the order in which they entered the mailbox;
    the actor has handled a prefix of it, and every caller that has a reply
    has the one that the sequential run gives at its place in the history. The
    history only grows at its end, so a call that had finished before another
    one started comes first. *)

From S2P Require Import Prelude Tokio Supervisor Runtime Tasks Demo RuntimeFacts Wf Isolation Lifecycle Services Replies Mail.

Section Linear.
Context {Y : Sys} {K : Tokio} {L : TokioLaws K} {B : Behaviour}.

(** ** The sequential run *)

(** A message of the history; a caller has a task and a reply channel. *)
Record Call := mkCall { call_msg : Msg; call_by : option (nat * loc) }.

Definition call_env (e : Call) : ActorMessage := Sync (mkEnv (Some (call_msg e)) (snd <$> call_by e)).

Section Object.

(** What the handlers compute on the messages [ok]. *)
Context (f : St -> Msg -> St * Rsp) (ok : Msg -> bool).

Definition state_after (h : list Call) (a : St) : St := foldl (fun a e => fst (f a (call_msg e))) a h.

(** The reply to the [i]th message of [h]. *)
Definition reply_to (h : list Call) (a : St) (i : nat) : option Rsp :=
  (fun e => snd (f (state_after (take i h) a) (call_msg e))) <$> h !! i.

Lemma state_after_snoc h a e :
  state_after (h ++ [e]) a = fst (f (state_after h a) (call_msg e)).
Proof. unfold state_after. by rewrite foldl_app. Qed.

Lemma reply_to_app h h' a i : i < length h -> reply_to (h ++ h') a i = reply_to h a i.
Proof. intros Hi. unfold reply_to. rewrite lookup_app_l, take_app_le by lia. done. Qed.

Lemma reply_to_Some h a i e :
  h !! i = Some e -> reply_to h a i = Some (snd (f (state_after (take i h) a) (call_msg e))).
Proof. intros H. unfold reply_to. by rewrite H. Qed.

(** ** Schedules *)

(** The actor [tid] has a message or goes on waiting: it was not asked to stop. *)
Definition stays (tid : nat) (w : World) : bool :=
  match w_tasks w !! tid with
  | Some (TActor _ addr sd (PSelect a ctx streams)) =>
      match fst (fst (fst (fst (poll_select tid addr sd a ctx streams w)))) with
      | SelMsg _ | SelPending => true
      | _ => false
      end
  | _ => false
  end.

(** The steps of the actor and of its callers, which are the tasks from [base] on. *)
Definition allowed (tid : nat) (addr : Addr) (base : nat) (l : Label) (w : World) : bool :=
  match l with
  | LPoll t => if decide (t = tid) then stays tid w else bool_decide (base <= t)
  | LTick _ => true
  | LSend a m is_async _ => bool_decide (a = addr) && ok m && negb is_async
  | LTrySend a m is_async => bool_decide (a = addr) && ok m && negb is_async
  | _ => false
  end.

Fixpoint scheduled (tid : nat) (addr : Addr) (base : nat) (ls : list Label) (w : World) : bool :=
  match ls with
  | [] => true
  | l :: ls => allowed tid addr base l w && scheduled tid addr base ls (exec l w)
  end.

Lemma scheduled_app tid addr base ls ls' w :
  scheduled tid addr base (ls ++ ls') w =
  scheduled tid addr base ls w && scheduled tid addr base ls' (exec_all ls w).
Proof.
  revert w. induction ls as [|l ls IH]; intros w; simpl; [done|]. rewrite IH. unfold exec_all. simpl.
  by rewrite andb_assoc.
Qed.

(** ** The invariant *)

Context (tid : nat) (k : Kind) (addr : Addr) (sd : loc) (ctx : Context) (a0 : St) (base : nat).

(** The message each caller was asked to send. *)
Context (asked : nat -> option Msg).

(** What the future of a caller has come to: not sent yet; waiting for the
    reply to the [i]th message; done. *)
Definition sending (w : World) (ct : nat) (t : SendFut + Result Rsp MailboxError) : Prop :=
  match t with
  | inl (SendInit a m b _) => a = addr /\ ok m = true /\ b = false /\ asked ct = Some m
  | inl (SendQueue a m b _ rx) => a = addr /\ ok m = true /\ b = false /\ asked ct = Some m /\
      base <= rx < w_fresh w /\ oneshot_poll <$> w_oneshots w !! rx = Some Pending
  | _ => False
  end.

Definition awaiting (h : list Call) (n i : nat) (rx : loc) (t : SendFut + Result Rsp MailboxError) : Prop :=
  (exists d, t = inl (SendRecv rx d)) \/ t = inr (Err Timeout) \/
  (i < n /\ exists r, reply_to h a0 i = Some r /\ t = inr (Ok r)).

Definition queued_rx (t : Task) : option loc :=
  match t with TClient (inl (SendQueue _ _ _ _ rx)) => Some rx | _ => None end.

Record linear (h : list Call) (n : nat) (w : World) : Prop := mkLinear {
  li_wf : wf w;
  li_base : base <= w_fresh w /\ tid < base;
  li_len : n <= length h;
  li_ok : Forall (fun e => ok (call_msg e) = true) h;
  li_actor : parked tid k addr sd (state_after (take n h) a0) ctx [] (call_env <$> drop n h) w;
  li_call i e ct rx : h !! i = Some e -> call_by e = Some (ct, rx) ->
    base <= rx < w_fresh w /\
    oneshot_poll <$> w_oneshots w !! rx =
      Some (if decide (i < n) then from_option (fun r => Ready (Ok r)) Pending (reply_to h a0 i) else Pending) /\
    exists t, w_tasks w !! ct = Some (TClient t) /\ awaiting h n i rx t;
  li_asked i e ct rx : h !! i = Some e -> call_by e = Some (ct, rx) -> asked ct = Some (call_msg e);
  li_once i j e e' ct ct' rx rx' : h !! i = Some e -> h !! j = Some e' ->
    call_by e = Some (ct, rx) -> call_by e' = Some (ct', rx') -> ct = ct' \/ rx = rx' -> i = j;
  li_task ct t : base <= ct -> w_tasks w !! ct = Some t ->
    exists c, t = TClient c /\
      (sending w ct c \/ exists i e rx, h !! i = Some e /\ call_by e = Some (ct, rx));
  li_queued ct t rx i e ct' : base <= ct -> w_tasks w !! ct = Some t -> queued_rx t = Some rx ->
    h !! i = Some e -> call_by e <> Some (ct', rx);
  li_queued_once ct ct' t t' rx : base <= ct -> base <= ct' -> w_tasks w !! ct = Some t ->
    w_tasks w !! ct' = Some t' -> queued_rx t = Some rx -> queued_rx t' = Some rx -> ct = ct';
}.


Hypothesis handles : forall a m, ok m = true -> handle a m = Ret (fst (f a m)) (snd (f a m)).
Hypothesis no_new_streams : ctx_streams ctx = [].

Lemma li_tid h n w : linear h n w -> exists ph, w_tasks w !! tid = Some (TActor k addr sd ph).
Proof. intros HL. destruct (li_actor _ _ _ HL) as [Ht _]. eauto. Qed.

Lemma li_client_ne h n w ct t : linear h n w -> w_tasks w !! ct = Some (TClient t) -> ct <> tid.
Proof. intros HL Ht ->. destruct (li_tid _ _ _ HL) as [ph Hp]. congruence. Qed.

Lemma sending_keep w w' ct t :
  w_fresh w <= w_fresh w' ->
  (forall rx, base <= rx < w_fresh w -> oneshot_poll <$> w_oneshots w' !! rx = oneshot_poll <$> w_oneshots w !! rx) ->
  sending w ct t -> sending w' ct t.
Proof.
  intros Hf Ho. destruct t as [[a m b d|a m b d rx|rx d]|r]; simpl; [done| |done|done].
  intros (-> & Hm & -> & Hg & Hrx & Hp). rewrite Ho by done. split_and!; done || lia.
Qed.

(** Steps that touch neither the mailbox nor the callers. *)
Lemma linear_keep h n w w' :
  linear h n w -> wf w' -> w_fresh w <= w_fresh w' ->
  parked tid k addr sd (state_after (take n h) a0) ctx [] (call_env <$> drop n h) w' ->
  (forall rx, base <= rx < w_fresh w -> oneshot_poll <$> w_oneshots w' !! rx = oneshot_poll <$> w_oneshots w !! rx) ->
  (forall ct, ct <> tid -> w_tasks w' !! ct = w_tasks w !! ct) -> linear h n w'.
Proof.
  intros HL Hw Hf Hp Ho Ht. assert (Hb : forall ct, base <= ct -> w_tasks w' !! ct = w_tasks w !! ct).
  { intros ct Hct. apply Ht. pose proof (li_base _ _ _ HL). lia. }
  split; try (by apply HL); try done.
  - destruct (li_base _ _ _ HL). lia.
  - intros i e ct rx Hi He. destruct (li_call _ _ _ HL i e ct rx Hi He) as (Hrx & Hpoll & t & Htk & Haw).
    rewrite Ho by done. split_and!; [lia|lia|done|]. exists t.
    rewrite Ht by (by eapply li_client_ne). done.
  - intros ct t Hct. rewrite Hb by done. intros Htk. destruct (li_task _ _ _ HL ct t Hct Htk) as (c & -> & Hc).
    exists c. split; [done|]. destruct Hc as [Hs|?]; [left|by right]. by apply (sending_keep w).
  - intros ct t rx i e ct' Hct. rewrite Hb by done. by apply (li_queued _ _ _ HL).
  - intros ct ct' t t' rx Hct Hct'. rewrite !Hb by done. by apply (li_queued_once _ _ _ HL).
Qed.

Lemma linear_tick h n d w : linear h n w -> linear h n (exec (LTick d) w).
Proof.
  intros HL. apply (linear_keep _ _ w); try done.
  - apply exec_wf, HL.
  - apply HL.
Qed.

(** A new caller. *)
Lemma linear_send h n m timeout w :
  ok m = true -> asked (w_fresh w) = Some m -> linear h n w -> linear h n (exec (LSend addr m false timeout) w).
Proof.
  intros Hm Hg HL. destruct (li_base _ _ _ HL) as [Hb Htid].
  assert (Hne : forall ct t, w_tasks w !! ct = Some t -> w_fresh w <> ct).
  { intros ct t Ht. pose proof (wf_tasks _ (li_wf _ _ _ HL) _ _ Ht). lia. }
  assert (Hlk : forall ct t, w_tasks (exec (LSend addr m false timeout) w) !! ct = Some t ->
    ct = w_fresh w /\ t = TClient (inl (SendInit addr m false timeout)) \/ w_tasks w !! ct = Some t).
  { intros ct t. simpl. rewrite lookup_insert. case_decide; intros; simplify_eq; auto. }
  split; try (by apply HL).
  - apply exec_wf, HL.
  - simpl. lia.
  - destruct (li_actor _ _ _ HL) as [Ht Hq]. split; [|done]. simpl. by rewrite lookup_insert_ne by (by eapply Hne).
  - intros i e ct rx Hi He. destruct (li_call _ _ _ HL i e ct rx Hi He) as (Hrx & Hp & t & Ht & Haw).
    simpl. split_and!; [lia|lia|done|]. exists t. by rewrite lookup_insert_ne by (by eapply Hne).
  - intros ct t Hct Ht. apply Hlk in Ht as [[-> ->]|Ht]; [eexists; split; [done|by left]|].
    destruct (li_task _ _ _ HL ct t Hct Ht) as (c & -> & [Hs|Hi]); exists c; split; auto.
    left. apply (sending_keep w); [simpl; lia|done|done].
  - intros ct t rx i e ct' Hct Ht. apply Hlk in Ht as [[-> ->]|Ht]; [done|]. by apply (li_queued _ _ _ HL ct).
  - intros ct ct' t t' rx Hct Hct' Ht Ht'. apply Hlk in Ht as [[-> ->]|Ht]; [done|].
    apply Hlk in Ht' as [[-> ->]|Ht']; [done|]. by apply (li_queued_once _ _ _ HL).
Qed.

(** A caller that is still sending is not in the history. *)
Lemma sending_not_called h n w ct t i e rx :
  linear h n w -> w_tasks w !! ct = Some (TClient t) -> sending w ct t ->
  h !! i = Some e -> call_by e <> Some (ct, rx).
Proof.
  intros HL Ht Hs Hi He. destruct (li_call _ _ _ HL i e ct rx Hi He) as (_ & _ & t' & Ht' & Haw).
  rewrite Ht in Ht'. injection Ht' as <-. by destruct Haw as [[d ->]|[->|(_ & r & _ & ->)]].
Qed.

(** The reply channel [rx] belongs to the caller [ct] alone. *)
Definition own_rx (h : list Call) (w : World) (ct : nat) (rx : loc) : Prop :=
  base <= rx < w_fresh w /\ oneshot_poll <$> w_oneshots w !! rx = Some Pending /\
  (forall i e ct', h !! i = Some e -> call_by e <> Some (ct', rx)) /\
  (forall ct' t, base <= ct' -> ct' <> ct -> w_tasks w !! ct' = Some t -> queued_rx t <> Some rx).

(** The caller [ct] moves on without a place in the history. *)
Lemma linear_requeue h n w w' ct c m d rx :
  linear h n w -> wf w' -> w_fresh w' = w_fresh w -> base <= ct ->
  w_tasks w !! ct = Some (TClient c) -> sending w ct c -> own_rx h w ct rx -> ok m = true -> asked ct = Some m ->
  w_tasks w' = <[ct := TClient (inl (SendQueue addr m false d rx))]> (w_tasks w) ->
  inbox addr w' = inbox addr w -> w_oneshots w' = w_oneshots w -> linear h n w'.
Proof.
  intros HL Hw Hf Hct Htc Hs (Hrx & Hp & Hr1 & Hr2) Hm Hg Ht Hq Ho.
  pose proof (li_client_ne _ _ _ _ _ HL Htc) as Hne.
  assert (Hlk : forall ct' t, w_tasks w' !! ct' = Some t ->
    ct' = ct /\ t = TClient (inl (SendQueue addr m false d rx)) \/ ct' <> ct /\ w_tasks w !! ct' = Some t).
  { intros ct' t. rewrite Ht, lookup_insert. case_decide; intros; simplify_eq; auto. }
  split; try (by apply HL); [done|rewrite Hf; apply HL|..].
  - destruct (li_actor _ _ _ HL) as [Ha Hqa]. split; [by rewrite Ht, lookup_insert_ne|].
    unfold inbox in Hq. by rewrite Hq.
  - intros i e ct' rx' Hi He. rewrite Hf, Ho, Ht.
    destruct (li_call _ _ _ HL i e ct' rx' Hi He) as (H1 & H2 & t & Ht' & Haw).
    split_and!; [lia|lia|exact H2|]. exists t. rewrite lookup_insert_ne; [done|]. intros ->.
    by apply (sending_not_called _ _ _ _ _ _ _ rx' HL Htc Hs Hi).
  - intros ct' t Hct' Ht'. apply Hlk in Ht' as [[-> ->]|[Hn Ht']].
    + eexists. split; [done|]. left. simpl. rewrite Hf, Ho. done.
    + destruct (li_task _ _ _ HL ct' t Hct' Ht') as (c' & -> & [Hs'|Hi]); exists c'; split; auto.
      left. apply (sending_keep w); [lia| |done]. intros. by rewrite Ho.
  - intros ct' t rx' i e ct2 Hct' Ht' Hqr Hi. apply Hlk in Ht' as [[-> ->]|[Hn Ht']].
    + simpl in Hqr. injection Hqr as <-. by apply (Hr1 i).
    + by apply (li_queued _ _ _ HL ct' t rx' i).
  - intros ct1 ct2 t1 t2 rx' H1 H2 Ht1 Ht2 Hq1 Hq2.
    apply Hlk in Ht1 as [[-> ->]|[Hn1 Ht1]]; apply Hlk in Ht2 as [[-> ->]|[Hn2 Ht2]]; [done| | |].
    + simpl in Hq1. injection Hq1 as <-. by destruct (Hr2 ct2 t2).
    + simpl in Hq2. injection Hq2 as <-. by destruct (Hr2 ct1 t1).
    + by apply (li_queued_once _ _ _ HL ct1 ct2 t1 t2 rx').
Qed.

(** A message [e] enters the mailbox: between [w] and [w'] only the mailbox and
    the caller's task change. *)
Section Enter.
Context (h : list Call) (n : nat) (w w' : World) (e : Call).
Hypothesis HL : linear h n w.
Hypothesis Hw : wf w'.
Hypothesis Hf : w_fresh w' = w_fresh w.
Hypothesis Hok : ok (call_msg e) = true.
Hypothesis Ho : forall rx, base <= rx < w_fresh w ->
  oneshot_poll <$> w_oneshots w' !! rx = oneshot_poll <$> w_oneshots w !! rx.
Hypothesis Hq : inbox addr w' = (fun q => q ++ [call_env e]) <$> inbox addr w.
Hypothesis He :
  match call_by e with
  | None => w_tasks w' = w_tasks w
  | Some (ct, rx) => exists c t, base <= ct /\ w_tasks w !! ct = Some (TClient c) /\ sending w ct c /\
      own_rx h w ct rx /\ w_tasks w' = <[ct := TClient t]> (w_tasks w) /\ asked ct = Some (call_msg e) /\
      ((exists d, t = inl (SendRecv rx d)) \/ t = inr (Err Timeout))
  end.

Lemma enter_lookup i e' :
  (h ++ [e]) !! i = Some e' -> i < length h /\ h !! i = Some e' \/ i = length h /\ e' = e.
Proof.
  intros Hi. apply lookup_app_Some in Hi as [Hi|[Hi1 Hi2]]; [left|right].
  - split; [by eapply lookup_lt_Some|done].
  - apply list_lookup_singleton_Some in Hi2 as [? ->]. split; [lia|done].
Qed.

(** The task of the caller, and those of the others. *)
Lemma enter_task ct t :
  w_tasks w' !! ct = Some t ->
  (exists rx t0, call_by e = Some (ct, rx) /\ t = TClient t0 /\ queued_rx t = None) \/
  w_tasks w !! ct = Some t /\ forall rx, call_by e <> Some (ct, rx).
Proof.
  intros Ht. destruct (call_by e) as [[ct0 rx]|]; [|right; split; [by rewrite <- He|done]].
  destruct He as (c & t0 & _ & _ & _ & _ & Ht' & _ & Hcase). rewrite Ht', lookup_insert in Ht. case_decide.
  - simplify_eq. left. exists rx, t0. split_and!; [done..|]. by destruct Hcase as [[d ->]| ->].
  - right. split; [done|]. intros rx' [= -> ->]. done.
Qed.

Lemma enter_not_caller i e' ct rx ct' rx' :
  h !! i = Some e' -> call_by e' = Some (ct, rx) -> call_by e = Some (ct', rx') -> ct <> ct' /\ rx <> rx'.
Proof.
  intros Hi Hc Hc'. rewrite Hc' in He. destruct He as (c & t & _ & Hc0 & Hs & (_ & _ & Hr1 & _) & _).
  split; intros ->.
  - by apply (sending_not_called _ _ _ _ _ _ _ rx HL Hc0 Hs Hi).
  - by apply (Hr1 i e' ct).
Qed.

(** Tasks other than the caller's stay. *)
Lemma enter_other ct : (forall rx, call_by e <> Some (ct, rx)) -> w_tasks w' !! ct = w_tasks w !! ct.
Proof.
  intros Hc. destruct (call_by e) as [[ct0 rx0]|]; [|by rewrite He].
  destruct He as (c & t0 & _ & _ & _ & _ & Ht' & _). rewrite Ht', lookup_insert_ne; [done|]. intros ->.
  by apply (Hc rx0).
Qed.

Lemma enter_actor :
  parked tid k addr sd (state_after (take n (h ++ [e])) a0) ctx [] (call_env <$> drop n (h ++ [e])) w'.
Proof.
  pose proof (li_len _ _ _ HL). destruct (li_actor _ _ _ HL) as [Ha Hqa]. split.
  - rewrite take_app_le, enter_other; [done| |lia]. intros rx Hc. rewrite Hc in He.
    destruct He as (c & t0 & _ & Hc0 & _). by eapply (li_client_ne _ _ _ _ _ HL).
  - unfold inbox in Hq. rewrite Hq, Hqa. simpl. rewrite drop_app_le by lia. by rewrite fmap_app.
Qed.

Lemma enter_call i e' ct rx :
  (h ++ [e]) !! i = Some e' -> call_by e' = Some (ct, rx) ->
  base <= rx < w_fresh w' /\
  oneshot_poll <$> w_oneshots w' !! rx =
    Some (if decide (i < n) then from_option (fun r => Ready (Ok r)) Pending (reply_to (h ++ [e]) a0 i) else Pending) /\
  exists t, w_tasks w' !! ct = Some (TClient t) /\ awaiting (h ++ [e]) n i rx t.
Proof.
  intros Hi Hc. pose proof (li_len _ _ _ HL). apply enter_lookup in Hi as [[Hlt Hi]|[-> ->]].
  - destruct (li_call _ _ _ HL i e' ct rx Hi Hc) as (Hrx & Hp & t & Ht & Haw).
    rewrite Hf, Ho, reply_to_app by done. split; [done|]. split; [done|]. exists t.
    rewrite enter_other; [|intros rx' Hc'; by destruct (enter_not_caller _ _ _ _ _ _ Hi Hc Hc')].
    split; [done|]. unfold awaiting. by rewrite reply_to_app.
  - rewrite Hc in He. destruct He as (c & t & Hct & Hc0 & Hs & (Hrx & Hp & _) & Ht & _ & Hcase).
    rewrite Hf, Ho, decide_False by (done || lia). split; [done|]. split; [done|]. exists t.
    rewrite Ht, lookup_insert_eq. split; [done|]. unfold awaiting. naive_solver.
Qed.

Lemma enter_live ct t :
  base <= ct -> w_tasks w' !! ct = Some t ->
  exists c, t = TClient c /\ (sending w' ct c \/ exists i e' rx, (h ++ [e]) !! i = Some e' /\ call_by e' = Some (ct, rx)).
Proof.
  intros Hct Ht. apply enter_task in Ht as [(rx & t0 & Hc & -> & _)|[Ht _]].
  - exists t0. split; [done|]. right. exists (length h), e, rx. split; [|done].
    by rewrite lookup_app_r, Nat.sub_diag by lia.
  - destruct (li_task _ _ _ HL ct t Hct Ht) as (c & -> & Hc). exists c. split; [done|].
    destruct Hc as [Hs|(i & e' & rx & Hi & Hc)]; [left; apply (sending_keep w); [lia|done|done]|right].
    exists i, e', rx. split; [|done]. by apply lookup_app_l_Some.
Qed.

Lemma enter_queued ct t rx i e' ct' :
  base <= ct -> w_tasks w' !! ct = Some t -> queued_rx t = Some rx ->
  (h ++ [e]) !! i = Some e' -> call_by e' <> Some (ct', rx).
Proof.
  intros Hct Ht Hqr Hi Hc'. apply enter_task in Ht as [(rx0 & t0 & _ & -> & Hn)|[Ht Hn]]; [congruence|].
  apply enter_lookup in Hi as [[Hlt Hi]|[-> ->]].
  - by apply (li_queued _ _ _ HL ct t rx i e' ct').
  - rewrite Hc' in He. destruct He as (c & t0 & _ & _ & _ & (_ & _ & _ & Hr2) & _).
    apply (Hr2 ct t); [done| |done|done]. intros ->. by apply (Hn rx).
Qed.

Lemma linear_enter : linear (h ++ [e]) n w'.
Proof.
  split; [done|rewrite Hf; apply HL|rewrite length_app; pose proof (li_len _ _ _ HL); lia|
    |exact enter_actor|exact enter_call| | |exact enter_live|exact enter_queued|].
  - apply Forall_app. split; [apply HL|by constructor].
  - intros i e' ct rx Hi Hc. apply enter_lookup in Hi as [[Hlt Hi]|[-> ->]]; [by eapply (li_asked _ _ _ HL)|].
    rewrite Hc in He. destruct He as (c & t & _ & _ & _ & _ & _ & Hg & _). done.
  - intros i j e1 e2 ct ct' rx rx' Hi Hj H1 H2 Heq.
    apply enter_lookup in Hi as [[Hl1 Hi]|[-> ->]]; apply enter_lookup in Hj as [[Hl2 Hj]|[-> ->]]; [| | |done].
    + by apply (li_once _ _ _ HL i j e1 e2 ct ct' rx rx').
    + destruct (enter_not_caller _ _ _ _ _ _ Hi H1 H2). naive_solver.
    + destruct (enter_not_caller _ _ _ _ _ _ Hj H2 H1). naive_solver.
  - intros ct ct' t t' rx Hct Hct' Ht Ht' Hq1 Hq2.
    apply enter_task in Ht as [(? & ? & _ & -> & ?)|[Ht _]]; [congruence|].
    apply enter_task in Ht' as [(? & ? & _ & -> & ?)|[Ht' _]]; [congruence|].
    by apply (li_queued_once _ _ _ HL ct ct' t t' rx).
Qed.

End Enter.

(** ** The steps *)

Lemma li_chan h n w : linear h n w -> exists c, w_chans w !! addr_sender addr = Some c /\
  mpsc_queue c = call_env <$> drop n h /\ mpsc_open c = true.
Proof.
  intros HL. destruct (parked_running _ _ _ _ _ _ _ _ _ (li_wf _ _ _ HL) (li_actor _ _ _ HL))
    as (_ & _ & c & Hc & Hq & Ho). eauto.
Qed.

(** A message posted without a caller. *)
Lemma linear_try_send h n m w :
  ok m = true -> linear h n w -> exists h', linear (h ++ h') n (exec (LTrySend addr m false) w).
Proof.
  intros Hm HL. assert (Hw' : wf (exec (LTrySend addr m false) w)) by (apply exec_wf, HL).
  simpl in *. rewrite try_send_world in *. destruct (li_chan _ _ _ HL) as (c & Hc & Hq & _). rewrite Hc in *.
  pose proof (try_send_queue c (Sync (MessageEnvelope_new m))) as Hq'. destruct (room c).
  - exists [mkCall m None]. apply (linear_enter h n w); try done.
    unfold inbox. simpl. rewrite lookup_insert_eq, Hc. simpl. by rewrite Hq'.
  - exists []. rewrite app_nil_r in *. apply (linear_keep _ _ w); try done.
    destruct (li_actor _ _ _ HL) as [Ha _]. split; [done|]. simpl. rewrite lookup_insert_eq. simpl.
    by rewrite Hq', Hq.
Qed.

(** A poll of a caller that still has to send. *)
Lemma linear_enqueue h n w ct c m d rx w1 r :
  linear h n w -> base <= ct -> w_tasks w !! ct = Some (TClient c) -> sending w ct c -> own_rx h w ct rx ->
  ok m = true -> asked ct = Some m -> poll_enqueue addr m false d rx w = (w1, r) -> wf (put_task ct (TClient r) w1) ->
  exists h', linear (h ++ h') n (put_task ct (TClient r) w1).
Proof.
  intros HL Hct Htc Hs Hown Hm Hg Hpoll Hw'. unfold poll_enqueue, sender_send in Hpoll.
  destruct (li_chan _ _ _ HL) as (ch & Hc & Hq & Hop). rewrite Hc in Hpoll.
  destruct (mpsc_send_open _ ch (Sync (MessageEnvelope_with_response m rx)) Hop)
    as (ch' & _ & [[E Hq']|(_ & E & Hq')]); rewrite E in Hpoll.
  - exists [mkCall m (Some (ct, rx))]. injection Hpoll as <- <-.
    apply (linear_enter h n w); try done.
    + unfold inbox. simpl. rewrite lookup_insert_eq, Hc. simpl. by rewrite Hq'.
    + simpl. exists c. eexists. split_and!; try done. destruct Hown as (_ & Hp & _). unfold poll_reply. simpl.
      rewrite Hp. destruct d as [d|]; simpl; [case_decide|]; eauto.
  - exists []. rewrite app_nil_r. injection Hpoll as <- <-.
    apply (linear_requeue h n w _ ct c m d rx); try done.
    unfold inbox. simpl. rewrite lookup_insert_eq, Hc. simpl. by rewrite Hq'.
Qed.

Lemma own_rx_new h n w ct t :
  linear h n w -> w_tasks w !! ct = Some t ->
  linear h n (fst (new_oneshot w)) /\ own_rx h (fst (new_oneshot w)) ct (w_fresh w).
Proof.
  intros HL Ht. destruct (li_base _ _ _ HL) as [Hb Htid].
  assert (Hpoll : forall rx, rx < w_fresh w ->
    w_oneshots (fst (new_oneshot w)) !! rx = w_oneshots w !! rx).
  { intros rx Hrx. simpl. by rewrite lookup_insert_ne by lia. }
  split.
  - apply (linear_keep _ _ w); try done.
    + apply (wf_ext_tasks w); [apply new_oneshot_ext|apply HL|done].
    + simpl. lia.
    + apply HL.
    + intros rx Hrx. by rewrite Hpoll by lia.
  - split_and!; simpl; [lia|lia|by rewrite lookup_insert_eq; simpl; rewrite oneshot_channel_poll|..].
    + intros i e ct' Hi He. destruct (li_call _ _ _ HL i e ct' _ Hi He) as (Hrx & _). lia.
    + intros ct' t' Hct' _ Ht' Hq. destruct (li_task _ _ _ HL ct' t' Hct' Ht') as (c & -> & Hc).
      destruct c as [[| |]|]; try done. simpl in Hq. injection Hq as ->.
      destruct Hc as [(_ & _ & _ & _ & Hrx & _)|(i & e & rx & Hi & He)]; [lia|].
      destruct (li_call _ _ _ HL i e _ _ Hi He) as (_ & _ & t2 & Ht2 & Haw). rewrite Ht' in Ht2.
      injection Ht2 as <-. unfold awaiting in Haw. naive_solver.
Qed.

(** A poll of a caller that waits for its reply. *)
Lemma linear_reply h n w i e ct rx t :
  linear h n w -> h !! i = Some e -> call_by e = Some (ct, rx) -> awaiting h n i rx t ->
  wf (put_task ct (TClient t) w) -> linear h n (put_task ct (TClient t) w).
Proof.
  intros HL Hi He Haw Hw. destruct (li_call _ _ _ HL i e ct rx Hi He) as (Hrx & Hp & t0 & Ht0 & Haw0).
  pose proof (li_client_ne _ _ _ _ _ HL Ht0) as Hne.
  assert (Hnq : queued_rx (TClient t) = None) by (destruct Haw as [[d ->]|[->|(_ & r & _ & ->)]]; done).
  assert (Hlk : forall ct' t', w_tasks (put_task ct (TClient t) w) !! ct' = Some t' ->
    ct' = ct /\ t' = TClient t \/ w_tasks w !! ct' = Some t').
  { clear Hp. intros ct' t'. simpl. rewrite lookup_insert. case_decide; intros; simplify_eq; auto. }
  split; try (by apply HL); [done|..].
  - destruct (li_actor _ _ _ HL) as [Ha Hqa]. split; [|done]. simpl. by rewrite lookup_insert_ne.
  - intros j e' ct' rx' Hj He'. destruct (li_call _ _ _ HL j e' ct' rx' Hj He') as (H1 & H2 & t' & Ht' & Haw').
    split; [done|]. split; [done|]. simpl. destruct (decide (ct = ct')) as [<-|Hn].
    + assert (i = j) as <- by (eapply (li_once _ _ _ HL i j); eauto). rewrite Hi in Hj. injection Hj as <-. rewrite He in He'. injection He' as <-.
      exists t. by rewrite lookup_insert_eq.
    + exists t'. by rewrite lookup_insert_ne.
  - intros ct' t' Hct' Ht'. apply Hlk in Ht' as [[-> ->]|Ht']; [|by apply (li_task _ _ _ HL)].
    exists t. split; [done|]. right. eauto.
  - intros ct' t' rx' j e' ct2 Hct' Ht' Hq Hj. apply Hlk in Ht' as [[-> ->]|Ht']; [congruence|].
    by apply (li_queued _ _ _ HL ct' t' rx' j).
  - intros ct1 ct2 t1 t2 rx' H1 H2 Ht1 Ht2 Hq1 Hq2.
    apply Hlk in Ht1 as [[-> ->]|Ht1]; [congruence|]. apply Hlk in Ht2 as [[-> ->]|Ht2]; [congruence|].
    by apply (li_queued_once _ _ _ HL ct1 ct2 t1 t2 rx').
Qed.

Lemma poll_reply_awaiting h n w i e ct rx d :
  linear h n w -> h !! i = Some e -> call_by e = Some (ct, rx) ->
  awaiting h n i rx (poll_reply rx d w).
Proof.
  intros HL Hi He. destruct (li_call _ _ _ HL i e ct rx Hi He) as (_ & Hp & _).
  unfold poll_reply. rewrite Hp. rewrite (reply_to_Some _ _ _ _ Hi). unfold awaiting.
  destruct (decide (i < n)); simpl.
  - right; right. split; [done|]. eexists. by rewrite (reply_to_Some _ _ _ _ Hi).
  - destruct d as [d|]; [case_decide|]; eauto.
Qed.

Lemma linear_poll_client h n ct w :
  linear h n w -> base <= ct -> exists h', linear (h ++ h') n (exec (LPoll ct) w).
Proof.
  intros HL Hct. assert (Hw' : wf (exec (LPoll ct) w)) by (apply exec_wf, HL).
  assert (Hid : exists h', linear (h ++ h') n w) by (exists []; by rewrite app_nil_r).
  simpl in *. unfold poll_task in *. destruct (w_tasks w !! ct) as [t|] eqn:Ht; [|done].
  destruct (li_task _ _ _ HL ct t Hct Ht) as (c & -> & Hc). unfold poll_client in *. rewrite Ht in *.
  destruct c as [fut|r]; [|done]. destruct (poll_send fut w) as [w1 r] eqn:Hps. simpl in Hw' |- *.
  destruct Hc as [Hs|(i & e & rx & Hi & He)].
  - pose proof Hs as Hs0. destruct fut as [a m b d|a m b d rx|rx d]; [| |done]; simpl in Hs.
    + destruct Hs as (-> & Hm & -> & Hg). destruct (own_rx_new h n w ct _ HL Ht) as [HL1 Hown].
      apply (linear_enqueue h n (fst (new_oneshot w)) ct (inl (SendInit addr m false d)) m d (w_fresh w)); try done.
    + destruct Hs as (-> & Hm & -> & Hg & Hrx & Hp).
      apply (linear_enqueue h n w ct (inl (SendQueue addr m false d rx)) m d rx); try done.
      split_and!; [lia|lia|done|..].
      * intros i e ct' Hi. by apply (li_queued _ _ _ HL ct _ rx i e ct' Hct Ht eq_refl).
      * intros ct' t' Hct' Hn Ht' Hq. apply Hn. by eapply (li_queued_once _ _ _ HL ct' ct).
  - destruct (li_call _ _ _ HL i e ct rx Hi He) as (_ & _ & t0 & Ht0 & Haw). rewrite Ht in Ht0.
    injection Ht0 as <-. destruct Haw as [[d [= ->]]|[[=]|(_ & r' & _ & [=])]]. simpl in Hps.
    injection Hps as <- <-. exists []. rewrite app_nil_r. apply (linear_reply h n w i e ct rx); try done.
    by apply (poll_reply_awaiting h n w i e ct rx d).
Qed.

(** A poll of the actor with nothing to do. *)
Lemma linear_idle h n w :
  linear h n w -> drop n h = [] -> stays tid w = true ->
  linear h n (exec (LPoll tid) w) /\
  forall ct, ct <> tid -> w_tasks (exec (LPoll tid) w) !! ct = w_tasks w !! ct.
Proof.
  intros HL Hd Hst. assert (Hw' : wf (exec (LPoll tid) w)) by (apply exec_wf, HL).
  destruct (li_actor _ _ _ HL) as [Ha Hq]. destruct (li_chan _ _ _ HL) as (c & Hc & Hqc & _).
  rewrite Hd in Hqc. destruct (recv_mailbox_empty _ _ _ Hc Hqc) as (c' & p & Hr & Hp & Hqc' & _).
  simpl in *. unfold poll_task in *. unfold stays in Hst. rewrite Ha in *. simpl in *.
  unfold poll_in_select, poll_select in *. rewrite Hr in *.
  destruct Hp as [->| ->]; [|done].
  destruct (bcast_poll _ tid); [done|].
  destruct (poll_signal (addr_stop_signal addr) _) as [w1 [|]] eqn:H1; [done|].
  destruct (poll_signal (ctx_escalate_signal ctx) w1) as [w2 [|]] eqn:H2; [done|].
  unfold poll_signal in H1, H2. simpl in Hw'. repeat case_match; simplify_eq.
  all: assert (Htk : forall m ct, ct <> tid -> <[tid := m]> (w_tasks w) !! ct = w_tasks w !! ct)
    by (intros m ct Hne; by rewrite lookup_insert_ne).
  all: split; [|by apply Htk].
  all: apply (linear_keep _ _ w); try done; [|by apply Htk].
  all: split; simpl; [by rewrite lookup_insert_eq|]; rewrite lookup_insert_eq; simpl; by rewrite Hqc', Hd.
Qed.

(** The oneshots after the reply to [e]. *)
Lemma reply_oneshot e ct rx r w o :
  call_by e = Some (ct, rx) -> w_oneshots w !! rx = Some o ->
  w_oneshots (reply (snd <$> call_by e) r w) = <[rx := oneshot_send o r]> (w_oneshots w).
Proof. intros -> Ho. simpl. unfold upd_oneshot. by rewrite Ho. Qed.

(** The reply to the [n]th message reaches its caller and nobody else. *)
Lemma reply_others h n w e r rx :
  linear h n w -> h !! n = Some e -> (forall ct, call_by e <> Some (ct, rx)) ->
  w_oneshots (reply (snd <$> call_by e) r w) !! rx = w_oneshots w !! rx.
Proof.
  intros HL Hn Hrx. destruct (call_by e) as [[ct rx0]|] eqn:He; [|done]. simpl.
  unfold upd_oneshot. destruct (w_oneshots w !! rx0); [|done]. simpl.
  rewrite lookup_insert_ne; [done|]. intros ->. by apply (Hrx ct).
Qed.

Lemma reply_polls h n w e r i e' ct rx :
  linear h n w -> h !! n = Some e -> reply_to h a0 n = Some r -> h !! i = Some e' -> call_by e' = Some (ct, rx) ->
  oneshot_poll <$> w_oneshots (reply (snd <$> call_by e) r w) !! rx =
    Some (if decide (i < S n) then from_option (fun r => Ready (Ok r)) Pending (reply_to h a0 i) else Pending).
Proof.
  intros HL Hn Hr Hi He. destruct (li_call _ _ _ HL i e' ct rx Hi He) as (_ & Hpo & _).
  destruct (decide (i = n)) as [->|Hne].
  - rewrite Hn in Hi. injection Hi as <-. rewrite decide_False in Hpo by lia.
    destruct (w_oneshots w !! rx) as [o|] eqn:Hox; [|done]. simpl in Hpo. injection Hpo as Hpo.
    rewrite (reply_oneshot e ct rx r w o He Hox), lookup_insert_eq, decide_True, Hr by lia. simpl.
    by rewrite oneshot_send_poll.
  - rewrite (reply_others h n w e r rx HL Hn), Hpo.
    + f_equal. destruct (decide (i < n)); [by rewrite decide_True by lia|by rewrite decide_False by lia].
    + intros ct' He'. apply Hne. apply (li_once _ _ _ HL i n e' e ct ct' rx rx); auto.
Qed.

(** A poll of the actor with a message queued. *)
Lemma linear_handle h n w e :
  linear h n w -> h !! n = Some e -> linear h (S n) (exec (LPoll tid) w).
Proof.
  intros HL Hn. assert (Hw' : wf (exec (LPoll tid) w)) by (apply exec_wf, HL).
  pose proof (lookup_lt_Some _ _ _ Hn) as Hlt.
  pose proof (li_actor _ _ _ HL) as Hp. rewrite (drop_S _ _ _ Hn) in Hp. simpl in Hp.
  assert (Hok : ok (call_msg e) = true) by (by eapply (Forall_lookup_1 _ _ _ _ (li_ok _ _ _ HL))).
  destruct (poll_head_world _ _ _ _ _ _ _ _ _ _ _ _ _ Hp no_new_streams eq_refl (handles _ _ Hok))
    as (c & c' & _ & _ & Hq & Hc & Ht & Ho & Hf & _). simpl in Ho, Hw' |- *.
  set (w' := poll_task tid w) in *. set (r := snd (f _ _)) in Ho.
  assert (Hr : reply_to h a0 n = Some r) by (by rewrite (reply_to_Some _ _ _ _ Hn)).
  assert (Htk : forall ct t, w_tasks w !! ct = Some (TClient t) -> w_tasks w' !! ct = Some (TClient t)).
  { intros ct t Hct. rewrite Ht, lookup_insert_ne; [done|]. intros <-. by apply (li_client_ne _ _ _ _ _ HL Hct). }
  assert (Hb : forall ct, base <= ct -> w_tasks w' !! ct = w_tasks w !! ct).
  { intros ct Hct. rewrite Ht, lookup_insert_ne; [done|]. pose proof (li_base _ _ _ HL). lia. }
  split; try (by apply HL); [done|rewrite Hf; apply HL|lia|..].
  - split; [rewrite Ht, lookup_insert_eq|rewrite Hc, lookup_insert_eq; simpl; by rewrite Hq].
    by rewrite (take_S_r _ _ _ Hn), state_after_snoc.
  - intros i e' ct rx Hi He. destruct (li_call _ _ _ HL i e' ct rx Hi He) as (Hrx & Hpo & t & Htt & Haw).
    rewrite Hf, Ho. split; [done|]. split.
    + by apply (reply_polls h n w e r i e' ct rx).
    + exists t. split; [by apply Htk|]. destruct Haw as [?|[?|(? & ?)]]; unfold awaiting; [by auto..|].
      right; right. split; [lia|done].
  - intros ct t Hct. rewrite Hb by done. intros Htt. destruct (li_task _ _ _ HL ct t Hct Htt) as (c0 & -> & Hcase).
    exists c0. split; [done|]. destruct Hcase as [Hs|?]; [left|by right].
    destruct c0 as [[a m b d|a m b d rx|rx d]|r0]; simpl in *; [done| |done|done].
    destruct Hs as (-> & Hm & -> & Hg & Hrx & Hpo). rewrite Hf, Ho, (reply_others h n w e r rx HL Hn); [done|].
    intros ct'. by apply (li_queued _ _ _ HL ct _ rx n e ct' Hct Htt).
  - intros ct t rx i e' ct' Hct. rewrite Hb by done. by apply (li_queued _ _ _ HL).
  - intros ct ct' t t' rx Hct Hct'. rewrite !Hb by done. by apply (li_queued_once _ _ _ HL).
Qed.

(** [asked] records the requests of a schedule. *)
Definition asks (l : Label) (w : World) : Prop :=
  match l with LSend _ m _ _ => asked (w_fresh w) = Some m | _ => True end.
Fixpoint asks_all (ls : list Label) (w : World) : Prop :=
  match ls with [] => True | l :: ls => asks l w /\ asks_all ls (exec l w) end.

Lemma asks_all_app ls ls' w : asks_all (ls ++ ls') w -> asks_all ls w /\ asks_all ls' (exec_all ls w).
Proof.
  revert w. induction ls as [|l ls IH]; intros w; simpl; [done|]. intros [H1 H2]. by destruct (IH _ H2).
Qed.

Lemma linear_exec h n l w :
  linear h n w -> allowed tid addr base l w = true -> asks l w ->
  exists h' n', n <= n' /\ linear (h ++ h') n' (exec l w).
Proof.
  intros HL Hal Hg. assert (Hex : forall w' , (exists h', linear (h ++ h') n w') ->
    exists h' n', n <= n' /\ linear (h ++ h') n' w') by (intros w' [h' H]; exists h', n; auto).
  destruct l as [t|d| |? ? ?|?|?|a m b|a m b d|? ? ? ?|? ? ? ?|? ?|?]; simpl in Hal; try done.
  - case_decide as Ht.
    + subst t. exists []. rewrite app_nil_r. destruct (drop n h) as [|e rest] eqn:Hd.
      * exists n. split; [done|]. by apply (linear_idle h n w).
      * exists (S n). split; [lia|]. apply (linear_handle h n w e); [done|].
        rewrite <- (Nat.add_0_r n), <- lookup_drop, Hd. done.
    + apply bool_decide_eq_true in Hal. apply Hex. by apply linear_poll_client.
  - apply Hex. exists []. rewrite app_nil_r. by apply linear_tick.
  - apply andb_true_iff in Hal as [[->%bool_decide_eq_true Hm]%andb_true_iff Hb]. apply negb_true_iff in Hb as ->.
    apply Hex. by apply linear_try_send.
  - apply andb_true_iff in Hal as [[->%bool_decide_eq_true Hm]%andb_true_iff Hb]. apply negb_true_iff in Hb as ->.
    apply Hex. exists []. rewrite app_nil_r. by apply linear_send.
Qed.

Lemma linear_exec_all h n ls w :
  linear h n w -> scheduled tid addr base ls w = true -> asks_all ls w ->
  exists h' n', n <= n' /\ linear (h ++ h') n' (exec_all ls w).
Proof.
  revert h n w. induction ls as [|l ls IH]; intros h n w HL Hs Hg; simpl in Hs.
  { exists [], n. by rewrite app_nil_r. }
  apply andb_true_iff in Hs as [Hal Hs]. destruct Hg as [Hg1 Hg2].
  destruct (linear_exec h n l w HL Hal Hg1) as (h1 & n1 & Hn1 & HL1).
  destruct (IH _ _ _ HL1 Hs Hg2) as (h2 & n2 & Hn2 & HL2). exists (h1 ++ h2), n2. rewrite app_assoc. split; [lia|done].
Qed.

(** ** The start, and the end of the queue *)

Lemma linear_start w :
  wf w -> parked tid k addr sd a0 ctx [] [] w -> base = w_fresh w -> linear [] 0 w.
Proof.
  intros Hw Hp Hb. pose proof (wf_tasks _ Hw _ _ (proj1 Hp)).
  assert (Hno : forall ct t, base <= ct -> w_tasks w !! ct = Some t -> False).
  { intros ct t Hct Ht. pose proof (wf_tasks _ Hw _ _ Ht). lia. }
  split; try done; [lia|intros; by exfalso; eauto..].
Qed.

Lemma handle_tasks h n w e ct :
  linear h n w -> h !! n = Some e -> ct <> tid -> w_tasks (exec (LPoll tid) w) !! ct = w_tasks w !! ct.
Proof.
  intros HL Hn Hne. pose proof (li_actor _ _ _ HL) as Hp. rewrite (drop_S _ _ _ Hn) in Hp. simpl in Hp.
  assert (Hok : ok (call_msg e) = true) by (by eapply (Forall_lookup_1 _ _ _ _ (li_ok _ _ _ HL))).
  destruct (poll_head_world _ _ _ _ _ _ _ _ _ _ _ _ _ Hp no_new_streams eq_refl (handles _ _ Hok))
    as (c & c' & _ & _ & _ & _ & Ht & _). simpl. rewrite Ht. by rewrite lookup_insert_ne.
Qed.

(** Polled once per message queued, the actor handles them all. *)
Lemma linear_drain h n w :
  linear h n w -> let w' := exec_all (replicate (length h - n) (LPoll tid)) w in
  linear h (length h) w' /\ forall ct, ct <> tid -> w_tasks w' !! ct = w_tasks w !! ct.
Proof.
  intros HL. remember (length h - n) as j eqn:Hj. revert n w HL Hj.
  induction j as [|j IH]; intros n w HL Hj; pose proof (li_len _ _ _ HL).
  - by replace (length h) with n by lia.
  - destruct (lookup_lt_is_Some_2 h n) as [e He]; [lia|].
    destruct (IH (S n) (exec (LPoll tid) w)) as [H1 H2]; [by apply (linear_handle h n w e)|lia|].
    split; [done|]. intros ct Hne. unfold exec_all in *. simpl in *. rewrite H2 by done. by eapply handle_tasks.
Qed.

(** What a handled call's caller sees at its next poll. *)
Lemma linear_answer h n w i e ct rx :
  linear h n w -> h !! i = Some e -> call_by e = Some (ct, rx) -> i < n ->
  exists r x, reply_to h a0 i = Some r /\ snd (poll_client ct w) = Some x /\
    w_tasks (exec (LPoll ct) w) !! ct = Some (TClient (inr x)) /\
    (x = Ok r \/ x = Err Timeout /\ w_tasks w !! ct = Some (TClient (inr (Err Timeout)))).
Proof.
  intros HL Hi He Hlt. destruct (li_call _ _ _ HL i e ct rx Hi He) as (_ & Hp & t & Ht & Haw).
  rewrite decide_True, (reply_to_Some _ _ _ _ Hi) in Hp by done. simpl in Hp.
  rewrite (reply_to_Some _ _ _ _ Hi). eexists _. simpl. unfold poll_task, poll_client. rewrite Ht.
  destruct Haw as [[d ->]|[->|(_ & r & Hr & ->)]]; simpl.
  - unfold poll_reply. rewrite Hp. simpl. eexists. split_and!; [done..| |by left]. by rewrite lookup_insert_eq.
  - eexists. split_and!; [done..|]. by right.
  - rewrite (reply_to_Some _ _ _ _ Hi) in Hr. injection Hr as <-. eexists. split_and!; [done..|]. by left.
Qed.

End Object.

(** *** Calls without a deadline *)

(** A future that never times out. *)
Definition untimed (t : SendFut + Result Rsp MailboxError) : Prop :=
  match t with
  | inl (SendInit _ _ _ d) | inl (SendQueue _ _ _ d _) | inl (SendRecv _ d) => d = None
  | inr r => r <> Err Timeout
  end.

Lemma poll_send_untimed fut w : untimed (inl fut) -> untimed (snd (poll_send fut w)).
Proof.
  assert (Hr : forall rx w, untimed (poll_reply rx None w)).
  { intros rx w0. unfold poll_reply. by repeat case_match. }
  assert (He : forall a m b rx w, untimed (snd (poll_enqueue a m b None rx w))).
  { intros a m b rx w0. unfold poll_enqueue. destruct (sender_send _ _ _) as [w1 [|[]]]; simpl; first [done | apply Hr]. }
  destruct fut as [a m b d|a m b d rx|rx d]; simpl; intros ->; [apply He..|apply Hr].
Qed.

Lemma exec_untimed f ok tid k addr sd ctx a0 base asked h n l w ct t :
  (forall a m, ok m = true -> handle a m = Ret (fst (f a m)) (snd (f a m))) -> ctx_streams ctx = [] ->
  linear f ok tid k addr sd ctx a0 base asked h n w -> allowed ok tid addr base l w = true ->
  w_tasks w !! ct = Some (TClient t) -> untimed t ->
  exists t', w_tasks (exec l w) !! ct = Some (TClient t') /\ untimed t'.
Proof.
  intros Hh Hs HL Hal Ht Hu. pose proof (li_client_ne _ _ _ _ _ _ _ _ _ _ _ _ _ _ _ HL Ht) as Hne.
  destruct l as [t1|d| |? ? ?|?|?|a m b|a m b d|? ? ? ?|? ? ? ?|? ?|?]; simpl in Hal; try done.
  - case_decide as Htid; [subst t1|].
    + exists t. split; [|done]. rewrite <- Ht. destruct (drop n h) as [|e rest] eqn:Hd.
      * by apply (linear_idle _ _ _ _ _ _ _ _ _ _ h n w HL).
      * assert (Hn : h !! n = Some e) by (rewrite <- (Nat.add_0_r n), <- lookup_drop, Hd; done).
        by apply (handle_tasks f ok tid k addr sd ctx a0 base asked Hh Hs h n w e).
    + apply bool_decide_eq_true in Hal. simpl. unfold poll_task.
      destruct (w_tasks w !! t1) as [t2|] eqn:Ht1; [|eauto].
      destruct (li_task _ _ _ _ _ _ _ _ _ _ _ _ _ HL t1 t2 Hal Ht1) as (c & -> & _).
      unfold poll_client. rewrite Ht1. destruct c as [fut|r]; [|eauto].
      pose proof (poll_send_untimed fut w) as Hpu.
      assert (Htk : w_tasks (fst (poll_send fut w)) = w_tasks w).
      { destruct fut; simpl; unfold poll_enqueue, sender_send, drop_tx, upd_oneshot; repeat case_match; by simplify_eq/=. }
      destruct (poll_send fut w) as [w1 r1]. simpl in *. rewrite lookup_insert. case_decide; [subst t1|].
      * exists r1. rewrite Ht in Ht1. injection Ht1 as ->. split; [done|by apply Hpu].
      * rewrite Htk. eauto.
  - exists t. done.
  - simpl. apply andb_true_iff in Hal as [_ ->%negb_true_iff]. rewrite try_send_world. case_match; eauto.
  - simpl. rewrite lookup_insert_ne; [eauto|]. intros <-.
    pose proof (wf_tasks _ (li_wf _ _ _ _ _ _ _ _ _ _ _ _ _ HL) _ _ Ht). lia.
Qed.

(** What the callers are asked may be extended to callers that do not exist yet. *)
Lemma linear_asked f ok tid k addr sd ctx a0 base asked asked' h n w :
  (forall ct, ct < w_fresh w -> asked' ct = asked ct) ->
  linear f ok tid k addr sd ctx a0 base asked h n w -> linear f ok tid k addr sd ctx a0 base asked' h n w.
Proof.
  intros Ha HL.
  assert (Hct : forall ct t, w_tasks w !! ct = Some t -> asked' ct = asked ct).
  { intros ct t Ht. apply Ha. by apply (wf_tasks _ (li_wf _ _ _ _ _ _ _ _ _ _ _ _ _ HL) ct t). }
  destruct HL as [L1 L2 L3 L4 L5 L6 L7 L8 L9 L10 L11]. split; try done.
  - intros i e ct rx Hi He. destruct (L6 i e ct rx Hi He) as (_ & _ & t & Ht & _).
    rewrite (Hct ct _ Ht). by apply (L7 i e ct rx).
  - intros ct t Hb Ht. destruct (L9 ct t Hb Ht) as (c & -> & Hc). exists c. split; [done|].
    destruct Hc as [Hs|Hc]; [left|by right]. pose proof (Hct ct _ Ht) as E.
    destruct c as [[]|]; simpl in *; rewrite ?E; done.
Qed.

(** A step of any schedule, with whatever new caller it brings. *)
Lemma linear_step f ok tid k addr sd ctx a0 base (asked : gmap nat Msg) h n l w :
  (forall a m, ok m = true -> handle a m = Ret (fst (f a m)) (snd (f a m))) -> ctx_streams ctx = [] ->
  linear f ok tid k addr sd ctx a0 base (fun ct => asked !! ct) h n w -> allowed ok tid addr base l w = true ->
  exists (asked' : gmap nat Msg) h' n', (forall ct, ct < w_fresh w -> asked' !! ct = asked !! ct) /\
    (forall a m b d, l = LSend a m b d -> asked' !! w_fresh w = Some m) /\ n <= n' /\
    linear f ok tid k addr sd ctx a0 base (fun ct => asked' !! ct) (h ++ h') n' (exec l w).
Proof.
  intros Hh Hs HL Hal.
  assert (exists asked' : gmap nat Msg, (forall ct, ct < w_fresh w -> asked' !! ct = asked !! ct) /\
    (forall a m b d, l = LSend a m b d -> asked' !! w_fresh w = Some m)) as (asked' & Hag & Hnew).
  { destruct l as [| | | | | | |a m b d| | | |]; try (by exists asked). exists (<[w_fresh w := m]> asked). split.
    - intros ct Hct. by rewrite lookup_insert_ne by lia.
    - intros ? ? ? ? [= <- <- <- <-]. apply lookup_insert_eq. }
  pose proof (linear_asked _ _ _ _ _ _ _ _ _ _ (fun ct => asked' !! ct) _ _ _ Hag HL) as HL'.
  destruct (linear_exec _ _ _ _ _ _ _ _ _ _ Hh Hs h n l w HL' Hal) as (h' & n' & Hn & HL2).
  { destruct l; try done. simpl. by eapply Hnew. }
  exists asked', h', n'. by split_and!.
Qed.

(** The requests of a schedule: the task of each caller and its message. *)
Fixpoint requests (ls : list Label) (w : World) : gmap nat Msg :=
  match ls with
  | [] => ∅
  | LSend a m is_async timeout :: ls => <[w_fresh w := m]> (requests ls (exec (LSend a m is_async timeout) w))
  | l :: ls => requests ls (exec l w)
  end.

Lemma exec_fresh l w : wf w -> w_fresh w <= w_fresh (exec l w).
Proof.
  intros Hw. destruct l; try (apply exec_other_frame; [done|by intros]). by apply poll_iso.
Qed.

Lemma requests_asked asked ls w :
  wf w -> (forall ct, w_fresh w <= ct -> asked ct = requests ls w !! ct) -> asks_all asked ls w.
Proof.
  revert w. induction ls as [|l ls IH]; intros w Hw Hg; [done|].
  pose proof (exec_fresh l w Hw) as Hf. split.
  - destruct l; try done. simpl. rewrite Hg by done. simpl. by rewrite lookup_insert_eq.
  - apply IH; [by apply exec_wf|]. intros ct Hct. rewrite Hg by lia. destruct l; try done.
    simpl in *. rewrite lookup_insert_ne by lia. done.
Qed.

(** ** The properties *)

(** The history [h] explains the world [w]: the actor has handled a prefix of
    it and has the rest in its mailbox; each caller in it appears once, with
    the message it was asked to send; a caller that has a reply is in the
    handled part and has the reply of the sequential run; the only error is
    the caller's own timeout; and a caller whose call was handled has its
    result at its next poll. *)
Definition explains (f : St -> Msg -> St * Rsp) (tid : nat) (k : Kind) (addr : Addr) (sd : loc)
    (ctx : Context) (a : St) (base : nat) (asked : gmap nat Msg) (h : list Call) (w : World) : Prop :=
  exists n, n <= length h /\
    parked tid k addr sd (state_after f (take n h) a) ctx [] (call_env <$> drop n h) w /\
    (forall i e ct rx, h !! i = Some e -> call_by e = Some (ct, rx) ->
       asked !! ct = Some (call_msg e) /\ is_Some (w_tasks w !! ct)) /\
    (forall i j e e' ct rx rx', h !! i = Some e -> h !! j = Some e' ->
       call_by e = Some (ct, rx) -> call_by e' = Some (ct, rx') -> i = j) /\
    (forall ct r, base <= ct -> w_tasks w !! ct = Some (TClient (inr (Ok r))) ->
       exists i e rx, h !! i = Some e /\ call_by e = Some (ct, rx) /\ i < n /\ reply_to f h a i = Some r) /\
    (forall ct x, base <= ct -> w_tasks w !! ct = Some (TClient (inr (Err x))) -> x = Timeout) /\
    (forall i e ct rx, h !! i = Some e -> call_by e = Some (ct, rx) -> i < n ->
       exists r x, reply_to f h a i = Some r /\ snd (poll_client ct w) = Some x /\
         (x = Ok r \/ x = Err Timeout)).

Lemma linear_explains f ok tid k addr sd ctx a base asked h n w :
  linear f ok tid k addr sd ctx a base (fun ct => asked !! ct) h n w ->
  explains f tid k addr sd ctx a base asked h w.
Proof.
  intros HL. exists n. split_and!; [apply HL|apply HL|..].
  - intros i e ct rx Hi He. split; [by eapply (li_asked _ _ _ _ _ _ _ _ _ _ _ _ _ HL)|].
    destruct (li_call _ _ _ _ _ _ _ _ _ _ _ _ _ HL i e ct rx Hi He) as (_ & _ & t & -> & _). done.
  - intros i j e e' ct rx rx' Hi Hj He He'. by eapply (li_once _ _ _ _ _ _ _ _ _ _ _ _ _ HL i j); eauto.
  - intros ct r Hct Ht.
    destruct (li_task _ _ _ _ _ _ _ _ _ _ _ _ _ HL ct _ Hct Ht) as (c & [= <-] & [[]|(i & e & rx & Hi & He)]).
    destruct (li_call _ _ _ _ _ _ _ _ _ _ _ _ _ HL i e ct rx Hi He) as (_ & _ & t & Ht' & Haw).
    rewrite Ht in Ht'. injection Ht' as <-. destruct Haw as [[d [=]]|[[=]|(Hlt & r' & Hr & [= <-])]].
    exists i, e, rx. done.
  - intros ct x Hct Ht.
    destruct (li_task _ _ _ _ _ _ _ _ _ _ _ _ _ HL ct _ Hct Ht) as (c & [= <-] & [[]|(i & e & rx & Hi & He)]).
    destruct (li_call _ _ _ _ _ _ _ _ _ _ _ _ _ HL i e ct rx Hi He) as (_ & _ & t & Ht' & Haw).
    rewrite Ht in Ht'. injection Ht' as <-. by destruct Haw as [[d [=]]|[[= ->]|(Hlt & r' & Hr & [=])]].
  - intros i e ct rx Hi He Hlt.
    destruct (linear_answer _ _ _ _ _ _ _ _ _ _ _ _ _ _ _ _ _ HL Hi He Hlt) as (r & x & H1 & H2 & _ & H3).
    exists r, x. split_and!; [done..|]. naive_solver.
Qed.

(** C1: an actor is linearizable. From a world in which it is idle, let its
    task, any number of callers of [Addr::send] and [send_timeout] and
    [try_send]s take steps in any order in which it is not asked to stop; then
    one history, in the order in which the messages entered the mailbox,
    explains every world on the way, growing at its end only: the replies are
    those of handling the calls one after the other in that order, and a call
    that was over at some point comes before the calls made later. *)
Theorem actor_linearizable f ok (w : World) tid k addr sd a ctx ls1 ls2 :
  reachable w -> parked tid k addr sd a ctx [] [] w -> ctx_streams ctx = [] ->
  (forall a m, ok m = true -> handle a m = Ret (fst (f a m)) (snd (f a m))) ->
  scheduled ok tid addr (w_fresh w) (ls1 ++ ls2) w = true ->
  let asked := requests (ls1 ++ ls2) w in
  exists h1 h2,
    explains f tid k addr sd ctx a (w_fresh w) asked h1 (exec_all ls1 w) /\
    explains f tid k addr sd ctx a (w_fresh w) asked (h1 ++ h2) (exec_all (ls1 ++ ls2) w).
Proof.
  intros Hr Hp Hs Hh Hsch asked. pose proof (reachable_wf _ Hr) as Hw.
  pose proof (requests_asked (fun ct => asked !! ct) (ls1 ++ ls2) w Hw (fun ct _ => eq_refl)) as Hg.
  pose proof (linear_start f ok tid k addr sd ctx a (w_fresh w) (fun ct => asked !! ct) w Hw Hp eq_refl) as HL.
  rewrite scheduled_app in Hsch. apply andb_true_iff in Hsch as [Hs1 Hs2].
  apply asks_all_app in Hg as [Hg1 Hg2].
  destruct (linear_exec_all _ _ _ _ _ _ _ _ _ _ Hh Hs _ _ _ _ HL Hs1 Hg1) as (h1 & n1 & _ & HL1).
  destruct (linear_exec_all _ _ _ _ _ _ _ _ _ _ Hh Hs _ _ _ _ HL1 Hs2 Hg2) as (h2 & n2 & _ & HL2).
  exists h1, h2. unfold exec_all in *. rewrite foldl_app. split; by eapply linear_explains.
Qed.

(** C4: every caller that waits for an actor gets the reply of the sequential
    run. At any point of such a schedule, once the actor has been polled for
    each message in its mailbox, a caller that was waiting has, at its next
    poll, the reply at its place in the history. *)
Theorem waiting_callers_get_replies f ok (w : World) tid k addr sd a ctx ls ct rx d q :
  reachable w -> parked tid k addr sd a ctx [] [] w -> ctx_streams ctx = [] ->
  (forall a m, ok m = true -> handle a m = Ret (fst (f a m)) (snd (f a m))) ->
  scheduled ok tid addr (w_fresh w) ls w = true ->
  let w' := exec_all ls w in
  w_fresh w <= ct -> w_tasks w' !! ct = Some (TClient (inl (SendRecv rx d))) -> inbox addr w' = Some q ->
  exists h i e r,
    explains f tid k addr sd ctx a (w_fresh w) (requests ls w) h w' /\
    h !! i = Some e /\ call_by e = Some (ct, rx) /\ reply_to f h a i = Some r /\
    w_tasks (exec_all (replicate (length q) (LPoll tid) ++ [LPoll ct]) w') !! ct = Some (TClient (inr (Ok r))).
Proof.
  intros Hr Hp Hs Hh Hsch w' Hct Ht Hq. pose proof (reachable_wf _ Hr) as Hw.
  pose proof (requests_asked (fun ct => requests ls w !! ct) ls w Hw (fun ct _ => eq_refl)) as Hg.
  pose proof (linear_start f ok tid k addr sd ctx a (w_fresh w) (fun ct => requests ls w !! ct) w Hw Hp eq_refl) as HL.
  destruct (linear_exec_all _ _ _ _ _ _ _ _ _ _ Hh Hs _ _ _ _ HL Hsch Hg) as (h & n & _ & HL1). simpl in HL1.
  fold w' in HL1.
  destruct (li_task _ _ _ _ _ _ _ _ _ _ _ _ _ HL1 ct _ Hct Ht) as (c & [= <-] & [[]|(i & e & rx' & Hi & He)]).
  destruct (li_call _ _ _ _ _ _ _ _ _ _ _ _ _ HL1 i e ct rx' Hi He) as (_ & _ & t & Ht' & Haw).
  rewrite Ht in Ht'. injection Ht' as <-. destruct Haw as [[d' [= <- <-]]|[[=]|(_ & r' & _ & [=])]].
  assert (Hlen : length q = length h - n).
  { destruct (li_actor _ _ _ _ _ _ _ _ _ _ _ _ _ HL1) as [_ Hqa]. unfold inbox in Hq. rewrite Hqa in Hq.
    injection Hq as <-. by rewrite length_fmap, length_drop. }
  destruct (linear_drain _ _ _ _ _ _ _ _ _ _ Hh Hs _ _ _ HL1) as [HL2 Hkeep]. rewrite <- Hlen in HL2, Hkeep.
  destruct (linear_answer _ _ _ _ _ _ _ _ _ _ _ _ _ _ _ _ _ HL2 Hi He (lookup_lt_Some _ _ _ Hi))
    as (r & x & Hrep & _ & Hx & Hcase).
  exists h, i, e, r. split_and!; [by eapply linear_explains|done..|].
  unfold exec_all in *. rewrite foldl_app. simpl in *. rewrite Hx. destruct Hcase as [->|[_ Hto]]; [done|].
  rewrite Hkeep, Ht in Hto; [done|]. intros ->. destruct (li_tid _ _ _ _ _ _ _ _ _ _ _ _ _ HL1). congruence.
Qed.

End Linear.

(** ** Witnesses *)

Section Witnesses.
Import Demo.

(** What a counter does with an increment. *)
Definition count (n : @St demo_sys) (m : @Msg demo_sys) : @St demo_sys * @Rsp demo_sys :=
  match m with UserMsg Inc => (S n, S n) | _ => (n, n) end.
Definition countable (m : Msg) : bool := match m with UserMsg Inc => true | _ => false end.

Lemma count_handles (n : nat) (m : Msg) :
  countable m = true -> handle n m = Ret (fst (count n m)) (snd (count n m)).
Proof. destruct m as [|[]]; done. Qed.

(** The counter starts at 7. *)
Definition seven : @St demo_sys := 7.
Definition counter_ctx : Context := mkCtx counter (Some 3) 0 [] 5 [].

(** Two callers, the second of which sends first, and a post in between. *)
Definition race1 : list Label :=
  [LSend counter (um Inc) false None; LSend counter (um Inc) false (Some 100%Z); LPoll 8;
   LTrySend counter (um Inc) false; LPoll 7].
Definition race2 : list Label := [LPoll 6; LPoll 6; LPoll 8; LPoll 7; LPoll 6; LPoll 7].

Lemma booted_parked : parked 6 (KRoot seven counter_ctx) counter 0 seven counter_ctx [] [] booted.
Proof. split; vm_compute; reflexivity. Qed.

Lemma actor_linearizable_witness :
  exists h1 h2,
    explains count 6 (KRoot seven counter_ctx) counter 0 counter_ctx seven 7 (requests (race1 ++ race2) booted) h1
      (exec_all race1 booted) /\
    explains count 6 (KRoot seven counter_ctx) counter 0 counter_ctx seven 7 (requests (race1 ++ race2) booted) (h1 ++ h2)
      (exec_all (race1 ++ race2) booted).
Proof.
  apply (actor_linearizable count countable booted 6 (KRoot seven counter_ctx) counter 0 seven counter_ctx race1 race2).
  - apply booted_reachable.
  - apply booted_parked.
  - reflexivity.
  - apply count_handles.
  - vm_compute. reflexivity.
Defined.

(** The race ends with both replies, in the order of the mailbox. *)
Example race_result :
  (w_tasks (exec_all (race1 ++ race2) booted) !! 7, w_tasks (exec_all (race1 ++ race2) booted) !! 8) =
  (Some (TClient (inr (Ok 10))), Some (TClient (inr (Ok 8)))).
Proof. vm_compute. reflexivity. Qed.

Definition race_queue : list ActorMessage :=
  [Sync (MessageEnvelope_with_response (um Inc) 9); Sync (MessageEnvelope_new (um Inc));
   Sync (MessageEnvelope_with_response (um Inc) 10)].

Lemma waiting_callers_get_replies_witness :
  exists h i e r,
    explains count 6 (KRoot seven counter_ctx) counter 0 counter_ctx seven 7 (requests race1 booted) h (exec_all race1 booted) /\
    h !! i = Some e /\ call_by e = Some (7, 10) /\ reply_to count h seven i = Some r /\
    w_tasks (exec_all (replicate 3 (LPoll 6) ++ [LPoll 7]) (exec_all race1 booted)) !! 7 = Some (TClient (inr (Ok r))).
Proof.
  apply (waiting_callers_get_replies count countable booted 6 (KRoot seven counter_ctx) counter 0 seven counter_ctx
    race1 7 10 None race_queue).
  - apply booted_reachable.
  - apply booted_parked.
  - reflexivity.
  - apply count_handles.
  - vm_compute. reflexivity.
  - vm_compute. lia.
  - vm_compute. reflexivity.
  - vm_compute. reflexivity.
Defined.

End Witnesses.
