(* ===== verification/Cascade.v ===== *)
(** * Cascade: stopping an actor stops its descendants

    An actor that leaves its loop asks each of its children to stop
    ([Context::stop_children]); a child that is idle leaves its loop at its
    next poll and asks its own children, and so on. This file follows a stop
    request down a supervision tree. The tree is given as a list of its members
    with every member after its parent. *)

From S2P Require Import Prelude Tokio Supervisor Runtime Tasks Demo RuntimeFacts Wf Isolation Lifecycle Mail.

Section Cascade.
Context {Y : Sys} {K : Tokio} {L : TokioLaws K} {B : Behaviour}.

(** ** Members of a tree *)

Record Member := mkMember {
  m_tid : nat; m_kind : Kind; m_addr : Addr; m_sd : loc; m_state : St; m_ctx : Context;
}.

Definition m_stop (m : Member) : loc := addr_stop_signal (m_addr m).

(** Waiting for messages, with nothing queued and no stream. *)
Definition idle (w : World) (m : Member) : Prop :=
  parked (m_tid m) (m_kind m) (m_addr m) (m_sd m) (m_state m) (m_ctx m) [] [] w.

Definition ended (w : World) (m : Member) : Prop :=
  exists k sd, w_tasks w !! m_tid m = Some (TActor k (m_addr m) sd PDone).

Definition asked_to_stop (w : World) (m : Member) : Prop := signal_permit (signal_at w (m_stop m)) = true.

(** ** What the end of an actor leaves to the others *)

(** The tasks of [ms], their mailboxes, their stop requests and the lists of
    their watchers. *)
Record spares (ms : list Member) (w w' : World) : Prop := mkSpares {
  sp_tasks m : m ∈ ms -> w_tasks w' !! m_tid m = w_tasks w !! m_tid m;
  sp_chans m : m ∈ ms -> w_chans w' !! addr_sender (m_addr m) = w_chans w !! addr_sender (m_addr m);
  sp_permits m : m ∈ ms -> asked_to_stop w m -> asked_to_stop w' m;
  sp_watchers m : m ∈ ms -> watchers_at w' (addr_watchers (m_addr m)) = watchers_at w (addr_watchers (m_addr m));
}.

#[global] Instance spares_preorder ms : PreOrder (spares ms).
Proof.
  split; [done|]. intros w1 w2 w3 [T1 C1 P1 W1] [T2 C2 P2 W2]. split.
  - intros m Hm. by rewrite T2, T1.
  - intros m Hm. by rewrite C2, C1.
  - auto.
  - intros m Hm. by rewrite W2, W1.
Qed.

Lemma spares_sub ms ms' w w' : ms' ⊆ ms -> spares ms w w' -> spares ms' w w'.
Proof. intros Hs [T C P W]. split; auto. Qed.

Lemma foldl_spares {X} ms (g : World -> X -> World) xs w :
  (forall w x, x ∈ xs -> spares ms w (g w x)) -> spares ms w (foldl g w xs).
Proof.
  revert w. induction xs as [|x xs IH]; intros w Hg; simpl; [done|].
  etrans; [apply Hg; left|]. apply IH. intros. apply Hg. by right.
Qed.

Definition none_watches (ms : list Member) (xs : list Addr) : Prop :=
  forall x m, x ∈ xs -> m ∈ ms -> addr_sender x <> addr_sender (m_addr m).

Lemma notify_watchers_spares ms addr w :
  none_watches ms (watchers_at w (addr_watchers addr)) -> spares ms w (run_notify_watchers addr w).
Proof.
  intros Hin. unfold run_notify_watchers, notify_watchers. set (w0 := log_event _ w).
  transitivity w0; [done|]. apply foldl_spares. intros w1 x Hx. unfold watcher_notify. rewrite try_send_world.
  destruct (w_chans w1 !! addr_sender x) as [c|]; [|done]. split; simpl; try done. intros m Hm.
  rewrite lookup_insert_ne; [done|]. by apply Hin.
Qed.

Lemma stop_children_spares ms ctx w : spares ms w (stop_children ctx w).
Proof.
  apply foldl_spares. intros w1 x _. split; simpl; try done. intros m _.
  unfold asked_to_stop, child_stop, notify_one, signal_at. simpl.
  rewrite lookup_insert. case_decide; [|done]. intros _. apply signal_notify_one_permit.
Qed.

Lemma end_task_spares ms tid k addr sd ph w :
  (forall m, m ∈ ms -> m_tid m <> tid /\ addr_sender (m_addr m) <> addr_sender addr) ->
  spares ms w (end_task tid k addr sd ph w).
Proof.
  intros Hin. unfold end_task. transitivity (close_mailbox addr w).
  2: { split; simpl; try done. intros m Hm. rewrite lookup_insert_ne; [done|]. intros E. by destruct (Hin m Hm). }
  unfold close_mailbox. destruct (w_chans w !! addr_sender addr) as [c|]; [|done].
  destruct (mpsc_drop_rx c) as [c' ms'].
  transitivity (set_chans (<[addr_sender addr := c']> (w_chans w)) w).
  - split; simpl; try done. intros m Hm. rewrite lookup_insert_ne; [done|]. intros E. by destruct (Hin m Hm).
  - apply foldl_spares. intros w1 m _. destruct (message_tx m) as [l|]; [|done]. simpl. unfold upd_oneshot.
    by case_match.
Qed.

(** A [stopped] hook that returns, and leaves [ms] alone. *)
Definition calm (ms : list Member) (m : Member) : Prop :=
  returns (stopped (m_state m)) /\ forall w, spares ms w (snd (run (stopped (m_state m)) (m_ctx m) w)).

(** The member [m] leaves its loop, and the others stay as they are. *)
Lemma exit_loop_spares ms m w :
  calm (m :: ms) m -> none_watches ms (watchers_at w (addr_watchers (m_addr m))) ->
  (forall m', m' ∈ ms -> m_tid m' <> m_tid m /\ addr_sender (m_addr m') <> addr_sender (m_addr m)) ->
  spares ms w (exit_loop (m_tid m) (m_kind m) (m_addr m) (m_sd m) (m_state m) (m_ctx m) false w).
Proof.
  intros [Hret Hcalm] Hwatch Hin.
  assert (Hrun : forall w1, spares (m :: ms) w1 (snd (run_stopped (m_addr m) (m_state m) (m_ctx m) w1))).
  { intros w1. unfold run_stopped. etrans; [|apply Hcalm]. done. }
  assert (Hsub : ms ⊆ m :: ms) by (intros x; by right).
  destruct (m_kind m) as [actor ctx0|f strategy tracker esc]; simpl.
  - unfold root_exit. set (w1 := stop_children _ _). specialize (Hrun w1).
    destruct (run_stopped _ _ _ w1) as [[[a1 r1] ctx1] w2]. simpl in Hrun.
    etrans; [by apply (notify_watchers_spares ms (m_addr m))|]. etrans; [apply (stop_children_spares ms (m_ctx m))|].
    etrans; [by eapply spares_sub|]. by apply end_task_spares.
  - unfold child_exit. set (w1 := stop_children _ _).
    pose proof (stop_children_spares (m :: ms) (m_ctx m) w : spares _ w w1) as H1. specialize (Hrun w1).
    assert (Hok : exists x, snd (fst (fst (run_stopped (m_addr m) (m_state m) (m_ctx m) w1))) = Some x) by apply Hret.
    destruct (run_stopped _ _ _ w1) as [[[a1 r1] ctx1] w2]. simpl in Hrun, Hok. destruct Hok as [x ->].
    pose proof (transitivity H1 Hrun) as H2. etrans; [by eapply spares_sub|].
    unfold supervise, child_terminate. etrans; [|by apply end_task_spares]. apply notify_watchers_spares.
    rewrite (sp_watchers _ _ _ H2) by left. done.
Qed.

(** One member that has been asked to stop is polled. *)
Lemma member_stops w m ms :
  wf w -> idle w m -> asked_to_stop w m -> calm (m :: ms) m ->
  none_watches ms (watchers_at w (addr_watchers (m_addr m))) ->
  (forall m', m' ∈ ms -> m_tid m' <> m_tid m /\ addr_sender (m_addr m') <> addr_sender (m_addr m) /\ m_stop m' <> m_stop m) ->
  let w' := poll_task (m_tid m) w in
  ended w' m /\ spares ms w w' /\
  (forall c, c ∈ ctx_children (m_ctx m) -> signal_permit (signal_at w' (addr_stop_signal c)) = true).
Proof.
  intros Hw Hid Hp Hcalm Hwatch Hin w'.
  destruct (poll_idle_exits _ _ _ _ _ _ _ Hw Hid (or_intror Hp)) as (w1 & E & Hr & Hctx & [S1 S2 S3 S4]).
  assert (H1 : spares ms w w1).
  { split; intros m' Hm'; destruct (Hin m' Hm') as (_ & Hs & Hst).
    - by rewrite S1.
    - by rewrite S3.
    - unfold asked_to_stop. by rewrite S4.
    - unfold watchers_at. by rewrite S2. }
  destruct (exit_loop_clean _ (m_kind m) _ (m_sd m) _ _ _ Hr Hctx (proj1 Hcalm)) as (H2 & _ & H3).
  unfold w'. rewrite E. split_and!; [exact H2| |by rewrite Forall_forall in H3].
  etrans; [exact H1|]. apply exit_loop_spares; [done| |intros; naive_solver].
  unfold watchers_at. by rewrite S2.
Qed.

(** ** A family: the members of a tree, parents first *)

Record family (w : World) (ms : list Member) : Prop := mkFamily {
  fam_idle : Forall (idle w) ms;
  (** the [stopped] hook of a member returns, and leaves those that stop after
      it alone: it sends them nothing, for one *)
  fam_calm i m : ms !! i = Some m -> calm (drop i ms) m;
  fam_stop : NoDup (m_stop <$> ms);
  fam_parent i m : ms !! i = Some m -> 0 < i ->
    exists j p, j < i /\ ms !! j = Some p /\ m_addr m ∈ ctx_children (m_ctx p);
  (** no member watches one that stops before it: a [Terminated] message would
      be handled before the stop request *)
  fam_watchers i m : ms !! i = Some m -> none_watches (drop (S i) ms) (watchers_at w (addr_watchers (m_addr m)));
}.

Section Family.
Context (w0 : World) (ms : list Member).
Hypothesis Hfam : family w0 ms.

(** The first [n] members have ended; a later one whose parent is among them
    has been asked to stop. *)
Record stopping (n : nat) (w : World) : Prop := mkStopping {
  st_wf : wf w;
  st_watchers m : m ∈ drop n ms -> watchers_at w (addr_watchers (m_addr m)) = watchers_at w0 (addr_watchers (m_addr m));
  st_ended i m : ms !! i = Some m -> i < n -> ended w m;
  st_idle m : m ∈ drop n ms -> idle w m;
  st_asked i m : ms !! i = Some m -> n <= i ->
    i = 0 \/ (exists j p, j < n /\ ms !! j = Some p /\ m_addr m ∈ ctx_children (m_ctx p)) -> asked_to_stop w m;
}.

Lemma stops_differ i j m n : ms !! i = Some m -> ms !! j = Some n -> m_stop m = m_stop n -> i = j.
Proof.
  intros Hi Hj Heq. apply (NoDup_lookup (m_stop <$> ms) i j (m_stop m) (fam_stop _ _ Hfam)); rewrite list_lookup_fmap.
  - by rewrite Hi.
  - rewrite Hj. simpl. by rewrite Heq.
Qed.

Lemma later_member n m : m ∈ drop n ms -> exists i, ms !! i = Some m /\ n <= i.
Proof.
  intros [i Hi]%list_elem_of_lookup. rewrite lookup_drop in Hi. exists (n + i). split; [done|lia].
Qed.

Lemma member_later n i m : ms !! i = Some m -> n <= i -> m ∈ drop n ms.
Proof.
  intros Hi Hn. apply list_elem_of_lookup. exists (i - n). rewrite lookup_drop. by replace (n + (i - n)) with i by lia.
Qed.

Lemma later_differ n w m m' :
  stopping n w -> ms !! n = Some m -> m' ∈ drop (S n) ms ->
  m_tid m' <> m_tid m /\ addr_sender (m_addr m') <> addr_sender (m_addr m) /\ m_stop m' <> m_stop m.
Proof.
  intros Hst Hn Hm'. destruct (later_member _ _ Hm') as (i & Hi & Hle).
  destruct (st_idle _ _ Hst m (member_later n n m Hn ltac:(done))) as [Tm _].
  destruct (st_idle _ _ Hst m' (member_later n i m' Hi ltac:(lia))) as [Tm' _].
  assert (Hs : m_stop m' <> m_stop m) by (intros E; pose proof (stops_differ _ _ _ _ Hi Hn E); lia).
  assert (Ht : m_tid m' <> m_tid m).
  { intros E. rewrite E, Tm in Tm'. injection Tm' as _ Ha _ _ _. apply Hs. unfold m_stop. by rewrite Ha. }
  split_and!; [done| |done]. intros E. apply Ht. by apply (wf_inj _ (st_wf _ _ Hst) _ _ _ _ _ _ _ _ _ _ Tm' Tm).
Qed.

Lemma ended_keeps w m tid : wf w -> ended w m -> ended (poll_task tid w) m.
Proof.
  intros Hw (k & sd & Ht). exists k, sd. by apply (exec_all_dead [LPoll tid] (m_tid m) k (m_addr m) sd PDone w).
Qed.

Lemma stopping_step n w m :
  stopping n w -> ms !! n = Some m -> stopping (S n) (poll_task (m_tid m) w).
Proof.
  intros Hst Hn. pose proof (member_later n n m Hn ltac:(done)) as Hmn.
  assert (Hask : asked_to_stop w m).
  { apply (st_asked _ _ Hst n m Hn); [done|]. destruct n as [|n]; [by left|right].
    by apply (fam_parent _ _ Hfam (S n) m Hn); lia. }
  pose proof (fam_calm _ _ Hfam n m Hn) as Hcalm. rewrite (drop_S _ _ _ Hn) in Hcalm.
  pose proof (fam_watchers _ _ Hfam n m Hn) as Hwatch. rewrite <- (st_watchers _ _ Hst m Hmn) in Hwatch.
  destruct (member_stops w m _ (st_wf _ _ Hst) (st_idle _ _ Hst m Hmn) Hask Hcalm Hwatch
    (fun m' => later_differ n w m m' Hst Hn)) as (HE & [HT HC HP HW] & HK).
  assert (Hsub : forall m', m' ∈ drop (S n) ms -> m' ∈ drop n ms) by (intros; rewrite (drop_S _ _ _ Hn); by right).
  split.
  - apply (exec_wf (LPoll _)), Hst.
  - intros m' Hm'. rewrite HW by done. apply Hst. auto.
  - intros i m' Hi Hlt. destruct (decide (i = n)) as [->|]; [by rewrite Hn in Hi; injection Hi as <-|].
    apply ended_keeps; [apply Hst|]. apply (st_ended _ _ Hst i m' Hi). lia.
  - intros m' Hm'. destruct (st_idle _ _ Hst m' (Hsub _ Hm')) as [H1 H2]. split; [by rewrite HT|by rewrite HC].
  - intros i m' Hi Hle [->|(j & p & Hj & Hp & Hc)]; [lia|]. destruct (decide (j = n)) as [->|Hne].
    + rewrite Hn in Hp. injection Hp as <-. by apply HK.
    + apply HP; [by eapply member_later|apply (st_asked _ _ Hst i m' Hi); [lia|right; exists j, p; split; [lia|done]]].
Qed.

Lemma stopping_prefix n :
  wf w0 -> (forall m, ms !! 0 = Some m -> asked_to_stop w0 m) -> n <= length ms ->
  stopping n (exec_all ((fun m => LPoll (m_tid m)) <$> take n ms) w0).
Proof.
  intros Hw H0. induction n as [|n IH]; intros Hn.
  - split; [done|done|intros; lia| |].
    + intros m Hm. rewrite drop_0 in Hm. by apply (proj1 (Forall_forall _ _) (fam_idle _ _ Hfam)).
    + intros i m Hi _ [->|(j & p & Hj & _)]; [by apply H0|lia].
  - destruct (lookup_lt_is_Some_2 ms n) as [m Hm]; [lia|]. rewrite (take_S_r _ _ _ Hm), fmap_app.
    unfold exec_all in *. rewrite foldl_app. simpl. apply stopping_step; [apply IH; lia|done].
Qed.

End Family.

(** ** The property *)

(** C9: a stop request reaches the whole tree. When the first member of a
    family of idle actors has been asked to stop, by [ctx.stop()], by
    [ChildHandle::stop] or by a parent of its own, then after one poll of each
    member, parents first, every member's task has returned and every mailbox
    is closed. The [stopped] hooks of the members return and neither send to,
    watch nor spawn anything for members that stop later ([calm]), and no member
    watches one that stops before it: the [Terminated] message it would get is
    handled first, and the stop takes one more poll. *)
Theorem stop_cascades (w : World) ms root :
  reachable w -> family w ms -> ms !! 0 = Some root ->
  signal_permit (signal_at w (addr_stop_signal (m_addr root))) = true ->
  let w' := exec_all ((fun m => LPoll (m_tid m)) <$> ms) w in
  Forall (fun m => ended w' m /\ is_alive (m_addr m) w' = false) ms.
Proof.
  intros Hr Hfam Hroot Hp w'. pose proof (reachable_wf _ Hr) as Hw.
  assert (Hst : stopping w ms (length ms) w').
  { pose proof (stopping_prefix w ms Hfam (length ms) Hw) as H. rewrite firstn_all in H. apply H; [|done].
    intros m Hm. rewrite Hroot in Hm. injection Hm as <-. exact Hp. }
  apply Forall_lookup. intros i m Hi.
  assert (He : ended w' m) by (apply (st_ended _ _ _ _ Hst i m Hi); by eapply lookup_lt_Some).
  split; [done|]. destruct He as (k & sd & Ht).
  by rewrite (is_alive_live _ _ _ _ _ _ (st_wf _ _ _ _ Hst) Ht).
Qed.

End Cascade.

(** ** Witness *)

Section Witnesses.
Import Demo.

(** The counter, its child and its grandchild, all idle; the counter is asked to stop. *)
Definition three : World :=
  exec_all [LTrySend counter (um (Kid Stop)) false; LPoll 6; LPoll 10;
            LTrySend kid (um (Kid Stop)) false; LPoll 10; LPoll 15; LStop counter] booted.

Definition grandkid : Addr := mkAddr 12 3%Z 14 13.
Definition counter_ctx0 : Context := mkCtx counter (Some 3) 0 [] 5 [].
Definition kid_kind (calls : nat) (esc : loc) : Kind := KChild (kid_factory calls) Stop None esc.
Definition tree : list Member :=
  [mkMember 6 (KRoot (7 : @St demo_sys) counter_ctx0) counter 0 (7 : @St demo_sys) (mkCtx counter (Some 3) 0 [kid] 5 []);
   mkMember 10 (kid_kind 1 5) kid 0 (0 : @St demo_sys) (mkCtx kid (Some 8) 0 [grandkid] 11 []);
   mkMember 15 (kid_kind 1 11) grandkid 0 (0 : @St demo_sys) (mkCtx grandkid (Some 13) 0 [] 16 [])].

Lemma tree_family : family three tree.
Proof.
  split.
  - repeat constructor; vm_compute; reflexivity.
  - intros i m Hi. assert (Hst : exists a', stopped (m_state m) = Ret a' tt).
    { refine (Forall_lookup_1 (fun m => exists a', stopped (m_state m) = Ret a' tt) tree i m _ Hi).
      repeat constructor; eexists; reflexivity. }
    destruct Hst as [a' Hst]. split; intros; rewrite Hst; simpl; [by eexists|done].
  - apply (bool_decide_unpack _). vm_compute. exact I.
  - intros [|[|[|i]]] m Hm Hi; [lia|..]; [| |by destruct i]; simpl in Hm; injection Hm as <-.
    + exists 0. eexists. split; [lia|]. split; [reflexivity|]. by left.
    + exists 1. eexists. split; [lia|]. split; [reflexivity|]. by left.
  - intros i m Hi. assert (E : exists ws, watchers_at three (addr_watchers (m_addr m)) = ws /\
      ws = match i with 1 => [counter] | 2 => [kid] | _ => [] end).
    { destruct i as [|[|[|i]]]; [..|by destruct i]; simpl in Hi; injection Hi as <-;
        eexists; (split; [vm_compute; reflexivity|reflexivity]). }
    destruct E as (ws & -> & ->). intros x m' Hx Hm'.
    destruct i as [|[|[|i]]]; simpl in Hx, Hm'; try (by apply not_elem_of_nil in Hx || by destruct i);
      apply list_elem_of_singleton in Hx; subst x.
    + apply list_elem_of_singleton in Hm'. by subst m'.
    + by apply not_elem_of_nil in Hm'.
Qed.

Lemma stop_cascades_witness :
  let w' := exec_all [LPoll 6; LPoll 10; LPoll 15] three in
  Forall (fun m => ended w' m /\ is_alive (m_addr m) w' = false) tree.
Proof.
  refine (stop_cascades three tree (mkMember 6 (KRoot (7 : @St demo_sys) counter_ctx0) counter 0 (7 : @St demo_sys)
    (mkCtx counter (Some 3) 0 [kid] 5 [])) _ tree_family eq_refl _).
  - apply exec_all_reachable, booted_reachable.
  - vm_compute. reflexivity.
Defined.

End Witnesses.
