(* ===== verification/Chat.v ===== *)
(** * Chat: the chat server of examples/chat/src/main.rs

    The two actors of the example, [ChatServer] and [ClientSession], as an
    application of the runtime: their hooks and handlers are programs over the
    API. The stream of lines of a connection ([LinesStream] over a socket) is
    an argument, any poll function. A session hands its lines to an unbounded
    channel that a task outside the actors writes to the socket; the channel is
    the list of the lines handed over. The order in which a [HashMap] is
    iterated is an argument too. The theorems say who gets which line. *)

From S2P Require Import Prelude Text Tokio Supervisor Runtime Tasks RuntimeFacts Wf Isolation Lifecycle Mail.
Import (notations) Stdlib.Strings.Ascii.

(** ** The application *)

(** [struct ClientSession]; [LS] is the type of the stream of lines. *)
Record Session (LS : Type) := mkSession {
  username : string;
  server : Addr;
  writer_tx : list string;
  lines_stream : option LS;
}.
Arguments mkSession {LS} _ _ _ _.
Arguments username {LS} _.
Arguments server {LS} _.
Arguments writer_tx {LS} _.
Arguments lines_stream {LS} _.

(** An actor of the example is one or the other. *)
Inductive ChatActor (LS : Type) :=
| ChatServer (clients : gmap string Addr)
| ClientSession (s : Session LS).
Arguments ChatServer {LS} _.
Arguments ClientSession {LS} _.

Inductive ChatMsg :=
| Connect (username : string) (addr : Addr)
| Disconnect (username : string)
| Broadcast (from text : string)
| SendLine (line : string).

(** The order of iteration over a map of clients. *)
Class IterOrder := iter : gmap string Addr -> list (string * Addr).
Class IterOrderLaws (I : IterOrder) : Prop := iter_perm m : iter m ≡ₚ map_to_list m.

(** The lines of a connection: [LinesStream::poll_next]. *)
Class Lines := { LS : Type; lines_poll_next : LS -> LS * Poll (option (Result string string)) }.

Section Chat.
Context {N : Lines} {K : Tokio} {I : IterOrder}.

#[global] Instance chat_sys : Sys | 0 := {|
  St := ChatActor LS;
  User := ChatMsg;
  Rsp := unit;
  Strm := LS;
  Item := Result string string;
  stream_poll_next := lines_poll_next;
|}.

(** [for client in .. { let _ = client.try_send(SendLine(..)); }], then [k]. *)
Fixpoint send_all (a : St) (to : list Addr) (line : string) (k : Prog unit) : Prog unit :=
  match to with
  | [] => k
  | client :: to => Do a (OpTrySend client (UserMsg (SendLine line))) (fun _ => send_all a to line k)
  end.

(** [ChatServer::broadcast]. *)
Definition broadcast (clients : gmap string Addr) (message : string) (k : Prog unit) : Prog unit :=
  send_all (ChatServer clients) (iter clients).*2 message k.

Definition joined_line (u : string) : string := "* " +:+ u +:+ " joined the chat" +:+ String "010"%char "".
Definition left_line (u : string) : string := "* " +:+ u +:+ " left the chat" +:+ String "010"%char "".
Definition said_line (from text : string) : string :=
  "[" +:+ from +:+ "]: " +:+ text +:+ String "010"%char "".

(** [Handler<Connect>], [Handler<Disconnect>], [Handler<Broadcast>]. *)
Definition handle_connect (clients : gmap string Addr) (u : string) (a : Addr) : Prog unit :=
  broadcast clients (joined_line u) (Ret (ChatServer (<[u := a]> clients)) tt).
Definition handle_disconnect (clients : gmap string Addr) (u : string) : Prog unit :=
  let clients := delete u clients in
  broadcast clients (left_line u) (Ret (ChatServer clients) tt).
Definition handle_broadcast (clients : gmap string Addr) (from text : string) : Prog unit :=
  send_all (ChatServer clients) (filter (fun c => fst c <> from) (iter clients)).*2 (said_line from text)
    (Ret (ChatServer clients) tt).

(** [ClientSession::started], [stopped] and its handlers. *)
Definition session_started (s : Session LS) : Prog unit :=
  let connect s :=
    Do (ClientSession s) OpAddress (fun r =>
      match r with
      | RAddr me => Do (ClientSession s) (OpTrySend (server s) (UserMsg (Connect (username s) me)))
                      (fun _ => Ret (ClientSession s) tt)
      | _ => Ret (ClientSession s) tt
      end) in
  match lines_stream s with
  | Some stream =>
      let s := mkSession (username s) (server s) (writer_tx s) None in
      Do (ClientSession s) (OpAddStream stream) (fun _ => connect s)
  | None => connect s
  end.
Definition session_stopped (s : Session LS) : Prog unit :=
  Do (ClientSession s) (OpTrySend (server s) (UserMsg (Disconnect (username s))))
    (fun _ => Ret (ClientSession s) tt).
Definition session_item (s : Session LS) (item : Result string string) : Prog unit :=
  match item with
  | Ok line =>
      let line := trim line in
      if decide (line = EmptyString) then Ret (ClientSession s) tt
      else Do (ClientSession s) (OpTrySend (server s) (UserMsg (Broadcast (username s) line)))
             (fun _ => Ret (ClientSession s) tt)
  | Err _ => Do (ClientSession s) OpStop (fun _ => Ret (ClientSession s) tt)
  end.
Definition session_finished (s : Session LS) : Prog unit :=
  Do (ClientSession s) OpStop (fun _ => Ret (ClientSession s) tt).
Definition handle_send_line (s : Session LS) (line : string) : Prog unit :=
  Ret (ClientSession (mkSession (username s) (server s) (writer_tx s ++ [line]) (lines_stream s))) tt.

(** The hooks and handlers; a message of a type the actor has no handler for
    cannot be sent to it in Rust and does nothing here. *)
#[global] Instance chat_behaviour : Behaviour | 0 := {|
  started := fun a => match a with ChatServer _ => Ret a tt | ClientSession s => session_started s end;
  stopped := fun a => match a with ChatServer _ => Ret a tt | ClientSession s => session_stopped s end;
  handle := fun a m =>
    match a, m with
    | ChatServer clients, UserMsg (Connect u addr) => handle_connect clients u addr
    | ChatServer clients, UserMsg (Disconnect u) => handle_disconnect clients u
    | ChatServer clients, UserMsg (Broadcast from text) => handle_broadcast clients from text
    | ClientSession s, UserMsg (SendLine line) => handle_send_line s line
    | _, _ => Ret a tt
    end;
  handle_async := fun a _ => mkFut (Ret a (inl tt));
  stream_handle := fun a item => match a with ClientSession s => session_item s item | _ => Ret a tt end;
  stream_finished := fun a => match a with ClientSession s => session_finished s | _ => Ret a tt end;
|}.

(** ** [main] *)

(** [main] up to the accept loop: the actor system with the chat server and the
    counter, or the error of [TcpListener::bind], which [main] returns; [None]
    is a panic. *)
Definition start_chat {E} (bind : Result unit E) (w : World)
  : option (World * ActorSystem * Addr * Result Z E) :=
  let '(w, system) := ActorSystem_new w in
  match spawn system (ChatServer ∅) w with
  | Some (w, server) => Some (w, system, server, (let? _ := bind in Ok 0%Z)%rust)
  | None => None
  end.

(** One turn of the accept loop, for a connection whose lines are [lines]: the
    counter is an [u32] whose overflow panics ([None]), and so would a channel
    that cannot be made. *)
Definition accept (sys : ActorSystem) (server : Addr) (client_counter : Z) (lines : LS) (w : World)
  : option (World * Z * string * Addr) :=
  let client_counter := (client_counter + 1)%Z in
  if decide (client_counter < 2 ^ 32)%Z then
    let username := "user" +:+ show_unsigned client_counter in
    match spawn sys (ClientSession (mkSession username server [] (Some lines))) w with
    | Some (w, a) => Some (w, client_counter, username, a)
    | None => None
    end
  else None.

(** The writer task: the lines written to the socket, when the results of
    [write_all] are [oks]; it ends at the first error. *)
Fixpoint writer_task (oks : list bool) (lines : list string) : list string :=
  match oks, lines with
  | true :: oks, line :: lines => line :: writer_task oks lines
  | _, _ => []
  end.

End Chat.

(** ** Facts *)

Section Facts.
Context {N : Lines} {K : Tokio} {L : TokioLaws K} {I : IterOrder} {IL : IterOrderLaws I}.

(** A message without a reply sender, as [try_send] queues it. *)
Definition cm (m : ChatMsg) : Msg := UserMsg (Y := chat_sys) m.
Definition plain (m : ChatMsg) : ActorMessage := Sync (MessageEnvelope_new (cm m)).

(** The loop of [broadcast] on the world. *)
Definition deliver (to : list Addr) (line : string) (w : World) : World :=
  foldl (fun w a => fst (try_send a (cm (SendLine line)) w)) w to.

Lemma run_send_all a to line k ctx w : run (send_all a to line k) ctx w = run k ctx (deliver to line w).
Proof.
  revert w. induction to as [|client to IH]; intros w; simpl; [done|].
  destruct (try_send client _ w) as [w1 r]. simpl. apply IH.
Qed.

Lemma deliver_tasks to line w : w_tasks (deliver to line w) = w_tasks w.
Proof.
  apply foldl_tasks. intros w' a. rewrite try_send_world. by case_match.
Qed.

Lemma deliver_chans to line w l :
  NoDup (addr_sender <$> to) ->
  w_chans (deliver to line w) !! l =
    if decide (l ∈ addr_sender <$> to) then (fun c => fst (mpsc_try_send c (plain (SendLine line)))) <$> w_chans w !! l
    else w_chans w !! l.
Proof.
  unfold deliver. revert w. induction to as [|a to IH]; intros w Hnd; cbn [foldl fmap list_fmap].
  { rewrite decide_False; [done|]. apply not_elem_of_nil. }
  apply NoDup_cons in Hnd as [Hna Hnd]. rewrite IH by done. clear IH. rewrite try_send_world.
  destruct (decide (l = addr_sender a)) as [->|Hne].
  - rewrite decide_False by done. rewrite decide_True by (by left).
    destruct (w_chans w !! addr_sender a) as [c|] eqn:Hc; simpl; [by rewrite lookup_insert_eq|done].
  - assert (E : w_chans (match w_chans w !! addr_sender a with
        | Some c => set_chans (<[addr_sender a := fst (mpsc_try_send c (Sync (MessageEnvelope_new (cm (SendLine line)))))]> (w_chans w)) w
        | None => w end) !! l = w_chans w !! l).
    { case_match; simpl; [|done]. by rewrite lookup_insert_ne. }
    rewrite E. destruct (decide (l ∈ addr_sender <$> to)) as [Hin|Hin].
    + by rewrite decide_True by (by right).
    + rewrite decide_False; [done|]. by intros [?|?]%elem_of_cons.
Qed.

(** The server handles a message by sending a line to some clients. *)
Lemma server_sends a0 tid k srv sd clients ctx streams m q to line clients' w :
  parked tid k srv sd (ChatServer clients) ctx streams (plain m :: q) w -> ctx_streams ctx = [] ->
  handle (ChatServer clients) (cm m) = send_all a0 to line (Ret (ChatServer clients') tt) ->
  NoDup (addr_sender <$> to) -> addr_sender srv ∉ addr_sender <$> to ->
  parked tid k srv sd (ChatServer clients') ctx streams q (poll_task tid w) /\
  (forall l, l <> addr_sender srv -> w_chans (poll_task tid w) !! l =
     if decide (l ∈ addr_sender <$> to) then (fun c => fst (mpsc_try_send c (plain (SendLine line)))) <$> w_chans w !! l
     else w_chans w !! l) /\
  (forall tid', tid' <> tid -> w_tasks (poll_task tid w) !! tid' = w_tasks w !! tid').
Proof.
  intros Hp Hs Hh Hnd Hsrv. destruct (poll_runs_head _ _ _ _ _ _ _ _ _ _ Hp) as (c & Hq & Hrun).
  rewrite Hh in Hrun. rewrite (Hrun (ChatServer clients') tt ctx (deliver to line (received tid srv sd c w)))
    by (by rewrite run_send_all). clear Hrun. split_and!.
  - apply loop_head_parked; [done|]. unfold inbox. rewrite deliver_chans, decide_False by done.
    unfold received. simpl. rewrite lookup_insert_eq. simpl. by rewrite Hq.
  - intros l Hl. unfold loop_head. simpl. rewrite deliver_chans by done. unfold received. simpl.
    by rewrite lookup_insert_ne by done.
  - intros tid' Hne. unfold loop_head. simpl. rewrite lookup_insert_ne by done. by rewrite deliver_tasks.
Qed.

(** ** The roster *)

(** The clients of a server have mailboxes of their own. *)
Record roster_ok (srv : Addr) (clients : gmap string Addr) : Prop := mkRosterOk {
  ro_inj u1 u2 a1 a2 : clients !! u1 = Some a1 -> clients !! u2 = Some a2 ->
    addr_sender a1 = addr_sender a2 -> u1 = u2;
  ro_srv u a : clients !! u = Some a -> addr_sender a <> addr_sender srv;
}.

Lemma roster_ok_insert srv clients u a :
  roster_ok srv clients -> addr_sender a <> addr_sender srv ->
  (forall u' a', clients !! u' = Some a' -> u' <> u -> addr_sender a' <> addr_sender a) ->
  roster_ok srv (<[u := a]> clients).
Proof.
  intros [H1 H2] Ha Hne. split.
  - intros u1 u2 a1 a2. rewrite !lookup_insert. repeat case_decide; intros; simplify_eq; eauto.
    all: exfalso; naive_solver.
  - intros u' a'. rewrite lookup_insert. case_decide; intros; simplify_eq; eauto.
Qed.

Lemma roster_ok_delete srv clients u : roster_ok srv clients -> roster_ok srv (delete u clients).
Proof.
  intros [H1 H2]. split.
  - intros u1 u2 a1 a2 [_ E1]%lookup_delete_Some [_ E2]%lookup_delete_Some. eauto.
  - intros u' a' [_ E]%lookup_delete_Some. eauto.
Qed.

(** The mailboxes of the clients that pass a test. *)
Section Recipients.
Context (P : string * Addr -> Prop) {HP : forall x, Decision (P x)}.

Lemma elem_of_recipients clients l :
  l ∈ addr_sender <$> (filter P (iter clients)).*2 <->
  exists u a, clients !! u = Some a /\ P (u, a) /\ addr_sender a = l.
Proof.
  rewrite list_elem_of_fmap. split.
  - intros (a & -> & Ha). apply list_elem_of_fmap in Ha as ([u a'] & -> & Hin).
    apply list_elem_of_filter in Hin as [HPu Hin]. rewrite iter_perm in Hin.
    apply elem_of_map_to_list in Hin. eauto.
  - intros (u & a & Hu & HPu & <-). exists a. split; [done|]. apply list_elem_of_fmap. exists (u, a).
    split; [done|]. apply list_elem_of_filter. split; [done|]. rewrite iter_perm. by apply elem_of_map_to_list.
Qed.

Lemma NoDup_recipients srv clients :
  roster_ok srv clients ->
  NoDup (addr_sender <$> (filter P (iter clients)).*2) /\
  addr_sender srv ∉ addr_sender <$> (filter P (iter clients)).*2.
Proof.
  intros [Hi Hs]. split.
  - rewrite <- list_fmap_compose. apply NoDup_fmap_2_strong.
    + intros [u1 a1] [u2 a2] [_ H1]%list_elem_of_filter [_ H2]%list_elem_of_filter. simpl. intros Ha.
      rewrite iter_perm in H1, H2. apply elem_of_map_to_list in H1, H2.
      pose proof (Hi _ _ _ _ H1 H2 Ha). subst. congruence.
    + apply NoDup_filter. rewrite iter_perm. apply NoDup_map_to_list.
  - intros (u & a & Hu & _ & Ha)%elem_of_recipients. by eapply Hs.
Qed.

End Recipients.

(** The recipients of a line that is sent to everybody. *)
Lemma iter_all clients : iter clients = filter (fun _ => True) (iter clients).
Proof.
  induction (iter clients) as [|x l IH]; [done|]. rewrite filter_cons. case_decide; [|done]. by rewrite <- IH.
Qed.

(** What a message of the server means: the roster after it, who is sent a
    line, and the line. *)
Definition roster_after (m : ChatMsg) (clients : gmap string Addr) : gmap string Addr :=
  match m with Connect u a => <[u := a]> clients | Disconnect u => delete u clients | _ => clients end.
Definition recipient (m : ChatMsg) (u : string) : bool :=
  match m with
  | Connect _ _ => true
  | Disconnect u' => bool_decide (u <> u')
  | Broadcast from _ => bool_decide (u <> from)
  | SendLine _ => false
  end.
Definition line_of (m : ChatMsg) : string :=
  match m with
  | Connect u _ => joined_line u
  | Disconnect u => left_line u
  | Broadcast from text => said_line from text
  | SendLine line => line
  end.

(** The server handles a message by sending a line to the clients of [cl]
    that pass the test [P]. *)
Lemma server_sends_to (P : string * Addr -> Prop) `{!forall x, Decision (P x)} cl a0
    tid k srv sd clients ctx streams m q line clients' w :
  parked tid k srv sd (ChatServer clients) ctx streams (plain m :: q) w -> ctx_streams ctx = [] ->
  roster_ok srv clients -> cl ⊆ clients ->
  handle (ChatServer clients) (cm m) = send_all a0 (filter P (iter cl)).*2 line (Ret (ChatServer clients') tt) ->
  parked tid k srv sd (ChatServer clients') ctx streams q (poll_task tid w) /\
  (forall u a, clients !! u = Some a -> w_chans (poll_task tid w) !! addr_sender a =
     if decide (is_Some (cl !! u) /\ P (u, a))
     then (fun c => fst (mpsc_try_send c (plain (SendLine line)))) <$> w_chans w !! addr_sender a
     else w_chans w !! addr_sender a) /\
  (forall l, l <> addr_sender srv -> (forall u a, clients !! u = Some a -> addr_sender a <> l) ->
     w_chans (poll_task tid w) !! l = w_chans w !! l) /\
  (forall tid', tid' <> tid -> w_tasks (poll_task tid w) !! tid' = w_tasks w !! tid').
Proof.
  intros Hp Hs Hro Hsub Hh.
  assert (Hcl : roster_ok srv cl).
  { destruct Hro as [R1 R2]. split; eauto using lookup_weaken. }
  destruct (NoDup_recipients P srv cl Hcl) as [Hnd Hsrv].
  destruct (server_sends a0 tid k srv sd clients ctx streams m q _ line clients' w Hp Hs Hh Hnd Hsrv)
    as (H1 & H2 & H3). split_and!; [done| | |done].
  - intros u a Hu. rewrite (H2 _ (ro_srv _ _ Hro _ _ Hu)). apply decide_ext. rewrite elem_of_recipients. split.
    + intros (u' & a' & Hu' & HPu & Ha). pose proof (lookup_weaken _ _ _ _ Hu' Hsub) as Hu''.
      pose proof (ro_inj _ _ Hro _ _ _ _ Hu'' Hu Ha). subst u'. simplify_eq. eauto.
    + intros [[a' Hu'] HPu]. pose proof (lookup_weaken _ _ _ _ Hu' Hsub). simplify_eq. eauto.
  - intros l Hl Hne. rewrite H2 by done. apply decide_False.
    intros (u & a & Hu & _ & Ha)%elem_of_recipients. by apply (Hne u a); [eapply lookup_weaken|].
Qed.

(** One message handled by the server. *)
Lemma server_handles tid k srv sd clients ctx streams m q w :
  parked tid k srv sd (ChatServer clients) ctx streams (plain m :: q) w -> ctx_streams ctx = [] ->
  roster_ok srv clients ->
  parked tid k srv sd (ChatServer (roster_after m clients)) ctx streams q (poll_task tid w) /\
  (forall u a, clients !! u = Some a -> w_chans (poll_task tid w) !! addr_sender a =
     if recipient m u then (fun c => fst (mpsc_try_send c (plain (SendLine (line_of m))))) <$> w_chans w !! addr_sender a
     else w_chans w !! addr_sender a) /\
  (forall l, l <> addr_sender srv -> (forall u a, clients !! u = Some a -> addr_sender a <> l) ->
     w_chans (poll_task tid w) !! l = w_chans w !! l) /\
  (forall tid', tid' <> tid -> w_tasks (poll_task tid w) !! tid' = w_tasks w !! tid').
Proof.
  intros Hp Hs Hro.
  assert (Hall : forall (X Y : option (Chan ActorMessage)) P (HP : Decision P) b,
    (P <-> b = true) -> (if decide P then X else Y) = (if b then X else Y)).
  { intros X Y Q HQ b Hb. destruct b; [rewrite decide_True|rewrite decide_False]; [done|naive_solver..]. }
  destruct m as [u a|u|from text|line]; simpl.
  - destruct (server_sends_to (fun _ => True) clients (ChatServer clients) _ _ _ _ _ _ _ (Connect u a) _
      (joined_line u) (<[u := a]> clients) _ Hp Hs Hro) as (H1 & H2 & H3 & H4); [done| |].
    { simpl. unfold handle_connect, broadcast. by rewrite <- iter_all. }
    split_and!; [done| |done..]. intros u' a' Hu'. rewrite (H2 _ _ Hu'). apply (Hall _ _ _ _ true).
    split; [done|]. intros _. split; [by exists a'|done].
  - destruct (server_sends_to (fun _ => True) (delete u clients) (ChatServer (delete u clients)) _ _ _ _ _ _ _
      (Disconnect u) _ (left_line u) (delete u clients) _ Hp Hs Hro) as (H1 & H2 & H3 & H4); [apply delete_subseteq| |].
    { simpl. unfold handle_disconnect, broadcast. by rewrite <- iter_all. }
    split_and!; [done| |done..]. intros u' a' Hu'. rewrite (H2 _ _ Hu'). apply Hall.
    rewrite bool_decide_eq_true. split.
    + intros [[x [? _]%lookup_delete_Some] _]. congruence.
    + intros Hne. rewrite lookup_delete_ne by done. split; [by exists a'|done].
  - destruct (server_sends_to (fun c => fst c <> from) clients (ChatServer clients) _ _ _ _ _ _ _
      (Broadcast from text) _ (said_line from text) clients _ Hp Hs Hro) as (H1 & H2 & H3 & H4); [done|done|].
    split_and!; [done| |done..]. intros u' a' Hu'. rewrite (H2 _ _ Hu'). apply Hall.
    rewrite bool_decide_eq_true. simpl. split; [by intros [_ ?]|]. intros Hne. split; [by exists a'|done].
  - destruct (server_sends_to (fun _ => False) ∅ (ChatServer clients) _ _ _ _ _ _ _
      (SendLine line) _ line clients _ Hp Hs Hro) as (H1 & H2 & H3 & H4); [apply map_empty_subseteq| |].
    { simpl. assert (iter ∅ = []) as ->; [|done]. apply Permutation_nil_r. rewrite iter_perm.
      by rewrite map_to_list_empty. }
    split_and!; [done| |done..]. intros u' a' Hu'. rewrite (H2 _ _ Hu'). apply (Hall _ _ _ _ false). naive_solver.
Qed.

(** The connections a server is told of have mailboxes of their own. *)
Fixpoint joins_ok (srv : Addr) (clients : gmap string Addr) (ms : list ChatMsg) : Prop :=
  match ms with
  | [] => True
  | m :: ms =>
      match m with
      | Connect u a => addr_sender a <> addr_sender srv /\
          (forall u' a', clients !! u' = Some a' -> u' <> u -> addr_sender a' <> addr_sender a)
      | _ => True
      end /\ joins_ok srv (roster_after m clients) ms
  end.

(** What a client hears of a sequence of messages of the server: every line
    meant for it until it leaves or its name is taken by another connection. *)
Definition leaves (m : ChatMsg) (u : string) : bool :=
  match m with Connect u' _ | Disconnect u' => bool_decide (u' = u) | _ => false end.
Fixpoint heard (u : string) (ms : list ChatMsg) : list string :=
  match ms with
  | [] => []
  | m :: ms => (if recipient m u then [line_of m] else []) ++ (if leaves m u then [] else heard u ms)
  end.

Lemma roster_after_ok srv clients m ms :
  roster_ok srv clients -> joins_ok srv clients (m :: ms) ->
  roster_ok srv (roster_after m clients) /\ joins_ok srv (roster_after m clients) ms.
Proof.
  intros Hro [Hm Hms]. split; [|done].
  destruct m; simpl; auto using roster_ok_delete. destruct Hm. by apply roster_ok_insert.
Qed.

Lemma roster_after_lookup m clients u :
  leaves m u = false -> roster_after m clients !! u = clients !! u.
Proof.
  destruct m; simpl; rewrite ?bool_decide_eq_false; intros H; rewrite ?lookup_insert_ne, ?lookup_delete_ne; done.
Qed.

(** No name of the roster has the mailbox at [l], and none will get it. *)
Definition no_join (l : loc) (ms : list ChatMsg) : Prop :=
  Forall (fun m => match m with Connect _ a => addr_sender a <> l | _ => True end) ms.
Definition stranger (l : loc) (clients : gmap string Addr) (ms : list ChatMsg) : Prop :=
  (forall u a, clients !! u = Some a -> addr_sender a <> l) /\ no_join l ms.

Lemma stranger_after l clients m ms :
  stranger l clients (m :: ms) -> stranger l (roster_after m clients) ms.
Proof.
  intros [Hc [Hm Hms]%Forall_cons]. split; [|done]. intros u a. destruct m; simpl; eauto.
  - rewrite lookup_insert. case_decide; intros; simplify_eq; eauto.
  - intros [_ ?]%lookup_delete_Some. eauto.
Qed.

(** The roster as the specification of who gets what: a line goes to the
    mailbox at [l] if that is the mailbox of a client of the moment that the
    line is meant for. *)
Definition hears (l : loc) (m : ChatMsg) (u : string) (a : Addr) : Prop := addr_sender a = l /\ recipient m u = true.
#[global] Instance hears_dec l m u a : Decision (hears l m u a).
Proof. unfold hears. apply _. Defined.

Fixpoint lines_for (l : loc) (clients : gmap string Addr) (ms : list ChatMsg) : list string :=
  match ms with
  | [] => []
  | m :: ms => (if decide (map_Exists (hears l m) clients) then [line_of m] else []) ++
      lines_for l (roster_after m clients) ms
  end.

Lemma lines_for_app l clients ms ms' :
  lines_for l clients (ms ++ ms') =
    lines_for l clients ms ++ lines_for l (foldl (fun cl m => roster_after m cl) clients ms) ms'.
Proof.
  revert clients. induction ms as [|m ms IH]; intros clients; [done|]. simpl. by rewrite IH, app_assoc.
Qed.

(** A mailbox that is nobody's gets nothing. *)
Lemma hears_none l m (clients : gmap string Addr) :
  (forall u a, clients !! u = Some a -> addr_sender a <> l) -> ~ map_Exists (hears l m) clients.
Proof. intros Hn (u & a & Hu & Ha & _)%map_Exists_lookup_1. by apply (Hn u a). Qed.

Lemma lines_for_stranger l clients ms : stranger l clients ms -> lines_for l clients ms = [].
Proof.
  revert clients. induction ms as [|m ms IH]; intros clients Hstr; [done|]. simpl.
  rewrite decide_False by (apply hears_none, Hstr). by apply IH, stranger_after.
Qed.

Lemma stranger_foldl l clients ms ms' :
  stranger l clients (ms ++ ms') -> stranger l (foldl (fun cl m => roster_after m cl) clients ms) ms'.
Proof.
  revert clients. induction ms as [|m ms IH]; intros clients Hstr; [done|]. by apply IH, stranger_after.
Qed.

(** The mailbox of a client gets the lines meant for its name. *)
Lemma hears_client srv l m (clients : gmap string Addr) u a :
  roster_ok srv clients -> clients !! u = Some a -> addr_sender a = l ->
  map_Exists (hears l m) clients <-> recipient m u = true.
Proof.
  intros Hro Hu Ha. split.
  - intros (u' & a' & Hu' & Ha' & Hm)%map_Exists_lookup_1.
    by rewrite (ro_inj _ _ Hro u u' a a' Hu Hu' ltac:(congruence)).
  - intros Hm. apply map_Exists_lookup_2 with u a; done.
Qed.

(** A client hears what is meant for it until it leaves. *)
Lemma lines_for_client srv clients ms u a :
  roster_ok srv clients -> joins_ok srv clients ms -> clients !! u = Some a -> no_join (addr_sender a) ms ->
  lines_for (addr_sender a) clients ms = heard u ms.
Proof.
  revert clients. induction ms as [|m ms IH]; intros clients Hro Hj Hu Hn; [done|]. cbn [lines_for heard].
  apply Forall_cons in Hn as [Hm Hn]. destruct (roster_after_ok _ _ _ _ Hro Hj) as [Hro1 Hj1]. f_equal.
  - pose proof (hears_client srv _ m clients u a Hro Hu eq_refl). destruct (recipient m u);
      [rewrite decide_True|rewrite decide_False]; naive_solver.
  - destruct (leaves m u) eqn:Hl; [|apply IH; [done..|by rewrite roster_after_lookup|done]].
    apply lines_for_stranger. split; [|done].
    intros u' a' Hu' Heq. destruct m as [v b|v|?|?]; simpl in *; try done;
      apply bool_decide_eq_true in Hl; subst v.
    + rewrite lookup_insert in Hu'. case_decide; simplify_eq.
      pose proof (ro_inj _ _ Hro _ _ _ _ Hu' Hu Heq). congruence.
    + apply lookup_delete_Some in Hu' as [Hne Hu'].
      pose proof (ro_inj _ _ Hro _ _ _ _ Hu' Hu Heq). congruence.
Qed.

Lemma roster_foldl_ok srv clients ms ms' :
  roster_ok srv clients -> joins_ok srv clients (ms ++ ms') ->
  roster_ok srv (foldl (fun cl m => roster_after m cl) clients ms) /\
  joins_ok srv (foldl (fun cl m => roster_after m cl) clients ms) ms'.
Proof.
  revert clients. induction ms as [|m ms IH]; intros clients Hro Hj; [done|].
  destruct (roster_after_ok _ _ _ (ms ++ ms') Hro Hj) as [Hro1 Hj1]. by apply IH.
Qed.

(** ... and so does one that joins, from then on. *)
Lemma lines_for_newcomer srv clients pre u a post :
  roster_ok srv clients -> joins_ok srv clients (pre ++ Connect u a :: post) ->
  stranger (addr_sender a) clients pre -> no_join (addr_sender a) post ->
  lines_for (addr_sender a) clients (pre ++ Connect u a :: post) = heard u post.
Proof.
  intros Hro Hj Hpre Hpost. rewrite lines_for_app, lines_for_stranger by done. cbn [app lines_for].
  destruct (roster_foldl_ok _ _ _ _ Hro Hj) as [Hro1 Hj1].
  assert (Hstr : stranger (addr_sender a) (foldl (fun cl m => roster_after m cl) clients pre) [])
    by (apply stranger_foldl; by rewrite app_nil_r).
  rewrite decide_False by (apply hears_none, Hstr). destruct (roster_after_ok _ _ _ _ Hro1 Hj1) as [Hro2 Hj2].
  apply (lines_for_client srv); [done..|apply lookup_insert_eq|done].
Qed.

(** How many messages a mailbox still takes by [try_send]. *)
Definition spare (c : Chan ActorMessage) : nat := if mpsc_open c then mpsc_avail c else 0.

Lemma try_send_spare c x :
  mpsc_queue (fst (mpsc_try_send c x)) = mpsc_queue c ++ take (spare c) [x] /\
  spare (fst (mpsc_try_send c x)) = pred (spare c).
Proof.
  unfold spare. destruct (mpsc_open c) eqn:Ho.
  - destruct (mpsc_avail c) as [|n] eqn:Ha.
    + rewrite mpsc_try_send_full by done. simpl. by rewrite Ho, app_nil_r.
    + destruct (mpsc_try_send_ok _ c x Ho ltac:(lia)) as (c' & -> & Hq & Ho' & Ha'). simpl. rewrite Hq, Ho', take_nil.
      split; [done|lia].
  - rewrite mpsc_try_send_closed by done. simpl. by rewrite Ho, app_nil_r.
Qed.

(** One message handled by the server, at a mailbox. *)
Lemma server_handles_at tid k srv sd clients ctx streams m q w l :
  parked tid k srv sd (ChatServer clients) ctx streams (plain m :: q) w -> ctx_streams ctx = [] ->
  roster_ok srv clients -> l <> addr_sender srv ->
  w_chans (poll_task tid w) !! l =
    if decide (map_Exists (hears l m) clients)
    then (fun c => fst (mpsc_try_send c (plain (SendLine (line_of m))))) <$> w_chans w !! l else w_chans w !! l.
Proof.
  intros Hp Hs Hro Hl. destruct (server_handles _ _ _ _ _ _ _ _ _ _ Hp Hs Hro) as (_ & H2 & H3 & _).
  destruct (decide (map_Exists (fun _ a => addr_sender a = l) clients)) as [(u & a & Hu & Ha)%map_Exists_lookup_1|Hn].
  - pose proof (hears_client srv l m clients u a Hro Hu Ha) as Hiff. subst l. rewrite (H2 u a Hu).
    destruct (recipient m u); [rewrite decide_True|rewrite decide_False]; naive_solver.
  - assert (Hno : forall u a, clients !! u = Some a -> addr_sender a <> l)
      by (intros u a Hu Ha; apply Hn; by apply map_Exists_lookup_2 with u a).
    rewrite decide_False by (by apply hears_none). by apply H3.
Qed.

(** The queue of the server is handled one poll per message. *)
Lemma server_run ms tid k srv sd clients ctx streams w :
  parked tid k srv sd (ChatServer clients) ctx streams (plain <$> ms) w -> ctx_streams ctx = [] ->
  roster_ok srv clients -> joins_ok srv clients ms ->
  let w' := Nat.iter (length ms) (poll_task tid) w in
  parked tid k srv sd (ChatServer (foldl (fun cl m => roster_after m cl) clients ms)) ctx streams [] w' /\
  forall l c, l <> addr_sender srv -> w_chans w !! l = Some c -> exists c', w_chans w' !! l = Some c' /\
    mpsc_queue c' = mpsc_queue c ++ take (spare c) (plain ∘ SendLine <$> lines_for l clients ms).
Proof.
  intros Hp Hs. revert clients w Hp. induction ms as [|m ms IH]; intros clients w Hp Hro Hj.
  { split; [done|]. intros l c _ Hc. exists c. split; [done|]. simpl. by rewrite take_nil, app_nil_r. }
  cbn [length foldl lines_for]. rewrite Nat.iter_succ_r.
  destruct (server_handles _ _ _ _ _ _ _ _ _ _ Hp Hs Hro) as (Hp1 & _).
  destruct (roster_after_ok _ _ _ _ Hro Hj) as [Hro1 Hj1].
  destruct (IH _ _ Hp1 Hro1 Hj1) as [Hp2 H2]. split; [done|]. intros l c Hl Hc.
  pose proof (server_handles_at _ _ _ _ _ _ _ _ _ _ l Hp Hs Hro Hl) as H1. rewrite Hc in H1.
  destruct (decide (map_Exists (hears l m) clients)); [|by apply H2]. simpl in H1.
  destruct (H2 l _ Hl H1) as (c' & Hc' & Hq'). exists c'. split; [done|].
  destruct (try_send_spare c (plain (SendLine (line_of m)))) as [Hq Hsp]. rewrite Hq', Hq, Hsp.
  rewrite <- app_assoc. f_equal. destruct (spare c); simpl; [done|by rewrite take_nil].
Qed.

(** C19: the chat server refines a roster. A server with the messages [ms] queued
    handles them in order, one per poll: its clients are then those who have
    joined and not left; and every mailbox but its own has got, after what was
    in it, exactly the lines meant for its owner while it was on the roster, in
    order and as far as it is open and has room for them. For a client of the
    start, these are the lines of the others and who joins and leaves, until it
    leaves; for one that joins meanwhile the same from its joining on. The
    addresses on the roster have mailboxes of their own ([roster_ok],
    [joins_ok]), as those of different sessions have. *)
Theorem chat_server_refines_roster (w : World) ms tid k srv sd clients ctx streams :
  parked tid k srv sd (ChatServer clients) ctx streams (plain <$> ms) w -> ctx_streams ctx = [] ->
  roster_ok srv clients -> joins_ok srv clients ms ->
  let w' := Nat.iter (length ms) (poll_task tid) w in
  parked tid k srv sd (ChatServer (foldl (fun cl m => roster_after m cl) clients ms)) ctx streams [] w' /\
  (forall l c, l <> addr_sender srv -> w_chans w !! l = Some c -> exists c', w_chans w' !! l = Some c' /\
     mpsc_queue c' = mpsc_queue c ++ take (spare c) (plain ∘ SendLine <$> lines_for l clients ms)) /\
  (forall u a, clients !! u = Some a -> no_join (addr_sender a) ms ->
     lines_for (addr_sender a) clients ms = heard u ms) /\
  (forall pre u a post, ms = pre ++ Connect u a :: post -> stranger (addr_sender a) clients pre ->
     no_join (addr_sender a) post -> lines_for (addr_sender a) clients ms = heard u post).
Proof.
  intros Hp Hs Hro Hj. destruct (server_run ms _ _ _ _ _ _ _ _ Hp Hs Hro Hj) as [H1 H2]. split_and!; [done|done|..].
  - intros u a Hu Hn. by apply (lines_for_client srv).
  - intros pre u a post -> Hpre Hpost. by apply (lines_for_newcomer srv).
Qed.

(** Who gets a line. When the server handles a [Broadcast], every client but
    the one it comes from gets the line if its mailbox is open and not full,
    the sender gets nothing, no other mailbox is touched, and a client whose
    mailbox is full or closed loses the line without a trace. *)
Theorem broadcast_reaches_the_others (w : World) tid k srv sd clients ctx streams from text q :
  parked tid k srv sd (ChatServer clients) ctx streams (plain (Broadcast from text) :: q) w ->
  ctx_streams ctx = [] -> roster_ok srv clients ->
  let w' := poll_task tid w in
  parked tid k srv sd (ChatServer clients) ctx streams q w' /\
  (forall u a c, clients !! u = Some a -> w_chans w !! addr_sender a = Some c ->
     inbox a w' = Some (mpsc_queue c ++
       (if decide (u <> from) then if room c then [plain (SendLine (said_line from text))] else [] else []))) /\
  (forall l, l <> addr_sender srv -> (forall u a, clients !! u = Some a -> addr_sender a <> l) ->
     w_chans w' !! l = w_chans w !! l).
Proof.
  intros Hp Hs Hro w'. destruct (server_handles _ _ _ _ _ _ _ _ _ _ Hp Hs Hro) as (H1 & H2 & H3 & _).
  split; [exact H1|]. split; [|exact H3]. intros u a c Hu Hc. unfold inbox, w'. rewrite (H2 _ _ Hu), Hc. simpl.
  case_bool_decide as Hne.
  - simpl. rewrite try_send_queue. by rewrite decide_True.
  - simpl. rewrite decide_False by tauto. by rewrite app_nil_r.
Qed.

(** ** Sessions *)

(** A session that reads a line passes it to the server. *)
Lemma session_reads tid k addr sd s ctx strm strm' text w cs :
  parked tid k addr sd (ClientSession s) ctx [strm] [] w -> ctx_streams ctx = [] ->
  snd (recv_mailbox addr w) = Pending -> lines_poll_next strm = (strm', Ready (Some (Ok text))) ->
  trim text <> EmptyString -> addr_sender (server s) <> addr_sender addr ->
  w_chans w !! addr_sender (server s) = Some cs ->
  parked tid k addr sd (ClientSession s) ctx [strm'] [] (poll_task tid w) /\
  w_chans (poll_task tid w) !! addr_sender (server s) =
    Some (fst (mpsc_try_send cs (plain (Broadcast (username s) (trim text))))) /\
  (forall l, l <> addr_sender (server s) -> l <> addr_sender addr ->
     w_chans (poll_task tid w) !! l = w_chans w !! l) /\
  (forall tid', tid' <> tid -> w_tasks (poll_task tid w) !! tid' = w_tasks w !! tid').
Proof.
  intros Hp Hs Hpend Hstr Htrim Hne Hcs.
  destruct (poll_runs_item _ _ _ _ _ _ _ _ _ _ Hp Hpend Hstr) as (c & Hq & Hrun).
  set (w0 := set_chans (<[addr_sender addr := c]> (w_chans w)) w) in *.
  set (m := cm (Broadcast (username s) (trim text))).
  assert (Hrun0 : run (stream_handle (ClientSession s) (Ok text)) ctx w0 =
    (ClientSession s, Some tt, ctx, fst (try_send (server s) m w0))).
  { simpl. unfold session_item. rewrite decide_False by done. simpl. by destruct (try_send _ _ w0). }
  rewrite (Hrun _ _ _ _ Hrun0). clear Hrun Hrun0. rewrite try_send_world.
  assert (Hc0 : w_chans w0 !! addr_sender (server s) = Some cs)
    by (unfold w0; simpl; by rewrite lookup_insert_ne by congruence).
  rewrite Hc0. split.
  - apply loop_head_parked; [done|]. unfold inbox, w0. simpl.
    rewrite lookup_insert_ne, lookup_insert_eq by done. simpl. by rewrite Hq.
  - unfold loop_head, w0. simpl. split_and!.
    + by rewrite lookup_insert_eq.
    + intros l Hl1 Hl2. by rewrite !lookup_insert_ne by done.
    + intros tid' Hne'. by rewrite lookup_insert_ne by done.
Qed.

(** A session writes the lines it is sent. *)
Lemma session_writes tid k addr sd s ctx streams line q w :
  parked tid k addr sd (ClientSession s) ctx streams (plain (SendLine line) :: q) w -> ctx_streams ctx = [] ->
  parked tid k addr sd
    (ClientSession (mkSession (username s) (server s) (writer_tx s ++ [line]) (lines_stream s)))
    ctx streams q (poll_task tid w).
Proof.
  intros Hp Hs. destruct (poll_runs_head _ _ _ _ _ _ _ _ _ _ Hp) as (c & Hq & Hrun).
  rewrite (Hrun _ tt ctx (received tid addr sd c w) eq_refl). apply loop_head_parked; [done|].
  unfold inbox, received. simpl. rewrite lookup_insert_eq. simpl. by rewrite Hq.
Qed.

(** C18: a line travels from one terminal to another: when a user has typed a line
    that is not blank, then after a poll of its session, of the server and of
    another user's session, that session has handed the line, with the name of
    the first user and without the white space around it, to its writer. The
    mailboxes of the server and of the second session must have room. *)
Theorem line_reaches_another_user (w : World) srv clients u
    ta ka addra sda sa ctxa strm strm' text ts ks sds ctxs ss cs tb kb addrb sdb sb ctxb ssb cb :
  parked ta ka addra sda (ClientSession sa) ctxa [strm] [] w -> ctx_streams ctxa = [] ->
  snd (recv_mailbox addra w) = Pending -> lines_poll_next strm = (strm', Ready (Some (Ok text))) ->
  trim text <> EmptyString -> server sa = srv ->
  parked ts ks srv sds (ChatServer clients) ctxs ss [] w -> ctx_streams ctxs = [] -> roster_ok srv clients ->
  parked tb kb addrb sdb (ClientSession sb) ctxb ssb [] w -> ctx_streams ctxb = [] ->
  clients !! u = Some addrb -> u <> username sa ->
  addr_sender addra <> addr_sender srv -> addr_sender addra <> addr_sender addrb ->
  w_chans w !! addr_sender srv = Some cs -> room cs = true ->
  w_chans w !! addr_sender addrb = Some cb -> room cb = true ->
  let w' := exec_all [LPoll ta; LPoll ts; LPoll tb] w in
  parked tb kb addrb sdb
    (ClientSession (mkSession (username sb) (server sb)
       (writer_tx sb ++ [said_line (username sa) (trim text)]) (lines_stream sb))) ctxb ssb [] w'.
Proof.
  intros Hpa Hsa Hpend Hstr Htrim <- Hps Hss Hro Hpb Hsb Hu Hne Hna Hnb Hcs Hrs Hcb Hrb.
  assert (Hsrvb : addr_sender addrb <> addr_sender (server sa)) by (by apply (ro_srv _ _ Hro _ _ Hu)).
  assert (Hd1 : ts <> ta) by (intros ->; destruct Hpa, Hps; congruence).
  assert (Hd2 : tb <> ta).
  { intros ->. destruct Hpa as [H1 _], Hpb as [H2 _]. rewrite H1 in H2. simplify_eq. }
  assert (Hd3 : tb <> ts) by (intros ->; destruct Hpb, Hps; congruence).
  assert (Hqs : mpsc_queue cs = []) by (destruct Hps as [_ H]; rewrite Hcs in H; by injection H).
  assert (Hqb : mpsc_queue cb = []) by (destruct Hpb as [_ H]; rewrite Hcb in H; by injection H).
  destruct (session_reads _ _ _ _ _ _ _ _ _ _ _ Hpa Hsa Hpend Hstr Htrim (not_eq_sym Hna) Hcs)
    as (_ & Hc1 & Ho1 & Ht1).
  unfold exec_all. cbn [foldl exec]. set (w1 := poll_task ta w) in *.
  assert (Hps1 : parked ts ks (server sa) sds (ChatServer clients) ctxs ss
    (plain (Broadcast (username sa) (trim text)) :: []) w1).
  { split; [rewrite (Ht1 ts) by done; apply Hps|]. rewrite Hc1. simpl. rewrite try_send_queue, Hqs, Hrs. done. }
  destruct (server_handles _ _ _ _ _ _ _ _ _ _ Hps1 Hss Hro) as (_ & Hin & _ & Ht2).
  set (w2 := poll_task ts w1) in *.
  apply session_writes; [|done]. split.
  - rewrite Ht2, Ht1 by done. apply Hpb.
  - rewrite (Hin _ _ Hu), (Ho1 _ Hsrvb (not_eq_sym Hnb)), Hcb. simpl. rewrite bool_decide_true by done. simpl.
    by rewrite try_send_queue, Hqb, Hrb.
Qed.

(** A session whose connection closes leaves the chat: its task ends, its
    mailbox is closed and the server is told that the user has left, unless
    the mailbox of the server is full: then the server keeps the name, and
    what it sends to it is lost. *)
Theorem session_leaves (w : World) tid actor ctx0 addr sd s ctx strm strm' cs :
  reachable w -> parked tid (KRoot actor ctx0) addr sd (ClientSession s) ctx [strm] [] w ->
  snd (recv_mailbox addr w) = Pending -> lines_poll_next strm = (strm', Ready None) ->
  ctx_stop_signal ctx = Some (addr_stop_signal addr) -> watchers_at w (addr_watchers addr) = [] ->
  addr_sender (server s) <> addr_sender addr -> w_chans w !! addr_sender (server s) = Some cs ->
  let w' := poll_task tid w in
  w_tasks w' !! tid = Some (TActor (KRoot actor ctx0) addr sd PDone) /\ is_alive addr w' = false /\
  inbox (server s) w' = Some (mpsc_queue cs ++ (if room cs then [plain (Disconnect (username s))] else [])).
Proof.
  intros Hr Hp Hpend Hstr Hstop Hwat Hne Hcs. pose proof (reachable_wf _ Hr) as Hw.
  pose proof (poll_task_wf tid _ Hw) as Hw'.
  destruct (poll_runs_finished _ _ _ _ _ _ _ _ _ Hp Hpend Hstr) as (c & Hq & Hrun).
  set (w0 := set_chans (<[addr_sender addr := c]> (w_chans w)) w) in *.
  destruct (Hrun (ClientSession s) tt ctx (notify_one (addr_stop_signal addr) w0))
    as (w2 & E & Hc2 & Hwa2).
  { simpl. unfold ctx_stop. by rewrite Hstop. }
  { unfold signal_at, notify_one. simpl. rewrite lookup_insert_eq. apply signal_notify_one_permit. }
  rewrite E in *. simpl in *. unfold root_exit in *.
  rewrite run_notify_watchers_none in * by (unfold watchers_at in *; by rewrite Hwa2).
  set (w3 := stop_children ctx _) in *. unfold run_stopped in *. simpl in *.
  destruct (try_send (server s) _ _) as [w4 r4] eqn:Hsend. simpl in *.
  assert (Hc4 : w_chans w4 !! addr_sender (server s) =
    Some (fst (mpsc_try_send cs (plain (Disconnect (username s)))))).
  { replace w4 with (fst (w4, r4)) by done. rewrite <- Hsend, try_send_world. simpl.
    unfold w3. rewrite stop_children_chans. simpl. rewrite Hc2. unfold w0. simpl.
    rewrite lookup_insert_ne by congruence. rewrite Hcs. simpl. by rewrite lookup_insert_eq. }
  assert (Ht : w_tasks (end_task tid (KRoot actor ctx0) addr sd PDone w4) !! tid =
    Some (TActor (KRoot actor ctx0) addr sd PDone)) by (simpl; by rewrite lookup_insert_eq).
  split_and!; [done| |].
  - by rewrite (is_alive_live _ _ _ _ _ _ Hw' Ht).
  - unfold inbox. rewrite end_task_chans by done. rewrite Hc4. simpl. by rewrite try_send_queue.
Qed.

(** A session that starts attaches its lines and asks to be registered. *)
Theorem session_joins (w : World) tid addr sd s ctx strm cs :
  reachable w -> w_tasks w !! tid = Some (TActor (KRoot (ClientSession s) ctx) addr sd PSpawned) ->
  lines_stream s = Some strm -> ctx_streams ctx = [] ->
  addr_sender (server s) <> addr_sender addr -> w_chans w !! addr_sender (server s) = Some cs ->
  let w' := poll_task tid w in
  w_tasks w' !! tid = Some (TActor (KRoot (ClientSession s) ctx) addr sd
    (PSelect (ClientSession (mkSession (username s) (server s) (writer_tx s) None)) ctx [strm])) /\
  inbox (server s) w' = Some (mpsc_queue cs ++ (if room cs then [plain (Connect (username s) addr)] else [])).
Proof.
  intros Hr Ht Hl Hs Hne Hcs. pose proof (reachable_wf _ Hr) as Hw.
  destruct (wf_actor _ Hw _ _ _ _ _ Ht) as [_ _ _ Hctx]. destruct (Hctx ctx eq_refl) as [Hself _].
  unfold poll_task. rewrite Ht. simpl. unfold root_start, run_started. simpl. unfold session_started.
  rewrite Hl. simpl. rewrite Hself.
  destruct (try_send (server s) _ _) as [w1 r1] eqn:Hsend. simpl. unfold loop_head, take_streams. simpl.
  rewrite Hs. simpl. rewrite lookup_insert_eq. split.
  - destruct ctx. simpl in *. by subst.
  - replace w1 with (fst (w1, r1)) by done. rewrite <- Hsend, try_send_world. simpl. rewrite Hcs.
    unfold inbox. simpl. rewrite lookup_insert_eq. simpl. by rewrite try_send_queue.
Qed.

(** ** The start of [main] *)

(** [main] starts whatever [bind] gives, and once the chat server's task has
    been polled the server waits for its first message with nobody in the room. *)
Lemma chat_starts {E} (bind : Result unit E) w :
  wf w -> exists w' system server k ctx,
    start_chat bind w = Some (w', system, server, (let? _ := bind in Ok 0%Z)%rust) /\
    idle_at (pred (w_fresh w')) k server (sys_shutdown system) ctx (ChatServer ∅) (exec (LPoll (pred (w_fresh w'))) w').
Proof.
  intros Hw. unfold start_chat.
  destruct (new_system_spawn (B := chat_behaviour) (ChatServer ∅) (ChatServer ∅) w Hw eq_refl)
    as (w1 & system & w' & server & k & ctx & -> & -> & _ & Hid). by exists w', system, server, k, ctx.
Qed.

(** ** The accept loop *)

Fixpoint accept_all (sys : ActorSystem) (srv : Addr) (counter : Z) (conns : list LS) (w : World)
  : option (World * Z * list string) :=
  match conns with
  | [] => Some (w, counter, [])
  | lines :: conns =>
      match accept sys srv counter lines w with
      | Some (w, counter, name, _) =>
          match accept_all sys srv counter conns w with
          | Some (w, counter, names) => Some (w, counter, name :: names)
          | None => None
          end
      | None => None
      end
  end.

(** The connections accepted before the counter overflows get names that are
    pairwise different: no session can take the place of another. *)
Theorem accepted_names_distinct (w w' : World) sys srv counter conns counter' names :
  (0 <= counter)%Z -> accept_all sys srv counter conns w = Some (w', counter', names) ->
  NoDup names /\ counter' = (counter + Z.of_nat (length conns))%Z /\ (counter' <= counter \/ counter' < 2 ^ 32)%Z.
Proof.
  intros Hc H.
  assert (G : NoDup names /\ counter' = (counter + Z.of_nat (length conns))%Z /\
    (counter' <= counter \/ counter' < 2 ^ 32)%Z /\
    Forall (fun n => exists i, (counter < i)%Z /\ n = "user" +:+ show_unsigned i) names); [|naive_solver].
  revert counter w names Hc H. induction conns as [|ls conns IH]; intros counter w names Hc H; simpl in H.
  { simplify_eq. split_and!; [constructor|simpl; lia|left; lia|constructor]. }
  destruct (accept sys srv counter ls w) as [[[[w1 c1] name] a]|] eqn:Ha; [|done].
  unfold accept in Ha. case_decide as Hlt; [|done]. destruct (spawn _ _ _) as [[w2 a2]|]; [|done].
  injection Ha as <- <- <- <-.
  destruct (accept_all sys srv (counter + 1) conns w2) as [[[w3 c3] names3]|] eqn:Hrest; [|done].
  simplify_eq. destruct (IH (counter + 1)%Z _ _ ltac:(lia) Hrest) as (Hnd & -> & Hov & Hall).
  split_and!.
  - constructor; [|done]. intros Hin. rewrite Forall_forall in Hall.
    destruct (Hall _ Hin) as (i & Hi & Heq). apply (inj (String.app "user")) in Heq.
    apply show_unsigned_inj in Heq; lia.
  - simpl length. lia.
  - simpl length in *. lia.
  - constructor; [exists (counter + 1)%Z; split; [lia|done]|]. eapply Forall_impl; [exact Hall|].
    intros n (i & Hi & ->). exists i. split; [lia|done].
Qed.

End Facts.

(** ** Witnesses *)

(** Two users are connected; [user1] has typed a line, [user2] will hang up. *)
Module ChatDemo.

#[local] Instance script_lines : Lines :=
  {| LS := list (Poll (option (Result string string)));
     lines_poll_next := fun s => match s with [] => ([], Pending) | p :: s => (s, p) end |}.
#[local] Instance script_order : IterOrder := map_to_list.
#[local] Instance script_order_laws : IterOrderLaws script_order.
Proof. by intros m. Qed.

Definition chat : ActorSystem := mkSystem 0 1.
Definition srv : Addr := mkAddr 2 1%Z 4 3.
Definition a1 : Addr := mkAddr 7 2%Z 9 8.
Definition a2 : Addr := mkAddr 12 3%Z 14 13.
Definition session (name : string) (l : LS) : St := ClientSession (mkSession name srv [] (Some l)).
Definition opened : World := exec_all [LNewSystem; LSpawn chat (ChatServer ∅) 256; LPoll 6] world0.
Definition connected : World :=
  exec_all
    [LSpawn chat (session "user1" [Ready (Some (Ok " hello "))]) 256; LSpawn chat (session "user2" [Ready None]) 256;
     LPoll 11; LPoll 6; LPoll 16; LPoll 6; LPoll 11] opened.
Definition roster : gmap string Addr := <["user2" := a2]> {["user1" := a1]}.
Definition ctx_of (a : Addr) (esc : nat) : Context := mkCtx a (Some (addr_stop_signal a)) 0 [] esc [].
Definition server_kind : Kind := KRoot (Y := chat_sys) (ChatServer ∅) (ctx_of srv 5).
Definition session_kind (name : string) (l : LS) (a : Addr) (esc : nat) : Kind :=
  KRoot (Y := chat_sys) (session name l) (ctx_of a esc).
Definition logged (name : string) (lines : list string) : St := ClientSession (mkSession name srv lines None).
Definition joined2 : list string := [joined_line "user2"].

Lemma connected_reachable : reachable connected.
Proof. do 2 apply reachable_exec_all. apply reachable_world0. Qed.

Lemma roster_is_ok : roster_ok srv roster.
Proof.
  apply roster_ok_insert; [apply (roster_ok_insert srv ∅); [split; intros *; by rewrite lookup_empty|done|]|done|].
  - intros *. by rewrite lookup_empty.
  - intros u a [_ <-]%lookup_singleton_Some. done.
Qed.

(** A line said by the second user, the arrival of a third and the departure of
    the second are queued. *)
Definition a3 : Addr := mkAddr 17 4%Z 19 18.
Definition queued : list ChatMsg := [Broadcast "user2" "hi"; Connect "user3" a3; Disconnect "user2"].
Definition busy : World :=
  exec_all (LSpawn chat (session "user3" []) 256 :: ((fun m => LTrySend srv (cm m) false) <$> queued)) connected.

Lemma chat_server_refines_roster_witness :
  let w' := Nat.iter 3 (poll_task 6) busy in
  inbox a1 w' = Some (plain ∘ SendLine <$> [said_line "user2" "hi"; joined_line "user3"; left_line "user2"]) /\
  inbox a2 w' = Some [plain (SendLine (joined_line "user3"))] /\
  inbox a3 w' = Some [plain (SendLine (left_line "user2"))].
Proof.
  destruct (chat_server_refines_roster busy queued 6 server_kind srv 0 roster (ctx_of srv 5) []) as (_ & H & H1 & H2).
  - split; vm_compute; reflexivity.
  - reflexivity.
  - apply roster_is_ok.
  - split; [done|]. split; [|done]. split; [done|]. simpl.
    intros u a Hu _. unfold roster in Hu. apply lookup_insert_Some in Hu as [[_ <-]|[_ [_ <-]%lookup_singleton_Some]]; done.
  - assert (Hbox : forall a, addr_sender a <> addr_sender srv ->
      w_chans busy !! addr_sender a = Some (Ref.mkChan 256 [] true) ->
      inbox a (Nat.iter 3 (poll_task 6) busy) =
        Some (take 256 (plain ∘ SendLine <$> lines_for (addr_sender a) roster queued))).
    { intros a Ha Hc. destruct (H _ _ Ha Hc) as (c' & Hc' & Hq). simpl length in Hc'.
      transitivity (Some (mpsc_queue c')); [unfold inbox; by rewrite Hc'|by rewrite Hq]. }
    assert (Hno : forall a, addr_sender a <> addr_sender a3 -> no_join (addr_sender a) queued)
      by (intros a Ha; repeat constructor; done).
    split_and!.
    + rewrite Hbox; [|done|vm_compute; reflexivity]. by rewrite (H1 "user1" a1 eq_refl (Hno a1 ltac:(done))).
    + rewrite Hbox; [|done|vm_compute; reflexivity]. by rewrite (H1 "user2" a2 eq_refl (Hno a2 ltac:(done))).
    + rewrite Hbox; [|done|vm_compute; reflexivity].
      rewrite (H2 [Broadcast "user2" "hi"] "user3" a3 [Disconnect "user2"] eq_refl); [done| |by repeat constructor].
      split; [|by repeat constructor]. intros u a Hu.
      unfold roster in Hu. apply lookup_insert_Some in Hu as [[_ <-]|[_ [_ <-]%lookup_singleton_Some]]; done.
Defined.

Definition spoken : World := exec_all [LTrySend srv (cm (Broadcast "user1" "hi")) false] connected.

Lemma broadcast_reaches_the_others_witness :
  inbox a2 (poll_task 6 spoken) = Some [plain (SendLine (said_line "user1" "hi"))] /\
  inbox a1 (poll_task 6 spoken) = Some [].
Proof.
  destruct (broadcast_reaches_the_others spoken 6 server_kind srv 0 roster (ctx_of srv 5) []
    "user1" "hi" []) as (_ & H & _).
  - split; vm_compute; reflexivity.
  - reflexivity.
  - apply roster_is_ok.
  - split.
    + rewrite (H "user2" a2 (Ref.mkChan 256 [] true)); [reflexivity|reflexivity|vm_compute; reflexivity].
    + rewrite (H "user1" a1 (Ref.mkChan 256 [] true)); [reflexivity|reflexivity|vm_compute; reflexivity].
Defined.

Lemma line_reaches_another_user_witness :
  exists k sd ctx ss, parked 16 k a2 sd (logged "user2" [said_line "user1" "hello"]) ctx ss []
    (exec_all [LPoll 11; LPoll 6; LPoll 16] connected).
Proof.
  do 4 eexists.
  apply (line_reaches_another_user connected srv roster "user2" 11 (session_kind "user1" [Ready (Some (Ok " hello "))] a1 10) a1 0 (mkSession "user1" srv joined2 None) (ctx_of a1 10) [Ready (Some (Ok " hello "))] [] " hello "
    6 server_kind 0 (ctx_of srv 5) [] (Ref.mkChan 256 [] true)
    16 (session_kind "user2" [Ready None] a2 15) a2 0 (mkSession "user2" srv [] None) (ctx_of a2 15)
    [[Ready None]] (Ref.mkChan 256 [] true));
    try apply roster_is_ok; try (split; vm_compute; reflexivity); try (vm_compute; reflexivity); done.
Defined.

Lemma session_leaves_witness :
  is_alive a2 (poll_task 16 connected) = false /\
  inbox srv (poll_task 16 connected) = Some [plain (Disconnect "user2")].
Proof.
  refine (proj2 (session_leaves connected 16 (session "user2" [Ready None]) (ctx_of a2 15) a2 0
    (mkSession "user2" srv [] None) (ctx_of a2 15) [Ready None] [] (Ref.mkChan 256 [] true) _ _ _ _ _ _ _ _)).
  - apply connected_reachable.
  - split; vm_compute; reflexivity.
  - vm_compute. reflexivity.
  - reflexivity.
  - reflexivity.
  - vm_compute. reflexivity.
  - done.
  - vm_compute. reflexivity.
Defined.

Definition fresh_user : World := exec_all [LSpawn chat (session "user3" []) 256] connected.

Lemma session_joins_witness :
  inbox srv (poll_task 21 fresh_user) = Some [plain (Connect "user3" (mkAddr 17 4%Z 19 18))].
Proof.
  refine (proj2 (session_joins fresh_user 21 (mkAddr 17 4%Z 19 18) 0 (mkSession "user3" srv [] (Some []))
    (mkCtx (mkAddr 17 4%Z 19 18) (Some 18) 0 [] 20 []) [] (Ref.mkChan 256 [] true) _ _ _ _ _ _)).
  - apply reachable_exec_all, connected_reachable.
  - vm_compute. reflexivity.
  - reflexivity.
  - reflexivity.
  - done.
  - vm_compute. reflexivity.
Defined.

Definition three : list LS := [[]; []; []].

Lemma accepted_names_distinct_witness : NoDup ["user1"; "user2"; "user3"].
Proof.
  assert (E : snd <$> accept_all chat srv 0 three opened = Some ["user1"; "user2"; "user3"])
    by (vm_compute; reflexivity).
  destruct (accept_all chat srv 0 three opened) as [[[w' c'] names]|] eqn:H; [|discriminate].
  injection E as <-. apply (accepted_names_distinct opened w' chat srv 0 three c' names ltac:(lia) H).
Defined.

End ChatDemo.
