(* ===== verification/Wire.v ===== *)
(** * Wire: envelopes, protobuf and the TCP codec

    The messages of proto/messages.proto as records, [Envelope::from_message],
    [to_bytes] and [from_bytes] of src/remote/mod.rs, the errors of
    src/remote/transport.rs and the length-prefixed codec of src/remote/tcp.rs.
    The [encode] and [decode] functions of the protobuf messages are generated
    by the prost crate: they are the class [Prost], with what the crate
    documents as [ProstLaws]; [Ref] gives an instance. *)

From S2P Require Import Prelude.

(** Bytes are numbers from 0 to 255. *)
Abbreviation bytes := (list Z) (only parsing).

(** ** proto/messages.proto *)

Record Envelope := mkEnvelope {
  message_type : string;
  payload : bytes;
  correlation_id : Z;          (** [uint64] *)
  sender_node : string;
  target_actor : string;
  is_response : bool;
}.

Record NodeInfo := mkNodeInfo {
  ni_id : string;
  ni_addr : string;
  ni_status : Z;               (** an enumeration, an [i32] on the Rust side *)
}.

Record ActorLocation := mkActorLocation {
  al_actor_id : string;
  al_node_id : string;
  al_actor_type : string;
}.

Record GossipMessage := mkGossip { g_members : list NodeInfo; g_actors : list ActorLocation }.

(** [ClusterMessage]: the [oneof], or nothing when the field is absent. *)
Inductive ClusterMessage :=
| CMEnvelope (e : Envelope)
| CMGossip (g : GossipMessage)
| CMNone.

#[export] Instance Envelope_eq_dec : EqDecision Envelope.
Proof. solve_decision. Defined.
#[export] Instance NodeInfo_eq_dec : EqDecision NodeInfo.
Proof. solve_decision. Defined.
#[export] Instance ActorLocation_eq_dec : EqDecision ActorLocation.
Proof. solve_decision. Defined.
#[export] Instance GossipMessage_eq_dec : EqDecision GossipMessage.
Proof. solve_decision. Defined.
#[export] Instance ClusterMessage_eq_dec : EqDecision ClusterMessage.
Proof. solve_decision. Defined.

(** ** src/remote/transport.rs *)

(** The kinds of [std::io::Error] the code makes or meets. *)
Inductive IoErrorKind :=
| NotFound
| InvalidData
| OtherIo.

Inductive TransportError :=
| TIo (k : IoErrorKind)
| TDecode
| TDisconnected
| TTimeout.

#[export] Instance IoErrorKind_eq_dec : EqDecision IoErrorKind.
Proof. solve_decision. Defined.
#[export] Instance TransportError_eq_dec : EqDecision TransportError.
Proof. solve_decision. Defined.

(** [prost::DecodeError], which the code only passes on or drops. *)
Inductive DecodeError := mkDecodeError (description : string).

(** ** The generated protobuf code *)

(** [encode] writes to a growing buffer: [None] is its capacity error. *)
Class Prost := {
  Envelope_encode : Envelope -> option bytes;
  Envelope_decode : bytes -> Result Envelope DecodeError;
  ClusterMessage_encode : ClusterMessage -> option bytes;
  ClusterMessage_decode : bytes -> Result ClusterMessage DecodeError;
}.

Definition envelope_ok (e : Envelope) : Prop := (0 <= correlation_id e < 2 ^ 64)%Z.

Definition cluster_message_ok (m : ClusterMessage) : Prop :=
  match m with
  | CMEnvelope e => envelope_ok e
  | CMGossip g => Forall (fun n => (- 2 ^ 31 <= ni_status n < 2 ^ 31)%Z) (g_members g)
  | CMNone => True
  end.

(** What was encoded decodes to the same message. The strings stand for those
    of Rust, which are valid UTF-8, and the elements of a payload for bytes,
    0 to 255: the laws are used for messages that the code can have. *)
Class ProstLaws (P : Prost) : Prop := {
  Envelope_round_trip e : envelope_ok e ->
    exists bs, Envelope_encode e = Some bs /\ Envelope_decode bs = Ok e;
  ClusterMessage_round_trip m : cluster_message_ok m ->
    exists bs, ClusterMessage_encode m = Some bs /\ ClusterMessage_decode bs = Ok m;
}.

(** A message type that can cross the network ([trait RemoteMessage] of
    src/remote/mod.rs): [type_id] is the Rust type name, [encode] and [decode]
    come from its protobuf definition. *)
Class RemoteMessage (M : Type) := {
  type_id : string;
  msg_encode : M -> option bytes;
  msg_decode : bytes -> Result M DecodeError;
}.
Arguments type_id M {_}.

Class RemoteMessageLaws (M : Type) {R : RemoteMessage M} : Prop := {
  msg_round_trip (m : M) : exists bs, msg_encode m = Some bs /\ msg_decode bs = Ok m;
}.

Section Wire.
Context {P : Prost}.

(** ** src/remote/mod.rs *)

(** [from_message]; [None] is the panic of [expect("encode failed")]. *)
Definition Envelope_from_message {M} `{!RemoteMessage M} (msg : M) (cid : Z) (sender target : string)
  : option Envelope :=
  match msg_encode msg with
  | Some payload => Some (mkEnvelope (type_id M) payload cid sender target false)
  | None => None
  end.

Definition Envelope_to_bytes (e : Envelope) : option bytes := Envelope_encode e.
Definition Envelope_from_bytes (data : bytes) : Result Envelope DecodeError := Envelope_decode data.

(** ** src/remote/tcp.rs *)

(** [BufMut::put_u32]: big-endian. *)
Definition put_u32 (n : Z) : bytes :=
  [Z.land (Z.shiftr n 24) 255; Z.land (Z.shiftr n 16) 255; Z.land (Z.shiftr n 8) 255; Z.land n 255].

(** [u32::from_be_bytes]. *)
Definition u32_from_be_bytes (b0 b1 b2 b3 : Z) : Z :=
  Z.lor (Z.shiftl b0 24) (Z.lor (Z.shiftl b1 16) (Z.lor (Z.shiftl b2 8) b3)).

(** [EnvelopeCodec::decode]: the result and what is left in the buffer. *)
Definition decode (src : bytes) : Result (option Envelope) IoErrorKind * bytes :=
  match src with
  | b0 :: b1 :: b2 :: b3 :: body =>
      let len := Z.to_nat (u32_from_be_bytes b0 b1 b2 b3) in
      if decide (length src < 4 + len) then (Ok None, src)
      else
        let payload := take len body in
        let src := drop len body in
        match Envelope_decode payload with
        | Ok envelope => (Ok (Some envelope), src)
        | Err _ => (Err InvalidData, src)
        end
  | _ => (Ok None, src)
  end.

(** [EnvelopeCodec::encode]; [None] is the panic of [to_bytes]. *)
Definition encode (item : Envelope) (dst : bytes) : option bytes :=
  match Envelope_to_bytes item with
  | Some payload =>
      let len := u32_wrap (Z.of_nat (length payload)) in
      Some (dst ++ put_u32 len ++ payload)
  | None => None
  end.

(** The bytes of several envelopes sent one after the other. *)
Fixpoint encode_all (items : list Envelope) (dst : bytes) : option bytes :=
  match items with
  | [] => Some dst
  | e :: items => match encode e dst with Some dst => encode_all items dst | None => None end
  end.

(** What a reader of the stream does with a buffer: decode until the codec
    asks for more bytes, or fails. A decoded envelope takes 4 bytes at least,
    so the length of the buffer is enough fuel. *)
Fixpoint drain (fuel : nat) (src : bytes) : list (Result Envelope IoErrorKind) * bytes :=
  match fuel with
  | 0 => ([], src)
  | S fuel =>
      match decode src with
      | (Ok (Some e), src) => let '(es, src) := drain fuel src in (Ok e :: es, src)
      | (Ok None, src) => ([], src)
      | (Err k, src) => ([Err k], src)
      end
  end.

(** The bytes arrive in chunks of any size; each is put behind what is left. *)
Fixpoint receive (buf : bytes) (chunks : list bytes) : list (Result Envelope IoErrorKind) * bytes :=
  match chunks with
  | [] => ([], buf)
  | c :: chunks =>
      let '(es, buf) := drain (S (length (buf ++ c))) (buf ++ c) in
      let '(es', buf) := receive buf chunks in (es ++ es', buf)
  end.

End Wire.

(** ** Facts about the codec *)

Section Codec.
Context {P : Prost} {PL : ProstLaws P}.

Lemma be_bytes_put n :
  (0 <= n < 2 ^ 32)%Z ->
  u32_from_be_bytes (Z.land (Z.shiftr n 24) 255) (Z.land (Z.shiftr n 16) 255)
    (Z.land (Z.shiftr n 8) 255) (Z.land n 255) = n.
Proof.
  intros Hn. unfold u32_from_be_bytes. apply Z.bits_inj'. intros i Hi.
  rewrite !Z.lor_spec. rewrite !Z.shiftl_spec by lia. rewrite !Z.land_spec.
  assert (H255 : forall j, Z.testbit 255 j = bool_decide (0 <= j < 8)%Z).
  { intros j. change 255%Z with (Z.ones 8). case_bool_decide.
    - by apply Z.ones_spec_low.
    - destruct (Z.lt_ge_cases j 0); [by apply Z.testbit_neg_r|]. apply Z.ones_spec_high. lia. }
  rewrite !H255.
  assert (Hhigh : (32 <= i)%Z -> Z.testbit n i = false).
  { intros. destruct (decide (n = 0)%Z) as [->|]; [by apply Z.testbit_0_l|].
    apply Z.bits_above_log2; [lia|]. apply Z.log2_lt_pow2; [lia|].
    apply Z.lt_le_trans with (2 ^ 32)%Z; [lia|]. apply Z.pow_le_mono_r; lia. }
  assert (Hs : forall k, (0 <= k)%Z ->
    (Z.testbit (Z.shiftr n k) (i - k) && bool_decide (0 <= i - k < 8))%bool%Z =
    (Z.testbit n i && bool_decide (k <= i < k + 8))%bool%Z).
  { intros k Hk. case_bool_decide as H1; case_bool_decide as H2; try lia.
    rewrite Z.shiftr_spec by lia. do 2 f_equal. lia. }
  rewrite !Hs by lia. destruct (decide (32 <= i)%Z) as [Hi32|Hi32].
  - rewrite (Hhigh Hi32). simpl. done.
  - destruct (Z.testbit n i); simpl; [|done]. repeat case_bool_decide; simpl; try done; lia.
Qed.

Lemma length_put_u32 n : length (put_u32 n) = 4.
Proof. done. Qed.

(** A frame: the bytes [encode] appends. *)
Definition frame_of (payload : bytes) : bytes := put_u32 (Z.of_nat (length payload)) ++ payload.

Lemma decode_frame pl rest :
  (Z.of_nat (length pl) < 2 ^ 32)%Z ->
  decode (frame_of pl ++ rest) =
    (match Envelope_decode pl with Ok e => Ok (Some e) | Err _ => Err InvalidData end, rest).
Proof.
  intros Hl. unfold decode, frame_of, put_u32. cbn [app length].
  rewrite be_bytes_put by lia. rewrite Nat2Z.id, length_app.
  rewrite decide_False by lia. rewrite take_app_length, drop_app_length.
  by destruct (Envelope_decode pl).
Qed.

(** A proper prefix of a frame: more bytes are needed and none is consumed. *)
Lemma decode_partial pl a b :
  (Z.of_nat (length pl) < 2 ^ 32)%Z -> frame_of pl = a ++ b -> b <> [] -> decode a = (Ok None, a).
Proof.
  intros Hl Hab Hb.
  assert (Hlen : length a < 4 + length pl).
  { apply (f_equal length) in Hab. unfold frame_of in Hab. rewrite !length_app, length_put_u32 in Hab.
    destruct b; [done|]. simpl in Hab. lia. }
  unfold frame_of, put_u32 in Hab. cbn [app] in Hab.
  destruct a as [|b0 [|b1 [|b2 [|b3 body]]]]; try done. cbn [app] in Hab.
  injection Hab as <- <- <- <- Hbody. unfold decode. cbn [length] in *.
  rewrite be_bytes_put by lia. rewrite Nat2Z.id. by rewrite decide_True by lia.
Qed.

(** The size of an envelope on the wire fits the length prefix. *)
Definition fits (e : Envelope) : Prop :=
  envelope_ok e /\
  match Envelope_encode e with Some bs => (Z.of_nat (length bs) < 2 ^ 32)%Z | None => False end.

Lemma fits_frame e dst :
  fits e -> exists pl, encode e dst = Some (dst ++ frame_of pl) /\ Envelope_decode pl = Ok e /\
    (Z.of_nat (length pl) < 2 ^ 32)%Z.
Proof.
  intros [Hok Hl]. destruct (Envelope_round_trip e Hok) as (pl & He & Hd). rewrite He in Hl.
  exists pl. split_and!; [|done|done]. unfold encode, Envelope_to_bytes, frame_of. rewrite He.
  unfold u32_wrap. by rewrite Z.mod_small by lia.
Qed.

(** The frames of a list of envelopes. *)
Inductive framed : list Envelope -> bytes -> Prop :=
| framed_nil : framed [] []
| framed_cons e es pl bs :
    Envelope_decode pl = Ok e -> (Z.of_nat (length pl) < 2 ^ 32)%Z -> framed es bs ->
    framed (e :: es) (frame_of pl ++ bs).

Lemma encode_all_framed es dst :
  Forall fits es -> exists bs, encode_all es dst = Some (dst ++ bs) /\ framed es bs.
Proof.
  intros H. revert dst. induction H as [|e es He Hes IH]; intros dst; simpl.
  - exists []. rewrite app_nil_r. split; [done|constructor].
  - destruct (fits_frame e dst He) as (pl & -> & Hd & Hl).
    destruct (IH (dst ++ frame_of pl)) as (bs & -> & Hf). exists (frame_of pl ++ bs).
    rewrite app_assoc. split; [done|by constructor].
Qed.

(** The buffer of a reader in the middle of the stream: [rest] is still to
    come, [src] is in the buffer, and together they are whole frames. *)
Lemma drain_framed fuel es src rest :
  framed es (src ++ rest) -> length src < fuel ->
  exists es1 es2 src', drain fuel src = (Ok <$> es1, src') /\ es = es1 ++ es2 /\
    framed es2 (src' ++ rest) /\ decode src' = (Ok None, src').
Proof.
  revert es src. induction fuel as [|fuel IH]; intros es src Hf Hlen; [lia|]. simpl.
  remember (src ++ rest) as all eqn:Hall. destruct Hf as [|e es pl bs Hd Hl Hf].
  - symmetry in Hall. apply app_eq_nil in Hall as [-> ->]. exists [], [], [].
    simpl. split_and!; [done|done|constructor|done].
  - destruct (decide (length (frame_of pl) <= length src)) as [Hle|Hgt].
    + assert (exists tl, src = frame_of pl ++ tl /\ bs = tl ++ rest) as (tl & -> & ->).
      { exists (drop (length (frame_of pl)) src).
        assert (Hsrc : src = take (length (frame_of pl)) src ++ drop (length (frame_of pl)) src)
          by (by rewrite take_drop).
        rewrite Hsrc, <- app_assoc in Hall. apply app_inj_1 in Hall as [H1 H2].
        - split; [|done]. rewrite H1 at 1. by rewrite take_drop.
        - rewrite length_take. lia. }
      rewrite decode_frame, Hd by done. rewrite length_app in Hlen.
      destruct (IH es tl Hf) as (es1 & es2 & src' & -> & -> & Hf2 & Hn).
      { unfold frame_of in Hlen. rewrite length_app, length_put_u32 in Hlen. lia. }
      exists (e :: es1), es2, src'. by split_and!.
    + assert (Hsplit : exists b, frame_of pl = src ++ b /\ b <> [] /\ rest = b ++ bs).
      { exists (drop (length src) (frame_of pl)).
        assert (Hfr : frame_of pl = take (length src) (frame_of pl) ++ drop (length src) (frame_of pl))
          by (by rewrite take_drop).
        rewrite Hfr, <- app_assoc in Hall. apply app_inj_1 in Hall as [H1 H2].
        - split_and!; [by rewrite Hfr at 1; rewrite H1| |done].
          intros Hn. apply (f_equal length) in Hn. rewrite length_drop, length_nil in Hn. lia.
        - rewrite length_take. lia. }
      destruct Hsplit as (b & Hb & Hne & ->). pose proof (decode_partial pl src b Hl Hb Hne) as Hpart.
      rewrite Hpart. exists [], (e :: es), src. split_and!; [done|done| |done].
      rewrite app_assoc, <- Hb. by constructor.
Qed.

Lemma receive_framed es buf chunks :
  framed es (buf ++ concat chunks) -> decode buf = (Ok None, buf) ->
  exists es1 es2 buf', receive buf chunks = (Ok <$> es1, buf') /\ es = es1 ++ es2 /\
    framed es2 buf' /\ decode buf' = (Ok None, buf').
Proof.
  revert es buf. induction chunks as [|c chunks IH]; intros es buf Hf Hn; cbn [receive].
  - simpl in Hf. rewrite app_nil_r in Hf. exists [], es, buf. by split_and!.
  - simpl in Hf. rewrite app_assoc in Hf.
    destruct (drain_framed (S (length (buf ++ c))) es (buf ++ c) (concat chunks) Hf)
      as (es1 & es2 & buf1 & -> & -> & Hf2 & Hn2); [lia|].
    destruct (IH es2 buf1 Hf2 Hn2) as (es3 & es4 & buf' & -> & -> & Hf4 & Hn4).
    exists (es1 ++ es3), es4, buf'. by rewrite fmap_app, app_assoc.
Qed.

Lemma framed_complete es bs : framed es bs -> decode bs = (Ok None, bs) -> es = [] /\ bs = [].
Proof.
  intros [|e es' pl bs' Hd Hl Hf] Hn; [done|]. by rewrite decode_frame, Hd in Hn by done.
Qed.

(** ** The properties *)

(** What [EnvelopeCodec] encodes it decodes: the frame of an envelope
    gives back the envelope and leaves exactly the bytes that followed it. *)
Theorem codec_round_trip e rest :
  fits e -> exists bs, encode e [] = Some bs /\ decode (bs ++ rest) = (Ok (Some e), rest).
Proof.
  intros H. destruct (fits_frame e [] H) as (pl & He & Hd & Hl). exists (frame_of pl).
  split; [done|]. by rewrite decode_frame, Hd.
Qed.

(** C10: the envelopes of a stream come out whole and in order however TCP
    cuts it: encode any envelopes one after the other, split the bytes into
    any chunks, and a reader that decodes after every chunk gets exactly those
    envelopes and is left with an empty buffer. *)
Theorem codec_reassembles_stream es chunks :
  Forall fits es -> encode_all es [] = Some (concat chunks) ->
  receive [] chunks = (Ok <$> es, []).
Proof.
  intros Hes Henc. destruct (encode_all_framed es [] Hes) as (bs & He & Hf).
  rewrite Henc in He. injection He as He. simpl in He.
  destruct (receive_framed es [] chunks) as (es1 & es2 & buf & -> & -> & Hf2 & Hn); [by rewrite <- He in Hf|done|].
  destruct (framed_complete _ _ Hf2 Hn) as [-> ->]. by rewrite app_nil_r.
Qed.

End Codec.

(** ** A reference encoding

    Any injective encoding will do; this one writes the bits of a Gödel
    number, one per byte. *)
Module RefProst.

#[export] Instance Envelope_countable : Countable Envelope.
Proof.
  refine (inj_countable'
    (fun e => (message_type e, payload e, correlation_id e, sender_node e, target_actor e, is_response e))
    (fun '(t, p, c, s, a, r) => mkEnvelope t p c s a r) _).
  by intros [].
Defined.
#[export] Instance NodeInfo_countable : Countable NodeInfo.
Proof.
  refine (inj_countable' (fun n => (ni_id n, ni_addr n, ni_status n))
    (fun '(i, a, s) => mkNodeInfo i a s) _).
  by intros [].
Defined.
#[export] Instance ActorLocation_countable : Countable ActorLocation.
Proof.
  refine (inj_countable' (fun l => (al_actor_id l, al_node_id l, al_actor_type l))
    (fun '(a, n, t) => mkActorLocation a n t) _).
  by intros [].
Defined.
#[export] Instance ClusterMessage_countable : Countable ClusterMessage.
Proof.
  refine (inj_countable'
    (fun m => match m with
      | CMEnvelope e => inl (inl e)
      | CMGossip g => inl (inr (g_members g, g_actors g))
      | CMNone => inr tt
      end)
    (fun x => match x with
      | inl (inl e) => CMEnvelope e
      | inl (inr (ms, a)) => CMGossip (mkGossip ms a)
      | inr _ => CMNone
      end) _).
  by intros [|[]|].
Defined.

Fixpoint pos_bits (p : positive) : bytes :=
  match p with xH => [] | xO p => 0%Z :: pos_bits p | xI p => 1%Z :: pos_bits p end.
Fixpoint bits_pos (bs : bytes) : positive :=
  match bs with
  | [] => xH
  | b :: bs => if decide (b = 0)%Z then xO (bits_pos bs) else xI (bits_pos bs)
  end.

Lemma bits_pos_bits p : bits_pos (pos_bits p) = p.
Proof. induction p; simpl; by rewrite ?IHp. Qed.

Definition ref_encode {A} `{Countable A} (a : A) : option bytes := Some (pos_bits (countable.encode a)).
Definition ref_decode {A} `{Countable A} (bs : bytes) : Result A DecodeError :=
  ok_or (countable.decode (bits_pos bs)) (mkDecodeError "invalid").

Lemma ref_round_trip {A} `{Countable A} (a : A) :
  exists bs, ref_encode a = Some bs /\ ref_decode bs = Ok a.
Proof. eexists. split; [done|]. unfold ref_decode. by rewrite bits_pos_bits, decode_encode. Qed.

#[export] Instance ref_prost : Prost := {|
  Envelope_encode := ref_encode;
  Envelope_decode := ref_decode;
  ClusterMessage_encode := ref_encode;
  ClusterMessage_decode := ref_decode;
|}.

#[export] Instance ref_prost_laws : ProstLaws ref_prost.
Proof. split; intros; apply ref_round_trip. Qed.

(** Message types with this encoding, under a given type name. *)
Definition ref_message (M : Type) `{Countable M} (name : string) : RemoteMessage M :=
  {| type_id := name; msg_encode := ref_encode; msg_decode := ref_decode |}.

Lemma ref_message_laws (M : Type) `{Countable M} (name : string) :
  @RemoteMessageLaws M (ref_message M name).
Proof. split. intros m. apply ref_round_trip. Qed.

End RefProst.

(** ** Witnesses *)

Section Witnesses.
Import RefProst.

Definition hello : Envelope := mkEnvelope "m" [104; 105]%Z 7 "n" "a" false.

Lemma hello_fits : fits hello.
Proof. split; [unfold envelope_ok; simpl; lia|vm_compute; reflexivity]. Qed.

Lemma codec_round_trip_witness :
  exists bs, encode hello [] = Some bs /\ decode (bs ++ [1; 2; 3]%Z) = (Ok (Some hello), [1; 2; 3]%Z).
Proof. apply (codec_round_trip hello [1; 2; 3]%Z), hello_fits. Defined.

(** Two envelopes in chunks of three bytes. *)
Fixpoint chunks_of_3 (bs : bytes) : list bytes :=
  match bs with
  | a :: b :: c :: bs => [a; b; c] :: chunks_of_3 bs
  | [] => []
  | bs => [bs]
  end.

Lemma codec_reassembles_stream_witness :
  receive [] (chunks_of_3 (default [] (encode_all [hello; hello] []))) = (Ok <$> [hello; hello], []).
Proof.
  apply (codec_reassembles_stream [hello; hello]).
  - repeat constructor; apply hello_fits.
  - vm_compute. reflexivity.
Defined.

End Witnesses.
