(* ===== verification/Remote.v ===== *)
(** * Remote: handlers, routing, the message registry and the server loop

    src/remote/handler.rs, src/remote/registry.rs, src/remote/server.rs and
    src/remote/addr.rs. A handler is a function of an envelope that runs
    against the state behind the local addresses, here of any type [S]: an
    actor behind an address is what [ActorRef] promises of it. *)

From S2P Require Import Prelude Tokio Supervisor Runtime Wire.

(** ** What a handler knows of an actor

    [send] gives the reply of the actor or the error of [Addr::send]; [do_send]
    the outcome of [Addr::do_send]. *)
Class ActorRef (S M R : Type) := {
  addr_send : M -> S -> S * Result R MailboxError;
  addr_do_send : M -> S -> S * Result unit MailboxError;
}.

(** An actor that takes its messages one after the other and never panics:
    Bridge.v derives this from the runtime for such an actor. *)
Definition pure_actor {S M R} (h : M -> S -> S * R) : ActorRef S M R := {|
  addr_send := fun m s => let '(s, r) := h m s in (s, Ok r);
  addr_do_send := fun m s => (fst (h m s), Ok tt);
|}.

(** [EnvelopeHandler]. *)
Abbreviation EnvelopeHandler S := (Envelope -> S -> S * option Envelope).

Section Handler.
Context {S : Type}.

(** ** src/remote/handler.rs *)

(** [make_handler]; [.ok()?] leaves the handler without a response. *)
Definition make_handler {M R} `{!RemoteMessage M, !RemoteMessage R} (addr : ActorRef S M R)
    (node_id : string) : EnvelopeHandler S :=
  fun envelope s =>
    match result_ok (msg_decode (payload envelope)) with
    | None => (s, None)
    | Some msg =>
        let '(s, reply) := addr_send msg s in
        match result_ok reply with
        | None => (s, None)
        | Some result =>
            match msg_encode result with
            | None => (s, None)
            | Some buf =>
                (s, Some (mkEnvelope (type_id R) buf (correlation_id envelope) node_id
                            (sender_node envelope) true))
            end
        end
    end.

Definition make_tell_handler {M R} `{!RemoteMessage M} (addr : ActorRef S M R) : EnvelopeHandler S :=
  fun envelope s =>
    match msg_decode (payload envelope) with
    | Ok msg => (fst (addr_do_send msg s), None)
    | Err _ => (s, None)
    end.

Record LocalNode := mkLocalNode { ln_id : string }.

Definition LocalNode_handler {M R} `{!RemoteMessage M, !RemoteMessage R} (n : LocalNode)
    (addr : ActorRef S M R) : EnvelopeHandler S := make_handler addr (ln_id n).
Definition LocalNode_tell_handler {M R} `{!RemoteMessage M} (n : LocalNode) (addr : ActorRef S M R)
  : EnvelopeHandler S := make_tell_handler addr.

Record MessageRouter := mkRouter {
  handlers : gmap string (EnvelopeHandler S);
  default_handler : option (EnvelopeHandler S);
}.

Definition MessageRouter_new : MessageRouter := mkRouter ∅ None.
Definition route_type (ty : string) (h : EnvelopeHandler S) (r : MessageRouter) : MessageRouter :=
  mkRouter (<[ty := h]> (handlers r)) (default_handler r).
Definition route (M : Type) `{!RemoteMessage M} (h : EnvelopeHandler S) (r : MessageRouter)
  : MessageRouter := route_type (type_id M) h r.
Definition router_default (h : EnvelopeHandler S) (r : MessageRouter) : MessageRouter :=
  mkRouter (handlers r) (Some h).

Definition build (r : MessageRouter) : EnvelopeHandler S :=
  fun envelope s =>
    match handlers r !! message_type envelope with
    | Some handler => handler envelope s
    | None =>
        match default_handler r with
        | Some handler => handler envelope s
        | None => (s, None)
        end
    end.

(** ** src/remote/server.rs *)

(** The loop of a connection: what [conn.recv()] gives in turn, and whether
    each [conn.send] succeeds. The result is what was sent. *)
Fixpoint serve_connection (handler : EnvelopeHandler S)
    (incoming : list (Result Envelope TransportError)) (sends : list bool) (s : S)
  : S * list Envelope :=
  match incoming with
  | Ok envelope :: incoming =>
      let '(s, r) := handler envelope s in
      match r with
      | None => serve_connection handler incoming sends s
      | Some response =>
          match sends with
          | false :: _ => (s, [])                                       (** [break] *)
          | true :: sends =>
              let '(s, out) := serve_connection handler incoming sends s in (s, response :: out)
          | [] =>
              let '(s, out) := serve_connection handler incoming [] s in (s, response :: out)
          end
      end
  | _ => (s, [])
  end.

End Handler.

(** ** src/remote/registry.rs *)

Section Registry.

(** [Box<dyn Any>]: any type of decoded messages. *)
Context {A : Type}.

Abbreviation DeserializeFn := (bytes -> Result A DecodeError).

(** The static [REGISTRY]: nothing until the first registration. *)
Abbreviation REGISTRY := (option (gmap string DeserializeFn)).

Definition register_message {M} `{!RemoteMessage M} (box : M -> A) (registry : REGISTRY) : REGISTRY :=
  let map := default ∅ registry in
  Some (<[type_id M := fun bs => (let? msg := msg_decode bs in Ok (box msg))%rust]> map).

Definition deserialize_payload (ty : string) (payload : bytes) (registry : REGISTRY)
  : Result A DecodeError :=
  (let? map := ok_or registry (mkDecodeError "No messages registered") in
   let? deserialize_fn := ok_or (map !! ty) (mkDecodeError "Unknown message type") in
   deserialize_fn payload)%rust.

End Registry.

(** ** src/remote/addr.rs *)

(** [next_correlation_id]: the counter wraps around. *)
Definition next_correlation_id (counter : Z) : Z * Z := (u64_wrap (counter + 1), counter).

Record RemoteAddr := mkRemoteAddr { ra_node : string; ra_actor_name : string; ra_local_node : string }.

Definition RemoteAddr_new (local_node remote_node actor_name : string) : RemoteAddr :=
  mkRemoteAddr remote_node actor_name local_node.

Definition LocalNode_remote_addr (n : LocalNode) (remote_node actor_name : string) : RemoteAddr :=
  RemoteAddr_new (ln_id n) remote_node actor_name.

(** The envelope of [RemoteAddr::do_send] and [RemoteAddr::send], handed to the client. *)
Definition RemoteAddr_envelope {M} `{!RemoteMessage M} (a : RemoteAddr) (msg : M) (counter : Z)
  : Z * option Envelope :=
  let '(counter, cid) := next_correlation_id counter in
  (counter, Envelope_from_message msg cid (ra_local_node a) (ra_actor_name a)).

(** ** Properties *)

Section Properties.
Context {S : Type}.

(** A request-response handler answers a request that decodes with the
    actor's reply: it delivers the decoded message to the actor, and the
    response carries the reply, the correlation id of the request, the node as
    sender and the requesting node as target. *)
Theorem make_handler_answers {M R} `{!RemoteMessage M, !RemoteMessageLaws M, !RemoteMessage R, !RemoteMessageLaws R}
    (addr : ActorRef S M R) node (msg : M) cid sender target env (s s' : S) (result : R) :
  Envelope_from_message msg cid sender target = Some env ->
  addr_send msg s = (s', Ok result) ->
  exists resp, make_handler addr node env s = (s', Some resp) /\
    msg_decode (payload resp) = Ok result /\ message_type resp = type_id R /\
    correlation_id resp = cid /\ is_response resp = true /\
    sender_node resp = node /\ target_actor resp = sender.
Proof.
  intros Henv Hsend. unfold Envelope_from_message in Henv.
  destruct (msg_round_trip msg) as (bs & Henc & Hdec). rewrite Henc in Henv. simplify_eq.
  destruct (msg_round_trip result) as (bs' & Henc' & Hdec').
  unfold make_handler. simpl. rewrite Hdec. simpl. rewrite Hsend. simpl. rewrite Henc'.
  eexists. split; [done|]. by simpl.
Qed.

(** A payload that does not decode is not delivered: either kind of
    handler leaves the actor alone and sends no response. *)
Theorem handlers_drop_garbage {M R} `{!RemoteMessage M, !RemoteMessage R}
    (addr : ActorRef S M R) node env (s : S) e :
  msg_decode (M := M) (payload env) = Err e ->
  make_handler addr node env s = (s, None) /\ make_tell_handler addr env s = (s, None).
Proof. intros H. unfold make_handler, make_tell_handler. by rewrite H. Qed.

(** The handler a sequence of [route_type] calls leaves for a type: the last one. *)
Definition last_route (routes : list (string * EnvelopeHandler S)) (ty : string)
  : option (EnvelopeHandler S) :=
  snd <$> last (filter (fun r => fst r = ty) routes).

Definition route_all (routes : list (string * EnvelopeHandler S)) (r : MessageRouter) : MessageRouter :=
  foldl (fun r '(ty, h) => route_type ty h r) r routes.

Lemma route_all_lookup routes r ty :
  handlers (route_all routes r) !! ty =
    match last_route routes ty with Some h => Some h | None => handlers r !! ty end /\
  default_handler (route_all routes r) = default_handler r.
Proof.
  unfold route_all, last_route. revert r. induction routes as [|[ty' h] routes IH]; intros r; simpl; [done|].
  destruct (IH (route_type ty' h r)) as [-> ->]. split; [|done]. rewrite filter_cons. simpl.
  destruct (decide (ty' = ty)) as [->|Hne]; simpl.
  - destruct (filter (fun r0 => r0.1 = ty) routes) as [|x l] eqn:Hf; simpl.
    + by rewrite lookup_insert_eq.
    + change (last ((ty, h) :: x :: l)) with (last (x :: l)).
      destruct (last (x :: l)) as [y|] eqn:Hl; [done|]. by apply last_None in Hl.
  - destruct (snd <$> last _); [done|]. by rewrite lookup_insert_ne.
Qed.

(** A built router sends each envelope to the handler registered last for
    its message type, to the default handler when there is none, and drops it
    when there is no default either. *)
Theorem router_dispatches routes dflt env (s : S) :
  build (route_all routes (from_option (fun h => router_default h MessageRouter_new) MessageRouter_new dflt)) env s =
  match last_route routes (message_type env), dflt with
  | Some h, _ => h env s
  | None, Some h => h env s
  | None, None => (s, None)
  end.
Proof.
  unfold build. destruct (route_all_lookup routes
    (from_option (fun h => router_default h MessageRouter_new) MessageRouter_new dflt) (message_type env))
    as [-> ->].
  destruct (last_route routes (message_type env)); [done|]. by destruct dflt.
Qed.

(** The responses a handler makes to a sequence of envelopes. *)
Fixpoint answers (handler : EnvelopeHandler S) (envs : list Envelope) (s : S) : S * list Envelope :=
  match envs with
  | [] => (s, [])
  | e :: envs =>
      let '(s, r) := handler e s in
      let '(s, out) := answers handler envs s in (s, option_list r ++ out)
  end.

(** While the connection holds, the server answers the envelopes of a
    connection in order, each by what the handler returns for it in the state
    the previous ones left, and stops at the first error of the connection. *)
Theorem server_answers_in_order handler envs err rest (s : S) :
  serve_connection handler ((Ok <$> envs) ++ Err err :: rest) [] s = answers handler envs s.
Proof.
  revert s. induction envs as [|e envs IH]; intros s; simpl; [done|].
  destruct (handler e s) as [s' [r|]]; simpl; rewrite IH; by destruct (answers handler envs s').
Qed.

End Properties.

Section RegistryProperties.
Context {A : Type}.

(** The message registry: a registered type deserializes what its
    [encode] wrote to that message, whatever is registered around it under
    other names, and a type that was never registered is an error. *)
Theorem registered_message_deserializes {M N} `{!RemoteMessage M, !RemoteMessageLaws M, !RemoteMessage N}
    (box : M -> A) (box' : N -> A) (msg : M) bs registry ty :
  msg_encode msg = Some bs -> type_id N <> type_id M -> ty <> type_id M ->
  deserialize_payload (type_id M) bs (register_message box' (register_message box registry)) = Ok (box msg) /\
  deserialize_payload ty bs (register_message box registry) =
    match registry with
    | Some map => deserialize_payload ty bs (Some map)
    | None => Err (mkDecodeError "Unknown message type")
    end.
Proof.
  intros Henc HN Hty. destruct (msg_round_trip msg) as (bs' & Henc' & Hdec). simplify_eq.
  unfold deserialize_payload, register_message. simpl. split.
  - rewrite lookup_insert_ne by done. rewrite lookup_insert_eq. simpl. by rewrite Hdec.
  - rewrite lookup_insert_ne by done. by destruct registry.
Qed.

End RegistryProperties.

(** ** Witnesses *)

Section Witnesses.
Import RefProst.

#[local] Instance string_message : RemoteMessage string := ref_message string "text".
#[local] Instance string_message_laws : RemoteMessageLaws string := ref_message_laws string "text".
#[local] Instance nat_message : RemoteMessage nat := ref_message nat "number".
#[local] Instance nat_message_laws : RemoteMessageLaws nat := ref_message_laws nat "number".

(** An actor that counts the messages it gets. *)
Definition counting : ActorRef nat string nat := pure_actor (fun _ n => (S n, S n)).
Definition ask : Envelope := default hello (Envelope_from_message "hi" 7 "node-2" "counter").

Lemma make_handler_answers_witness :
  exists resp, make_handler counting "node-1" ask 4 = (5, Some resp) /\
    msg_decode (payload resp) = Ok 5 /\ message_type resp = type_id nat /\
    correlation_id resp = 7%Z /\ is_response resp = true /\
    sender_node resp = "node-1" /\ target_actor resp = "node-2".
Proof.
  apply (make_handler_answers counting "node-1" "hi" 7 "node-2" "counter" ask 4 5 5); vm_compute; reflexivity.
Defined.

#[local] Instance pair_message : RemoteMessage (string * nat) := ref_message (string * nat) "pair".

(** A payload that is not the encoding of a pair. *)
Definition garbage : Envelope := mkEnvelope "pair" [0; 0]%Z 7 "node-2" "counter" false.
Definition counting_pairs : ActorRef nat (string * nat) nat := pure_actor (fun _ n => (S n, S n)).

Lemma handlers_drop_garbage_witness :
  make_handler counting_pairs "node-1" garbage 4 = (4, None) /\ make_tell_handler counting_pairs garbage 4 = (4, None).
Proof.
  apply (handlers_drop_garbage counting_pairs "node-1" garbage 4 (mkDecodeError "invalid")).
  vm_compute. reflexivity.
Defined.

Lemma registered_message_deserializes_witness :
  deserialize_payload (type_id string) (default [] (msg_encode "hi"))
    (register_message (A := string + nat) inr (register_message inl None)) = Ok (inl "hi") /\
  deserialize_payload "other" (default [] (msg_encode "hi")) (register_message (A := string + nat) inl None) =
    Err (mkDecodeError "Unknown message type").
Proof.
  apply (registered_message_deserializes (A := string + nat) (M := string) (N := nat) inl inr "hi"
    (default [] (msg_encode "hi")) None "other").
  - reflexivity.
  - discriminate.
  - discriminate.
Defined.

End Witnesses.
