(* ===== verification/Bridge.v ===== *)
(** * Bridge: remote handlers over the actor runtime

    The handlers of Remote.v work against the interface [ActorRef]. This file
    implements the interface with the actor runtime: [Addr::send] is a caller
    task that is polled until the reply is there, [Addr::do_send] puts the
    message in the mailbox, and the actor handles it in its own task. A
    simulation shows that a handler, a router or a whole connection gives the
    same responses over the runtime as over [pure_actor], the sequential
    reading that the other files use. *)

From S2P Require Import Prelude Tokio Supervisor Runtime Tasks Demo RuntimeFacts Wf Isolation Lifecycle.
From S2P Require Import Replies Mail Wire Remote.

(** ** Simulation of handlers *)

Section Simulation.
Context {S1 S2 : Type} (rel : S1 -> S2 -> Prop).

(** The outcomes agree and the states stay related. *)
Definition same {X} (p1 : S1 * X) (p2 : S2 * X) : Prop := snd p1 = snd p2 /\ rel (fst p1) (fst p2).

Record actor_sim {M R} (a1 : ActorRef S1 M R) (a2 : ActorRef S2 M R) : Prop := mkActorSim {
  sim_send m s1 s2 : rel s1 s2 -> same (addr_send (ActorRef := a1) m s1) (addr_send (ActorRef := a2) m s2);
  sim_do_send m s1 s2 : rel s1 s2 ->
    same (addr_do_send (ActorRef := a1) m s1) (addr_do_send (ActorRef := a2) m s2);
}.

Definition handler_sim (h1 : EnvelopeHandler S1) (h2 : EnvelopeHandler S2) : Prop :=
  forall env s1 s2, rel s1 s2 -> same (h1 env s1) (h2 env s2).

Lemma make_handler_sim {M R} `{!RemoteMessage M, !RemoteMessage R}
    (a1 : ActorRef S1 M R) (a2 : ActorRef S2 M R) node :
  actor_sim a1 a2 -> handler_sim (make_handler a1 node) (make_handler a2 node).
Proof.
  intros Ha env s1 s2 Hs. unfold make_handler. destruct (result_ok (msg_decode (payload env))) as [m|]; [|done].
  destruct (sim_send _ _ Ha m s1 s2 Hs) as [Hr Hs'].
  destruct (addr_send m s1) as [t1 r1]. destruct (addr_send m s2) as [t2 r2]. simpl in Hr, Hs'. subst r2.
  destruct (result_ok r1) as [x|]; [|done]. by destruct (msg_encode x).
Qed.

Lemma make_tell_handler_sim {M R} `{!RemoteMessage M} (a1 : ActorRef S1 M R) (a2 : ActorRef S2 M R) :
  actor_sim a1 a2 -> handler_sim (make_tell_handler a1) (make_tell_handler a2).
Proof.
  intros Ha env s1 s2 Hs. unfold make_tell_handler. destruct (msg_decode (payload env)) as [m|e]; [|done].
  split; [done|]. by apply (sim_do_send _ _ Ha).
Qed.

(** Routers with the same routes. *)
Record router_sim (r1 : MessageRouter (S := S1)) (r2 : MessageRouter (S := S2)) : Prop := mkRouterSim {
  sim_routes ty : option_Forall2 handler_sim (handlers r1 !! ty) (handlers r2 !! ty);
  sim_default : option_Forall2 handler_sim (default_handler r1) (default_handler r2);
}.

Lemma router_new_sim : router_sim MessageRouter_new MessageRouter_new.
Proof. split; [intros ty; simpl; rewrite !lookup_empty|]; constructor. Qed.

Lemma route_type_sim ty h1 h2 r1 r2 :
  handler_sim h1 h2 -> router_sim r1 r2 -> router_sim (route_type ty h1 r1) (route_type ty h2 r2).
Proof.
  intros Hh [Hr Hd]. split; [|done]. intros ty'. simpl. rewrite !lookup_insert. case_decide; [by constructor|done].
Qed.

Lemma router_default_sim h1 h2 r1 r2 :
  handler_sim h1 h2 -> router_sim r1 r2 -> router_sim (router_default h1 r1) (router_default h2 r2).
Proof. intros Hh [Hr Hd]. split; [done|by constructor]. Qed.

Lemma build_sim r1 r2 : router_sim r1 r2 -> handler_sim (build r1) (build r2).
Proof.
  intros [Hr Hd] env s1 s2 Hs. unfold build.
  destruct (Hr (message_type env)) as [h1 h2 Hh|]; [by apply Hh|].
  destruct Hd as [h1 h2 Hh|]; [by apply Hh|done].
Qed.

(** A connection sends the same responses. *)
Lemma serve_connection_sim h1 h2 incoming sends s1 s2 :
  handler_sim h1 h2 -> rel s1 s2 ->
  same (serve_connection h1 incoming sends s1) (serve_connection h2 incoming sends s2).
Proof.
  intros Hh. revert sends s1 s2. induction incoming as [|[env|e] incoming IH]; intros sends s1 s2 Hs; simpl; [done| |done].
  destruct (Hh env s1 s2 Hs) as [Hr Hs']. destruct (h1 env s1) as [t1 r1]. destruct (h2 env s2) as [t2 r2].
  simpl in Hr, Hs'. subst r2. destruct r1 as [resp|]; [|by apply IH].
  assert (Hc : forall sends, same
    (let '(s, out) := serve_connection h1 incoming sends t1 in (s, resp :: out))
    (let '(s, out) := serve_connection h2 incoming sends t2 in (s, resp :: out))).
  { intros sends'. destruct (IH sends' t1 t2 Hs') as [Ho Hs2].
    destruct (serve_connection h1 _ _ _) as [u1 o1]. destruct (serve_connection h2 _ _ _) as [u2 o2].
    simpl in *. split; simpl; [by f_equal|done]. }
  destruct sends as [|[] sends]; [apply Hc|apply Hc|done].
Qed.

End Simulation.

(** A fire-and-forget connection sends nothing. *)
Lemma tell_connection_silent {S M R} `{!RemoteMessage M} (a : ActorRef S M R) incoming sends (s : S) :
  snd (serve_connection (make_tell_handler a) incoming sends s) = [].
Proof.
  revert s. induction incoming as [|[env|e] incoming IH]; intros s; simpl; [done| |done].
  unfold make_tell_handler at 1. destruct (msg_decode (payload env)); apply IH.
Qed.

(** ** An actor of the runtime behind an address *)

Section Bridge.
Context {Y : Sys} {K : Tokio} {L : TokioLaws K} {B : Behaviour}.

(** The rest of an async function after [send(..)]: the future is polled, and
    while it is pending the other tasks take the steps [sched]. *)
Fixpoint await (sched : list Label) (ct : nat) (w : World) : World * option (Result Rsp MailboxError) :=
  let '(w, r) := poll_client ct w in
  match r with
  | Some r => (w, Some r)
  | None => match sched with [] => (w, None) | l :: sched => await sched ct (exec l w) end
  end.

(** [addr.send(m).await], with the actor [tid] running while the caller waits. *)
Definition send_await (tid : nat) (addr : Addr) (m : Msg) (w : World) : World * option (Result Rsp MailboxError) :=
  let '(w, ct) := spawn_task (TClient (inl (SendInit addr m false None))) w in
  await [LPoll tid] ct w.

(** [addr.do_send(m).await], after which the actor runs. *)
Definition do_send_await (tid : nat) (addr : Addr) (m : Msg) (w : World)
  : World * Poll (Result unit MailboxError) :=
  let '(w, p) := do_send addr m w in (exec (LPoll tid) w, p).

(** The actor as a remote handler sees it: [up] makes a message of the actor,
    [down] takes the reply to it apart. The schedule is fixed: the caller, the
    actor once, the caller again. It is enough for an actor that is idle
    ([send_await_idle], [do_send_await_idle]), the case of [addr_ref_sim]; for
    any other, a call that is still under way when the schedule ends has no
    result, and the errors given here for it are not the code's. *)
Definition addr_ref {M R} (tid : nat) (addr : Addr) (up : M -> Msg) (down : Rsp -> option R) : ActorRef World M R := {|
  addr_send := fun m w =>
    let '(w, r) := send_await tid addr (up m) w in
    (w, match r with
        | Some (Ok x) => ok_or (down x) MailboxClosed
        | Some (Err e) => Err e
        | None => Err MailboxClosed
        end);
  addr_do_send := fun m w =>
    let '(w, p) := do_send_await tid addr (up m) w in
    (w, match p with Ready r => r | Pending => Err MailboxFull end);
|}.

(** An actor with one message queued handles it and is idle again. *)
Lemma idle_after_message tid k addr sd ctx a e m a' r w c :
  wf w -> parked tid k addr sd a ctx [] [Sync e] w -> ctx_streams ctx = [] ->
  w_chans w !! addr_sender addr = Some c -> mpsc_waiting c = 0 ->
  msg e = Some m -> handle a m = Ret a' r ->
  idle_at tid k addr sd ctx a' (exec (LPoll tid) w) /\
  w_oneshots (exec (LPoll tid) w) = w_oneshots (reply (response_tx e) r w) /\
  forall ct, ct <> tid -> w_tasks (exec (LPoll tid) w) !! ct = w_tasks w !! ct.
Proof.
  intros Hw Hp Hs Hc Hwt Hm Hh.
  destruct (poll_head_world _ _ _ _ _ _ _ _ _ _ _ _ _ Hp Hs Hm Hh)
    as (c0 & c' & Hc0 & Hr & Hq & Hc' & Ht & Ho & _). simplify_eq.
  split_and!; [|done|].
  - split; [by apply exec_wf| |].
    + split; simpl; [by rewrite Ht, lookup_insert_eq|]. rewrite Hc', lookup_insert_eq. simpl. by rewrite Hq.
    + eexists. simpl. rewrite Hc', lookup_insert_eq. split; [done|]. by apply mpsc_waiting_recv.
  - intros ct Hne. simpl. by rewrite Ht, lookup_insert_ne.
Qed.

Lemma poll_client_task ct w f :
  w_tasks w !! ct = Some (TClient f) -> fst (poll_client ct w) = exec (LPoll ct) w.
Proof. intros H. simpl. unfold poll_task. by rewrite H. Qed.

(** [send] to an idle actor. *)
Lemma send_await_idle tid k addr sd ctx a m a' r w :
  idle_at tid k addr sd ctx a w -> ctx_streams ctx = [] -> handle a m = Ret a' r ->
  exists w', send_await tid addr m w = (w', Some (Ok r)) /\ idle_at tid k addr sd ctx a' w'.
Proof.
  intros Hid Hs Hh. destruct (idle_chan _ _ _ _ _ _ _ Hid) as (c & Hc & Hq & Ho & Hwt & Hav).
  destruct Hid as [Hw [Htid Hqa] _]. unfold send_await. simpl.
  set (w0 := put_task _ _ _). set (ct := w_fresh w).
  assert (Hw0 : wf w0) by (apply (exec_wf (LSend addr m false None)), Hw).
  assert (Hct : w_tasks w0 !! ct = Some (TClient (inl (SendInit addr m false None)))) by apply lookup_insert_eq.
  assert (Hne : ct <> tid) by (pose proof (wf_tasks _ Hw _ _ Htid); unfold ct; lia).
  destruct (poll_send_queues ct addr m w0 c Hct Hc Ho Hav) as (c1 & H1 & E1 & T1 & C1 & Q1 & O1).
  rewrite Hq in Q1. simpl in Q1. rewrite H1. set (w1 := poll_task ct w0) in *.
  assert (P1 : parked tid k addr sd a ctx [] [Sync (MessageEnvelope_with_response m (w_fresh w0))] w1).
  { split; [rewrite T1, lookup_insert_ne by done; simpl; by rewrite lookup_insert_ne|].
    rewrite C1, lookup_insert_eq. simpl. by rewrite Q1. }
  destruct (idle_after_message tid k addr sd ctx a _ m a' r w1 c1 (exec_wf (LPoll ct) w0 Hw0) P1 Hs) as (I2 & O2 & T2).
  { by rewrite C1, lookup_insert_eq. } { rewrite E1. by rewrite mpsc_waiting_send. } { done. } { done. }
  set (w2 := exec (LPoll tid) w1) in *. change (poll_task tid w1) with w2.
  assert (T3 : w_tasks w2 !! ct = Some (TClient (inl (SendRecv (w_fresh w0) None)))).
  { rewrite T2 by done. by rewrite T1, lookup_insert_eq. }
  assert (H3 : poll_client ct w2 = (put_task ct (TClient (inr (Ok r))) w2, Some (Ok r))).
  { unfold poll_client. rewrite T3. simpl. unfold poll_reply. rewrite O2. simpl. unfold upd_oneshot.
    rewrite O1, lookup_insert_eq. simpl. rewrite lookup_insert_eq. simpl.
    rewrite oneshot_send_poll by apply oneshot_channel_poll. done. }
  rewrite H3. eexists. split; [done|]. destruct I2 as [W2 [P2 Q2] Ch2].
  replace (put_task ct (TClient (inr (Ok r))) w2) with (exec (LPoll ct) w2).
  2:{ rewrite <- (poll_client_task ct w2 _ T3). by rewrite H3. }
  split; [by apply exec_wf|..]; rewrite <- (poll_client_task ct w2 _ T3), H3; simpl; [|done].
  split; simpl; [by rewrite lookup_insert_ne|done].
Qed.

(** [do_send] to an idle actor. *)
Lemma do_send_await_idle tid k addr sd ctx a m a' r w :
  idle_at tid k addr sd ctx a w -> ctx_streams ctx = [] -> handle a m = Ret a' r ->
  exists w', do_send_await tid addr m w = (w', Ready (Ok tt)) /\ idle_at tid k addr sd ctx a' w'.
Proof.
  intros Hid Hs Hh. destruct (idle_chan _ _ _ _ _ _ _ Hid) as (c & Hc & Hq & Ho & Hwt & Hav).
  destruct Hid as [Hw [Htid _] _]. unfold do_send_await, do_send.
  pose proof (sender_send_ext (addr_sender addr) (Sync (MessageEnvelope_new m)) w) as Hx.
  unfold sender_send in *. rewrite Hc in *.
  destruct (send_open_room c (Sync (MessageEnvelope_new m)) Ho Hav) as (c1 & Hs1 & Hq1 & _).
  pose proof (mpsc_waiting_send _ c (Sync (MessageEnvelope_new m)) Hav) as Hw1. rewrite Hs1 in *. simpl in *.
  set (w1 := set_chans _ w) in *. eexists. split; [done|].
  apply (idle_after_message tid k addr sd ctx a (MessageEnvelope_new m) m a' r w1 c1); try done.
  - by apply (wf_ext_tasks w).
  - split; [done|]. simpl. rewrite lookup_insert_eq. simpl. by rewrite Hq1, Hq.
  - apply lookup_insert_eq.
  - congruence.
Qed.

(** ** The interface is implemented *)

Section Implements.
Context {S M R : Type} (h : M -> S -> S * R) (inj : S -> St) (up : M -> Msg) (down : Rsp -> option R).
Context (tid : nat) (k : Kind) (addr : Addr) (sd : loc) (ctx : Context).

(** The handler of the actor computes [h] and does nothing else. *)
Hypothesis handles : forall m s, exists x,
  handle (inj s) (up m) = Ret (inj (fst (h m s))) x /\ down x = Some (snd (h m s)).
Hypothesis no_streams : ctx_streams ctx = [].

Lemma addr_ref_sim :
  actor_sim (fun w s => idle_at tid k addr sd ctx (inj s) w) (addr_ref tid addr up down) (pure_actor h).
Proof.
  split; intros m w s Hid; destruct (handles m s) as (x & Hh & Hd); unfold same; simpl.
  - destruct (send_await_idle _ _ _ _ _ _ _ _ _ _ Hid no_streams Hh) as (w' & -> & Hid').
    destruct (h m s). simpl in *. by rewrite Hd.
  - destruct (do_send_await_idle _ _ _ _ _ _ _ _ _ _ Hid no_streams Hh) as (w' & -> & Hid'). done.
Qed.

End Implements.

(** ** The property *)

(** C28: a remote handler over a running actor answers as over a sequential
    object. For an actor that is idle and whose handlers compute [h], whatever
    arrives on a connection, garbage and errors included, and whichever sends
    fail, the server loop of [make_handler] sends over the runtime (mailbox,
    caller task, reply channel, actor task) exactly the responses it sends
    when [h] is applied directly, and leaves the actor idle in the state that
    [h] leaves; likewise for [make_tell_handler]. *)
Theorem connection_over_runtime {S M R} `{!RemoteMessage M, !RemoteMessage R} (h : M -> S -> S * R) (inj : S -> St)
    (up : M -> Msg) (down : Rsp -> option R) tid k addr sd ctx node incoming sends (s : S) (w : World) :
  (forall m s, exists x, handle (inj s) (up m) = Ret (inj (fst (h m s))) x /\ down x = Some (snd (h m s))) ->
  ctx_streams ctx = [] -> idle_at tid k addr sd ctx (inj s) w ->
  let '(s', out) := serve_connection (make_handler (pure_actor h) node) incoming sends s in
  let '(s'', _) := serve_connection (make_tell_handler (pure_actor h)) incoming sends s in
  (exists w', serve_connection (make_handler (addr_ref tid addr up down) node) incoming sends w = (w', out) /\
     idle_at tid k addr sd ctx (inj s') w') /\
  (exists w', serve_connection (make_tell_handler (addr_ref (R := R) tid addr up down)) incoming sends w = (w', []) /\
     idle_at tid k addr sd ctx (inj s'') w').
Proof.
  intros Hh Hs Hid. pose proof (addr_ref_sim h inj up down tid k addr sd ctx Hh Hs) as Hsim.
  destruct (serve_connection_sim _ _ _ incoming sends w s (make_handler_sim _ _ _ node Hsim) Hid) as [Ho Hid1].
  destruct (serve_connection_sim _ _ _ incoming sends w s (make_tell_handler_sim _ _ _ Hsim) Hid) as [Ho2 Hid2].
  pose proof (tell_connection_silent (addr_ref (R := R) tid addr up down) incoming sends w) as Hn.
  destruct (serve_connection (make_handler (pure_actor h) node) _ _ _) as [s' out].
  destruct (serve_connection (make_tell_handler (pure_actor h)) _ _ _) as [s'' out2].
  destruct (serve_connection (make_handler (addr_ref _ _ _ _) node) _ _ _) as [w1 o1].
  destruct (serve_connection (make_tell_handler (addr_ref _ _ _ _)) _ _ _) as [w2 o2].
  simpl in *. subst. split; eexists; by split.
Qed.

End Bridge.

(** ** Witness *)

Section Witnesses.
Import Demo RefProst.

#[local] Instance tell_text : RemoteMessage string := ref_message string "text".
#[local] Instance tell_number : RemoteMessage nat := ref_message nat "number".

(** Two requests and the end of the connection. *)
Definition arriving : list (Result Envelope TransportError) := [Ok ask; Ok ask; Err TDisconnected].

Definition booted_ctx : Context := mkCtx counter (Some 3) 0 [] 5 [].

Lemma connection_over_runtime_witness :
  exists w', serve_connection (make_handler (addr_ref 6 counter (fun _ : string => um Inc) Some) "node-1")
      arriving [] booted = (w', snd (serve_connection (make_handler counting "node-1") arriving [] 7)) /\
    idle_at 6 (KRoot (7 : @St demo_sys) booted_ctx) counter 0 booted_ctx (9 : @St demo_sys) w'.
Proof.
  destruct (connection_over_runtime (S := nat) (M := string) (R := nat) (fun _ n => (S n, S n)) (fun n => n : @St demo_sys)
    (fun _ => um Inc) Some 6 (KRoot (7 : @St demo_sys) booted_ctx) counter 0 booted_ctx "node-1" arriving [] 7 booted)
    as [H _].
  - intros m s. by exists (S s).
  - reflexivity.
  - split; [apply reachable_wf, booted_reachable|split; vm_compute; reflexivity|].
    eexists. split; vm_compute; reflexivity.
  - exact H.
Defined.

End Witnesses.
