(* ===== verification/Client.v ===== *)
(** * Client: requests multiplexed over one connection (src/remote/client.rs)

    The task of [RemoteClient::new] takes commands from a channel and
    envelopes from the connection and keeps the requests that wait for a
    response in a map from correlation id to the sender of a oneshot channel.
    The state here holds the command channel, that map and what each request
    has got; a request is named by a number. What the network does (the result
    of [conn.send], what [conn.recv] gives) comes with the step, and the two
    branches of the task's [select!] may be taken in any order. The channel has
    no bound here; Backpressure.v has the calls that wait for room in it. *)

From S2P Require Import Prelude Wire.

(** [enum ClientCommand]; a oneshot sender is the number of its request. *)
Inductive ClientCommand :=
| CSend (envelope : Envelope) (response_tx : option nat)
| CClose.

(** What the caller of a request gets. *)
Abbreviation Outcome := (Result Envelope TransportError) (only parsing).

Record RemoteClient := mkClient {
  running : bool;                          (** the task has not ended *)
  cmds : list ClientCommand;               (** sent to the task, not yet taken *)
  pending_requests : gmap Z nat;
  outcomes : gmap nat Outcome;             (** requests that are answered *)
  requests : gmap nat Envelope;            (** every request made *)
}.

Definition RemoteClient_new : RemoteClient := mkClient true [] ∅ ∅ ∅.

(** A oneshot receiver keeps the first thing that happens to it: a value, or
    the drop of the sender, which [send] reports as [Disconnected]. *)
Definition resolve (id : nat) (r : Outcome) (c : RemoteClient) : RemoteClient :=
  mkClient (running c) (cmds c) (pending_requests c)
    (match outcomes c !! id with Some _ => outcomes c | None => <[id := r]> (outcomes c) end)
    (requests c).

Definition resolve_opt (id : option nat) (r : Outcome) (c : RemoteClient) : RemoteClient :=
  match id with Some id => resolve id r c | None => c end.

Definition set_cmds (l : list ClientCommand) (c : RemoteClient) : RemoteClient :=
  mkClient (running c) l (pending_requests c) (outcomes c) (requests c).
Definition set_pending (m : gmap Z nat) (c : RemoteClient) : RemoteClient :=
  mkClient (running c) (cmds c) m (outcomes c) (requests c).

(** The sender a command carries. *)
Definition cmd_tx (cmd : ClientCommand) : option nat :=
  match cmd with CSend _ tx => tx | CClose => None end.

(** The end of the task drops the map and the command channel, and with them
    every sender they hold. *)
Definition task_ends (c : RemoteClient) : RemoteClient :=
  let dropped := ((fun p => snd p) <$> map_to_list (pending_requests c)) ++ omap cmd_tx (cmds c) in
  foldl (fun c id => resolve id (Err TDisconnected) c)
    (mkClient false [] ∅ (outcomes c) (requests c)) dropped.

(** [RemoteClient::send] up to the point where it waits, for a request named
    [id]; and [do_send]. *)
Definition send (id : nat) (envelope : Envelope) (c : RemoteClient) : RemoteClient :=
  let c := mkClient (running c) (cmds c) (pending_requests c) (outcomes c)
             (<[id := envelope]> (requests c)) in
  if running c then set_cmds (cmds c ++ [CSend envelope (Some id)]) c
  else resolve id (Err TDisconnected) c.

Definition do_send (envelope : Envelope) (c : RemoteClient) : RemoteClient * Result unit TransportError :=
  if running c then (set_cmds (cmds c ++ [CSend envelope None]) c, Ok tt)
  else (c, Err TDisconnected).

(** [pending.insert(correlation_id, tx)]: the sender it replaces is dropped. *)
Definition track (cid : Z) (tx : option nat) (c : RemoteClient) : RemoteClient :=
  match tx with
  | Some id =>
      let old := pending_requests c !! cid in
      resolve_opt old (Err TDisconnected) (set_pending (<[cid := id]> (pending_requests c)) c)
  | None => c
  end.

(** [if let Some(tx) = pending.remove(&cid) { tx.send(r) }]. *)
Definition complete (cid : Z) (r : Outcome) (c : RemoteClient) : RemoteClient :=
  match pending_requests c !! cid with
  | Some id => resolve id r (set_pending (delete cid (pending_requests c)) c)
  | None => c
  end.

(** The body of the first branch, with the command that was received; [sent]
    is the result of [conn.send]. *)
Definition handle_one (cmd : ClientCommand) (sent : Result unit TransportError) (c : RemoteClient) : RemoteClient :=
  match cmd with
  | CSend envelope tx =>
      let cid := correlation_id envelope in
      let c := track cid tx c in
      match sent with
      | Ok _ => c
      | Err e => complete cid (Err e) c
      end
  | CClose => task_ends c
  end.

(** The first branch. *)
Definition handle_cmd (sent : Result unit TransportError) (c : RemoteClient) : RemoteClient :=
  match cmds c with
  | [] => c
  | cmd :: rest => handle_one cmd sent (set_cmds rest c)
  end.

(** The second branch: what [conn.recv()] gave. *)
Definition handle_recv (r : Result Envelope TransportError) (c : RemoteClient) : RemoteClient :=
  match r with
  | Ok envelope => if is_response envelope then complete (correlation_id envelope) (Ok envelope) c else c
  | Err TDisconnected => task_ends c
  | Err _ => c
  end.

(** ** Runs *)

Inductive Event :=
| EvSend (envelope : Envelope)             (** somebody calls [send] *)
| EvDoSend (envelope : Envelope)
| EvCmd (sent : Result unit TransportError)
| EvRecv (r : Result Envelope TransportError).

(** Requests are numbered in the order they are made. *)
Definition step (c : RemoteClient) (ev : Event) : RemoteClient :=
  match ev with
  | EvSend e => send (size (requests c)) e c
  | EvDoSend e => fst (do_send e c)
  | EvCmd sent => if running c then handle_cmd sent c else c
  | EvRecv r => if running c then handle_recv r c else c
  end.

Definition run_client (evs : list Event) : RemoteClient := foldl step RemoteClient_new evs.

(** ** Invariants *)

(** Where a request that has no outcome yet is. *)
Definition waiting (c : RemoteClient) (id : nat) : Prop :=
  (exists e, CSend e (Some id) ∈ cmds c /\ requests c !! id = Some e) \/
  (exists e, requests c !! id = Some e /\ pending_requests c !! correlation_id e = Some id).

(** An outcome that is a response belongs to the request. *)
Definition answers_request (c : RemoteClient) (id : nat) (r : Outcome) : Prop :=
  match r with
  | Ok resp => exists e, requests c !! id = Some e /\ is_response resp = true /\
                 correlation_id resp = correlation_id e
  | Err _ => True
  end.

Record client_ok (c : RemoteClient) : Prop := mkClientOk {
  ok_names id : is_Some (requests c !! id) <-> id < size (requests c);
  ok_cmds e id : CSend e (Some id) ∈ cmds c -> requests c !! id = Some e;
  ok_pending cid id : pending_requests c !! cid = Some id ->
    exists e, requests c !! id = Some e /\ correlation_id e = cid;
  ok_request id e : requests c !! id = Some e -> is_Some (outcomes c !! id) \/ waiting c id;
  ok_outcome id r : outcomes c !! id = Some r -> answers_request c id r;
  ok_ended : running c = false -> cmds c = [] /\ pending_requests c = ∅;
}.

Lemma client_ok_new : client_ok RemoteClient_new.
Proof.
  split; simpl; intros; try (by simplify_map_eq).
  - rewrite lookup_empty, map_size_empty. split; [by intros [? ?]|lia].
  - by apply elem_of_nil in H.
Qed.

Lemma resolve_fields id r c :
  running (resolve id r c) = running c /\ cmds (resolve id r c) = cmds c /\
  pending_requests (resolve id r c) = pending_requests c /\ requests (resolve id r c) = requests c.
Proof. done. Qed.

Lemma resolve_lookup id r c id' :
  outcomes (resolve id r c) !! id' =
    match outcomes c !! id' with Some x => Some x | None => if decide (id = id') then Some r else None end.
Proof.
  simpl. destruct (outcomes c !! id) as [x|] eqn:Hx.
  - destruct (outcomes c !! id') eqn:Hx'; [done|]. case_decide; [congruence|done].
  - rewrite lookup_insert. case_decide; subst; [by rewrite Hx|]. by destruct (outcomes c !! id').
Qed.

(** Giving a request an outcome. *)
Lemma resolve_ok id r c : client_ok c -> answers_request c id r -> client_ok (resolve id r c).
Proof.
  intros [K1 K2 K3 K4 K5 K6] Hr. split; try done.
  - intros id' e He. destruct (K4 id' e He) as [Ho|Hw]; [|by right]. left.
    rewrite resolve_lookup. destruct Ho as [x ->]. done.
  - intros id' r'. rewrite resolve_lookup. destruct (outcomes c !! id') as [x|] eqn:Hx.
    + intros [= ->]. by apply K5 in Hx.
    + case_decide; [|done]. intros [= ->]. by subst.
Qed.

Lemma foldl_resolve_fields ids r c :
  let c' := foldl (fun c id => resolve id r c) c ids in
  running c' = running c /\ cmds c' = cmds c /\ pending_requests c' = pending_requests c /\
  requests c' = requests c /\
  (forall id, outcomes c' !! id =
     match outcomes c !! id with Some x => Some x | None => if decide (id ∈ ids) then Some r else None end).
Proof.
  revert c. induction ids as [|i ids IH]; intros c; cbn [foldl].
  - split_and!; try done. intros id. destruct (outcomes c !! id); [done|].
    case_decide as Hd; [by apply not_elem_of_nil in Hd|done].
  - destruct (IH (resolve i r c)) as (-> & -> & -> & -> & Ho). split_and!; try done.
    intros id. rewrite Ho, resolve_lookup. destruct (outcomes c !! id); [done|].
    destruct (decide (i = id)) as [->|Hne].
    + by rewrite decide_True by (apply elem_of_cons; by left).
    + destruct (decide (id ∈ ids)).
      * by rewrite decide_True by (apply elem_of_cons; by right).
      * rewrite decide_False; [done|]. intros [?|?]%elem_of_cons; congruence.
Qed.

(** When the task ends every request has its outcome. *)
Lemma task_ends_spec c :
  client_ok c ->
  client_ok (task_ends c) /\ running (task_ends c) = false /\
  (forall id, is_Some (requests c !! id) -> is_Some (outcomes (task_ends c) !! id)) /\
  requests (task_ends c) = requests c.
Proof.
  intros [K1 K2 K3 K4 K5 K6]. unfold task_ends.
  set (ids := ((fun p => p.2) <$> map_to_list (pending_requests c)) ++ omap cmd_tx (cmds c)).
  destruct (foldl_resolve_fields ids (Err TDisconnected) (mkClient false [] ∅ (outcomes c) (requests c)))
    as (E1 & E2 & E3 & E4 & E5). simpl in *.
  assert (Hall : forall id, is_Some (requests c !! id) ->
    is_Some (outcomes (foldl (fun c id => resolve id (Err TDisconnected) c)
      (mkClient false [] ∅ (outcomes c) (requests c)) ids) !! id)).
  { intros id [e He]. rewrite E5. destruct (K4 id e He) as [[x ->]|Hw]; [done|].
    destruct (outcomes c !! id); [done|]. rewrite decide_True; [done|]. subst ids. apply elem_of_app.
    destruct Hw as [(e' & Hin & _)|(e' & _ & Hp)].
    - right. apply list_elem_of_omap. by exists (CSend e' (Some id)).
    - left. apply list_elem_of_fmap. exists (correlation_id e', id). split; [done|].
      by apply elem_of_map_to_list. }
  split_and!; [|done|done|done]. split; rewrite ?E2, ?E3, ?E4; try done.
  - intros e id Hin. by apply not_elem_of_nil in Hin.
  - intros id e He. left. apply Hall. by rewrite He.
  - intros id r. rewrite E5. intros Hr. unfold answers_request. rewrite E4.
    destruct (outcomes c !! id) as [x|] eqn:Hx.
    + simplify_eq. by apply K5 in Hx.
    + case_decide; by simplify_eq.
Qed.

(** [waiting] survives a change of the channel and the map that keeps its entry. *)
Lemma complete_ok cid r c :
  client_ok c -> (forall id, pending_requests c !! cid = Some id -> answers_request c id r) ->
  client_ok (complete cid r c).
Proof.
  intros Hok Hr. unfold complete. destruct (pending_requests c !! cid) as [id|] eqn:Hp; [|done].
  specialize (Hr id eq_refl). destruct Hok as [K1 K2 K3 K4 K5 K6]. split; simpl.
  - done.
  - done.
  - intros cid' id' Hd. apply lookup_delete_Some in Hd as [_ Hd]. eauto.
  - intros id' e He. destruct (K4 id' e He) as [Ho|Hw].
    + left. destruct Ho as [x Hx]. destruct (outcomes c !! id) eqn:Hx0; [by exists x|].
      rewrite lookup_insert. case_decide; eauto.
    + destruct (decide (id' = id)) as [->|Hne].
      * left. destruct (outcomes c !! id) as [x|] eqn:Hx0; [by exists x|].
        rewrite lookup_insert_eq. eauto.
      * right. destruct Hw as [Hw|(e' & He' & Hpe)]; [by left|]. right. exists e'. simpl.
        split; [done|]. rewrite lookup_delete_ne; [done|]. intros ->. congruence.
  - intros id' r'. pose proof (resolve_lookup id r c id') as Hl. simpl in Hl. rewrite Hl.
    destruct (outcomes c !! id') as [x|] eqn:Hx.
    + intros [= ->]. by apply K5 in Hx.
    + case_decide; [|done]. intros [= ->]. by subst.
  - intros Hrun. destruct (K6 Hrun) as [H1 H2]. split; [done|]. rewrite H2 in Hp. by rewrite lookup_empty in Hp.
Qed.

Lemma track_ok e tx rest c :
  client_ok c -> running c = true -> cmds c = CSend e tx :: rest ->
  client_ok (track (correlation_id e) tx (set_cmds rest c)).
Proof.
  intros [K1 K2 K3 K4 K5 K6] Hrun Hc. unfold track. destruct tx as [id|].
  - set (c1 := set_pending _ _).
    assert (He : requests c !! id = Some e) by (apply K2; rewrite Hc; apply elem_of_cons; by left).
    (* the request replaced, if any, is the only one that stops waiting *)
    assert (Hw : forall id', waiting c id' ->
      waiting c1 id' \/ pending_requests c !! correlation_id e = Some id').
    { intros id' [(e' & Hin & He')|(e' & He' & Hp)].
      - rewrite Hc in Hin. apply elem_of_cons in Hin as [[= -> ->]|Hin].
        + left. right. exists e. simpl. split; [done|]. by rewrite lookup_insert_eq.
        + left. left. exists e'. by simpl.
      - destruct (decide (correlation_id e' = correlation_id e)) as [Heq|Hne].
        + right. by rewrite <- Heq.
        + left. right. exists e'. simpl. split; [done|]. by rewrite lookup_insert_ne. }
    assert (Hrest : forall e' id', CSend e' (Some id') ∈ rest -> requests c !! id' = Some e').
    { intros e' id' Hin. apply K2. rewrite Hc. apply elem_of_cons. by right. }
    assert (Hpend : forall cid id', <[correlation_id e := id]> (pending_requests c) !! cid = Some id' ->
      exists e', requests c !! id' = Some e' /\ correlation_id e' = cid).
    { intros cid id'. rewrite lookup_insert. case_decide; intros; simplify_eq; eauto. }
    simpl. destruct (pending_requests c !! correlation_id e) as [old|] eqn:Hold; simpl.
    + split; simpl; try done; [| |by rewrite Hrun].
      * intros id' e' He'. destruct (K4 id' e' He') as [Ho|Hwt].
        -- left. pose proof (resolve_lookup old (Err TDisconnected) c id') as Hl. simpl in Hl.
           rewrite Hl. by destruct Ho as [x ->].
        -- destruct (Hw id' Hwt) as [?|Hsome]; [by right|]. simplify_eq. left.
           pose proof (resolve_lookup id' (Err TDisconnected) c id') as Hl. simpl in Hl. rewrite Hl.
           rewrite decide_True by done. by destruct (outcomes c !! id').
      * intros id' r'. pose proof (resolve_lookup old (Err TDisconnected) c id') as Hl. simpl in Hl.
        rewrite Hl. destruct (outcomes c !! id') as [x|] eqn:Hx.
        -- intros [= ->]. by apply K5 in Hx.
        -- case_decide; by intros [= <-].
    + split; simpl; try done; [|by rewrite Hrun].
      intros id' e' He'. destruct (K4 id' e' He') as [Ho|Hwt]; [by left|].
      destruct (Hw id' Hwt) as [?|Hsome]; [by right|done].
  - split; simpl; try done.
    + intros e' id Hin. apply K2. rewrite Hc. apply elem_of_cons. by right.
    + intros id e' He'. destruct (K4 id e' He') as [Ho|Hwt]; [by left|]. right.
      destruct Hwt as [(e1 & Hin & He1)|Hp]; [|by right]. left. exists e1. split; [|done].
      rewrite Hc in Hin. by apply elem_of_cons in Hin as [[=]|Hin].
    + by rewrite Hrun.
Qed.

Lemma handle_recv_ok r c : client_ok c -> client_ok (handle_recv r c).
Proof.
  intros Hok. destruct r as [env|[]]; simpl; try done; [|by apply task_ends_spec].
  destruct (is_response env) eqn:Hresp; [|done]. apply complete_ok; [done|].
  intros id Hp. destruct (ok_pending _ Hok _ _ Hp) as (e & He & Hcid). simpl. eauto.
Qed.

Lemma set_cmds_tl_ok rest c : client_ok c -> running c = true -> cmds c = CClose :: rest -> client_ok (set_cmds rest c).
Proof.
  intros [K1 K2 K3 K4 K5 K6] Hrun Hc. split; simpl; try done.
  - intros e id Hin. apply K2. rewrite Hc. apply elem_of_cons. by right.
  - intros id e He. destruct (K4 id e He) as [?|[(e1 & Hin & He1)|Hp]]; [by left| |by right; right].
    right. left. exists e1. split; [|done]. rewrite Hc in Hin. by apply elem_of_cons in Hin as [[=]|?].
  - by rewrite Hrun.
Qed.

Lemma handle_cmd_ok sent c : client_ok c -> running c = true -> client_ok (handle_cmd sent c).
Proof.
  intros Hok Hrun. unfold handle_cmd, handle_one. destruct (cmds c) as [|[e tx|] rest] eqn:Hc; [done| |].
  - pose proof (track_ok e tx rest c Hok Hrun Hc) as Ht. destruct sent as [u|err]; [done|].
    apply complete_ok; [done|]. by intros.
  - apply task_ends_spec. by apply set_cmds_tl_ok.
Qed.

(** Requests are numbered from zero on. *)
Lemma names_fresh (m : gmap nat Envelope) :
  (forall id, is_Some (m !! id) <-> id < size m) -> m !! size m = None.
Proof.
  intros Hm. destruct (m !! size m) eqn:H; [|done].
  assert (size m < size m) by (apply Hm; eauto). lia.
Qed.

Lemma names_insert (m : gmap nat Envelope) e :
  (forall id, is_Some (m !! id) <-> id < size m) ->
  forall id, is_Some (<[size m := e]> m !! id) <-> id < size (<[size m := e]> m).
Proof.
  intros Hm id. rewrite map_size_insert_None by (by apply names_fresh). rewrite lookup_insert. case_decide as Hd.
  - subst. split; [lia|by eauto].
  - rewrite Hm. lia.
Qed.

Lemma send_ok e c : client_ok c -> client_ok (send (size (requests c)) e c).
Proof.
  intros [K1 K2 K3 K4 K5 K6]. unfold send. set (n := size (requests c)).
  assert (Hn : requests c !! n = None) by (by apply names_fresh).
  assert (Hkeep : forall id e', requests c !! id = Some e' -> <[n := e]> (requests c) !! id = Some e').
  { intros id e' He. rewrite lookup_insert_ne; [done|]. intros ->. congruence. }
  assert (Hans : forall id r, answers_request c id r ->
    forall c', requests c' = <[n := e]> (requests c) -> answers_request c' id r).
  { intros id [resp|] Ha c' Hc'; [|done]. destruct Ha as (e' & He' & ?). exists e'. rewrite Hc'. eauto. }
  pose proof (names_insert (requests c) e K1) as Hnames. fold n in Hnames.
  assert (Hreq : forall id e', <[n := e]> (requests c) !! id = Some e' ->
    id = n \/ requests c !! id = Some e').
  { intros id e'. rewrite lookup_insert. case_decide; [by left|by right]. }
  destruct (running c) eqn:Hrun; simpl.
  - split; simpl; try done.
    + intros e' id Hin. apply elem_of_app in Hin as [Hin|Hin]; [by apply Hkeep, K2|].
      apply list_elem_of_singleton in Hin as [= -> ->]. by rewrite lookup_insert_eq.
    + intros cid id Hp. destruct (K3 cid id Hp) as (e' & He' & ?). eauto.
    + intros id e' He'. destruct (Hreq _ _ He') as [->|He].
      * right. left. exists e. simpl. rewrite lookup_insert_eq. split; [|done].
        apply elem_of_app. right. by apply list_elem_of_singleton.
      * destruct (K4 id e' He) as [?|[(e1 & Hin & He1)|(e1 & He1 & Hp)]]; [by left| |].
        -- right. left. exists e1. simpl. split; [|by apply Hkeep]. apply elem_of_app. by left.
        -- right. right. exists e1. simpl. eauto.
    + intros id r Hr. apply K5 in Hr. by eapply Hans.
  - destruct (K6 eq_refl) as [Hc Hp].
    split; simpl; try done.
    + intros e' id Hin. rewrite Hc in Hin. by apply not_elem_of_nil in Hin.
    + intros cid id. rewrite Hp. by rewrite lookup_empty.
    + intros id e' He'. left.
      pose proof (resolve_lookup n (Err TDisconnected) c id) as Hl. simpl in Hl. rewrite Hl.
      destruct (outcomes c !! id) as [x|] eqn:Hx; [done|].
      destruct (Hreq _ _ He') as [->|He]; [by rewrite decide_True|].
      destruct (K4 id e' He) as [[x Hx']|[(e1 & Hin & _)|(e1 & _ & Hpe)]]; [congruence| |].
      * rewrite Hc in Hin. by apply not_elem_of_nil in Hin.
      * rewrite Hp in Hpe. by rewrite lookup_empty in Hpe.
    + intros id r. pose proof (resolve_lookup n (Err TDisconnected) c id) as Hl. simpl in Hl. rewrite Hl.
      destruct (outcomes c !! id) as [x|] eqn:Hx.
      * intros [= ->]. apply K5 in Hx. by eapply Hans.
      * case_decide; by intros [= <-].
Qed.

Lemma do_send_ok e c : client_ok c -> client_ok (fst (do_send e c)).
Proof.
  intros Hok. unfold do_send. destruct (running c) eqn:Hrun; [|done]. simpl.
  destruct Hok as [K1 K2 K3 K4 K5 K6]. split; simpl; try done.
  - intros e' id Hin. apply elem_of_app in Hin as [Hin|Hin]; [by apply K2|].
    by apply list_elem_of_singleton in Hin.
  - intros id e' He. destruct (K4 id e' He) as [?|[(e1 & Hin & He1)|?]]; [by left| |by right; right].
    right. left. exists e1. simpl. split; [|done]. apply elem_of_app. by left.
  - by rewrite Hrun.
Qed.

Lemma step_ok c ev : client_ok c -> client_ok (step c ev).
Proof.
  intros Hok. destruct ev; simpl.
  - by apply send_ok.
  - by apply do_send_ok.
  - destruct (running c) eqn:Hrun; [by apply handle_cmd_ok|done].
  - destruct (running c); [by apply handle_recv_ok|done].
Qed.

Lemma run_client_ok evs : client_ok (run_client evs).
Proof.
  unfold run_client. generalize client_ok_new. generalize RemoteClient_new.
  induction evs as [|ev evs IH]; intros c Hok; simpl; [done|]. by apply IH, step_ok.
Qed.

(** ** Distinct correlation ids *)

(** A request waits in one place only. *)
Record client_uniq (c : RemoteClient) : Prop := mkUniq {
  uq_cmds : NoDup (omap cmd_tx (cmds c));
  uq_pending cid id : pending_requests c !! cid = Some id -> id ∉ omap cmd_tx (cmds c);
}.

Lemma omap_cmd_request c id :
  client_ok c -> id ∈ omap cmd_tx (cmds c) -> is_Some (requests c !! id).
Proof.
  intros Hok Hin. apply list_elem_of_omap in Hin as ([e tx|] & Hin & Htx); [|done].
  simpl in Htx. subst tx. rewrite (ok_cmds _ Hok e id Hin). eauto.
Qed.

Lemma fresh_request c : client_ok c -> requests c !! (size (requests c)) = None.
Proof. intros Hok. apply names_fresh, (ok_names _ Hok). Qed.

(** The events of a connection that does not fail. *)
Definition healthy (ev : Event) : Prop :=
  match ev with
  | EvCmd (Err _) | EvRecv (Err _) => False
  | _ => True
  end.

Definition no_errors (c : RemoteClient) : Prop :=
  running c = true /\ (CClose ∉ cmds c) /\
  forall id r, outcomes c !! id = Some r -> exists resp, r = Ok resp.

(** No two requests have the same correlation id. *)
Definition ids_distinct (c : RemoteClient) : Prop :=
  forall i j ei ej, requests c !! i = Some ei -> requests c !! j = Some ej ->
    correlation_id ei = correlation_id ej -> i = j.

Lemma requests_grow c ev id e :
  client_ok c -> requests c !! id = Some e -> requests (step c ev) !! id = Some e.
Proof.
  intros Hok He. destruct ev as [e'|e'|sent|r]; simpl.
  - unfold send. pose proof (fresh_request c Hok) as Hn. destruct (running c); simpl;
      (rewrite lookup_insert_ne; [done|congruence]).
  - unfold do_send. by destruct (running c).
  - destruct (running c); [|done]. unfold handle_cmd, handle_one. destruct (cmds c) as [|[e1 tx|] rest]; [done| |].
    + assert (Ht : requests (track (correlation_id e1) tx (set_cmds rest c)) = requests c).
      { unfold track, resolve_opt. destruct tx; [|done]. by case_match. }
      destruct sent; [by rewrite Ht|]. unfold complete. case_match; simpl; by rewrite Ht.
    + unfold task_ends. simpl.
      by destruct (foldl_resolve_fields (((fun p => p.2) <$> map_to_list (pending_requests c)) ++ omap cmd_tx rest)
        (Err TDisconnected) (mkClient false [] ∅ (outcomes c) (requests c))) as (_ & _ & _ & -> & _).
  - destruct (running c); [|done]. destruct r as [env|[]]; simpl; try done.
    + destruct (is_response env); [|done]. unfold complete. by case_match.
    + unfold task_ends.
      by destruct (foldl_resolve_fields (((fun p => p.2) <$> map_to_list (pending_requests c)) ++ omap cmd_tx (cmds c))
        (Err TDisconnected) (mkClient false [] ∅ (outcomes c) (requests c))) as (_ & _ & _ & -> & _).
Qed.

Lemma task_ends_running c : running (task_ends c) = false.
Proof.
  unfold task_ends. by destruct (foldl_resolve_fields
    (((fun p => p.2) <$> map_to_list (pending_requests c)) ++ omap cmd_tx (cmds c))
    (Err TDisconnected) (mkClient false [] ∅ (outcomes c) (requests c))) as (-> & _).
Qed.

(** An outcome stays what it is. *)
Lemma resolve_stays id0 r0 c id r : outcomes c !! id = Some r -> outcomes (resolve id0 r0 c) !! id = Some r.
Proof. intros H. rewrite resolve_lookup. by rewrite H. Qed.

Lemma complete_stays cid r0 c id r : outcomes c !! id = Some r -> outcomes (complete cid r0 c) !! id = Some r.
Proof. intros H. unfold complete. case_match; [by apply resolve_stays|done]. Qed.

Lemma task_ends_stays c id r : outcomes c !! id = Some r -> outcomes (task_ends c) !! id = Some r.
Proof.
  intros H. unfold task_ends. destruct (foldl_resolve_fields
    (((fun p => p.2) <$> map_to_list (pending_requests c)) ++ omap cmd_tx (cmds c))
    (Err TDisconnected) (mkClient false [] ∅ (outcomes c) (requests c))) as (_ & _ & _ & _ & E). rewrite E. simpl. by rewrite H.
Qed.

Lemma outcomes_stay c ev id r : outcomes c !! id = Some r -> outcomes (step c ev) !! id = Some r.
Proof.
  intros H. destruct ev as [e|e|sent|x]; simpl.
  - unfold send. simpl. destruct (running c); [done|]. by apply resolve_stays.
  - unfold do_send. by destruct (running c).
  - destruct (running c); [|done]. unfold handle_cmd, handle_one. destruct (cmds c) as [|[e tx|] rest]; [done| |].
    + assert (Ht : outcomes (track (correlation_id e) tx (set_cmds rest c)) !! id = Some r).
      { unfold track, resolve_opt. destruct tx; [|done]. case_match; [by apply resolve_stays|done]. }
      destruct sent; [done|]. by apply complete_stays.
    + by apply task_ends_stays.
  - destruct (running c); [|done]. destruct x as [e|[]]; simpl; try done; [|by apply task_ends_stays].
    destruct (is_response e); [by apply complete_stays|done].
Qed.

Lemma complete_uniq cid r c : client_uniq c -> client_uniq (complete cid r c).
Proof.
  intros [U1 U2]. unfold complete. destruct (pending_requests c !! cid); [|done]. split; simpl; [done|].
  intros cid' id' Hd. apply lookup_delete_Some in Hd as [_ Hd]. eauto.
Qed.

Lemma complete_no_errors cid resp c : no_errors c -> no_errors (complete cid (Ok resp) c).
Proof.
  intros (H1 & H2 & H3). unfold complete. destruct (pending_requests c !! cid) as [id|]; [|done].
  split_and!; try done. intros id' r. rewrite resolve_lookup. simpl.
  destruct (outcomes c !! id') eqn:Ho; [intros [= <-]; eauto|]. case_decide; [|done]. intros [= <-]. eauto.
Qed.

(** The request that is taken up next has an id that nobody waits for. *)
Lemma next_not_pending c e id rest :
  client_ok c -> client_uniq c -> ids_distinct c -> cmds c = CSend e (Some id) :: rest ->
  pending_requests c !! correlation_id e = None.
Proof.
  intros Hok [_ U2] Hd Hc. destruct (pending_requests c !! correlation_id e) as [o|] eqn:Ho; [|done]. exfalso.
  destruct (ok_pending _ Hok _ _ Ho) as (eo & Heo & Hco).
  assert (He : requests c !! id = Some e)
    by (apply (ok_cmds _ Hok); rewrite Hc; apply elem_of_cons; by left).
  assert (o = id) as -> by (by eapply Hd).
  apply (U2 _ _ Ho). rewrite Hc. simpl. apply elem_of_cons. by left.
Qed.

Lemma step_no_errors c ev :
  client_ok c -> client_uniq c -> no_errors c -> healthy ev -> ids_distinct (step c ev) ->
  client_uniq (step c ev) /\ no_errors (step c ev).
Proof.
  intros Hok Hu Hne Hh Hd.
  assert (Hdc : ids_distinct c).
  { intros i j ei ej Hi Hj. apply (requests_grow _ ev) in Hi, Hj; [|done..]. eauto. }
  pose proof (fun e id rest => next_not_pending c e id rest Hok Hu Hdc) as Hold.
  destruct Hu as [U1 U2]. destruct Hne as (N1 & N2 & N3).
  destruct ev as [e|e|[[]|?]|[env|?]]; simpl; try done.
  - unfold send. simpl. rewrite N1. simpl. pose proof (fresh_request c Hok) as Hn. split.
    + split; simpl.
      * rewrite omap_app. simpl. apply NoDup_app. split_and!; [done| |apply NoDup_singleton].
        intros id Hin Heq. apply list_elem_of_singleton in Heq. subst.
        apply (omap_cmd_request c) in Hin as [? ?]; [congruence|done].
      * intros cid id Hp. rewrite omap_app. simpl. intros [Hin|Hin]%elem_of_app; [by eapply U2|].
        apply list_elem_of_singleton in Hin. subst. destruct (ok_pending _ Hok _ _ Hp) as (? & ? & _). congruence.
    + split_and!; simpl; [done| |done]. intros [Hin|Hin]%elem_of_app; [done|].
      by apply list_elem_of_singleton in Hin.
  - unfold do_send. rewrite N1. simpl. split.
    + split; simpl; rewrite omap_app; simpl; rewrite app_nil_r; done.
    + split_and!; simpl; [done| |done]. intros [Hin|Hin]%elem_of_app; [done|].
      by apply list_elem_of_singleton in Hin.
  - rewrite N1. unfold handle_cmd, handle_one. destruct (cmds c) as [|[e tx|] rest] eqn:Hc.
    + split; [by split; rewrite ?Hc|]. split_and!; [done|by rewrite Hc|done].
    + assert (N2' : CClose ∉ rest) by (intros Hin; apply N2, elem_of_cons; by right).
      destruct tx as [id|]; simpl.
      * simpl in U1. apply NoDup_cons in U1 as [Hnin U1].
        rewrite (Hold e id rest) by (done || congruence). simpl. split; [split; simpl; [done|]|split_and!; done].
        intros cid id'. rewrite lookup_insert. case_decide; intros; simplify_eq; [done|].
        intros Hin. eapply U2; [done|]. simpl. apply elem_of_cons. by right.
      * split; [split; simpl; done|split_and!; done].
    + exfalso. apply N2, elem_of_cons. by left.
  - rewrite N1. destruct (is_response env); [|done].
    split; [by apply complete_uniq|by apply complete_no_errors].
Qed.

Lemma run_client_snoc evs ev : run_client (evs ++ [ev]) = step (run_client evs) ev.
Proof. unfold run_client. by rewrite foldl_app. Qed.

Lemma healthy_run evs :
  Forall healthy evs -> ids_distinct (run_client evs) ->
  client_uniq (run_client evs) /\ no_errors (run_client evs).
Proof.
  induction evs as [|ev evs IH] using rev_ind; intros Hh Hd.
  - split; [split; simpl; [constructor|]|split_and!; simpl; [done|apply not_elem_of_nil|]];
      intros *; by rewrite lookup_empty.
  - rewrite run_client_snoc in *. apply Forall_app in Hh as [Hh Hev].
    rewrite Forall_singleton in Hev.
    assert (Hdc : ids_distinct (run_client evs)).
    { intros i j ei ej Hi Hj. apply (requests_grow _ ev) in Hi, Hj; [|apply run_client_ok..]. eauto. }
    destruct (IH Hh Hdc) as [Hu Hn]. apply (step_no_errors _ _ (run_client_ok evs) Hu Hn); done.
Qed.

(** ** The properties *)

(** A caller only ever gets a response with the correlation id of its
    request, whatever happens on the connection and in whatever order. *)
Theorem response_matches_request evs id resp :
  outcomes (run_client evs) !! id = Some (Ok resp) ->
  exists req, requests (run_client evs) !! id = Some req /\ is_response resp = true /\
    correlation_id resp = correlation_id req.
Proof. intros H. apply (ok_outcome _ (run_client_ok evs) _ _ H). Qed.

(** C16: no request is lost: every request made on a client has an outcome or
    is in the command channel or in the map of pending requests under its
    correlation id, and once the task has ended every request has an outcome. *)
Theorem requests_answered_or_waiting evs id req :
  requests (run_client evs) !! id = Some req ->
  is_Some (outcomes (run_client evs) !! id) \/
  running (run_client evs) = true /\ waiting (run_client evs) id.
Proof.
  intros H. destruct (ok_request _ (run_client_ok evs) _ _ H) as [Ho|Hw]; [by left|].
  destruct (running (run_client evs)) eqn:Hrun; [by right|]. exfalso.
  destruct (ok_ended _ (run_client_ok evs) Hrun) as [Hc Hp].
  destruct Hw as [(e & Hin & _)|(e & _ & Hpe)].
  - rewrite Hc in Hin. by apply not_elem_of_nil in Hin.
  - rewrite Hp in Hpe. by rewrite lookup_empty in Hpe.
Qed.

(** Requests with distinct correlation ids do not disturb each other: on
    a connection without errors no request fails, in any interleaving of
    requests, transmissions and responses. *)
Theorem distinct_requests_never_fail evs id r :
  Forall healthy evs -> ids_distinct (run_client evs) ->
  outcomes (run_client evs) !! id = Some r -> exists resp, r = Ok resp.
Proof. intros Hh Hd Ho. destruct (healthy_run evs Hh Hd) as [_ (_ & _ & H)]. eauto. Qed.

(** Requests with the same correlation id do: when the second is taken
    up, the first fails with [Disconnected] on a healthy connection, and the
    response that comes next goes to the second. *)
Theorem same_id_requests_collide e1 e2 resp :
  correlation_id e1 = correlation_id e2 -> correlation_id resp = correlation_id e1 ->
  is_response resp = true ->
  let c := run_client [EvSend e1; EvSend e2; EvCmd (Ok tt); EvCmd (Ok tt); EvRecv (Ok resp)] in
  outcomes c !! 0 = Some (Err TDisconnected) /\ outcomes c !! 1 = Some (Ok resp).
Proof.
  intros H12 Hr Hresp. unfold run_client. simpl.
  assert (Hs : size (<[0:=e1]> (∅ : gmap nat Envelope)) = 1)
    by (rewrite map_size_insert_None, map_size_empty; done).
  unfold send, RemoteClient_new. cbn [running requests cmds pending_requests outcomes set_cmds app].
  rewrite map_size_empty. cbn [running requests cmds pending_requests outcomes set_cmds app step send].
  rewrite Hs. unfold handle_cmd, handle_one. simpl. rewrite lookup_empty. simpl. rewrite H12, lookup_insert_eq. simpl.
  rewrite Hresp. unfold complete. simpl. rewrite Hr, H12, lookup_insert_eq. simpl.
  by repeat first [rewrite lookup_insert_eq | rewrite lookup_insert_ne by done | rewrite lookup_empty
    | progress simpl].
Qed.

(** ** Witnesses *)

Definition req (cid : Z) : Envelope := mkEnvelope "m" [] cid "n" "a" false.
Definition resp (cid : Z) : Envelope := mkEnvelope "r" [] cid "s" "n" true.

(** Two requests, answered in the opposite order. *)
Definition two_requests : list Event :=
  [EvSend (req 1); EvCmd (Ok tt); EvSend (req 2); EvCmd (Ok tt); EvRecv (Ok (resp 2)); EvRecv (Ok (resp 1))].

Lemma response_matches_request_witness :
  exists r, requests (run_client two_requests) !! 0 = Some r /\ is_response (resp 1) = true /\
    correlation_id (resp 1) = correlation_id r.
Proof. apply (response_matches_request two_requests 0 (resp 1)). vm_compute. reflexivity. Defined.

Lemma requests_answered_or_waiting_witness :
  is_Some (outcomes (run_client [EvSend (req 1); EvCmd (Ok tt)]) !! 0) \/
  running (run_client [EvSend (req 1); EvCmd (Ok tt)]) = true /\
    waiting (run_client [EvSend (req 1); EvCmd (Ok tt)]) 0.
Proof. apply (requests_answered_or_waiting [EvSend (req 1); EvCmd (Ok tt)] 0 (req 1)). vm_compute. reflexivity. Defined.

Lemma distinct_requests_never_fail_witness :
  exists r, Ok (resp 1) = Ok (E := TransportError) r.
Proof.
  apply (distinct_requests_never_fail two_requests 0 (Ok (resp 1))).
  - repeat constructor.
  - assert (E : requests (run_client two_requests) = {[0 := req 1; 1 := req 2]}) by (vm_compute; reflexivity).
    intros i j ei ej. rewrite E.
    intros [[<- <-]|[_ [<- <-]%lookup_singleton_Some]]%lookup_insert_Some
      [[<- <-]|[_ [<- <-]%lookup_singleton_Some]]%lookup_insert_Some; done.
  - vm_compute. reflexivity.
Defined.

Lemma same_id_requests_collide_witness :
  let c := run_client [EvSend (req 0); EvSend (req 0); EvCmd (Ok tt); EvCmd (Ok tt); EvRecv (Ok (resp 0))] in
  outcomes c !! 0 = Some (Err TDisconnected) /\ outcomes c !! 1 = Some (Ok (resp 0)).
Proof. apply (same_id_requests_collide (req 0) (req 0) (resp 0)); reflexivity. Defined.
