(* ===== verification/Backpressure.v ===== *)
(** * Backpressure: the calls of a remote client and its bounded channel

    Client.v takes the command channel of a [RemoteClient] as a list: a command
    is in it as soon as [send] or [do_send] is called. In the code
    (src/remote/client.rs) the channel has room for 32 commands; a call waits
    for room, may give up meanwhile ([send_timeout]) or be dropped, and only
    then waits for its response. This file models the calls as futures that
    are polled, over the channels of Tokio.v, and shows that a client with its
    calls is a client of Client.v at which a command arrives when the channel
    accepts it. *)

From S2P Require Import Prelude Tokio Wire Client.

Section Calls.
Context {K : Tokio}.

(** ** Calls *)

(** Where the future of a call is: in [cmd_tx.send(..).await], in [rx.await]
    for the request of that name, returned, or dropped by its owner. The result
    of [do_send] has no envelope; [rx] is the name of the request whose response
    the call was waiting for, if it came so far. *)
Inductive CallState :=
| Sending
| Awaiting (id : nat)
| Returned (rx : option nat) (r : Result (option Envelope) TransportError)
| Abandoned.

(** [send] and [do_send] (which expects no reply); with a deadline
    [send_timeout]. *)
Record Call := mkCall {
  call_envelope : Envelope;
  call_reply : bool;
  call_deadline : option Z;
  call_state : CallState;
}.

(** A client and its calls. [b_requests] is the history of the requests that
    the channel accepted, by their names. *)
Record Conn := mkConn {
  b_chan : Chan ClientCommand;
  b_running : bool;
  b_pending : gmap Z nat;
  b_outcomes : gmap nat (Result Envelope TransportError);
  b_requests : gmap nat Envelope;
  b_calls : list Call;
}.


(** The client as Client.v has it. *)
Definition client_of (s : Conn) : RemoteClient :=
  mkClient (b_running s) (mpsc_queue (b_chan s)) (b_pending s) (b_outcomes s) (b_requests s).








(** ** The task *)







(** ** A client with calls is a client *)







(** What a piece of the code does to the connection, calls aside. *)
Definition moves (evs : list Event) (s s' : Conn) : Prop :=
  client_of s' = foldl step (client_of s) evs /\ mpsc_open (b_chan s') = b_running s' /\ b_calls s' = b_calls s.



Lemma moves_trans evs evs' s1 s2 s3 : moves evs s1 s2 -> moves evs' s2 s3 -> moves (evs ++ evs') s1 s3.
Proof.
  intros (H1 & _ & H2) (H3 & H4 & H5). split_and!; [by rewrite H3, H1, foldl_app|done|congruence].
Qed.







Context {KL : TokioLaws K}.













(** ** The properties *)









End Calls.

(** ** Witness *)

Section Witnesses.
Import Ref.



End Witnesses.
