(* ===== verification/Rpc.v ===== *)
(** * Rpc: a client and a server on one connection

    The composition of src/remote/client.rs, src/remote/addr.rs and
    src/remote/server.rs: the task of a [RemoteClient] (Client.v) on one side
    of a connection, the loop of [RemoteServer] with its handler on the other.
    The connection carries envelopes in order both ways, which is what Tcp.v
    shows of [TcpConnection]; it is two queues here, and it does not fail.
    Callers, the client task and the server run in any order. *)

From S2P Require Import Prelude Tokio Supervisor Runtime Wire Remote Client.

Section Rpc.
Context {S : Type} (handler : EnvelopeHandler S).

(** ** The system *)

Record Rpc := mkRpc {
  rpc_client : RemoteClient;
  rpc_up : list Envelope;       (** on the way to the server *)
  rpc_down : list Envelope;     (** on the way to the client *)
  rpc_server : S;
}.

Inductive RpcEvent :=
| RSend (e : Envelope)          (** a caller calls [send] *)
| RDoSend (e : Envelope)
| RTask                         (** the client task takes a command *)
| RServe                        (** a turn of the server's loop *)
| RRecv.                        (** the client task takes an envelope *)

(** A turn of the loop of the server: [conn.recv], the handler, [conn.send]. *)
Definition rpc_serve (st : Rpc) : Rpc :=
  let '(mkRpc c up down s) := st in
  match up with
  | e :: up => let '(s, r) := handler e s in mkRpc c up (down ++ option_list r) s
  | [] => st
  end.

(** A step of a caller, of the task of the client or of the server. *)
Definition rpc_step (st : Rpc) (ev : RpcEvent) : Rpc :=
  let '(mkRpc c up down s) := st in
  match ev with
  | RSend e => mkRpc (step c (EvSend e)) up down s
  | RDoSend e => mkRpc (step c (EvDoSend e)) up down s
  | RTask =>
      match cmds c with
      | CSend e _ :: _ => mkRpc (step c (EvCmd (Ok tt))) (up ++ [e]) down s
      | CClose :: _ => mkRpc (step c (EvCmd (Ok tt))) up down s
      | [] => st
      end
  | RServe => rpc_serve st
  | RRecv =>
      match down with
      | r :: down => mkRpc (step c (EvRecv (Ok r))) up down s
      | [] => st
      end
  end.

Definition rpc_run (evs : list RpcEvent) (s : S) : Rpc := foldl rpc_step (mkRpc RemoteClient_new [] [] s) evs.

(** What the callers sent, and the requests among it. *)
Definition sent_of (ev : RpcEvent) : option Envelope :=
  match ev with RSend e | RDoSend e => Some e | _ => None end.
Definition request_of (ev : RpcEvent) : option Envelope :=
  match ev with RSend e => Some e | _ => None end.
Abbreviation sent_envs evs := (omap sent_of evs).
Abbreviation rpc_requests evs := (omap request_of evs).

(** Steps of the system itself, and when they can be taken. *)
Definition enabled (st : Rpc) (ev : RpcEvent) : bool :=
  match ev with
  | RSend _ | RDoSend _ => false
  | RTask => negb (bool_decide (cmds (rpc_client st) = []))
  | RServe => negb (bool_decide (rpc_up st = []))
  | RRecv => negb (bool_decide (rpc_down st = []))
  end.

Fixpoint enabled_run (st : Rpc) (evs : list RpcEvent) : bool :=
  match evs with
  | [] => true
  | ev :: evs => enabled st ev && enabled_run (rpc_step st ev) evs
  end.

(** How many steps are left at most. *)
Definition work (st : Rpc) : nat :=
  3 * length (cmds (rpc_client st)) + 2 * length (rpc_up st) + length (rpc_down st).

(** What is asked of the handler: a response carries the correlation id of its
    request, and (for a request) there is one. *)
Definition correlates (e : Envelope) : Prop :=
  forall s r, snd (handler e s) = Some r -> correlation_id r = correlation_id e /\ is_response r = true.
Definition replies (e : Envelope) : Prop := forall s, is_Some (snd (handler e s)).

(** [r] is what the handler answered to [e]. *)
Definition answer (e r : Envelope) : Prop := exists s, snd (handler e s) = Some r.

(** ** [RemoteClient::send_timeout] *)

(** A poll, at time [now], of the future of [send_timeout] for the request
    [id]; the deadline is the time of the call plus [duration]. [timeout]
    polls the request before the timer. *)
Definition poll_send_timeout (deadline now : Z) (id : nat) (c : RemoteClient)
  : Poll (Result Envelope TransportError) :=
  match outcomes c !! id with
  | Some result => Ready result
  | None => if decide (deadline <= now)%Z then Ready (Err TTimeout) else Pending
  end.

(** ** The invariant *)

Record rpc_ok (evs : list RpcEvent) (st : Rpc) : Prop := mkRpcOk {
  ro_client : exists cevs, Forall healthy cevs /\ rpc_client st = run_client cevs;
  ro_requests id : requests (rpc_client st) !! id = rpc_requests evs !! id;
  ro_cmds e tx : CSend e tx ∈ cmds (rpc_client st) -> e ∈ sent_envs evs;
  ro_up e : e ∈ rpc_up st -> e ∈ sent_envs evs;
  ro_down r : r ∈ rpc_down st -> exists e, e ∈ sent_envs evs /\ answer e r;
  ro_outcome id r : outcomes (rpc_client st) !! id = Some r ->
    exists e resp, r = Ok resp /\ rpc_requests evs !! id = Some e /\ answer e resp;
  ro_flight id e : rpc_requests evs !! id = Some e ->
    pending_requests (rpc_client st) !! correlation_id e = Some id ->
    e ∈ rpc_up st \/ exists r, r ∈ rpc_down st /\ correlation_id r = correlation_id e /\ is_response r = true;
}.

Definition distinct_ids (evs : list RpcEvent) : Prop := NoDup (correlation_id <$> sent_envs evs).

End Rpc.

Arguments mkRpc {S} _ _ _ _.
Arguments rpc_client {S} _.
Arguments rpc_up {S} _.
Arguments rpc_down {S} _.
Arguments rpc_server {S} _.
Abbreviation sent_envs evs := (omap sent_of evs).
Abbreviation rpc_requests evs := (omap request_of evs).

Section Facts.
Context {S : Type} (handler : EnvelopeHandler S).
Implicit Types (st : Rpc (S := S)) (evs : list RpcEvent).

(** ** Distinct ids *)

Lemma requests_sublist evs : rpc_requests evs `sublist_of` sent_envs evs.
Proof. induction evs as [|[e|e| | |] evs IH]; simpl; by try constructor. Qed.

Lemma request_sent evs e id : rpc_requests evs !! id = Some e -> e ∈ sent_envs evs.
Proof. intros H%list_elem_of_lookup_2. by eapply sublist_subseteq; [apply requests_sublist|]. Qed.

Lemma same_envelope evs e e' :
  distinct_ids evs -> e ∈ sent_envs evs -> e' ∈ sent_envs evs -> correlation_id e = correlation_id e' -> e = e'.
Proof.
  intros Hd [i Hi]%list_elem_of_lookup [j Hj]%list_elem_of_lookup Heq.
  assert (i = j) as ->; [|congruence]. eapply (NoDup_lookup _ i j (correlation_id e)); [exact Hd|..];
    rewrite list_lookup_fmap; [by rewrite Hi|by rewrite Hj, Heq].
Qed.

Lemma requests_distinct evs i j ei ej :
  distinct_ids evs -> rpc_requests evs !! i = Some ei -> rpc_requests evs !! j = Some ej ->
  correlation_id ei = correlation_id ej -> i = j.
Proof.
  intros Hd Hi Hj Heq.
  assert (Hn : NoDup (correlation_id <$> rpc_requests evs)).
  { eapply sublist_NoDup; [exact Hd|]. apply fmap_sublist, requests_sublist. }
  eapply (NoDup_lookup _ i j (correlation_id ei)); [exact Hn|..];
    rewrite list_lookup_fmap; [by rewrite Hi|by rewrite Hj, Heq].
Qed.

Lemma distinct_ids_app evs evs' : distinct_ids (evs ++ evs') -> distinct_ids evs.
Proof. unfold distinct_ids. rewrite omap_app, fmap_app. by intros [? _]%NoDup_app. Qed.

(** What the client's own invariants give in a state of the system. *)
Lemma rpc_ok_client evs st :
  distinct_ids evs -> rpc_ok handler evs st ->
  client_ok (rpc_client st) /\ client_uniq (rpc_client st) /\ running (rpc_client st) = true /\
  (CClose ∉ cmds (rpc_client st)) /\ ids_distinct (rpc_client st).
Proof.
  intros Hd Hok. destruct (ro_client _ _ _ Hok) as (cevs & Hh & Hc).
  assert (Hids : ids_distinct (rpc_client st)).
  { intros i j ei ej. rewrite !(ro_requests _ _ _ Hok). by apply requests_distinct. }
  rewrite Hc in *. destruct (healthy_run cevs Hh Hids) as [Hu (Hr & Hcl & _)].
  split_and!; [apply run_client_ok|done..].
Qed.

Lemma client_snoc c cev :
  (exists cevs, Forall healthy cevs /\ c = run_client cevs) -> healthy cev ->
  exists cevs, Forall healthy cevs /\ step c cev = run_client cevs.
Proof.
  intros (cevs & Hh & ->) Hcev. exists (cevs ++ [cev]). rewrite run_client_snoc.
  split; [by apply Forall_app; split; [|constructor]|done].
Qed.

(** ** Every step keeps the invariant *)

Lemma rpc_ok_new s : rpc_ok handler [] (mkRpc RemoteClient_new [] [] s).
Proof.
  split; simpl.
  - exists []. by split.
  - intros id. by rewrite lookup_empty.
  - by intros e tx ?%elem_of_nil.
  - by intros e ?%elem_of_nil.
  - by intros r ?%elem_of_nil.
  - intros id r. by rewrite lookup_empty.
  - intros id e. by rewrite lookup_nil.
Qed.

Lemma rpc_ok_send evs st e :
  distinct_ids evs -> rpc_ok handler evs st -> rpc_ok handler (evs ++ [RSend e]) (rpc_step handler st (RSend e)).
Proof.
  intros Hd Hok. destruct (rpc_ok_client _ _ Hd Hok) as (Hcok & Hu & Hrun & _).
  pose proof Hok as [R1 R2 R3 R4 R5 R6 R7]. destruct st as [c up down s].
  cbn [rpc_step rpc_client rpc_up rpc_down rpc_server] in *.
  assert (Hsz : size (requests c) = length (rpc_requests evs)).
  { apply Nat.le_antisymm; apply Nat.nlt_ge; intros Hlt.
    - apply (ok_names _ Hcok) in Hlt as [x Hx]. rewrite R2 in Hx. apply lookup_lt_Some in Hx. lia.
    - apply lookup_lt_is_Some in Hlt as [x Hx]. rewrite <- R2 in Hx.
      assert (size (requests c) < size (requests c)) by (apply (ok_names _ Hcok); eauto). lia. }
  assert (Hsent : forall e', e' ∈ sent_envs evs -> e' ∈ sent_envs (evs ++ [RSend e])).
  { intros e' ?. rewrite omap_app. apply elem_of_app. by left. }
  split; cbn [rpc_client rpc_up rpc_down rpc_server].
  - by apply client_snoc.
  - intros id. rewrite omap_app. simpl. unfold send. simpl. rewrite Hrun. simpl. rewrite Hsz.
    destruct (decide (id = length (rpc_requests evs))) as [->|Hn].
    + by rewrite lookup_insert_eq, list_lookup_middle.
    + rewrite lookup_insert_ne by done. rewrite R2. destruct (decide (id < length (rpc_requests evs))).
      * by rewrite lookup_app_l.
      * rewrite !lookup_ge_None_2; [done|rewrite length_app; simpl; lia|lia].
  - intros e' tx. unfold step, send. simpl. rewrite Hrun. simpl.
    intros [Hin|Hin]%elem_of_app; [eauto|]. apply list_elem_of_singleton in Hin as [= -> ->].
    rewrite omap_app. apply elem_of_app. right. simpl. by apply list_elem_of_singleton.
  - intros e' Hin. apply Hsent. by apply R4.
  - intros r Hin. destruct (R5 r Hin) as (e' & He' & Ha). exists e'. eauto.
  - unfold step, send. simpl. rewrite Hrun. simpl. intros id r Ho.
    destruct (R6 id r Ho) as (e' & resp & -> & He' & Ha). exists e', resp. split_and!; [done| |done].
    rewrite omap_app. by apply lookup_app_l_Some.
  - unfold step, send. simpl. rewrite Hrun. simpl. intros id e' He' Hp. rewrite omap_app in He'. simpl in He'.
    destruct (ok_pending _ Hcok _ _ Hp) as (e2 & He2 & _).
    rewrite lookup_app_l in He'; [eauto|]. rewrite <- Hsz. apply (ok_names _ Hcok). eauto.
Qed.

(** The invariant does not depend on steps that send nothing. *)
Lemma rpc_ok_more evs st ev :
  request_of ev = None -> rpc_ok handler evs st -> rpc_ok handler (evs ++ [ev]) st.
Proof.
  intros Hr [R1 R2 R3 R4 R5 R6 R7].
  assert (Hsent : forall e, e ∈ sent_envs evs -> e ∈ sent_envs (evs ++ [ev])).
  { intros e ?. rewrite omap_app. apply elem_of_app. by left. }
  assert (Hreq : rpc_requests (evs ++ [ev]) = rpc_requests evs).
  { rewrite omap_app. simpl. by rewrite Hr, app_nil_r. }
  split; rewrite ?Hreq; try done; eauto.
  intros r Hin. destruct (R5 r Hin) as (e & He & Ha). eauto.
Qed.

Lemma rpc_ok_do_send evs st e :
  distinct_ids evs -> rpc_ok handler evs st -> rpc_ok handler (evs ++ [RDoSend e]) (rpc_step handler st (RDoSend e)).
Proof.
  intros Hd Hok. destruct (rpc_ok_client _ _ Hd Hok) as (_ & _ & Hrun & _).
  apply (rpc_ok_more _ _ (RDoSend e)) in Hok as [R1 R2 R3 R4 R5 R6 R7]; [|done]. destruct st as [c up down s].
  cbn [rpc_step rpc_client rpc_up rpc_down rpc_server] in *.
  split; cbn [rpc_client rpc_up rpc_down rpc_server]; [by apply client_snoc|..];
    unfold step, do_send; rewrite ?Hrun; simpl; try done.
  intros e' tx [Hin|Hin]%elem_of_app; [eauto|]. apply list_elem_of_singleton in Hin as [= -> ->].
  rewrite omap_app. apply elem_of_app. right. by apply list_elem_of_singleton.
Qed.

Lemma rpc_ok_task evs st :
  distinct_ids evs -> rpc_ok handler evs st -> rpc_ok handler evs (rpc_step handler st RTask).
Proof.
  intros Hd Hok. destruct (rpc_ok_client _ _ Hd Hok) as (Hcok & Hu & Hrun & Hcl & Hids).
  pose proof Hok as [R1 R2 R3 R4 R5 R6 R7]. destruct st as [c up down s].
  cbn [rpc_step rpc_client rpc_up rpc_down rpc_server] in *.
  pose proof (fun e id rest => next_not_pending c e id rest Hcok Hu Hids) as Hnew.
  destruct (cmds c) as [|[e tx|] rest] eqn:Hc; [done| |by exfalso; apply Hcl, elem_of_cons; left].
  assert (Hcmds : forall cmd, cmd ∈ rest -> cmd ∈ CSend e tx :: rest) by (intros; apply elem_of_cons; by right).
  assert (Hstep : cmds (step c (EvCmd (Ok tt))) = rest /\
    outcomes (step c (EvCmd (Ok tt))) = outcomes c /\ requests (step c (EvCmd (Ok tt))) = requests c /\
    pending_requests (step c (EvCmd (Ok tt))) =
      match tx with Some id => <[correlation_id e := id]> (pending_requests c) | None => pending_requests c end).
  { simpl. rewrite Hrun. unfold handle_cmd. rewrite Hc. destruct tx as [id|]; [|done].
    unfold track. simpl. by rewrite (Hnew e id rest). }
  destruct Hstep as (Ec & Eo & Er & Ep).
  split; cbn [rpc_client rpc_up rpc_down rpc_server]; rewrite ?Ec, ?Eo, ?Er, ?Ep; try done.
  - by apply client_snoc.
  - eauto.
  - intros e' [Hin| ->%list_elem_of_singleton]%elem_of_app; [eauto|]. eapply R3, elem_of_cons. by left.
  - intros id e' He' Hp. rewrite elem_of_app, list_elem_of_singleton.
    assert (Hold : pending_requests c !! correlation_id e' = Some id -> (e' ∈ up \/ e' = e) \/ _)
      by (intros Hpe; destruct (R7 id e' He' Hpe) as [?|Hdown]; [by left; left|right; exact Hdown]).
    destruct tx as [id1|]; [|auto]. rewrite lookup_insert in Hp. case_decide as Heq; [|auto]. simplify_eq.
    left. right.
    assert (He : requests c !! id = Some e) by (apply (ok_cmds _ Hcok); rewrite Hc; apply elem_of_cons; by left).
    rewrite R2 in He. congruence.
Qed.

Lemma rpc_ok_serve evs st :
  Forall (correlates handler) (sent_envs evs) -> Forall (replies handler) (rpc_requests evs) ->
  rpc_ok handler evs st -> rpc_ok handler evs (rpc_step handler st RServe).
Proof.
  intros Hcor Hrep Hok. destruct st as [c up down s]. simpl. destruct up as [|e up]; [done|].
  destruct (handler e s) as [s' r] eqn:Hh. destruct Hok as [R1 R2 R3 R4 R5 R6 R7].
  cbn [rpc_client rpc_up rpc_down rpc_server] in *.
  split; cbn [rpc_client rpc_up rpc_down rpc_server]; try done.
  - intros e' Hin. apply R4, elem_of_cons. by right.
  - intros r' [Hin|Hin]%elem_of_app; [eauto|]. exists e. split; [apply R4, elem_of_cons; by left|].
    exists s. rewrite Hh. destruct r; simpl in *; [|by apply elem_of_nil in Hin].
    by apply list_elem_of_singleton in Hin as ->.
  - intros id e' He' Hp. destruct (R7 id e' He' Hp) as [[->|Hin]%elem_of_cons|(r' & Hin & Hr')];
      [|by left|right; exists r'; split; [apply elem_of_app; by left|done]].
    right. pose proof (Forall_lookup_1 _ _ _ _ Hrep He' s) as [r1 Hr1]. rewrite Hh in Hr1. simpl in Hr1. subst r.
    exists r1. split; [apply elem_of_app; right; by apply list_elem_of_singleton|].
    rewrite Forall_forall in Hcor. apply (Hcor e (request_sent _ _ _ He') s). by rewrite Hh.
Qed.

Lemma rpc_ok_recv evs st :
  distinct_ids evs -> Forall (correlates handler) (sent_envs evs) ->
  rpc_ok handler evs st -> rpc_ok handler evs (rpc_step handler st RRecv).
Proof.
  intros Hd Hcor Hok. destruct (rpc_ok_client _ _ Hd Hok) as (Hcok & _ & Hrun & _).
  destruct st as [c up down s]. simpl. destruct down as [|r down]; [done|].
  destruct Hok as [R1 R2 R3 R4 R5 R6 R7]. cbn [rpc_client rpc_up rpc_down rpc_server] in *.
  destruct (R5 r) as (e & He & s0 & Ha); [apply elem_of_cons; by left|].
  rewrite Forall_forall in Hcor. destruct (Hcor e He s0 r Ha) as [Hcid Hresp].
  assert (R1' : exists cevs, Forall healthy cevs /\ step c (EvRecv (Ok r)) = run_client cevs) by (by apply client_snoc).
  simpl in *. rewrite Hrun, Hresp in *. unfold complete in *.
  destruct (pending_requests c !! correlation_id r) as [id|] eqn:Hp.
  - destruct (ok_pending _ Hcok _ _ Hp) as (e0 & He0 & Hc0). rewrite R2 in He0.
    assert (e0 = e) as -> by (eapply same_envelope; [done|by eapply request_sent|done|congruence]).
    split; cbn [rpc_client rpc_up rpc_down rpc_server]; try done.
    + intros r' Hin. apply R5, elem_of_cons. by right.
    + intros id' r'. rewrite resolve_lookup. simpl. destruct (outcomes c !! id') as [x|] eqn:Hx.
      * intros [= ->]. eauto.
      * case_decide; [|done]. intros [= <-]. subst. exists e, r. split_and!; [done..|]. by exists s0.
    + intros id' e' He' Hp'. simpl in Hp'. apply lookup_delete_Some in Hp' as [Hne Hp'].
      destruct (R7 id' e' He' Hp') as [?|(r' & [->|Hin]%elem_of_cons & Hr' & ?)]; [by left|congruence|right; eauto].
  - split; cbn [rpc_client rpc_up rpc_down rpc_server]; try done.
    + intros r' Hin. apply R5, elem_of_cons. by right.
    + intros id' e' He' Hp'.
      destruct (R7 id' e' He' Hp') as [?|(r' & [->|Hin]%elem_of_cons & Hr' & ?)]; [by left|congruence|right; eauto].
Qed.

Lemma rpc_run_snoc evs ev s0 : rpc_run handler (evs ++ [ev]) s0 = rpc_step handler (rpc_run handler evs s0) ev.
Proof. unfold rpc_run. by rewrite foldl_app. Qed.

Lemma rpc_run_ok evs s0 :
  distinct_ids evs -> Forall (correlates handler) (sent_envs evs) -> Forall (replies handler) (rpc_requests evs) ->
  rpc_ok handler evs (rpc_run handler evs s0).
Proof.
  induction evs as [|ev evs IH] using rev_ind; intros Hd Hc Hr; [apply rpc_ok_new|].
  rewrite rpc_run_snoc. pose proof (distinct_ids_app _ _ Hd) as Hd'.
  rewrite omap_app in Hc, Hr. apply Forall_app in Hc as [Hc _], Hr as [Hr _]. specialize (IH Hd' Hc Hr).
  destruct ev as [e|e| | |]; [by apply rpc_ok_send|by apply rpc_ok_do_send|apply rpc_ok_more; [done|]..].
  - by apply rpc_ok_task.
  - by apply rpc_ok_serve.
  - by apply rpc_ok_recv.
Qed.

(** ** Progress *)

Lemma enabled_work evs s0 ev :
  distinct_ids evs -> Forall (correlates handler) (sent_envs evs) -> Forall (replies handler) (rpc_requests evs) ->
  enabled (rpc_run handler evs s0) ev = true ->
  work (rpc_step handler (rpc_run handler evs s0) ev) < work (rpc_run handler evs s0).
Proof.
  intros Hd Hc Hr Hen. pose proof (rpc_run_ok evs s0 Hd Hc Hr) as Hok.
  destruct (rpc_ok_client _ _ Hd Hok) as (_ & _ & Hrun & Hcl & _).
  destruct (rpc_run handler evs s0) as [c up down s]. unfold work. simpl in *.
  destruct ev as [e|e| | |]; simpl in *; try done; apply negb_true_iff, bool_decide_eq_false in Hen.
  - destruct (cmds c) as [|[e tx|] rest] eqn:Hcm; [done| |by exfalso; apply Hcl, elem_of_cons; left].
    simpl. rewrite Hrun. unfold handle_cmd. rewrite Hcm. rewrite length_app. simpl.
    assert (Ht : cmds (track (correlation_id e) tx (set_cmds rest c)) = rest).
    { unfold track, resolve_opt. destruct tx; [|done]. by case_match. }
    rewrite Ht. lia.
  - destruct up as [|e up]; [done|]. destruct (handler e s) as [s' r]. simpl. rewrite length_app.
    destruct r; simpl; lia.
  - destruct down as [|r down]; [done|]. simpl. rewrite Hrun. destruct (is_response r); simpl; [|lia].
    unfold complete. case_match; simpl; lia.
Qed.

(** Steps of the system send nothing. *)
Lemma enabled_run_sends st evs : enabled_run handler st evs = true -> sent_envs evs = [] /\ rpc_requests evs = [].
Proof.
  revert st. induction evs as [|ev evs IH]; intros st; [done|]. simpl. intros [He Hes]%andb_true_iff.
  destruct ev; [done..| | |]; by eapply IH.
Qed.

Lemma enabled_run_work evs s0 more :
  distinct_ids evs -> Forall (correlates handler) (sent_envs evs) -> Forall (replies handler) (rpc_requests evs) ->
  enabled_run handler (rpc_run handler evs s0) more = true ->
  length more + work (rpc_run handler (evs ++ more) s0) <= work (rpc_run handler evs s0).
Proof.
  revert evs. induction more as [|ev more IH]; intros evs Hd Hc Hr Hen; simpl in *.
  { rewrite app_nil_r. lia. }
  apply andb_true_iff in Hen as [Hev Hen]. pose proof (enabled_work evs s0 ev Hd Hc Hr Hev) as Hlt.
  rewrite <- rpc_run_snoc in Hlt, Hen. rewrite (cons_middle ev evs more), app_assoc.
  assert (Hs : sent_of ev = None /\ request_of ev = None) by (by destruct ev).
  destruct Hs as [Hs1 Hs2].
  assert (E1 : sent_envs (evs ++ [ev]) = sent_envs evs) by (rewrite omap_app; simpl; by rewrite Hs1, app_nil_r).
  assert (E2 : rpc_requests (evs ++ [ev]) = rpc_requests evs) by (rewrite omap_app; simpl; by rewrite Hs2, app_nil_r).
  assert (length more + work (rpc_run handler ((evs ++ [ev]) ++ more) s0) <=
    work (rpc_run handler (evs ++ [ev]) s0)); [|lia].
  apply IH; [|by rewrite E1|by rewrite E2|done]. unfold distinct_ids. by rewrite E1.
Qed.

(** When nothing can happen any more, every request is answered. *)
Lemma stuck_answered evs s0 id e :
  distinct_ids evs -> Forall (correlates handler) (sent_envs evs) -> Forall (replies handler) (rpc_requests evs) ->
  (forall ev, enabled (rpc_run handler evs s0) ev = false) -> rpc_requests evs !! id = Some e ->
  exists resp, answer handler e resp /\ outcomes (rpc_client (rpc_run handler evs s0)) !! id = Some (Ok resp).
Proof.
  intros Hd Hc Hr Hst He. pose proof (rpc_run_ok evs s0 Hd Hc Hr) as Hok.
  destruct (rpc_ok_client _ _ Hd Hok) as (Hcok & _). destruct Hok as [R1 R2 R3 R4 R5 R6 R7].
  destruct (rpc_run handler evs s0) as [c up down s]. simpl in *.
  pose proof (Hst RTask) as E1. pose proof (Hst RServe) as E2. pose proof (Hst RRecv) as E3.
  simpl in E1, E2, E3. apply negb_false_iff, bool_decide_eq_true in E1, E2, E3. subst.
  destruct (ok_request _ Hcok id e) as [[r Ho]|[(e' & Hin & _)|(e' & He' & Hp)]]; [by rewrite R2|..].
  - destruct (R6 id r Ho) as (e' & resp & -> & He' & Ha). assert (e' = e) as -> by congruence. eauto.
  - rewrite E1 in Hin. by apply elem_of_nil in Hin.
  - rewrite R2 in He'. assert (e' = e) as -> by congruence.
    destruct (R7 id e He Hp) as [Hin|(r & Hin & _)]; by apply elem_of_nil in Hin.
Qed.

(** C13: every request is answered with the handler's response to it. Whatever the
    callers sent, and however they, the client task and the server were
    scheduled up to now: whenever they are left to work, they stop after a
    number of steps that is bounded by what is under way, and then the caller
    of each request has what the server's handler answered to that request,
    provided that the correlation ids differ. *)
Theorem rpc_requests_answered evs s0 more :
  distinct_ids evs -> Forall (correlates handler) (sent_envs evs) -> Forall (replies handler) (rpc_requests evs) ->
  enabled_run handler (rpc_run handler evs s0) more = true ->
  length more <= work (rpc_run handler evs s0) /\
  ((forall ev, enabled (rpc_run handler (evs ++ more) s0) ev = false) ->
   forall id e, rpc_requests evs !! id = Some e ->
   exists resp, answer handler e resp /\
     outcomes (rpc_client (rpc_run handler (evs ++ more) s0)) !! id = Some (Ok resp)).
Proof.
  intros Hd Hc Hr Hen. pose proof (enabled_run_work evs s0 more Hd Hc Hr Hen) as Hw.
  destruct (enabled_run_sends _ _ Hen) as [Hs1 Hs2].
  assert (E1 : sent_envs (evs ++ more) = sent_envs evs) by (by rewrite omap_app, Hs1, app_nil_r).
  assert (E2 : rpc_requests (evs ++ more) = rpc_requests evs) by (by rewrite omap_app, Hs2, app_nil_r).
  split; [lia|]. intros Hst id e He. apply stuck_answered; [|by rewrite E1|by rewrite E2|done|by rewrite E2].
  unfold distinct_ids. by rewrite E1.
Qed.

End Facts.

(** ** Correlation ids *)

(** The envelopes of consecutive sends on a [RemoteAddr]; the counter is
    shared by all of them. *)
Fixpoint RemoteAddr_envelopes {M} `{!RemoteMessage M} (a : RemoteAddr) (msgs : list M) (counter : Z)
  : option (list Envelope) :=
  match msgs with
  | [] => Some []
  | msg :: msgs =>
      let '(counter, e) := RemoteAddr_envelope a msg counter in
      e ← e; es ← RemoteAddr_envelopes a msgs counter; Some (e :: es)
  end.

(** ** Timeouts *)

(** A call of [send_timeout] that has given up leaves its request behind: the
    timer has run out, but as long as the connection lives the request is
    still queued or filed in the map of pending requests. *)
Theorem timed_out_request_stays evs (id : nat) req (deadline now : Z) :
  requests (run_client evs) !! id = Some req -> outcomes (run_client evs) !! id = None ->
  (poll_send_timeout deadline now id (run_client evs) = Ready (Err TTimeout) <-> (deadline <= now)%Z) /\
  (poll_send_timeout deadline now id (run_client evs) = Pending <-> (now < deadline)%Z) /\
  waiting (run_client evs) id.
Proof.
  intros Hr Ho. unfold poll_send_timeout. rewrite Ho.
  destruct (ok_request _ (run_client_ok evs) _ _ Hr) as [[? ?]|Hw]; [congruence|].
  split_and!; [case_decide; done..| |done]. case_decide; split; try done; lia.
Qed.

(** ** What handlers promise *)

Section Handlers.
Context {S M R : Type} `{!RemoteMessage M, !RemoteMessage R}.

Lemma make_handler_correlates (addr : ActorRef S M R) node_id e : correlates (make_handler addr node_id) e.
Proof. intros s r. unfold make_handler. repeat (case_match; simpl); try done. by intros [= <-]. Qed.

(** A handler in front of an actor that replies, whose replies can be encoded. *)
Lemma make_handler_replies (h : M -> S -> S * R) node_id e msg :
  msg_decode (payload e) = Ok msg -> (forall s, is_Some (msg_encode (snd (h msg s)))) ->
  replies (make_handler (pure_actor h) node_id) e.
Proof.
  intros Hm He s. unfold make_handler. rewrite Hm. simpl. specialize (He s).
  destruct (h msg s) as [s' r]. simpl in *. destruct He as [buf ->]. eauto.
Qed.

End Handlers.

Lemma u64_counter c i : (u64_wrap (u64_wrap (c + 1) + i) = u64_wrap (c + (1 + i)))%Z.
Proof. unfold u64_wrap. rewrite Z.add_mod_idemp_l by lia. f_equal. lia. Qed.

Lemma RemoteAddr_envelopes_ids {M} `{!RemoteMessage M} a (msgs : list M) c es i e :
  u64_wrap c = c -> RemoteAddr_envelopes a msgs c = Some es -> es !! i = Some e ->
  correlation_id e = u64_wrap (c + Z.of_nat i).
Proof.
  revert c es i. induction msgs as [|msg msgs IH]; intros c es i Hc; simpl.
  { by intros [= <-]. }
  unfold Envelope_from_message. destruct (msg_encode msg) as [buf|]; simpl; [|done].
  destruct (RemoteAddr_envelopes a msgs (u64_wrap (c + 1))) as [es'|] eqn:Hes; simpl; [|done].
  intros [= <-]. destruct i as [|i]; simpl.
  - intros [= <-]. simpl. rewrite Z.add_0_r. done.
  - intros He. assert (Hw : u64_wrap (u64_wrap (c + 1)) = u64_wrap (c + 1)) by (unfold u64_wrap; rewrite Z.mod_mod; lia).
    rewrite (IH _ _ _ Hw Hes He), u64_counter. f_equal. lia.
Qed.

(** C35: the correlation ids of up to 2^64 sends differ, across the overflow of
    the counter too. *)
Theorem correlation_ids_distinct {M} `{!RemoteMessage M} a (msgs : list M) c es :
  u64_wrap c = c -> (Z.of_nat (length es) <= 2 ^ 64)%Z -> RemoteAddr_envelopes a msgs c = Some es ->
  NoDup (correlation_id <$> es).
Proof.
  intros Hc Hl Hes. apply NoDup_alt. intros i j x. rewrite !list_lookup_fmap.
  intros (ei & Hi & ->)%fmap_Some (ej & Hj & Heq)%fmap_Some.
  rewrite (RemoteAddr_envelopes_ids a msgs c es i ei Hc Hes Hi),
    (RemoteAddr_envelopes_ids a msgs c es j ej Hc Hes Hj) in Heq.
  apply lookup_lt_Some in Hi, Hj. unfold u64_wrap in Heq.
  assert ((Z.of_nat i - Z.of_nat j) mod 2 ^ 64 = 0)%Z as Hz.
  { replace (Z.of_nat i - Z.of_nat j)%Z with ((c + Z.of_nat i) - (c + Z.of_nat j))%Z by lia.
    rewrite Zminus_mod, Heq, Z.sub_diag. done. }
  apply Z.mod_divide in Hz as [k Hk]; [|lia]. assert (k = 0)%Z by nia. lia.
Qed.

(** ** Witnesses *)

Section Witnesses.
Import RefProst.

#[local] Instance string_message : RemoteMessage string := ref_message string "text".
#[local] Instance nat_message : RemoteMessage nat := ref_message nat "number".

(** Calls of the actor of Remote.v that counts its messages; the counter of
    correlation ids overflows on the way. *)
Definition counter_addr : RemoteAddr := LocalNode_remote_addr (mkLocalNode "node-2") "node-1" "counter".
Definition calls : list Envelope :=
  default [] (RemoteAddr_envelopes counter_addr ["a"; "b"; "c"] (2 ^ 64 - 2)).

Lemma correlation_ids_distinct_witness : NoDup (correlation_id <$> calls).
Proof.
  apply (correlation_ids_distinct counter_addr ["a"; "b"; "c"] (2 ^ 64 - 2)%Z); vm_compute;
    [reflexivity|discriminate|reflexivity].
Defined.

Definition count_calls : EnvelopeHandler nat := make_handler counting "node-1".

(** Three callers, of which the first two are sent before the server runs. *)
Definition three_calls : list RpcEvent :=
  match calls with
  | [a; b; c] => [RSend a; RTask; RSend b; RTask; RServe; RSend c; RRecv]
  | _ => []
  end.

Definition rest_of_run : list RpcEvent := [RServe; RTask; RServe; RRecv; RRecv].

Lemma rpc_requests_answered_witness :
  exists resp, answer count_calls (default hello (calls !! 1)) resp /\
    outcomes (rpc_client (rpc_run count_calls (three_calls ++ rest_of_run) 0)) !! 1 = Some (Ok resp).
Proof.
  apply (rpc_requests_answered count_calls three_calls 0 rest_of_run).
  - unfold distinct_ids. apply (bool_decide_unpack _). vm_compute. exact I.
  - apply Forall_forall. intros e _. apply make_handler_correlates.
  - apply Forall_forall. intros e He.
    assert (Hm : exists msg, msg_decode (payload e) = Ok (A := string) msg).
    { revert e He. apply Forall_forall. repeat constructor; eexists; vm_compute; reflexivity. }
    destruct Hm as [msg Hm]. eapply make_handler_replies; [exact Hm|]. intros s. by eexists.
  - vm_compute. reflexivity.
  - intros []; [reflexivity..|vm_compute; reflexivity|vm_compute; reflexivity|vm_compute; reflexivity].
  - vm_compute. reflexivity.
Defined.

Lemma timed_out_request_stays_witness :
  poll_send_timeout 5000 6000 0 (run_client [EvSend (req 1); EvCmd (Ok tt)]) = Ready (Err TTimeout) /\
  waiting (run_client [EvSend (req 1); EvCmd (Ok tt)]) 0.
Proof.
  destruct (timed_out_request_stays [EvSend (req 1); EvCmd (Ok tt)] 0 (req 1) 5000 6000) as (Ht & _ & Hw).
  - vm_compute. reflexivity.
  - vm_compute. reflexivity.
  - split; [apply Ht; lia|exact Hw].
Defined.

End Witnesses.
