(* ===== verification/Tcp.v ===== *)
(** * Tcp: connections over sockets (src/remote/tcp.rs, src/remote/server.rs)

    [TcpConnection] puts the codec of Wire.v around a socket with the [Framed]
    of the tokio-util crate. That crate and the sockets are the class
    [FramedSocket]; what it documents is the class [FramedLaws], in terms of
    the bytes that arrive before the end of the stream and of the bytes
    written. On top of it: the methods of [TcpConnection] and [TcpTransport],
    and the loop in which [RemoteServer] serves a connection. *)

From S2P Require Import Prelude Tokio Supervisor Runtime Wire Remote.

(** ** Sockets *)

(** [framed_input] is what will have arrived, and is not yet decoded, when the
    incoming stream ends, and [framed_end] how it ends: closed by the peer, or
    with an error of the socket. [framed_output] is what was written,
    [framed_up] whether writing still works. [framed_send] gives [None] when
    the encoder panics. *)
Class FramedSocket {P : Prost} := {
  FS : Type;
  framed_send : FS -> Envelope -> option (FS * Result unit IoErrorKind);
  framed_next : FS -> FS * option (Result Envelope IoErrorKind);
  framed_close : FS -> FS * Result unit IoErrorKind;
  framed_input : FS -> bytes;
  framed_end : FS -> option IoErrorKind;
  framed_output : FS -> bytes;
  framed_up : FS -> bool;
}.

Class FramedLaws {P : Prost} (F : FramedSocket) : Prop := {
  (** An item is encoded behind what was written, and flushed. *)
  framed_send_up f e bs : framed_up f = true -> encode e (framed_output f) = Some bs ->
    exists f', framed_send f e = Some (f', Ok tt) /\ framed_output f' = bs /\
      framed_input f' = framed_input f /\ framed_end f' = framed_end f /\ framed_up f' = true;
  framed_send_input f e f' r : framed_send f e = Some (f', r) -> framed_input f' = framed_input f;
  (** The next frame, an error of the decoder, or the end of the stream; bytes
      that are left over at the end are an error. *)
  framed_next_item f e rest : decode (framed_input f) = (Ok (Some e), rest) ->
    exists f', framed_next f = (f', Some (Ok e)) /\ framed_input f' = rest /\
      framed_end f' = framed_end f /\ framed_output f' = framed_output f /\ framed_up f' = framed_up f;
  framed_next_error f k rest : decode (framed_input f) = (Err k, rest) ->
    exists f', framed_next f = (f', Some (Err k)) /\ framed_output f' = framed_output f;
  framed_next_partial f rest : decode (framed_input f) = (Ok None, rest) -> framed_input f <> [] ->
    exists f', framed_next f = (f', Some (Err (default OtherIo (framed_end f)))) /\
      framed_output f' = framed_output f;
  framed_next_end f : framed_input f = [] ->
    exists f', framed_next f = (f', Err <$> framed_end f) /\ framed_output f' = framed_output f;
}.

Section Tcp.
Context {P : Prost} {F : FramedSocket}.

(** ** [TcpConnection] and [TcpTransport] *)

Record TcpConnection := mkConnection { conn_framed : FS; conn_local_addr : string }.

(** [stream.local_addr()] is an argument. *)
Definition TcpConnection_new (stream : FS) (addr : Result string IoErrorKind) : TcpConnection :=
  mkConnection stream (match addr with Ok a => a | Err _ => "unknown" end).

Definition local_addr (c : TcpConnection) : string := conn_local_addr c.

(** [RemoteClient::remote_addr], for the client that [RemoteClient::new] makes
    of a connection: its identity is the local address of the connection. *)
Definition RemoteClient_remote_addr (conn : TcpConnection) (remote_node actor_name : string) : RemoteAddr :=
  RemoteAddr_new (local_addr conn) remote_node actor_name.

Definition conn_send (c : TcpConnection) (envelope : Envelope)
  : option (TcpConnection * Result unit TransportError) :=
  match framed_send (conn_framed c) envelope with
  | Some (f, r) => Some (mkConnection f (conn_local_addr c), map_err TIo r)
  | None => None
  end.

Definition conn_recv (c : TcpConnection) : TcpConnection * Result Envelope TransportError :=
  let '(f, r) := framed_next (conn_framed c) in
  (mkConnection f (conn_local_addr c),
   match r with
   | Some (Ok envelope) => Ok envelope
   | Some (Err e) => Err (TIo e)
   | None => Err TDisconnected
   end).

Definition conn_close (c : TcpConnection) : TcpConnection * Result unit TransportError :=
  let '(f, r) := framed_close (conn_framed c) in (mkConnection f (conn_local_addr c), map_err TIo r).

(** [TcpStream::connect] is an argument: the socket and its local address. *)
Definition TcpTransport_connect (dial : string -> Result (FS * Result string IoErrorKind) IoErrorKind)
    (addr : string) : Result TcpConnection TransportError :=
  (let? s := map_err TIo (dial addr) in Ok (TcpConnection_new (fst s) (snd s)))%rust.

(** What [n] calls of [recv] give. *)
Fixpoint recv_n (n : nat) (c : TcpConnection) : list (Result Envelope TransportError) :=
  match n with
  | 0 => []
  | S n => let '(c, r) := conn_recv c in r :: recv_n n c
  end.

(** Sending envelopes one after the other. *)
Fixpoint send_each (es : list Envelope) (c : TcpConnection) : option TcpConnection :=
  match es with
  | [] => Some c
  | e :: es => match conn_send c e with Some (c, Ok _) => send_each es c | _ => None end
  end.

(** ** The loop of [RemoteServer::run] for a connection *)

(** How the loop ended: the state of the actors, the connection, and whether
    it was by a panic. *)
Record Served (S : Type) := mkServed { sv_state : S; sv_conn : TcpConnection; sv_panicked : bool }.
Arguments mkServed {S} _ _ _.
Arguments sv_state {S} _.
Arguments sv_conn {S} _.
Arguments sv_panicked {S} _.

(** One turn of the loop: whether it goes on, was left, or panicked in the
    encoder. *)
Inductive Turn := Continue | Break | Panicked.

Definition serve_turn {S} (handler : EnvelopeHandler S) (c : TcpConnection) (s : S) : S * TcpConnection * Turn :=
  match conn_recv c with
  | (c, Ok envelope) =>
      let '(s, r) := handler envelope s in
      match r with
      | Some response =>
          match conn_send c response with
          | None => (s, c, Panicked)
          | Some (c, Err _) => (s, c, Break)
          | Some (c, Ok _) => (s, c, Continue)
          end
      | None => (s, c, Continue)
      end
  | (c, Err _) => (s, c, Break)
  end.

(** [None] is only for want of fuel. *)
Fixpoint serve_tcp {S} (fuel : nat) (handler : EnvelopeHandler S) (c : TcpConnection) (s : S)
  : option (Served S) :=
  match fuel with
  | 0 => None
  | Datatypes.S fuel =>
      match serve_turn handler c s with
      | (s, c, Continue) => serve_tcp fuel handler c s
      | (s, c, Break) => Some (mkServed s c false)
      | (s, c, Panicked) => Some (mkServed s c true)
      end
  end.

End Tcp.
Arguments mkServed {_ _ _} _ _ _.
Arguments sv_state {_ _ _} _.
Arguments sv_conn {_ _ _} _.
Arguments sv_panicked {_ _ _} _.

(** ** Facts *)

Section Facts.
Context {P : Prost} {PL : ProstLaws P} {F : FramedSocket} {FL : FramedLaws F}.

Lemma decode_consumes src e rest : decode src = (Ok (Some e), rest) -> length rest + 4 <= length src.
Proof.
  unfold decode. destruct src as [|b0 [|b1 [|b2 [|b3 body]]]]; try done.
  case_decide; [done|]. destruct (Envelope_decode _); [|done]. intros [= <- <-].
  rewrite length_drop. simpl. lia.
Qed.

(** Every outcome of a [recv]: an envelope taken off the input, or an error. *)
Lemma conn_recv_cases c :
  (exists e f', decode (framed_input (conn_framed c)) = (Ok (Some e), framed_input f') /\
     conn_recv c = (mkConnection f' (conn_local_addr c), Ok e) /\
     framed_output f' = framed_output (conn_framed c) /\ framed_up f' = framed_up (conn_framed c)) \/
  (exists c' err, conn_recv c = (c', Err err) /\
     framed_output (conn_framed c') = framed_output (conn_framed c)).
Proof.
  unfold conn_recv. destruct (decode (framed_input (conn_framed c))) as [[[e|]|k] rest] eqn:Hd.
  - left. destruct (framed_next_item _ _ _ Hd) as (f' & -> & <- & _ & Ho & Hu). by exists e, f'.
  - right. destruct (decide (framed_input (conn_framed c) = [])) as [Hn|Hn].
    + destruct (framed_next_end _ Hn) as (f' & -> & Ho). destruct (framed_end _); by eexists _, _.
    + destruct (framed_next_partial _ _ Hd Hn) as (f' & -> & Ho). by eexists _, _.
  - right. destruct (framed_next_error _ _ _ Hd) as (f' & -> & Ho). by eexists _, _.
Qed.

(** The input shrinks with every turn of the loop that goes on. *)
Lemma serve_turn_consumes {S} (handler : EnvelopeHandler S) c s s' c' :
  serve_turn handler c s = (s', c', Continue) ->
  length (framed_input (conn_framed c')) < length (framed_input (conn_framed c)).
Proof.
  unfold serve_turn. destruct (conn_recv_cases c) as [(e & f' & Hd & -> & _)|(c2 & err & -> & _)]; [|done].
  apply decode_consumes in Hd. destruct (handler e s) as [s2 [r|]].
  - unfold conn_send. simpl. destruct (framed_send f' r) as [[f2 [[]|err]]|] eqn:Hs; simpl; [|done..].
    intros [= <- <-]. simpl. rewrite (framed_send_input _ _ _ _ Hs). lia.
  - intros [= <- <-]. simpl. lia.
Qed.

Lemma serve_tcp_done {S} (handler : EnvelopeHandler S) fuel c s :
  length (framed_input (conn_framed c)) < fuel -> is_Some (serve_tcp fuel handler c s).
Proof.
  revert c s. induction fuel as [|fuel IH]; intros c s Hf; [lia|]. cbn [serve_tcp].
  destruct (serve_turn handler c s) as [[s' c'] []] eqn:Ht; [|by eexists..].
  apply serve_turn_consumes in Ht. apply IH. lia.
Qed.

Lemma serve_tcp_mono {S} (handler : EnvelopeHandler S) fuel fuel' c s r :
  fuel <= fuel' -> serve_tcp fuel handler c s = Some r -> serve_tcp fuel' handler c s = Some r.
Proof.
  revert fuel' c s. induction fuel as [|fuel IH]; intros fuel' c s Hle; [done|].
  destruct fuel' as [|fuel']; [lia|]. cbn [serve_tcp].
  repeat case_match; auto; intros; apply IH; (lia || done).
Qed.

(** ** The properties *)

(** C21: the loop of a connection ends on every input, well formed or not, whatever
    the handler does: one turn per four bytes that arrived is enough, and more
    fuel does not change the result. *)
Theorem serve_connection_terminates {S} (handler : EnvelopeHandler S) c s :
  exists r, forall fuel, length (framed_input (conn_framed c)) < fuel -> serve_tcp fuel handler c s = Some r.
Proof.
  destruct (serve_tcp_done handler (Datatypes.S (length (framed_input (conn_framed c)))) c s) as [r Hr]; [lia|].
  exists r. intros fuel Hf. by apply (serve_tcp_mono _ _ fuel) in Hr.
Qed.

Lemma send_each_framed es c :
  Forall fits es -> framed_up (conn_framed c) = true ->
  exists c' bs, send_each es c = Some c' /\ framed es bs /\
    framed_output (conn_framed c') = framed_output (conn_framed c) ++ bs /\
    framed_input (conn_framed c') = framed_input (conn_framed c).
Proof.
  intros Hes. revert c. induction Hes as [|e es He Hes IH]; intros c Hu; cbn [send_each].
  { exists c, []. rewrite app_nil_r. split_and!; [done|constructor|done|done]. }
  destruct (fits_frame e (framed_output (conn_framed c)) He) as (pl & Henc & Hd & Hl).
  destruct (framed_send_up _ _ _ Hu Henc) as (f' & Hs & Ho & Hi & _ & Hu'). unfold conn_send. rewrite Hs. simpl.
  destruct (IH (mkConnection f' (conn_local_addr c)) Hu') as (c' & bs & -> & Hf & Ho' & Hi'). simpl in *.
  exists c', (frame_of pl ++ bs). split_and!; [done|by constructor| |congruence].
  by rewrite Ho', Ho, app_assoc.
Qed.

Lemma recv_framed es c n :
  framed es (framed_input (conn_framed c)) -> framed_end (conn_framed c) = None -> n = length es ->
  recv_n (Datatypes.S n) c = (Ok <$> es) ++ [Err TDisconnected].
Proof.
  intros Hf He ->. remember (framed_input (conn_framed c)) as bs eqn:Hbs.
  revert c Hbs He. induction Hf as [|e es pl bs Hd Hl Hf IH]; intros c Hbs He.
  - simpl. unfold conn_recv. symmetry in Hbs. destruct (framed_next_end _ Hbs) as (f' & -> & _).
    by rewrite He.
  - pose proof (decode_frame pl bs Hl) as Hdec. rewrite Hd, Hbs in Hdec.
    destruct (framed_next_item _ _ _ Hdec) as (f' & Hn & Hi & He' & _).
    cbn [length recv_n]. unfold conn_recv at 1. rewrite Hn. cbn [fmap list_fmap app].
    f_equal. apply (IH (mkConnection f' (conn_local_addr c))); [done|]. simpl. by rewrite He'.
Qed.

(** What is sent over a connection arrives: envelopes sent one after the
    other on a connection are what the peer's [recv] returns, in order, and
    then [Disconnected] when the sender closes. *)
Theorem sent_envelopes_arrive es c peer :
  Forall fits es -> framed_up (conn_framed c) = true -> framed_output (conn_framed c) = [] ->
  exists c', send_each es c = Some c' /\
  (framed_input (conn_framed peer) = framed_output (conn_framed c') ->
   framed_end (conn_framed peer) = None ->
   recv_n (Datatypes.S (length es)) peer = (Ok <$> es) ++ [Err TDisconnected]).
Proof.
  intros Hes Hu Ho. destruct (send_each_framed es c Hes Hu) as (c' & bs & Hs & Hf & Ho' & _).
  exists c'. split; [done|]. intros Hi He. apply recv_framed; [|done..]. by rewrite Hi, Ho', Ho.
Qed.

Lemma framed_cons_inv e es b :
  framed (e :: es) b ->
  exists pl bs, b = frame_of pl ++ bs /\ Envelope_decode pl = Ok e /\ (Z.of_nat (length pl) < 2 ^ 32)%Z /\ framed es bs.
Proof. inversion 1; subst. by eexists _, _. Qed.

(** One turn on a connection whose input is well framed. *)
Lemma serve_turn_framed {S} (handler : EnvelopeHandler S) e es c (s : S) :
  framed (e :: es) (framed_input (conn_framed c)) -> framed_up (conn_framed c) = true ->
  Forall fits (option_list (snd (handler e s))) ->
  exists bs c', serve_turn handler c s = (fst (handler e s), c', Continue) /\
    framed (option_list (snd (handler e s))) bs /\
    framed_output (conn_framed c') = framed_output (conn_framed c) ++ bs /\
    framed es (framed_input (conn_framed c')) /\ framed_up (conn_framed c') = true.
Proof.
  intros Hf Hu Hr. apply framed_cons_inv in Hf as (pl & inp & Hinp & Hd & Hl & Hf').
  pose proof (decode_frame pl inp Hl) as Hdec. rewrite Hd, <- Hinp in Hdec.
  destruct (framed_next_item _ _ _ Hdec) as (f' & Hn & Hi & _ & Ho & Hu').
  assert (Huf : framed_up f' = true) by (by rewrite Hu').
  unfold serve_turn, conn_recv. rewrite Hn. destruct (handler e s) as [s' [resp|]]; simpl in Hr.
  - apply Forall_cons in Hr as [Hr _].
    destruct (fits_frame resp (framed_output f') Hr) as (pl' & Henc & Hd' & Hl').
    destruct (framed_send_up _ _ _ Huf Henc) as (f2 & Hs & Ho2 & Hi2 & _ & Hu2).
    unfold conn_send. cbn [conn_framed]. rewrite Hs. cbn [map_err].
    exists (frame_of pl' ++ []), (mkConnection f2 (conn_local_addr c)). split_and!; simpl; [done| | | |done].
    + constructor; [done..|constructor].
    + by rewrite app_nil_r, Ho2, Ho.
    + by rewrite Hi2, Hi.
  - exists [], (mkConnection f' (conn_local_addr c)). rewrite app_nil_r. split_and!; simpl; [done|constructor|done| |done].
    by rewrite Hi.
Qed.

Lemma serve_turn_end {S} (handler : EnvelopeHandler S) c (s : S) :
  framed_input (conn_framed c) = [] ->
  exists c', serve_turn handler c s = (s, c', Break) /\ framed_output (conn_framed c') = framed_output (conn_framed c).
Proof.
  intros Hi. destruct (framed_next_end _ Hi) as (f' & Hn & Ho). exists (mkConnection f' (conn_local_addr c)).
  unfold serve_turn, conn_recv. rewrite Hn. by destruct (framed_end _).
Qed.

Lemma framed_app es1 es2 b1 b2 : framed es1 b1 -> framed es2 b2 -> framed (es1 ++ es2) (b1 ++ b2).
Proof. induction 1; intros; [done|]. rewrite <- app_assoc. simpl. constructor; auto. Qed.

Lemma serve_tcp_framed {S} (handler : EnvelopeHandler S) es c s :
  framed es (framed_input (conn_framed c)) -> framed_up (conn_framed c) = true ->
  Forall fits (snd (answers handler es s)) ->
  exists bs c', framed (snd (answers handler es s)) bs /\
    framed_output (conn_framed c') = framed_output (conn_framed c) ++ bs /\
    serve_tcp (Datatypes.S (length es)) handler c s = Some (mkServed (fst (answers handler es s)) c' false).
Proof.
  revert c s. induction es as [|e es IH]; intros c s Hf Hu Hans.
  - inversion Hf as [Hi|]; subst. destruct (serve_turn_end handler c s) as (c' & Ht & Ho); [done|].
    exists [], c'. cbn [serve_tcp length]. rewrite Ht, app_nil_r. split_and!; [constructor|done|done].
  - cbn [answers length serve_tcp] in *. pose proof (serve_turn_framed handler e es c s Hf Hu) as Ht.
    destruct (handler e s) as [s' r]. destruct (answers handler es s') as [s2 out] eqn:Ha.
    simpl in Hans, Ht. apply Forall_app in Hans as [Hr Hans].
    destruct (Ht Hr) as (b1 & c1 & Ht1 & Hf1 & Ho1 & Hi1 & Hu1).
    destruct (IH c1 s' Hi1 Hu1) as (b2 & c2 & Hf2 & Ho2 & Hs2); [by rewrite Ha|].
    rewrite Ha in *. exists (b1 ++ b2), c2. rewrite Ht1. split_and!; [by apply framed_app| |exact Hs2].
    by rewrite Ho2, Ho1, app_assoc.
Qed.

(** C22: requests and responses over TCP. When a client has sent the envelopes
    [es] and closed its side, the server's loop ends without a panic with the
    actors in the state the handler leaves after all of them (also when the
    client's side ends with an error of the socket), and the client reads exactly the handler's responses, in order. *)
Theorem tcp_server_answers {S} (handler : EnvelopeHandler S) es (s : S) client server reader :
  Forall fits es -> Forall fits (snd (answers handler es s)) ->
  framed_up (conn_framed client) = true -> framed_output (conn_framed client) = [] ->
  framed_up (conn_framed server) = true -> framed_output (conn_framed server) = [] ->
  exists client', send_each es client = Some client' /\
  (framed_input (conn_framed server) = framed_output (conn_framed client') ->
   exists server', (forall fuel, length (framed_input (conn_framed server)) < fuel ->
       serve_tcp fuel handler server s = Some (mkServed (fst (answers handler es s)) server' false)) /\
   (framed_input (conn_framed reader) = framed_output (conn_framed server') ->
    framed_end (conn_framed reader) = None ->
    recv_n (Datatypes.S (length (snd (answers handler es s)))) reader =
      (Ok <$> snd (answers handler es s)) ++ [Err TDisconnected])).
Proof.
  intros Hes Hans Hu Ho Hus Hos.
  destruct (send_each_framed es client Hes Hu) as (client' & bs & Hs & Hf & Ho' & _).
  exists client'. split; [done|]. intros Hin. rewrite Ho', Ho in Hin. simpl in Hin.
  destruct (serve_tcp_framed handler es server s) as (obs & server' & Hfo & Hout & Hserve);
    [by rewrite Hin|done|done|].
  exists server'. split.
  - intros fuel Hfuel. destruct (serve_tcp_done handler fuel server s Hfuel) as [r Hr].
    destruct (Nat.le_ge_cases fuel (Datatypes.S (length es))) as [Hle|Hle].
    + pose proof (serve_tcp_mono _ _ _ _ _ _ Hle Hr) as H. congruence.
    + by apply (serve_tcp_mono _ _ _ _ _ _ Hle).
  - intros Hr Hre. apply recv_framed; [|done..]. by rewrite Hr, Hout, Hos.
Qed.

End Facts.

(** ** A socket *)

(** Sockets as byte sequences, for the witnesses. *)
Module RefSocket.
Import RefProst.

Record Sock := mkSock { s_in : bytes; s_end : option IoErrorKind; s_out : bytes; s_up : bool }.

Definition sock_send (f : Sock) (e : Envelope) : option (Sock * Result unit IoErrorKind) :=
  if s_up f then
    bs ← encode e (s_out f); Some (mkSock (s_in f) (s_end f) bs true, Ok tt)
  else Some (f, Err OtherIo).

Definition sock_next (f : Sock) : Sock * option (Result Envelope IoErrorKind) :=
  match decode (s_in f) with
  | (Ok (Some e), rest) => (mkSock rest (s_end f) (s_out f) (s_up f), Some (Ok e))
  | (Err k, rest) => (mkSock [] None (s_out f) (s_up f), Some (Err k))
  | (Ok None, rest) =>
      (mkSock [] None (s_out f) (s_up f),
       if decide (s_in f = []) then Err <$> s_end f else Some (Err (default OtherIo (s_end f))))
  end.

#[export] Instance ref_socket : FramedSocket := {|
  FS := Sock; framed_send := sock_send; framed_next := sock_next;
  framed_close f := (mkSock (s_in f) (s_end f) (s_out f) false, Ok tt);
  framed_input := s_in; framed_end := s_end; framed_output := s_out; framed_up := s_up |}.

#[export] Instance ref_socket_laws : FramedLaws ref_socket.
Proof.
  split; cbn [FS ref_socket framed_send framed_next framed_input framed_end framed_output framed_up];
    unfold sock_send, sock_next.
  - intros f e bs -> ->. by eexists.
  - intros f e f' r. destruct (s_up f); [|by intros [= <- <-]].
    destruct (encode e (s_out f)); [|done]. by intros [= <- <-].
  - intros f e rest ->. by eexists.
  - intros f k rest ->. by eexists.
  - intros f rest -> Hn. rewrite decide_False by done. by eexists.
  - intros f Hf. rewrite Hf. by eexists.
Qed.

End RefSocket.

Section Witnesses.
Import RefProst RefSocket.

Ltac fits_solver :=
  repeat first [apply Forall_nil_2 | apply Forall_cons_2];
  (split; [unfold envelope_ok; vm_compute; split; congruence|vm_compute; reflexivity]).

#[local] Instance string_message : RemoteMessage string := ref_message string "text".
#[local] Instance nat_message : RemoteMessage nat := ref_message nat "number".

Definition fresh (inp : bytes) : TcpConnection := TcpConnection_new (mkSock inp None [] true) (Ok "127.0.0.1:9000").
Definition sent (es : list Envelope) : bytes :=
  match send_each es (fresh []) with Some c => framed_output (conn_framed c) | None => [] end.

Lemma sent_envelopes_arrive_witness :
  recv_n 3 (fresh (sent [hello; hello])) = [Ok hello; Ok hello; Err TDisconnected].
Proof.
  destruct (sent_envelopes_arrive [hello; hello] (fresh []) (fresh (sent [hello; hello])))
    as (c' & Hs & Hr).
  - fits_solver.
  - reflexivity.
  - reflexivity.
  - apply Hr; [|reflexivity]. unfold sent. by rewrite Hs.
Defined.

(** The actor of Remote.v that counts its messages, behind a connection. *)
Definition count_handler : EnvelopeHandler nat := make_handler counting "node-1".

(** A frame that is cut short. *)
Lemma serve_connection_terminates_witness :
  exists r, forall fuel, 5 < fuel -> serve_tcp fuel count_handler (fresh [0; 0; 0; 9; 1]%Z) 4 = Some r.
Proof. apply (serve_connection_terminates count_handler (fresh [0; 0; 0; 9; 1]%Z) 4). Defined.

Lemma tcp_server_answers_witness :
  exists server', forall fuel, length (sent [ask; ask]) < fuel ->
    serve_tcp fuel count_handler (fresh (sent [ask; ask])) 4 = Some (mkServed 6 server' false).
Proof.
  destruct (tcp_server_answers count_handler [ask; ask] 4 (fresh []) (fresh (sent [ask; ask])) (fresh []))
    as (c' & Hs & Hr).
  - fits_solver.
  - fits_solver.
  - reflexivity.
  - reflexivity.
  - reflexivity.
  - reflexivity.
  - destruct Hr as (server' & Hserve & _); [unfold sent; by rewrite Hs|].
    assert (Ha : fst (answers count_handler [ask; ask] 4) = 6) by (vm_compute; reflexivity).
    rewrite Ha in Hserve. exists server'. exact Hserve.
Defined.

End Witnesses.
