(* ===== verification/Server.v ===== *)
(** * Server: many connections at once (src/remote/server.rs)

    [RemoteServer::run] accepts connections for ever and spawns a task for
    each; the tasks share the handler and through it the local actors. The
    model is a list of tasks and a sequence of events: an [accept] that
    returns, a turn of one task, or a step of the process the server is part
    of. A handler is asynchronous: [handler(envelope).await] makes a future that
    is polled, and while it is pending other connections and the actors run.
    For the handler of [make_handler] over the actor runtime the server is
    linearizable: whatever the interleaving, the requests took effect in one
    order, which keeps the order of every connection and of requests that did
    not overlap, and each connection got the responses to its own requests. *)

From S2P Require Import Prelude Tokio Supervisor Runtime Tasks Demo RuntimeFacts Wf Isolation Lifecycle Replies Mail.
From S2P Require Import Linear Wire Remote Tcp.
From Stdlib Require Import Sorted.

(** ** Asynchronous handlers *)

(** [EnvelopeHandler]: a call makes a future and runs nothing; a poll of the
    future works on the state shared by all and gives a future to poll again,
    or the response. *)
Record AsyncHandler (S : Type) := mkAsyncHandler {
  Fut : Type;
  call : Envelope -> Fut;
  poll : Fut -> S -> S * (Fut + option Envelope);
}.
Arguments Fut {S} _.
Arguments call {S} _ _.
Arguments poll {S} _ _ _.

Section Server.
Context {P : Prost} {F : FramedSocket} {S L : Type}.

(** [binder] stands for [TcpListener::bind]. *)
Record RemoteServer (B : Type) := mkServer { listener : B; srv_handler : AsyncHandler S }.
Arguments mkServer {B} _ _.

Definition bind {B} (binder : string -> Result B IoErrorKind) (addr : string) (handler : AsyncHandler S)
  : Result (RemoteServer B) IoErrorKind :=
  (let? l := binder addr in Ok (mkServer l handler))%rust.

Context (handler : AsyncHandler S).

(** Where the task of a connection is: in [conn.recv()], in the handler, or at
    its end, by a panic or not. *)
Inductive ConnState :=
| Receiving
| Handling (fut : Fut handler)
| Ended (panicked : bool).

Record ConnTask := mkConnTask { ct_conn : TcpConnection; ct_state : ConnState }.

(** A turn of the task. *)
Definition conn_turn (t : ConnTask) (s : S) : S * ConnTask :=
  let '(mkConnTask c st) := t in
  match st with
  | Receiving =>
      match conn_recv c with
      | (c, Ok envelope) => (s, mkConnTask c (Handling (call handler envelope)))
      | (c, Err _) => (s, mkConnTask c (Ended false))
      end
  | Handling fut =>
      match poll handler fut s with
      | (s, inl fut) => (s, mkConnTask c (Handling fut))
      | (s, inr None) => (s, mkConnTask c Receiving)
      | (s, inr (Some response)) =>
          match conn_send c response with
          | None => (s, mkConnTask c (Ended true))
          | Some (c, Err _) => (s, mkConnTask c (Ended false))
          | Some (c, Ok _) => (s, mkConnTask c Receiving)
          end
      end
  | Ended _ => (s, t)
  end.

(** [local] is a step of the rest of the process. *)
Context (local : L -> S -> S).

Inductive ServerEvent :=
| Accept (r : Result (FS * Result string IoErrorKind) IoErrorKind)
| TaskTurn (i : nat)
| Local (l : L).

Definition run_event (ev : ServerEvent) (st : list ConnTask * S) : list ConnTask * S :=
  let '(tasks, s) := st in
  match ev with
  | Accept (Ok (stream, addr)) => (tasks ++ [mkConnTask (TcpConnection_new stream addr) Receiving], s)
  | Accept (Err _) => (tasks, s)
  | TaskTurn i =>
      match tasks !! i with
      | Some t => let '(s, t) := conn_turn t s in (<[i := t]> tasks, s)
      | None => (tasks, s)
      end
  | Local l => (tasks, local l s)
  end.

Definition run (evs : list ServerEvent) (st : list ConnTask * S) : list ConnTask * S :=
  foldl (fun st ev => run_event ev st) st evs.

(** The connections that an event accepts. *)
Definition accepted (ev : ServerEvent) : list FS :=
  match ev with Accept (Ok (stream, _)) => [stream] | _ => [] end.

End Server.
Arguments mkConnTask {_ _ _ _} _ _.
Arguments Receiving {_ _}.
Arguments Ended {_ _} _.
Arguments ServerEvent {_ _} L.

(** ** The handler of [make_handler] over the actor runtime (src/remote/handler.rs) *)

Section Async.
Context {Y : Sys} {K : Tokio} {B : Behaviour} {M R : Type} `{!RemoteMessage M, !RemoteMessage R}.

(** The future of the handler: not polled yet, or in [addr.send(msg).await]. *)
Inductive HandlerFut :=
| HStart (envelope : Envelope)
| HSend (envelope : Envelope) (ct : nat).

Context (addr : Addr) (up : M -> Msg) (down : Rsp -> option R) (node_id : string).

(** What follows the [await]. *)
Definition respond (envelope : Envelope) (reply : Result Rsp MailboxError) : option Envelope :=
  result ← (result_ok reply ≫= down);
  buf ← msg_encode result;
  Some (mkEnvelope (type_id R) buf (correlation_id envelope) node_id (sender_node envelope) true).

(** A poll of [addr.send(msg)]; its future is kept with the tasks, under [ct]. *)
Definition poll_await (envelope : Envelope) (ct : nat) (w : World) : World * (HandlerFut + option Envelope) :=
  match poll_client ct w with
  | (w, None) => (w, inl (HSend envelope ct))
  | (w, Some reply) => (w, inr (respond envelope reply))
  end.

Definition poll_handler (fut : HandlerFut) (w : World) : World * (HandlerFut + option Envelope) :=
  match fut with
  | HStart envelope =>
      match result_ok (msg_decode (payload envelope)) with
      | None => (w, inr None)
      | Some msg =>
          let '(w, ct) := spawn_task (TClient (inl (SendInit addr (up msg) false None))) w in
          poll_await envelope ct w
      end
  | HSend envelope ct => poll_await envelope ct w
  end.

Definition make_handler_async : AsyncHandler World := mkAsyncHandler _ HandlerFut HStart poll_handler.

End Async.

(** ** Receiving and sending envelopes *)

Section Framing.
Context {P : Prost} {PL : ProstLaws P} {F : FramedSocket} {FL : FramedLaws F}.

Lemma conn_recv_framed e es c :
  framed (e :: es) (framed_input (conn_framed c)) ->
  exists c', conn_recv c = (c', Ok e) /\ framed es (framed_input (conn_framed c')) /\
    framed_output (conn_framed c') = framed_output (conn_framed c) /\
    framed_up (conn_framed c') = framed_up (conn_framed c).
Proof.
  intros Hf. apply framed_cons_inv in Hf as (pl & inp & Hinp & Hd & Hl & Hf').
  pose proof (decode_frame pl inp Hl) as Hdec. rewrite Hd, <- Hinp in Hdec.
  destruct (framed_next_item _ _ _ Hdec) as (f' & Hn & Hi & _ & Ho & Hu).
  unfold conn_recv. rewrite Hn. eexists. split; [done|]. simpl. by rewrite Hi.
Qed.

Lemma conn_recv_end c :
  framed [] (framed_input (conn_framed c)) ->
  exists c' e, conn_recv c = (c', Err e) /\ framed_output (conn_framed c') = framed_output (conn_framed c).
Proof.
  intros Hf. inversion Hf as [Hn|]. destruct (framed_next_end _ (eq_sym H)) as (f' & Hx & Ho).
  unfold conn_recv. rewrite Hx. destruct (framed_end _); eexists _, _; by split.
Qed.

Lemma conn_send_fits e c :
  fits e -> framed_up (conn_framed c) = true ->
  exists c' bs, conn_send c e = Some (c', Ok tt) /\ framed [e] bs /\
    framed_output (conn_framed c') = framed_output (conn_framed c) ++ bs /\
    framed_input (conn_framed c') = framed_input (conn_framed c) /\ framed_up (conn_framed c') = true.
Proof.
  intros He Hu. destruct (fits_frame e (framed_output (conn_framed c)) He) as (pl & Henc & Hd & Hl).
  destruct (framed_send_up _ _ _ Hu Henc) as (f' & Hs & Ho & Hi & _ & Hu'). unfold conn_send. rewrite Hs. simpl.
  eexists _, (frame_of pl). split_and!; [done| |done..]. rewrite <- (app_nil_r (frame_of pl)). by constructor; [..|constructor].
Qed.

(** A socket as a client leaves it that has sent [es]. *)
Definition brings (s : FS) (es : list Envelope) : Prop :=
  framed es (framed_input s) /\ framed_output s = [] /\ framed_up s = true.

End Framing.

(** ** Linearizability *)

Section Facts.
Context {P : Prost} {PL : ProstLaws P} {F : FramedSocket} {FL : FramedLaws F}.
Context {Y : Sys} {K : Tokio} {KL : TokioLaws K} {B : Behaviour} {M R : Type} `{!RemoteMessage M, !RemoteMessage R}.

Context (f : St -> Msg -> St * Rsp) (ok : Msg -> bool) (up : M -> Msg) (down : Rsp -> option R) (node_id : string).
Context (tid : nat) (k : Kind) (addr : Addr) (sd : loc) (ctx : Context) (a0 : St) (base : nat).

Abbreviation handler := (make_handler_async addr up down node_id).
Abbreviation decoded e := (result_ok (msg_decode (payload e)) : option M).

(** A request that was answered, with its place in the history of the actor;
    one that does not decode has none. *)
Abbreviation Answered := (Envelope * option nat)%type (only parsing).

Definition places (xs : list Answered) : list nat := omap snd xs.

(** The response to it, when [h] is handled one message after the other. *)
Definition answer (h : list Call) (x : Answered) : option Envelope :=
  snd x ≫= fun p => reply_to f h a0 p ≫= fun r => respond down node_id (fst x) (Ok r).

(** Its place in the history has its message. *)
Definition placed (h : list Call) (x : Answered) : Prop :=
  match snd x with
  | None => decoded (fst x) = None
  | Some p => exists m e, decoded (fst x) = Some m /\ h !! p = Some e /\ call_msg e = up m /\ is_Some (call_by e)
  end.

(** *** The invariant *)

(** The runtime: which connection each caller works for, what the callers are
    asked, the history and how far the actor has got in it. *)
Record Rt := mkRt { rt_own : gmap nat nat; rt_asked : gmap nat Msg; rt_h : list Call; rt_n : nat; rt_w : World }.

Definition rt_ok (r : Rt) : Prop :=
  linear f ok tid k addr sd ctx a0 base (fun ct => rt_asked r !! ct) (rt_h r) (rt_n r) (rt_w r) /\
  forall ct i, rt_own r !! ct = Some i -> ct < w_fresh (rt_w r).

(** What no step takes back. *)
Record grows (r r' : Rt) : Prop := mkGrows {
  gr_h : exists h', rt_h r' = rt_h r ++ h';
  gr_n : rt_n r <= rt_n r';
  gr_fresh : w_fresh (rt_w r) <= w_fresh (rt_w r');
  gr_asked ct : ct < w_fresh (rt_w r) -> rt_asked r' !! ct = rt_asked r !! ct;
  gr_own ct : ct < w_fresh (rt_w r) -> rt_own r' !! ct = rt_own r !! ct;
  gr_client ct t : w_tasks (rt_w r) !! ct = Some (TClient t) -> untimed t ->
    exists t', w_tasks (rt_w r') !! ct = Some (TClient t') /\ untimed t';
}.

(** Earlier answers [old], and the first place [lo] of later ones. *)
Context (old : nat -> list Answered) (lo : nat -> nat).

Definition settled (r : Rt) (i : nat) (xs : list Answered) : Prop :=
  (exists new, xs = old i ++ new /\ Forall (fun p => lo i <= p) (places new)) /\
  Forall (fun p => p < rt_n r /\ exists e ct rx, rt_h r !! p = Some e /\ call_by e = Some (ct, rx) /\
    rt_own r !! ct = Some i) (places xs) /\
  Forall (placed (rt_h r)) xs /\ StronglySorted lt (places xs).

Definition in_flight (r : Rt) (i : nat) (xs : list Answered) (e : Envelope) (ct : nat) : Prop :=
  base <= ct /\ rt_own r !! ct = Some i /\
  (exists m, decoded e = Some m /\ rt_asked r !! ct = Some (up m)) /\
  (exists t, w_tasks (rt_w r) !! ct = Some (TClient t) /\ untimed t) /\
  forall p e' rx, rt_h r !! p = Some e' -> call_by e' = Some (ct, rx) ->
    lo i <= p /\ Forall (fun q => q < p) (places xs).

(** The connection [i], on which the envelopes [es] arrive. *)
Definition conn_ok (r : Rt) (i : nat) (es : list Envelope) (t : ConnTask handler) (xs : list Answered) : Prop :=
  settled r i xs /\ framed (omap (answer (rt_h r)) xs) (framed_output (conn_framed (ct_conn _ t))) /\
  let ahead todo := framed todo (framed_input (conn_framed (ct_conn _ t))) /\ framed_up (conn_framed (ct_conn _ t)) = true in
  match ct_state _ t with
  | Receiving => exists todo, es = xs.*1 ++ todo /\ ahead todo
  | Handling _ (HStart e) => exists todo, es = xs.*1 ++ e :: todo /\ ahead todo
  | Handling _ (HSend e ct) => exists todo, es = xs.*1 ++ e :: todo /\ ahead todo /\ in_flight r i xs e ct
  | Ended panicked => es = xs.*1 /\ panicked = false
  end.

Record served (inputs : list (list Envelope)) (tasks : list (ConnTask handler)) (xs : nat -> list Answered) (r : Rt)
  : Prop := mkServed {
  se_rt : rt_ok r;
  se_lo i : lo i <= length (rt_h r);
  se_len : length tasks = length inputs;
  se_new i : length inputs <= i -> xs i = [] /\ old i = [];
  se_conn i es t : inputs !! i = Some es -> tasks !! i = Some t -> conn_ok r i es t (xs i);
}.

Hypothesis handles : forall a m, ok m = true -> handle a m = Ret (fst (f a m)) (snd (f a m)).
Hypothesis no_streams : ctx_streams ctx = [].
Hypothesis up_ok : forall m, ok (up m) = true.

(** *** Steps of the runtime *)

Lemma grows_refl r : grows r r.
Proof. split; try done; [exists []; by rewrite app_nil_r|eauto]. Qed.

Lemma grows_trans r1 r2 r3 : grows r1 r2 -> grows r2 r3 -> grows r1 r3.
Proof.
  intros [[h1 E1] N1 F1 A1 O1 C1] [[h2 E2] N2 F2 A2 O2 C2]. split.
  - exists (h1 ++ h2). by rewrite E2, E1, app_assoc.
  - lia.
  - lia.
  - intros ct Hct. by rewrite A2, A1 by lia.
  - intros ct Hct. by rewrite O2, O1 by lia.
  - intros ct t Ht Hu. destruct (C1 ct t Ht Hu) as (t' & Ht' & Hu'). by apply (C2 ct t').
Qed.

Lemma rt_step r l :
  rt_ok r -> allowed ok tid addr base l (rt_w r) = true ->
  exists r', rt_ok r' /\ grows r r' /\ rt_w r' = exec l (rt_w r) /\ rt_own r' = rt_own r /\
    (forall a m b d, l = LSend a m b d -> rt_asked r' !! w_fresh (rt_w r) = Some m).
Proof.
  intros [HL Hown] Hal.
  destruct (linear_step _ _ _ _ _ _ _ _ _ _ _ _ _ _ handles no_streams HL Hal) as (asked' & h' & n' & Hag & Hnew & Hn & HL').
  pose proof (exec_fresh l _ (li_wf _ _ _ _ _ _ _ _ _ _ _ _ _ HL)) as Hf.
  exists (mkRt (rt_own r) asked' (rt_h r ++ h') n' (exec l (rt_w r))). split_and!; try done.
  - split; [done|]. intros ct i Hi. apply Hown in Hi. simpl. lia.
  - split; simpl; try done; [by exists h'|]. intros ct t Ht Hu.
    by apply (exec_untimed _ _ _ _ _ _ _ _ _ _ _ _ _ _ _ _ handles no_streams HL Hal Ht Hu).
Qed.

Lemma places_app xs ys : places (xs ++ ys) = places xs ++ places ys.
Proof. apply omap_app. Qed.

Lemma answer_grow h h' n xs :
  n <= length h -> Forall (fun p => p < n) (places xs) -> omap (answer (h ++ h')) xs = omap (answer h) xs.
Proof.
  intros Hn Hp. induction xs as [|x xs IH]; [done|].
  assert (answer (h ++ h') x = answer h x /\ Forall (fun p => p < n) (places xs)) as [E Hp'].
  { destruct x as [e [p|]]; [|done]. apply Forall_cons in Hp as [Hlt Hp]. split; [|done].
    unfold answer. simpl. by rewrite reply_to_app by lia. }
  specialize (IH Hp'). cbn [omap list_omap]. rewrite E. destruct (answer h x); [f_equal|]; exact IH.
Qed.

Lemma settled_places r i xs : settled r i xs -> Forall (fun p => p < rt_n r) (places xs).
Proof. intros (_ & H & _). eapply Forall_impl; [exact H|]. by intros p [? _]. Qed.

Lemma settled_grow r r' i xs : rt_ok r -> grows r r' -> settled r i xs -> settled r' i xs.
Proof.
  intros [HL Hown] G (Hold & Hp & Hpl & Hs). destruct (gr_h _ _ G) as [h' E]. split_and!; [done|..|done].
  - eapply Forall_impl; [exact Hp|]. intros p (Hlt & e & ct & rx & Hh & Hc & Ho). pose proof (gr_n _ _ G).
    split; [lia|]. exists e, ct, rx. rewrite E. split_and!; [by apply lookup_app_l_Some|done|].
    by rewrite (gr_own _ _ G) by eauto.
  - eapply Forall_impl; [exact Hpl|]. intros [e [p|]]; unfold placed; simpl; [|done].
    intros (m & c & Hd & Hh & ?). exists m, c. rewrite E. split_and!; [done|by apply lookup_app_l_Some|naive_solver..].
Qed.

Lemma in_flight_grow r r' i xs e ct :
  rt_ok r -> lo i <= length (rt_h r) -> grows r r' -> settled r i xs -> in_flight r i xs e ct -> in_flight r' i xs e ct.
Proof.
  intros [HL Hown] Hlo G Hse (Hb & Ho & (m & Hd & Ha) & (t & Ht & Hu) & Hpl).
  destruct (gr_h _ _ G) as [h' E]. pose proof (Hown _ _ Ho) as Hct. split_and!; [done|..].
  - by rewrite (gr_own _ _ G).
  - exists m. by rewrite (gr_asked _ _ G).
  - by apply (gr_client _ _ G ct t).
  - intros p e' rx. rewrite E. intros Hp Hc. apply lookup_app_Some in Hp as [Hp|[Hge _]]; [by apply (Hpl p e' rx)|].
    split; [lia|]. pose proof (li_len _ _ _ _ _ _ _ _ _ _ _ _ _ HL). simpl in *.
    eapply Forall_impl; [exact (settled_places r i xs Hse)|]. simpl. lia.
Qed.

Lemma conn_grow r r' i es t xs :
  rt_ok r -> lo i <= length (rt_h r) -> grows r r' -> conn_ok r i es t xs -> conn_ok r' i es t xs.
Proof.
  intros Hr Hlo G (Hse & Hf & Hst). split; [by eapply settled_grow|]. split.
  - destruct (gr_h _ _ G) as [h' ->]. rewrite (answer_grow _ _ (rt_n r)); [exact Hf| |exact (settled_places r i xs Hse)].
    apply (li_len _ _ _ _ _ _ _ _ _ _ _ _ _ (proj1 Hr)).
  - destruct (ct_state _ t) as [|[e|e ct]|p]; [exact Hst|exact Hst| |exact Hst].
    destruct Hst as (todo & H1 & H2 & H3). exists todo. split; [exact H1|]. split; [exact H2|]. by eapply in_flight_grow.
Qed.

(** *** Turns of a connection *)

(** The answer [x] comes to those of the connection, and what was written
    grows by its response. *)
Lemma settled_snoc r i xs x :
  settled r i xs -> placed (rt_h r) x ->
  Forall (fun p => lo i <= p /\ p < rt_n r /\ Forall (fun q => q < p) (places xs) /\
    exists e ct rx, rt_h r !! p = Some e /\ call_by e = Some (ct, rx) /\ rt_own r !! ct = Some i) (places [x]) ->
  settled r i (xs ++ [x]).
Proof.
  intros ((new & -> & Hnew) & Hp & Hpl & Hs) Hx Hpx. split_and!.
  - exists (new ++ [x]). rewrite app_assoc. split; [done|]. rewrite places_app. apply Forall_app. split; [done|].
    eapply Forall_impl; [exact Hpx|]. by intros p [? _].
  - rewrite places_app. apply Forall_app. split; [done|]. eapply Forall_impl; [exact Hpx|]. naive_solver.
  - apply Forall_app. split; [done|]. by constructor.
  - rewrite places_app. destruct x as [e [p|]]; simpl in *; [|by rewrite app_nil_r].
    apply Forall_cons in Hpx as [(_ & _ & Hlt & _) _]. clear -Hs Hlt.
    induction Hs as [|q l Hs IH Hq]; simpl; [by repeat constructor|].
    apply Forall_cons in Hlt as [Hqp Hlt]. constructor; [by apply IH|]. apply Forall_app. split; [done|]. by constructor.
Qed.

(** A turn of the task of connection [i]: the runtime has grown to [r'], the
    task is [t'] and its answers are [ys]. *)
Lemma served_update inputs tasks xs r r' i es t' ys :
  served inputs tasks xs r -> rt_ok r' -> grows r r' -> inputs !! i = Some es -> conn_ok r' i es t' ys ->
  served inputs (<[i := t']> tasks) (fun j => if decide (j = i) then ys else xs j) r'.
Proof.
  intros HS Hr' G Hes Hc. pose proof (lookup_lt_Some _ _ _ Hes) as Hlt. split; [done|..].
  - intros j. pose proof (se_lo _ _ _ _ HS j). destruct (gr_h _ _ G) as [h' ->]. rewrite length_app. lia.
  - rewrite length_insert. apply HS.
  - intros j Hj. rewrite decide_False by lia. by apply HS.
  - intros j es' t Hes' Ht. destruct (decide (j = i)) as [->|Hn].
    + rewrite list_lookup_insert_eq in Ht by (rewrite (se_len _ _ _ _ HS); lia). by simplify_eq.
    + rewrite list_lookup_insert_ne in Ht by done. eapply conn_grow; [apply HS|apply HS|done|by apply HS].
Qed.

(** A handled request of a connection: the response is sent. *)
Lemma conn_respond r i es xs e o todo c s' t' :
  settled r i (xs ++ [(e, o)]) -> framed (omap (answer (rt_h r)) xs) (framed_output (conn_framed c)) ->
  es = xs.*1 ++ e :: todo -> framed todo (framed_input (conn_framed c)) -> framed_up (conn_framed c) = true ->
  Forall fits (option_list (answer (rt_h r) (e, o))) ->
  match answer (rt_h r) (e, o) with
  | None => (s', mkConnTask c Receiving)
  | Some response =>
      match conn_send c response with
      | None => (s', mkConnTask c (Ended true))
      | Some (c, Err _) => (s', mkConnTask c (Ended false))
      | Some (c, Ok _) => (s', mkConnTask c Receiving)
      end
  end = (rt_w r, t') ->
  s' = rt_w r /\ conn_ok r i es t' (xs ++ [(e, o)]).
Proof.
  intros Hse Hf -> Ht Hu Hfit. destruct (answer (rt_h r) (e, o)) as [resp|] eqn:Ha.
  - apply Forall_cons in Hfit as [Hfit _]. destruct (conn_send_fits resp c Hfit Hu) as (c' & bs & -> & Hbs & Ho & Hi & Hu').
    intros [= -> <-]. split; [done|]. split; [done|]. simpl. split.
    + rewrite omap_app, Ho. apply framed_app; [done|]. simpl. by rewrite Ha.
    + exists todo. rewrite fmap_app, <- app_assoc, Hi. done.
  - intros [= -> <-]. split; [done|]. split; [done|]. simpl. split.
    + rewrite omap_app. simpl. by rewrite Ha, app_nil_r.
    + exists todo. by rewrite fmap_app, <- app_assoc.
Qed.

(** Whatever the actor replies to the envelope, the response can be sent. *)
Definition answerable (e : Envelope) : Prop := forall x resp, respond down node_id e (Ok x) = Some resp -> fits resp.

Lemma answer_fits h e o : answerable e -> Forall fits (option_list (answer h (e, o))).
Proof.
  intros He. destruct (answer h (e, o)) as [resp|] eqn:Ha; [|constructor]. constructor; [|constructor].
  unfold answer in Ha. simpl in Ha. destruct o as [p|]; [|done]. simpl in Ha.
  destruct (reply_to f h a0 p) as [x|]; [|done]. by apply (He x).
Qed.

(** The reply that a caller has is the one at its place in the history. *)
Lemma flight_lands r i xs e ct reply :
  rt_ok r -> in_flight r i xs e ct -> w_tasks (rt_w r) !! ct = Some (TClient (inr reply)) ->
  exists p x, reply = Ok x /\ answer (rt_h r) (e, Some p) = respond down node_id e reply /\
    placed (rt_h r) (e, Some p) /\
    Forall (fun p => lo i <= p /\ p < rt_n r /\ Forall (fun q => q < p) (places xs) /\
      exists e' ct rx, rt_h r !! p = Some e' /\ call_by e' = Some (ct, rx) /\ rt_own r !! ct = Some i) [p].
Proof.
  intros [HL _] (Hb & Ho & (m & Hd & Ha) & (t & Ht & Hu) & Hpl) Hr. rewrite Hr in Ht. injection Ht as <-.
  destruct (li_task _ _ _ _ _ _ _ _ _ _ _ _ _ HL ct _ Hb Hr) as (c & [= <-] & [[]|(p & e' & rx & Hp & Hc)]).
  destruct (li_call _ _ _ _ _ _ _ _ _ _ _ _ _ HL p e' ct rx Hp Hc) as (_ & _ & t & Ht & Haw).
  rewrite Hr in Ht. injection Ht as <-. destruct Haw as [[d [=]]|[[= ->]|(Hlt & x & Hx & [= ->])]]; [done|].
  destruct (Hpl p e' rx Hp Hc) as [Hlo Hfor].
  exists p, x. split; [done|]. split; [unfold answer; simpl; by rewrite Hx|]. split.
  - exists m, e'. split; [done|]. split; [done|]. split; [|by rewrite Hc].
    pose proof (li_asked _ _ _ _ _ _ _ _ _ _ _ _ _ HL p e' ct rx Hp Hc) as H. simpl in H. congruence.
  - constructor; [|constructor]. split_and!; [done..|]. by exists e', ct, rx.
Qed.

(** What a turn comes to. *)
Definition turned (r : Rt) (i : nat) (es : list Envelope) (xs : list Answered) (p : World * ConnTask handler) : Prop :=
  exists r' ys, fst p = rt_w r' /\ rt_ok r' /\ grows r r' /\ conn_ok r' i es (snd p) ys.

Lemma turn_respond r i es xs e o todo c :
  rt_ok r -> settled r i xs -> framed (omap (answer (rt_h r)) xs) (framed_output (conn_framed c)) ->
  es = xs.*1 ++ e :: todo -> framed todo (framed_input (conn_framed c)) -> framed_up (conn_framed c) = true ->
  answerable e -> settled r i (xs ++ [(e, o)]) ->
  turned r i es xs
    match answer (rt_h r) (e, o) with
    | None => (rt_w r, mkConnTask c Receiving)
    | Some response =>
        match conn_send c response with
        | None => (rt_w r, mkConnTask c (Ended true))
        | Some (c, Err _) => (rt_w r, mkConnTask c (Ended false))
        | Some (c, Ok _) => (rt_w r, mkConnTask c Receiving)
        end
    end.
Proof.
  intros Hr Hse Hf Hes Ht Hu Ha Hse'. exists r, (xs ++ [(e, o)]).
  match goal with |- fst ?p = _ /\ _ => destruct p as [s' t'] eqn:Hp end. simpl.
  assert (s' = rt_w r) as -> by (repeat case_match; by simplify_eq).
  destruct (conn_respond r i es xs e o todo c _ t' Hse' Hf Hes Ht Hu (answer_fits _ _ _ Ha) Hp) as [_ Hc].
  split; [done|]. split; [done|]. split; [apply grows_refl|exact Hc].
Qed.

Lemma turn_send r i es xs c e ct :
  rt_ok r -> lo i <= length (rt_h r) -> answerable e ->
  conn_ok r i es (mkConnTask c (Handling handler (HSend e ct))) xs ->
  turned r i es xs (conn_turn handler (mkConnTask c (Handling handler (HSend e ct))) (rt_w r)).
Proof.
  intros Hr Hlo Ha Hc. pose proof Hc as (_ & _ & todo & _ & _ & (Hb & _ & _ & (t & Ht & _) & _)).
  assert (Hal : allowed ok tid addr base (LPoll ct) (rt_w r) = true).
  { simpl. destruct Hr as [HL _]. rewrite decide_False; [by apply bool_decide_eq_true|].
    by apply (li_client_ne _ _ _ _ _ _ _ _ _ _ _ _ _ _ _ HL Ht). }
  destruct (rt_step r (LPoll ct) Hr Hal) as (r' & Hr' & G & Hw & _).
  assert (Hlo' : lo i <= length (rt_h r')) by (destruct (gr_h _ _ G) as [h' ->]; rewrite length_app; lia).
  pose proof (conn_grow r r' i es _ xs Hr Hlo G Hc) as (Hse & Hf & todo' & Hes & [Hin Hup] & Hfl). simpl in *.
  unfold poll_await. assert (E : fst (poll_client ct (rt_w r)) = rt_w r').
  { rewrite Hw. unfold poll_task. by rewrite Ht. }
  assert (Hres : forall x, snd (poll_client ct (rt_w r)) = Some x -> w_tasks (rt_w r') !! ct = Some (TClient (inr x))).
  { intros x. rewrite <- E. unfold poll_client. rewrite Ht. destruct t as [fut|y]; simpl; [|congruence].
    destruct (poll_send fut (rt_w r)) as [w1 [f1|y]]; simpl; [done|]. intros [= ->]. by rewrite lookup_insert_eq. }
  destruct (poll_client ct (rt_w r)) as [w' [x|]]; simpl in E, Hres; subst w'.
  - destruct (flight_lands r' i xs e ct x Hr' Hfl (Hres x eq_refl)) as (p & y & -> & Hans & Hpl & Hpp).
    rewrite <- Hans.
    destruct (turn_respond r' i es xs e (Some p) todo' c Hr' Hse Hf Hes Hin Hup Ha) as (r2 & ys & H1 & H2 & H3 & H4).
    { by apply settled_snoc. }
    exists r2, ys. split; [exact H1|]. split; [exact H2|]. split; [by eapply grows_trans|exact H4].
  - exists r', xs. split; [done|]. split; [done|]. split; [done|]. split; [done|]. split; [done|]. by exists todo'.
Qed.

(** The first poll makes the call: a caller that no history knows yet. *)
Lemma call_starts r i es xs c e m :
  rt_ok r -> lo i <= length (rt_h r) -> decoded e = Some m ->
  conn_ok r i es (mkConnTask c (Handling handler (HStart e))) xs ->
  exists r', rt_w r' = exec (LSend addr (up m) false None) (rt_w r) /\ rt_ok r' /\ grows r r' /\
    conn_ok r' i es (mkConnTask c (Handling handler (HSend e (w_fresh (rt_w r))))) xs.
Proof.
  intros Hr Hlo Hd Hc. set (l := LSend addr (up m) false None). set (ct := w_fresh (rt_w r)).
  assert (Hal : allowed ok tid addr base l (rt_w r) = true) by (simpl; by rewrite bool_decide_eq_true_2, up_ok).
  destruct (rt_step r l Hr Hal) as ([own1 asked1 h1 n1 w1] & Hr1 & G & Hw & Hown & Hask). simpl in Hw, Hown. subst own1 w1.
  assert (Hsc : w_fresh (exec l (rt_w r)) = S ct) by done.
  set (r' := mkRt (<[ct := i]> (rt_own r)) asked1 h1 n1 (exec l (rt_w r))).
  assert (G' : grows r r').
  { destruct G as [G1 G2 G3 G4 G5 G6]. split; try done. intros ct' Hct'. simpl. by rewrite lookup_insert_ne by (unfold ct; lia). }
  assert (Hr' : rt_ok r').
  { destruct Hr1 as [HL Ho]. split; [done|]. intros ct' j. unfold r'. cbn [rt_own rt_w]. rewrite Hsc, lookup_insert.
    case_decide; [lia|]. intros Hj. apply Hr in Hj. unfold ct. lia. }
  exists r'. split; [done|]. split; [done|]. split; [done|].
  pose proof (conn_grow r r' i es _ xs Hr Hlo G' Hc) as (Hse & Hf & todo & Hes & Hah). split; [done|]. split; [done|].
  exists todo. split; [done|]. split; [done|].
  assert (Ht : w_tasks (rt_w r') !! ct = Some (TClient (inl (SendInit addr (up m) false None)))) by apply lookup_insert_eq.
  split_and!.
  - apply (li_base _ _ _ _ _ _ _ _ _ _ _ _ _ (proj1 Hr)).
  - apply lookup_insert_eq.
  - exists m. split; [done|]. by eapply Hask.
  - eexists. split; [exact Ht|done].
  - intros p e' rx Hp He. destruct Hr' as [HL' _].
    destruct (li_call _ _ _ _ _ _ _ _ _ _ _ _ _ HL' p e' ct rx Hp He) as (_ & _ & t & Ht' & Haw).
    rewrite Ht in Ht'. injection Ht' as <-. by destruct Haw as [[d [=]]|[[=]|(_ & x & _ & [=])]].
Qed.

Lemma turn_ok r i es xs t :
  rt_ok r -> lo i <= length (rt_h r) -> Forall answerable es -> conn_ok r i es t xs ->
  turned r i es xs (conn_turn handler t (rt_w r)).
Proof.
  intros Hr Hlo Ha Hc. destruct t as [c [|[e|e ct]|p]].
  - destruct Hc as (Hse & Hf & todo & Hes & Hin & Hup). simpl in *. destruct todo as [|e todo].
    + destruct (conn_recv_end c Hin) as (c' & err & -> & Ho). exists r, xs. split; [done|]. split; [done|].
      split; [apply grows_refl|]. split; [done|]. simpl. rewrite Ho. split; [done|]. by rewrite Hes, app_nil_r.
    + destruct (conn_recv_framed e todo c Hin) as (c' & -> & Hin' & Ho & Hu). exists r, xs. split; [done|]. split; [done|].
      split; [apply grows_refl|]. split; [done|]. simpl. rewrite Ho, Hu. split; [done|]. by exists todo.
  - pose proof Hc as (Hse & Hf & todo & Hes & Hin & Hup). simpl in *.
    assert (Hae : answerable e) by (rewrite Hes in Ha; by apply Forall_app in Ha as [_ ?%Forall_inv]).
    destruct (decoded e) as [m|] eqn:Hd.
    + destruct (call_starts r i es xs c e m Hr Hlo Hd Hc) as (r1 & Hw & Hr1 & G1 & Hc1).
      assert (Hlo1 : lo i <= length (rt_h r1)) by (destruct (gr_h _ _ G1) as [h' ->]; rewrite length_app; lia).
      destruct (turn_send r1 i es xs c e _ Hr1 Hlo1 Hae Hc1) as (r2 & ys & H1 & H2 & H3 & H4).
      rewrite Hw in H1, H4. exists r2, ys. split; [exact H1|]. split; [done|]. split; [by eapply grows_trans|exact H4].
    + apply (turn_respond r i es xs e None todo c); try done. apply settled_snoc; [done|done|constructor].
  - assert (Hae : answerable e).
    { destruct Hc as (_ & _ & todo & Hes & _). rewrite Hes in Ha. by apply Forall_app in Ha as [_ ?%Forall_inv]. }
    by apply turn_send.
  - exists r, xs. split; [done|]. split; [done|]. split; [apply grows_refl|done].
Qed.

(** *** Runs *)

(** Every step of the rest of the process is one of the actor or of its callers. *)
Fixpoint locals_allowed (evs : list (ServerEvent Label)) (st : list (ConnTask handler) * World) : bool :=
  match evs with
  | [] => true
  | ev :: evs =>
      match ev with Local l => allowed ok tid addr base l (snd st) | _ => true end &&
      locals_allowed evs (run_event handler exec ev st)
  end.

Lemma served_event inputs tasks xs r ev more :
  served inputs tasks xs r -> Forall (Forall answerable) inputs -> Forall2 brings (accepted ev) more ->
  match ev with Local l => allowed ok tid addr base l (rt_w r) = true | _ => True end ->
  exists xs' r', snd (run_event handler exec ev (tasks, rt_w r)) = rt_w r' /\ grows r r' /\
    served (inputs ++ more) (fst (run_event handler exec ev (tasks, rt_w r))) xs' r'.
Proof.
  intros HS Ha Hb Hal. destruct ev as [[[s a]|err]|i|l]; simpl in Hb |- *.
  - apply Forall2_cons_inv_l in Hb as (es & ? & (Hin & Hout & Hup) & ->%Forall2_nil_inv_l & ->).
    exists xs, r. split; [done|]. split; [apply grows_refl|]. destruct HS as [H1 H2 H3 H4 H5]. split; [done|done|..].
    + by rewrite !length_app, H3.
    + intros i. rewrite length_app. intros Hi. apply H4. simpl in Hi. lia.
    + intros i es' t Hes Ht. destruct (decide (i < length inputs)) as [Hlt|Hge].
      * rewrite lookup_app_l in Hes by done. rewrite lookup_app_l in Ht by lia. by apply H5.
      * apply lookup_snoc_Some in Hes as [[? _]|[-> <-]]; [done|].
        apply lookup_snoc_Some in Ht as [[? _]|[_ <-]]; [lia|]. destruct (H4 (length inputs)) as [Hx Ho]; [lia|].
        unfold conn_ok, settled. rewrite Hx, Ho. simpl. rewrite Hout. split.
        -- split_and!; [exists []; split; [done|]|..]; constructor.
        -- split; [constructor|]. by exists es.
  - apply Forall2_nil_inv_l in Hb as ->. rewrite app_nil_r. exists xs, r. split; [done|]. split; [apply grows_refl|done].
  - apply Forall2_nil_inv_l in Hb as ->. rewrite app_nil_r.
    destruct (tasks !! i) as [t|] eqn:Ht; [|exists xs, r; split; [done|]; split; [apply grows_refl|done]].
    destruct (lookup_lt_is_Some_2 inputs i) as [es Hes]; [rewrite <- (se_len _ _ _ _ HS); by apply lookup_lt_Some in Ht|].
    destruct (turn_ok r i es (xs i) t) as (r' & ys & H1 & H2 & H3 & H4);
      [apply HS|apply HS|by eapply Forall_lookup_1|by apply (se_conn _ _ _ _ HS)|].
    destruct (conn_turn handler t (rt_w r)) as [w' t']. simpl in *. subst w'.
    eexists _, r'. split; [done|]. split; [done|]. by eapply served_update.
  - apply Forall2_nil_inv_l in Hb as ->. rewrite app_nil_r.
    destruct (rt_step r l (se_rt _ _ _ _ HS) Hal) as (r' & Hr' & G & Hw & _). exists xs, r'. split; [done|]. split; [done|].
    destruct HS as [H1 H2 H3 H4 H5]. split; [done|..|done|done|].
    + intros i. destruct (gr_h _ _ G) as [h' ->]. rewrite length_app. specialize (H2 i). lia.
    + intros i es t Hes Ht. apply (conn_grow r r'); [done|by apply H2|done|by apply H5].
Qed.

Lemma served_run inputs tasks xs r evs more :
  served inputs tasks xs r -> Forall (Forall answerable) (inputs ++ more) -> Forall2 brings (evs ≫= accepted) more ->
  locals_allowed evs (tasks, rt_w r) = true ->
  exists xs' r', snd (run handler exec evs (tasks, rt_w r)) = rt_w r' /\ grows r r' /\
    served (inputs ++ more) (fst (run handler exec evs (tasks, rt_w r))) xs' r'.
Proof.
  revert inputs tasks xs r more. induction evs as [|ev evs IH]; intros inputs tasks xs r more HS Ha Hb Hal.
  { apply Forall2_nil_inv_l in Hb as ->. exists xs, r. rewrite app_nil_r. split; [done|]. split; [apply grows_refl|done]. }
  rewrite bind_cons in Hb. apply Forall2_app_inv_l in Hb as (m1 & m2 & Hb1 & Hb2 & ->).
  cbn [locals_allowed] in Hal. apply andb_true_iff in Hal as [Hal1 Hal2].
  rewrite app_assoc in Ha |- *. pose proof Ha as [Ha1 _]%Forall_app.
  destruct (served_event inputs tasks xs r ev m1 HS) as (xs1 & r1 & E1 & G1 & HS1);
    [by apply Forall_app in Ha1 as [? _]|done|by destruct ev|].
  unfold run. cbn [foldl]. destruct (run_event handler exec ev (tasks, rt_w r)) as [tasks1 w1]. simpl in E1, HS1. subst w1.
  destruct (IH _ _ _ _ _ HS1 Ha Hb2 Hal2) as (xs2 & r2 & E2 & G2 & HS2).
  exists xs2, r2. split; [exact E2|]. split; [by eapply grows_trans|exact HS2].
Qed.

End Facts.

(** ** The property *)

Section Property.
Context {P : Prost} {PL : ProstLaws P} {F : FramedSocket} {FL : FramedLaws F}.
Context {Y : Sys} {K : Tokio} {KL : TokioLaws K} {B : Behaviour} {M R : Type} `{!RemoteMessage M, !RemoteMessage R}.

(** What a server run has come to. [xs i] are the requests answered on the
    connection [i], each with its place in the history [h]. *)
Definition explained (f : St -> Msg -> St * Rsp) (up : M -> Msg) (down : Rsp -> option R) (node_id : string) (addr : Addr)
    (a : St) (inputs : list (list Envelope)) (tasks : list (ConnTask (make_handler_async addr up down node_id)))
    (h : list Call) (xs : nat -> list (Envelope * option nat)) : Prop :=
  (forall i j p, p ∈ places (xs i) -> p ∈ places (xs j) -> i = j) /\
  forall i es t, inputs !! i = Some es -> tasks !! i = Some t ->
    Forall (placed up h) (xs i) /\ StronglySorted lt (places (xs i)) /\
    framed (omap (answer f down node_id a h) (xs i)) (framed_output (conn_framed (ct_conn _ t))) /\
    (exists todo, es = (xs i).*1 ++ todo /\ (forall p, ct_state _ t = Ended p -> todo = [])) /\
    ct_state _ t <> Ended true.

Lemma served_explained f ok (up : M -> Msg) (down : Rsp -> option R) node_id tid k addr sd ctx a base old lo inputs tasks xs r :
  served f ok up down node_id tid k addr sd ctx a base old lo inputs tasks xs r ->
  (forall i, length inputs <= i -> xs i = []) ->
  explained f up down node_id addr a inputs tasks (rt_h r) xs.
Proof.
  intros HS Hout. split.
  - assert (Hown : forall i p, p ∈ places (xs i) ->
      exists e ct rx, rt_h r !! p = Some e /\ call_by e = Some (ct, rx) /\ rt_own r !! ct = Some i).
    { intros i p Hp. destruct (decide (i < length inputs)) as [Hlt|Hge]; [|by rewrite Hout in Hp by lia; apply not_elem_of_nil in Hp].
      destruct (lookup_lt_is_Some_2 inputs i Hlt) as [es Hes].
      destruct (lookup_lt_is_Some_2 tasks i) as [t Ht]; [by rewrite (se_len _ _ _ _ _ _ _ _ _ _ _ _ _ _ _ _ _ _ HS)|].
      destruct (se_conn _ _ _ _ _ _ _ _ _ _ _ _ _ _ _ _ _ _ HS i es t Hes Ht) as ((_ & Hpl & _) & _).
      rewrite Forall_forall in Hpl. by destruct (Hpl p Hp) as [_ ?]. }
    intros i j p Hi Hj. destruct (Hown i p Hi) as (e & ct & rx & H1 & H2 & H3).
    destruct (Hown j p Hj) as (e' & ct' & rx' & H1' & H2' & H3'). congruence.
  - intros i es t Hes Ht.
    destruct (se_conn _ _ _ _ _ _ _ _ _ _ _ _ _ _ _ _ _ _ HS i es t Hes Ht) as ((_ & _ & Hpl & Hs) & Hf & Hst).
    split; [done|]. split; [done|]. split; [done|].
    destruct (ct_state _ t) as [|[e|e ct]|p].
    + destruct Hst as (todo & Hes' & _). split; [|done]. by exists todo.
    + destruct Hst as (todo & Hes' & _). split; [|done]. by exists (e :: todo).
    + destruct Hst as (todo & Hes' & _). split; [|done]. by exists (e :: todo).
    + destruct Hst as [-> ->]. split; [|done]. exists []. by rewrite app_nil_r.
Qed.

(** The answers so far become the old ones; a connection that is not in the
    middle of a call has all its later requests behind the history so far. *)
Definition later_from {H : AsyncHandler World} (pending : Fut H -> bool) (tasks : list (ConnTask H)) (n i : nat) : nat :=
  match tasks !! i with
  | Some (mkConnTask _ (Handling _ fut)) => if pending fut then 0 else n
  | _ => n
  end.
Definition is_sent (fut : HandlerFut) : bool := match fut with HSend _ _ => true | HStart _ => false end.

Lemma served_again f ok (up : M -> Msg) (down : Rsp -> option R) node_id tid k addr sd ctx a base old lo inputs tasks xs r :
  served f ok up down node_id tid k addr sd ctx a base old lo inputs tasks xs r ->
  served f ok up down node_id tid k addr sd ctx a base xs
    (later_from (H := make_handler_async addr up down node_id) is_sent tasks (length (rt_h r))) inputs tasks xs r.
Proof.
  intros [H1 H2 H3 H4 H5]. split; [done| |done| |].
  - intros i. unfold later_from. repeat case_match; lia.
  - intros i Hi. by destruct (H4 i Hi).
  - intros i es t Hes Ht. destruct (H5 i es t Hes Ht) as ((_ & Hse) & Hf & Hst). split; [|split; [done|]].
    + split; [|done]. exists []. rewrite app_nil_r. split; [done|constructor].
    + destruct t as [c [|[e|e ct]|p]]; [exact Hst|exact Hst| |exact Hst]. simpl in *.
      destruct Hst as (todo & E & Hah & Hb & Ho & Hm & Hcl & Hpl). exists todo. split; [done|]. split; [done|].
      split_and!; [done..|]. intros p e' rx Hp Hc. destruct (Hpl p e' rx Hp Hc). split; [|done].
      unfold later_from. rewrite Ht. simpl. lia.
Qed.

(** C14: the server is linearizable. Let [RemoteServer::run] accept connections
    and serve them with [make_handler] over an actor that is idle at first,
    while the actor, other callers and the connections take steps in any order,
    so that many requests are in their handlers at once. Then one history, in
    the order of the mailbox, explains the actor and all of them: the requests
    answered on a connection are a prefix of those that arrived there (all of
    them once it has ended), each has a place of its own in the history, in
    the order of arrival, and what was written to the connection are the
    replies at these places. A request that is received after some point has
    its place behind all that were answered before it, on any connection. No
    task panics. The handlers of the actor compute [f] without calls of the API,
    and the process has no other steps than those of the server, of the actor
    and its callers, and of time ([allowed], as in Linear.v: the actor is not
    asked to stop); the sockets bring whole frames and stay up, and each
    response fits into a frame. *)
Theorem server_linearizable f ok (up : M -> Msg) (down : Rsp -> option R) node_id tid k addr sd ctx a (w : World)
    (evs1 evs2 : list (ServerEvent Label)) inputs1 inputs2 :
  reachable w -> parked tid k addr sd a ctx [] [] w -> ctx_streams ctx = [] ->
  (forall a m, ok m = true -> handle a m = Ret (fst (f a m)) (snd (f a m))) -> (forall m, ok (up m) = true) ->
  Forall2 brings (evs1 ≫= accepted) inputs1 -> Forall2 brings (evs2 ≫= accepted) inputs2 ->
  Forall (Forall (answerable down node_id)) (inputs1 ++ inputs2) ->
  let handler := make_handler_async addr up down node_id in
  let st1 := run handler exec evs1 ([], w) in
  let st2 := run handler exec evs2 st1 in
  locals_allowed ok up down node_id tid addr (w_fresh w) evs1 ([], w) = true ->
  locals_allowed ok up down node_id tid addr (w_fresh w) evs2 st1 = true ->
  exists h1 h2 xs1 xs2 asked1 asked2,
    explains f tid k addr sd ctx a (w_fresh w) asked1 h1 (snd st1) /\
    explained f up down node_id addr a inputs1 (fst st1) h1 xs1 /\
    explains f tid k addr sd ctx a (w_fresh w) asked2 (h1 ++ h2) (snd st2) /\
    explained f up down node_id addr a (inputs1 ++ inputs2) (fst st2) (h1 ++ h2) xs2 /\
    forall i, exists later, xs2 i = xs1 i ++ later /\
      (match fst st1 !! i with Some t => ct_state _ t = Receiving | None => True end ->
       Forall (fun p => length h1 <= p) (places later)).
Proof.
  intros Hr Hp Hs Hh Hup Hb1 Hb2 Ha handler st1 st2 Hl1 Hl2.
  pose proof (linear_start f ok tid k addr sd ctx a (w_fresh w) (fun ct => (∅ : gmap nat Msg) !! ct) w
    (reachable_wf _ Hr) Hp eq_refl) as HL.
  set (r0 := mkRt ∅ ∅ [] 0 w).
  assert (HS0 : served f ok up down node_id tid k addr sd ctx a (w_fresh w) (fun _ => []) (fun _ => 0) [] [] (fun _ => []) r0).
  { split; [split; [exact HL|intros ct i; simpl; by rewrite lookup_empty]|done..]. }
  pose proof Ha as [Ha1 _]%Forall_app.
  destruct (served_run _ _ _ _ _ _ _ _ _ _ _ _ _ _ Hh Hs Hup [] [] _ r0 evs1 inputs1 HS0 Ha1 Hb1 Hl1)
    as (xs1 & r1 & E1 & _ & HS1).
  change (rt_w r0) with w in E1, HS1. fold handler st1 in E1, HS1. cbn [app] in HS1.
  destruct st1 as [tasks1 w1] eqn:Hst1. simpl in E1, HS1. subst w1.
  pose proof (served_again _ _ _ _ _ _ _ _ _ _ _ _ _ _ _ _ _ _ HS1) as HS1'.
  destruct (served_run _ _ _ _ _ _ _ _ _ _ _ _ _ _ Hh Hs Hup inputs1 tasks1 _ r1 evs2 inputs2 HS1' Ha Hb2 Hl2)
    as (xs2 & r2 & E2 & G & HS2).
  fold handler st2 in E2, HS2. destruct (gr_h _ _ G) as [h2 Eh].
  exists (rt_h r1), h2, xs1, xs2, (rt_asked r1), (rt_asked r2). rewrite <- Eh, E2.
  split; [by eapply linear_explains; apply HS1|]. split; [by eapply served_explained; [|apply HS1]|].
  split; [by eapply linear_explains; apply HS2|].
  assert (Hout2 : forall i, length (inputs1 ++ inputs2) <= i -> xs2 i = []).
  { intros i Hi. by destruct (se_new _ _ _ _ _ _ _ _ _ _ _ _ _ _ _ _ _ _ HS2 i Hi). }
  split; [by eapply served_explained|]. intros i.
  destruct (decide (i < length (inputs1 ++ inputs2))) as [Hlt|Hge].
  - destruct (lookup_lt_is_Some_2 _ i Hlt) as [es Hes].
    destruct (lookup_lt_is_Some_2 (fst st2) i) as [t Ht];
      [apply (Nat.lt_le_trans _ _ _ Hlt), Nat.eq_le_incl; symmetry; apply (se_len _ _ _ _ _ _ _ _ _ _ _ _ _ _ _ _ _ _ HS2)|].
    destruct (se_conn _ _ _ _ _ _ _ _ _ _ _ _ _ _ _ _ _ _ HS2 i es t Hes Ht) as (((new & En & Hnew) & _) & _).
    exists new. split; [done|]. intros Hrec. eapply Forall_impl; [exact Hnew|]. intros p. unfold later_from.
    simpl in Hrec. destruct (tasks1 !! i) as [[c st]|]; [|done]. simpl in Hrec. by rewrite Hrec.
  - exists []. rewrite app_nil_r. split; [|constructor]. rewrite Hout2 by lia. symmetry.
    apply (se_new _ _ _ _ _ _ _ _ _ _ _ _ _ _ _ _ _ _ HS1 i). rewrite length_app in Hge. lia.
Qed.

End Property.

(** ** Witness *)

Section Witnesses.
Import Demo RefProst RefSocket.

#[local] Instance text_message : RemoteMessage string := ref_message string "text".
#[local] Instance number_message : RemoteMessage nat := ref_message nat "number".

Definition request (id : Z) : Envelope := default hello (Envelope_from_message "hi" id "node-2" "counter").
Definition client_sends (ids : list Z) : FS := mkSock (sent (request <$> ids)) None [] true.

(** Each request increments the counter; the reply is a small number. *)
Definition incr (_ : string) : @Msg demo_sys := um Inc.
Definition small (n : @Rsp demo_sys) : option nat := Some (if decide (n < 20) then n else 0).

(** Two clients, with two requests and one; both are in their handlers at once
    when the actor runs. *)
Definition both_call : list (ServerEvent (@Label demo_sys)) :=
  [Accept (Ok (client_sends [1; 2]%Z, Ok "a")); TaskTurn 0; Accept (Err OtherIo);
   Accept (Ok (client_sends [3]%Z, Ok "b")); TaskTurn 1; TaskTurn 1; TaskTurn 0; Local (LPoll 6)].
Definition then_answers : list (ServerEvent (@Label demo_sys)) :=
  [TaskTurn 0; TaskTurn 1; Local (LPoll 6); TaskTurn 0; TaskTurn 0; TaskTurn 0; Local (LPoll 6);
   TaskTurn 0; TaskTurn 0; TaskTurn 1].

Definition counter_handler : AsyncHandler World := make_handler_async counter incr small "node-1".
Definition calling := run counter_handler exec both_call ([], booted).
Definition finished := run counter_handler exec then_answers calling.

Lemma sent_framed es : Forall fits es -> framed es (sent es).
Proof.
  intros Hes. destruct (send_each_framed es (fresh []) Hes) as (c' & bs & Hs & Hf & Ho & _); [done|].
  unfold sent. rewrite Hs, Ho. done.
Qed.

Lemma request_fits id : id ∈ [1; 2; 3]%Z -> fits (request id).
Proof.
  intros Hin. apply list_elem_of_In in Hin. destruct Hin as [<-|[<-|[<-|[]]]];
    (split; [unfold envelope_ok; vm_compute; split; congruence|vm_compute; reflexivity]).
Qed.

Lemma clients_bring ids : (forall id, id ∈ ids -> id ∈ [1; 2; 3]%Z) -> brings (client_sends ids) (request <$> ids).
Proof.
  intros Hin. split; [|done]. apply sent_framed, Forall_fmap, Forall_forall. intros id Hid. by apply request_fits, Hin.
Qed.

Lemma request_answerable id : id ∈ [1; 2; 3]%Z -> answerable small "node-1" (request id).
Proof.
  intros Hid n resp. apply list_elem_of_In in Hid.
  assert (exists m, m < 20 /\ small n = small m) as (m & Hm & E).
  { destruct (decide (n < 20)) as [Hn|Hn]; [by exists n|]. exists 0. split; [lia|]. unfold small.
    by rewrite decide_False, decide_True by lia. }
  unfold respond. cbn [result_ok]. simpl (Some n ≫= small). rewrite E. clear E n.
  do 20 (destruct m as [|m];
    [destruct Hid as [<-|[<-|[<-|[]]]]; intros Hr; vm_compute in Hr; injection Hr as <-;
      (split; [unfold envelope_ok; vm_compute; split; congruence|vm_compute; reflexivity])|]). lia.
Qed.

Lemma server_linearizable_witness :
  ((fun t : ConnTask counter_handler => match ct_state counter_handler t with Handling _ (HSend e _) => Some (correlation_id e) | _ => None end) <$> fst calling) =
    [Some 1%Z; Some 3%Z] /\
  exists h1 h2 xs1 xs2 asked1 asked2,
    explains count 6 (KRoot seven counter_ctx) counter 0 counter_ctx seven 7 asked1 h1 (snd calling) /\
    explained count incr small "node-1" counter seven [request <$> [1; 2]%Z; request <$> [3]%Z] (fst calling) h1 xs1 /\
    explains count 6 (KRoot seven counter_ctx) counter 0 counter_ctx seven 7 asked2 (h1 ++ h2) (snd finished) /\
    explained count incr small "node-1" counter seven [request <$> [1; 2]%Z; request <$> [3]%Z] (fst finished) (h1 ++ h2) xs2 /\
    forall i, exists later, xs2 i = xs1 i ++ later /\
      (match fst calling !! i with Some t => ct_state _ t = Receiving | None => True end ->
       Forall (fun p => length h1 <= p) (places later)).
Proof.
  split; [vm_compute; reflexivity|].
  apply (server_linearizable count countable incr small "node-1" 6 (KRoot seven counter_ctx) counter 0 counter_ctx seven
    booted both_call then_answers [request <$> [1; 2]%Z; request <$> [3]%Z] []).
  - apply booted_reachable.
  - apply booted_parked.
  - reflexivity.
  - apply count_handles.
  - reflexivity.
  - constructor; [|constructor; [|constructor]]; apply clients_bring; set_solver.
  - constructor.
  - rewrite app_nil_r. cbn [fmap list_fmap].
    repeat first [apply Forall_nil_2 | apply Forall_cons_2]; apply request_answerable; set_solver.
  - vm_compute. reflexivity.
  - vm_compute. reflexivity.
Defined.

(** The counter stood at 7: the replies are 8 to the request that was first in
    the mailbox, 9 and 10. *)
Example finished_replies :
  (recv_n 2 (fresh (framed_output (conn_framed (ct_conn _ (default (mkConnTask (fresh []) Receiving) (fst finished !! 0)))))),
   w_fresh booted) =
  ([Ok (default hello (respond small "node-1" (request 1) (Ok (9 : @Rsp demo_sys))));
    Ok (default hello (respond small "node-1" (request 2) (Ok (10 : @Rsp demo_sys))))], 7).
Proof. vm_compute. reflexivity. Qed.

End Witnesses.
