(* ===== verification/Cluster.v ===== *)
(** * Cluster: membership, gossip and failure detection (src/remote/cluster.rs)

    The state of a [ClusterNode] is the contents of its three locked maps. The
    methods hold the locks they need from start to end, so each is one step;
    the periodic task releases them between marking nodes and cleaning up the
    actors of those marked, which are two steps here. The clock and the random
    choice of a peer are arguments. *)

From S2P Require Import Prelude Tokio Supervisor Runtime Wire Remote.

(** ** Data *)

Inductive NodeStatus := Up | Suspect | Down.

#[export] Instance NodeStatus_eq_dec : EqDecision NodeStatus.
Proof. solve_decision. Defined.

Record Node := mkNode { id : string; addr : string; status : NodeStatus }.

#[export] Instance Node_eq_dec : EqDecision Node.
Proof. solve_decision. Defined.

Record ClusterNode := mkCluster {
  local_node : Node;
  members : gmap string Node;
  last_heartbeat : gmap string Z;
  actor_registry : gmap string (string * string);
}.

(** [impl From<&Node> for NodeInfo] and [impl From<NodeInfo> for Node]. *)
Definition NodeInfo_from (n : Node) : NodeInfo :=
  mkNodeInfo (id n) (addr n) (match status n with Up => 0 | Suspect => 1 | Down => 2 end).

Definition Node_from (i : NodeInfo) : Node :=
  mkNode (ni_id i) (ni_addr i)
    (match ni_status i with 0%Z => Up | 1%Z => Suspect | 2%Z => Down | _ => Down end).

(** ** The methods of [ClusterNode] *)

Definition ClusterNode_new (i a : string) (now : Z) : ClusterNode :=
  let local := mkNode i a Up in mkCluster local {[i := local]} {[i := now]} ∅.

Definition add_member (node : Node) (now : Z) (c : ClusterNode) : ClusterNode :=
  mkCluster (local_node c) (<[id node := node]> (members c)) (<[id node := now]> (last_heartbeat c))
    (actor_registry c).

(** [values().cloned().collect()], in the order of the map. *)
Definition get_members (c : ClusterNode) : list Node := (map_to_list (members c)).*2.

Definition register_actor (actor_id actor_type : string) (c : ClusterNode) : ClusterNode :=
  mkCluster (local_node c) (members c) (last_heartbeat c)
    (<[actor_id := (id (local_node c), actor_type)]> (actor_registry c)).

Definition lookup_actor (actor_id : string) (c : ClusterNode) : option (string * string) :=
  actor_registry c !! actor_id.

Definition test_insert_actor (actor_id node_id actor_type : string) (c : ClusterNode) : ClusterNode :=
  mkCluster (local_node c) (members c) (last_heartbeat c)
    (<[actor_id := (node_id, actor_type)]> (actor_registry c)).

Definition actor_location (a : string * (string * string)) : ActorLocation :=
  mkActorLocation (fst a) (fst (snd a)) (snd (snd a)).

Definition create_gossip_message (c : ClusterNode) : GossipMessage :=
  mkGossip (NodeInfo_from <$> get_members c) (actor_location <$> map_to_list (actor_registry c)).

(** [entry(..).and_modify(..).or_insert(..)]. *)
Definition merge_member (m : gmap string Node) (info : NodeInfo) : gmap string Node :=
  let node := Node_from info in
  match m !! id node with
  | Some existing => if decide (status existing <> status node) then <[id node := node]> m else m
  | None => <[id node := node]> m
  end.

Definition merge_actor (m : gmap string (string * string)) (l : ActorLocation)
  : gmap string (string * string) := <[al_actor_id l := (al_node_id l, al_actor_type l)]> m.

Definition merge_gossip (gossip : GossipMessage) (sender : string) (now : Z) (c : ClusterNode)
  : ClusterNode :=
  mkCluster (local_node c) (foldl merge_member (members c) (g_members gossip))
    (<[sender := now]> (last_heartbeat c))
    (foldl merge_actor (actor_registry c) (g_actors gossip)).

(** *** The periodic task *)

(** One turn of the loop over the members: the new status, and whether the
    node is to be cleaned up. [timeout2] is [suspect_timeout * 2]. *)
Definition check_node (local : string) (heartbeats : gmap string Z) (now timeout timeout2 : Z)
    (node_id : string) (n : Node) : Node * bool :=
  if decide (node_id = local) then (n, false)
  else
    match heartbeats !! node_id with
    | Some last_seen =>
        let elapsed := duration_since now last_seen in
        if decide (timeout2 < elapsed /\ status n <> Down)%Z then (mkNode (id n) (addr n) Down, true)
        else if decide (timeout < elapsed /\ status n = Up)%Z
        then (mkNode (id n) (addr n) Suspect, false)
        else (n, false)
    | None => (n, false)
    end.

(** Whether the loop computes [suspect_timeout * 2], which may panic. *)
Definition computes_deadline (c : ClusterNode) : bool :=
  bool_decide (Exists (fun p => fst p <> id (local_node c) /\ is_Some (last_heartbeat c !! fst p))
    (map_to_list (members c))).

(** The first part of a tick: mark the nodes not heard from, and list those
    that went down. [None] when the product overflows. *)
Definition detect_failures (now timeout : Z) (c : ClusterNode) : option (ClusterNode * list string) :=
  let mark timeout2 :=
    let check := check_node (id (local_node c)) (last_heartbeat c) now timeout timeout2 in
    (mkCluster (local_node c) (map_imap (fun k n => Some (fst (check k n))) (members c))
       (last_heartbeat c) (actor_registry c),
     (filter (fun p => snd (check (fst p) (snd p)) = true) (map_to_list (members c))).*1) in
  if computes_deadline c then mark <$> duration_mul timeout 2
  else Some (c, []).

(** The second part: [retain] the actors that are not on a node of the list. *)
Definition clean_up (down_nodes : list string) (c : ClusterNode) : ClusterNode :=
  mkCluster (local_node c) (members c) (last_heartbeat c)
    (foldl (fun reg down => filter (fun a => fst (snd a) <> down) reg) (actor_registry c) down_nodes).

(** The peers the third part chooses from. *)
Definition peers (c : ClusterNode) : list Node :=
  filter (fun n => id n <> id (local_node c)) (get_members c).

(** *** Gossip over a connection *)

Section Exchange.
Context {P : Prost} {S : Type}.

(** The transport envelope around a cluster message; [None] when it does not encode. *)
Definition cluster_envelope (c : ClusterNode) (m : ClusterMessage) (response : bool) : option Envelope :=
  match ClusterMessage_encode m with
  | Some buf => Some (mkEnvelope "cluster" buf 0 (id (local_node c)) "" response)
  | None => None
  end.

(** The body of the connection loop of [start_server]: the node, the state of
    the local actors and what is sent back. The code releases the locks of the
    node between merging and making the reply; here these are one step. *)
Definition serve_envelope (handler : option (EnvelopeHandler S)) (envelope : Envelope) (now : Z)
    (c : ClusterNode) (s : S) : ClusterNode * S * option Envelope :=
  match ClusterMessage_decode (payload envelope) with
  | Ok (CMGossip gossip) =>
      let c := merge_gossip gossip (sender_node envelope) now c in
      (c, s, cluster_envelope c (CMGossip (create_gossip_message c)) true)
  | Ok (CMEnvelope actor_envelope) =>
      match handler with
      | Some handler =>
          let '(s, r) := handler actor_envelope s in
          match r with
          | Some response => (c, s, cluster_envelope c (CMEnvelope response) true)
          | None => (c, s, None)
          end
      | None => (c, s, None)
      end
  | Ok CMNone => (c, s, None)
  | Err _ => (c, s, None)
  end.

(** [send_gossip_to] before the connection is made: the envelope to send. *)
Definition gossip_request (c : ClusterNode) : Result Envelope TransportError :=
  ok_or (cluster_envelope c (CMGossip (create_gossip_message c)) false) (TIo InvalidData).

(** ... and after it: what [conn.recv()] gave. *)
Definition gossip_reply (response : Result Envelope TransportError) (now : Z) (c : ClusterNode)
  : ClusterNode :=
  match response with
  | Ok response =>
      match ClusterMessage_decode (payload response) with
      | Ok (CMGossip their_gossip) => merge_gossip their_gossip (sender_node response) now c
      | _ => c
      end
  | Err _ => c
  end.

(** A whole [send_gossip_to] with a peer that is there: [connect] and [send]
    are the results of those calls. The requests of other nodes may be served
    in between; this is the run in which none is. *)
Definition send_gossip_to (handler : option (EnvelopeHandler S)) (connect sent : Result unit TransportError)
    (now : Z) (c peer : ClusterNode) (s : S) : ClusterNode * ClusterNode * S * Result unit TransportError :=
  match gossip_request c with
  | Err e => (c, peer, s, Err e)
  | Ok envelope =>
      match connect, sent with
      | Err e, _ => (c, peer, s, Err e)
      | Ok _, Err e => (c, peer, s, Err e)
      | Ok _, Ok _ =>
          let '(peer, s, r) := serve_envelope handler envelope now peer s in
          (gossip_reply (ok_or r TDisconnected) now c, peer, s, Ok tt)
      end
  end.

End Exchange.

(** ** Merging *)

Lemma Node_from_NodeInfo n : Node_from (NodeInfo_from n) = n.
Proof. by destruct n as [i a []]. Qed.

(** Which of two views of a node a merge keeps. *)
Definition pick (mine theirs : Node) : Node :=
  if decide (status mine = status theirs) then mine else theirs.

Definition merge_view (mine : option Node) (theirs : Node) : Node :=
  match mine with Some n => pick n theirs | None => theirs end.

Lemma merge_member_lookup m i k :
  merge_member m i !! k =
    if decide (ni_id i = k) then Some (merge_view (m !! k) (Node_from i)) else m !! k.
Proof.
  unfold merge_member. change (id (Node_from i)) with (ni_id i). case_decide as Hk.
  - subst k. destruct (m !! ni_id i) as [n|] eqn:Hn; simpl.
    + unfold pick. repeat case_decide; try done; by rewrite lookup_insert_eq.
    + by rewrite lookup_insert_eq.
  - destruct (m !! ni_id i) as [n|]; [case_decide|]; rewrite ?lookup_insert_ne by done; done.
Qed.

Lemma merge_members_absent infos m k :
  k ∉ (ni_id <$> infos) -> foldl merge_member m infos !! k = m !! k.
Proof.
  revert m. induction infos as [|i infos IH]; intros m Hk; simpl; [done|].
  simpl in Hk. apply not_elem_of_cons in Hk as [Hne Hk]. rewrite IH by done.
  rewrite merge_member_lookup. by case_decide.
Qed.

Lemma merge_members_lookup infos m i :
  NoDup (ni_id <$> infos) -> i ∈ infos ->
  foldl merge_member m infos !! ni_id i = Some (merge_view (m !! ni_id i) (Node_from i)).
Proof.
  revert m. induction infos as [|j infos IH]; intros m Hnd Hin; simpl; [by apply not_elem_of_nil in Hin|].
  simpl in Hnd. apply NoDup_cons in Hnd as [Hnj Hnd]. apply elem_of_cons in Hin as [->|Hin].
  - rewrite merge_members_absent by done. rewrite merge_member_lookup. by rewrite decide_True.
  - rewrite IH by done. rewrite merge_member_lookup. rewrite decide_False; [done|].
    intros Heq. apply Hnj. rewrite Heq. apply list_elem_of_fmap. eauto.
Qed.

Lemma merge_actors_lookup ls m k :
  NoDup (al_actor_id <$> ls) ->
  (forall l, l ∈ ls -> al_actor_id l = k ->
     foldl merge_actor m ls !! k = Some (al_node_id l, al_actor_type l)) /\
  (k ∉ (al_actor_id <$> ls) -> foldl merge_actor m ls !! k = m !! k).
Proof.
  revert m. induction ls as [|j ls IH]; intros m Hnd; simpl.
  { split; [by intros l Hl%not_elem_of_nil|done]. }
  simpl in Hnd. apply NoDup_cons in Hnd as [Hnj Hnd]. destruct (IH (merge_actor m j) Hnd) as [H1 H2].
  split.
  - intros l Hin Hk. apply elem_of_cons in Hin as [->|Hin]; [|by apply H1].
    subst k. rewrite H2 by done. unfold merge_actor. by rewrite lookup_insert_eq.
  - intros [Hne Hk]%not_elem_of_cons. rewrite H2 by done. unfold merge_actor. by rewrite lookup_insert_ne.
Qed.

(** The key of a member is its id, and the node knows itself. *)
Record cluster_wf (c : ClusterNode) : Prop := mkClusterWf {
  cw_key k n : members c !! k = Some n -> id n = k;
  cw_local : is_Some (members c !! id (local_node c));
}.

(** A gossip message of [c]: its maps in some order. *)
Definition gossip_of (c : ClusterNode) (g : GossipMessage) : Prop :=
  g_members g ≡ₚ (NodeInfo_from <$> get_members c) /\
  g_actors g ≡ₚ (actor_location <$> map_to_list (actor_registry c)).

Lemma create_gossip_of c : gossip_of c (create_gossip_message c).
Proof. done. Qed.

Lemma gossip_ids c g :
  cluster_wf c -> gossip_of c g ->
  NoDup (ni_id <$> g_members g) /\
  (forall i, i ∈ g_members g <-> exists k n, members c !! k = Some n /\ i = NodeInfo_from n).
Proof.
  intros Hw [Hg _].
  assert (Hids : ni_id <$> (NodeInfo_from <$> get_members c) = (map_to_list (members c)).*1).
  { unfold get_members. rewrite <- !list_fmap_compose. apply list_fmap_ext. intros i [k n] Hi. simpl.
    apply list_elem_of_lookup_2, elem_of_map_to_list in Hi. by rewrite (cw_key _ Hw _ _ Hi). }
  split.
  - rewrite Hg, Hids. apply NoDup_fst_map_to_list.
  - intros i. rewrite Hg. unfold get_members. rewrite !list_elem_of_fmap. split.
    + intros (n & -> & Hn). apply list_elem_of_fmap in Hn as ([k n'] & -> & Hin).
      apply elem_of_map_to_list in Hin. eauto.
    + intros (k & n & Hk & ->). exists n. split; [done|]. apply list_elem_of_fmap. exists (k, n).
      split; [done|]. by apply elem_of_map_to_list.
Qed.

Lemma gossip_actors c g :
  gossip_of c g ->
  NoDup (al_actor_id <$> g_actors g) /\
  (forall l, l ∈ g_actors g <->
     exists k v, actor_registry c !! k = Some v /\ l = actor_location (k, v)).
Proof.
  intros [_ Hg]. split.
  - rewrite Hg, <- list_fmap_compose. apply NoDup_fst_map_to_list.
  - intros l. rewrite Hg, list_elem_of_fmap. split.
    + intros ([k v] & -> & Hin). apply elem_of_map_to_list in Hin. eauto.
    + intros (k & v & Hk & ->). exists (k, v). split; [done|]. by apply elem_of_map_to_list.
Qed.

Lemma merge_gossip_members c c' g sender now :
  cluster_wf c' -> gossip_of c' g ->
  members (merge_gossip g sender now c) =
    union_with (fun mine theirs => Some (pick mine theirs)) (members c) (members c').
Proof.
  intros Hw Hg. destruct (gossip_ids _ _ Hw Hg) as [Hnd Hin]. apply map_eq. intros k. simpl.
  rewrite lookup_union_with. destruct (members c' !! k) as [n|] eqn:Hk.
  - assert (Hi : NodeInfo_from n ∈ g_members g) by (apply Hin; eauto).
    pose proof (cw_key _ Hw _ _ Hk) as Hid.
    pose proof (merge_members_lookup (g_members g) (members c) _ Hnd Hi) as H.
    change (ni_id (NodeInfo_from n)) with (id n) in H. rewrite Hid, Node_from_NodeInfo in H.
    rewrite H. by destruct (members c !! k).
  - rewrite merge_members_absent.
    + by destruct (members c !! k).
    + intros (i & -> & Hi)%list_elem_of_fmap. apply Hin in Hi as (k' & n & Hk' & ->). simpl in Hk.
      rewrite (cw_key _ Hw _ _ Hk') in Hk. congruence.
Qed.

Lemma merge_gossip_actors c c' g sender now :
  gossip_of c' g ->
  actor_registry (merge_gossip g sender now c) = actor_registry c' ∪ actor_registry c.
Proof.
  intros Hg. destruct (gossip_actors _ _ Hg) as [Hnd Hin]. apply map_eq. intros k. simpl.
  destruct (merge_actors_lookup (g_actors g) (actor_registry c) k Hnd) as [H1 H2].
  rewrite lookup_union. destruct (actor_registry c' !! k) as [[n t]|] eqn:Hk.
  - rewrite (H1 (actor_location (k, (n, t)))); [|by apply Hin; eauto|done].
    by destruct (actor_registry c !! k).
  - rewrite H2; [by destruct (actor_registry c !! k)|].
    intros (l & -> & Hl)%list_elem_of_fmap. apply Hin in Hl as (k' & v & Hk' & ->). simpl in Hk. congruence.
Qed.

(** ** Well-formedness *)

Lemma merge_members_key infos m k n :
  (forall k n, m !! k = Some n -> id n = k) -> foldl merge_member m infos !! k = Some n -> id n = k.
Proof.
  revert m. induction infos as [|i infos IH]; intros m Hm; simpl; [apply Hm|]. apply IH.
  intros k' n'. rewrite merge_member_lookup. case_decide as Hk; [|apply Hm]. intros [= <-].
  destruct (m !! k') as [n0|] eqn:H0; simpl; [|done]. unfold pick. case_decide; [by apply Hm|done].
Qed.

Lemma merge_members_grow infos m k : is_Some (m !! k) -> is_Some (foldl merge_member m infos !! k).
Proof.
  revert m. induction infos as [|i infos IH]; intros m Hm; simpl; [done|]. apply IH.
  rewrite merge_member_lookup. case_decide; [by eauto|done].
Qed.

Lemma check_node_id l hb now t t2 k n : id (fst (check_node l hb now t t2 k n)) = id n.
Proof. unfold check_node. by repeat case_match. Qed.

(** What can happen to the state of a node. *)
Inductive ClusterOp :=
| OAddMember (n : Node) (now : Z)
| ORegisterActor (actor_id actor_type : string)
| OTestInsertActor (actor_id node_id actor_type : string)
| OMergeGossip (g : GossipMessage) (sender : string) (now : Z)
| ODetectFailures (now timeout : Z)
| OCleanUp (down_nodes : list string).

Definition cluster_step (c : ClusterNode) (op : ClusterOp) : ClusterNode :=
  match op with
  | OAddMember n now => add_member n now c
  | ORegisterActor a t => register_actor a t c
  | OTestInsertActor a n t => test_insert_actor a n t c
  | OMergeGossip g s now => merge_gossip g s now c
  | ODetectFailures now t => match detect_failures now t c with Some (c, _) => c | None => c end
  | OCleanUp ds => clean_up ds c
  end.

Definition cluster_run (ops : list ClusterOp) (c : ClusterNode) : ClusterNode := foldl cluster_step c ops.

Lemma detect_failures_members now t c c' downs :
  detect_failures now t c = Some (c', downs) ->
  local_node c' = local_node c /\ last_heartbeat c' = last_heartbeat c /\
  actor_registry c' = actor_registry c /\
  exists t2, (computes_deadline c = true -> duration_mul t 2 = Some t2) /\
  forall k, members c' !! k =
    (if computes_deadline c
     then (fun n => fst (check_node (id (local_node c)) (last_heartbeat c) now t t2 k n)) <$> members c !! k
     else members c !! k).
Proof.
  unfold detect_failures. destruct (computes_deadline c).
  - destruct (duration_mul t 2) as [t2|]; simpl; [|done]. intros [= <- <-]. simpl. split_and!; try done.
    exists t2. split; [done|]. intros k. rewrite map_lookup_imap. by destruct (members c !! k).
  - intros [= <- <-]. split_and!; try done. by exists 0%Z.
Qed.

Lemma cluster_step_wf c op :
  cluster_wf c -> cluster_wf (cluster_step c op) /\
  local_node (cluster_step c op) = local_node c /\
  (forall k, is_Some (members c !! k) -> is_Some (members (cluster_step c op) !! k)).
Proof.
  intros [K1 K2]. destruct op as [n now|a t|a n t|g s now|now t|ds]; simpl; try (by split_and!).
  - assert (Hg : forall k, is_Some (members c !! k) -> is_Some (<[id n:=n]> (members c) !! k)).
    { intros k Hk. rewrite lookup_insert. case_decide; [by eauto|done]. }
    split_and!; [split; simpl; [|by apply Hg]|done|done].
    intros k n'. rewrite lookup_insert. case_decide; intros; simplify_eq; eauto.
  - split_and!; [split; simpl|done|].
    + intros k n. by apply merge_members_key.
    + by apply merge_members_grow.
    + intros k. apply merge_members_grow.
  - destruct (detect_failures now t c) as [[c' downs]|] eqn:Hd; [|by split_and!].
    destruct (detect_failures_members _ _ _ _ _ Hd) as (Hl & _ & _ & t2 & _ & Hm).
    assert (Hg : forall k, is_Some (members c !! k) -> is_Some (members c' !! k)).
    { intros k [n Hk]. rewrite Hm, Hk. by destruct (computes_deadline c). }
    split_and!; [split|done|done].
    + intros k n. rewrite Hm. destruct (computes_deadline c); [|apply K1].
      destruct (members c !! k) as [n0|] eqn:Hk; simpl; [|done]. intros [= <-].
      rewrite check_node_id. by apply K1.
    + rewrite Hl. by apply Hg.
Qed.

Lemma cluster_run_wf ops c :
  cluster_wf c -> cluster_wf (cluster_run ops c) /\ local_node (cluster_run ops c) = local_node c /\
  (forall k, is_Some (members c !! k) -> is_Some (members (cluster_run ops c) !! k)).
Proof.
  unfold cluster_run. revert c. induction ops as [|op ops IH]; intros c Hw; simpl; [done|].
  destruct (cluster_step_wf c op Hw) as (Hw1 & Hl1 & Hg1). destruct (IH _ Hw1) as (Hw2 & Hl2 & Hg2).
  split_and!; [done|congruence|]. auto.
Qed.

Lemma cluster_wf_new i a now : cluster_wf (ClusterNode_new i a now).
Proof.
  split; simpl.
  - intros k n [<- <-]%lookup_singleton_Some. done.
  - rewrite lookup_singleton_eq. eauto.
Qed.

(** ** An exchange of gossip *)

Section ExchangeFacts.
Context {P : Prost} {PL : ProstLaws P} {S : Type}.

Lemma gossip_message_ok c : cluster_message_ok (CMGossip (create_gossip_message c)).
Proof.
  simpl. apply Forall_fmap, Forall_forall. intros n _. simpl. destruct (status n); lia.
Qed.

(** The envelope of a gossip message is read back as that message. *)
Lemma cluster_envelope_gossip c resp :
  exists env, cluster_envelope c (CMGossip (create_gossip_message c)) resp = Some env /\
    ClusterMessage_decode (payload env) = Ok (CMGossip (create_gossip_message c)) /\
    sender_node env = id (local_node c).
Proof.
  destruct (ClusterMessage_round_trip _ (gossip_message_ok c)) as (bs & He & Hd).
  unfold cluster_envelope. rewrite He. by eexists.
Qed.

Lemma send_gossip_to_spec (handler : option (EnvelopeHandler S)) now c peer s :
  let peer' := merge_gossip (create_gossip_message c) (id (local_node c)) now peer in
  let c' := merge_gossip (create_gossip_message peer') (id (local_node peer)) now c in
  send_gossip_to handler (Ok tt) (Ok tt) now c peer s = (c', peer', s, Ok tt).
Proof.
  intros peer' c'. unfold send_gossip_to, gossip_request.
  destruct (cluster_envelope_gossip c false) as (env & -> & Hd & Hs). simpl.
  unfold serve_envelope. rewrite Hd, Hs. fold peer'.
  destruct (cluster_envelope_gossip peer' true) as (env' & -> & Hd' & Hs'). simpl.
  by rewrite Hd', Hs'.
Qed.

Lemma merge_gossip_wf g s now c : cluster_wf c -> cluster_wf (merge_gossip g s now c).
Proof. apply (cluster_step_wf c (OMergeGossip g s now)). Qed.

End ExchangeFacts.

(** ** The properties *)

(** C37: through any sequence of operations on a node, the members are filed
    under their own ids, the node stays a member of its own cluster, and no
    member is ever forgotten. *)
Theorem membership_invariant i a now ops1 ops2 k :
  let c1 := cluster_run ops1 (ClusterNode_new i a now) in
  let c2 := cluster_run ops2 c1 in
  cluster_wf c2 /\ is_Some (members c2 !! i) /\
  (is_Some (members c1 !! k) -> is_Some (members c2 !! k)).
Proof.
  intros c1 c2. destruct (cluster_run_wf ops1 _ (cluster_wf_new i a now)) as (Hw1 & Hl1 & _).
  destruct (cluster_run_wf ops2 c1 Hw1) as (Hw2 & Hl2 & Hg). split_and!; [done| |apply Hg].
  pose proof (cw_local _ Hw2) as H. rewrite Hl2 in H. subst c1. rewrite Hl1 in H. exact H.
Qed.

(** Merging the gossip of a node [c'], whatever the order in which its
    maps are sent, joins the two views: a node known to one side only is
    kept, of two views with different statuses the received one wins, the
    received actor locations override, and only the sender's heartbeat moves. *)
Theorem merge_gossip_joins_views c c' g sender now :
  cluster_wf c' -> gossip_of c' g ->
  merge_gossip g sender now c =
    mkCluster (local_node c)
      (union_with (fun mine theirs => Some (pick mine theirs)) (members c) (members c'))
      (<[sender := now]> (last_heartbeat c))
      (actor_registry c' ∪ actor_registry c).
Proof.
  intros Hw Hg. rewrite <- (merge_gossip_members c c' g sender now), <- (merge_gossip_actors c c' g sender now)
    by done. done.
Qed.

(** C11: after one exchange of gossip the two nodes agree: they know the same
    nodes, with the same status, and the same actor locations; nothing either
    knew is lost. *)
Theorem gossip_exchange_agrees `{!Prost, !ProstLaws _} {S} (handler : option (EnvelopeHandler S)) now c peer s :
  cluster_wf c -> cluster_wf peer ->
  exists c' peer', send_gossip_to handler (Ok tt) (Ok tt) now c peer s = (c', peer', s, Ok tt) /\
    (forall k, status <$> members c' !! k = status <$> members peer' !! k) /\
    dom (members c') = dom (members c) ∪ dom (members peer) /\
    actor_registry c' = actor_registry c ∪ actor_registry peer /\
    actor_registry peer' = actor_registry c ∪ actor_registry peer.
Proof.
  intros Hc Hp. pose proof (send_gossip_to_spec handler now c peer s) as E. simpl in E.
  set (peer' := merge_gossip (create_gossip_message c) _ now peer) in *.
  set (c' := merge_gossip (create_gossip_message peer') _ now c) in *.
  assert (Hp' : cluster_wf peer') by (by apply merge_gossip_wf).
  assert (Mp : members peer' = union_with (fun mine theirs => Some (pick mine theirs)) (members peer) (members c))
    by (by apply merge_gossip_members).
  assert (Mc : members c' = union_with (fun mine theirs => Some (pick mine theirs)) (members c) (members peer'))
    by (by apply merge_gossip_members).
  assert (Rp : actor_registry peer' = actor_registry c ∪ actor_registry peer) by (by apply merge_gossip_actors).
  assert (Rc : actor_registry c' = actor_registry peer' ∪ actor_registry c) by (by apply merge_gossip_actors).
  exists c', peer'. split_and!; [done| | | |done].
  - intros k. rewrite Mc, lookup_union_with, Mp, lookup_union_with.
    destruct (members c !! k) as [n|], (members peer !! k) as [m|]; simpl; try done;
      unfold pick; repeat case_decide; simpl; congruence.
  - apply set_eq. intros k. rewrite elem_of_union, !elem_of_dom, Mc, lookup_union_with, Mp, lookup_union_with.
    destruct (members c !! k) as [n|], (members peer !! k) as [m|]; simpl; rewrite ?is_Some_alt; naive_solver.
  - rewrite Rc, Rp. apply map_eq. intros k. rewrite !lookup_union.
    by destruct (actor_registry c !! k), (actor_registry peer !! k).
Qed.

(** ** Failure detection *)

(** A tick of the periodic task up to the choice of a peer. *)
Definition tick (now timeout : Z) (c : ClusterNode) : option ClusterNode :=
  match detect_failures now timeout c with
  | Some (c, down_nodes) => Some (clean_up down_nodes c)
  | None => None
  end.

Lemma clean_up_lookup ds c a :
  lookup_actor a (clean_up ds c) =
    match lookup_actor a c with
    | Some (n, t) => if decide (n ∈ ds) then None else Some (n, t)
    | None => None
    end.
Proof.
  unfold lookup_actor, clean_up. simpl. generalize (actor_registry c) as reg. intros reg.
  revert reg. induction ds as [|d ds IH]; intros reg; cbn [foldl].
  - destruct (reg !! a) as [[n t]|]; [|done]. case_decide as Hd; [by apply not_elem_of_nil in Hd|done].
  - rewrite IH. destruct (reg !! a) as [[n t]|] eqn:Hr.
    + destruct (decide (n = d)) as [->|Hne].
      * rewrite map_lookup_filter_None_2 by (right; intros x Hx Hf; simplify_eq; by apply Hf).
        by rewrite decide_True by (apply elem_of_cons; by left).
      * rewrite (map_lookup_filter_Some_2 _ reg a (n, t)) by done.
        destruct (decide (n ∈ ds)).
        -- by rewrite decide_True by (apply elem_of_cons; by right).
        -- rewrite decide_False; [done|]. by intros [?|?]%elem_of_cons.
    + rewrite map_lookup_filter_None_2 by (by left). done.
Qed.


Lemma detect_downs now t c c' downs k n :
  detect_failures now t c = Some (c', downs) -> members c !! k = Some n ->
  k ∈ downs <-> status n <> Down /\ status <$> members c' !! k = Some Down.
Proof.
  intros Hd Hk. destruct (detect_failures_members _ _ _ _ _ Hd) as (_ & _ & _ & t2 & Ht2 & Hm).
  rewrite Hm, Hk. unfold detect_failures in Hd.
  destruct (computes_deadline c) eqn:Hcd.
  - rewrite Ht2 in Hd by done. simpl in Hd. injection Hd as _ <-. rewrite list_elem_of_fmap. simpl.
    set (check := check_node (id (local_node c)) (last_heartbeat c) now t t2).
    assert (Hiff : snd (check k n) = true <-> status n <> Down /\ Some (status (fst (check k n))) = Some Down).
    { unfold check, check_node. repeat case_decide; simpl; repeat case_match; simpl; naive_solver. }
    split.
    + intros ([k' n'] & -> & [Hs Hin]%list_elem_of_filter). simpl in *.
      apply elem_of_map_to_list in Hin. simplify_eq. by apply Hiff.
    + intros H. exists (k, n). split; [done|]. apply list_elem_of_filter.
      split; [by apply Hiff|by apply elem_of_map_to_list].
  - injection Hd as _ <-. simpl. split; [by intros H%not_elem_of_nil|]. intros [H1 [= H2]]. done.
Qed.


Lemma tick_actors now t c c' a n ty :
  tick now t c = Some c' ->
  lookup_actor a c' = Some (n, ty) <->
  lookup_actor a c = Some (n, ty) /\
  ~ (status <$> members c !! n <> Some Down /\ status <$> members c' !! n = Some Down).
Proof.
  unfold tick. destruct (detect_failures now t c) as [[c1 downs]|] eqn:Hd; [|done]. intros [= <-].
  rewrite clean_up_lookup.
  destruct (detect_failures_members _ _ _ _ _ Hd) as (_ & _ & Hreg & t2 & _ & Hm).
  unfold lookup_actor. rewrite Hreg. simpl.
  destruct (actor_registry c !! a) as [[n0 ty0]|] eqn:Ha; [|naive_solver].
  assert (Hiff : n0 ∈ downs <-> status <$> members c !! n0 <> Some Down /\
    status <$> members c1 !! n0 = Some Down).
  { destruct (members c !! n0) as [nd|] eqn:Hk.
    - rewrite (detect_downs _ _ _ _ _ _ _ Hd Hk). simpl. split; intros [H1 H2]; split; congruence || done.
    - split; [|intros [_ H]; rewrite Hm, Hk in H; by destruct (computes_deadline c)].
      intros Hin. exfalso. unfold detect_failures in Hd. destruct (computes_deadline c).
      + destruct (duration_mul t 2); simpl in Hd; [|done]. injection Hd as _ <-.
        apply list_elem_of_fmap in Hin as ([k' n'] & -> & [_ Hin]%list_elem_of_filter).
        apply elem_of_map_to_list in Hin. simpl in Hk. congruence.
      + injection Hd as _ <-. by apply not_elem_of_nil in Hin. }
  case_decide as Hdn.
  - split; [done|]. intros [[= -> ->] Hno]. exfalso. apply Hno, Hiff, Hdn.
  - split.
    + intros [= -> ->]. split; [done|]. intros H. apply Hdn, Hiff, H.
    + by intros [[= -> ->] _].
Qed.

(** A tick removes exactly the actors of the nodes it finds down: after
    it an actor is located somewhere iff it was before and that node did not
    go down in this tick. *)
Theorem tick_removes_actors_of_failed_nodes now t c c' a n ty :
  tick now t c = Some c' ->
  lookup_actor a c' = Some (n, ty) <->
  lookup_actor a c = Some (n, ty) /\
  ~ (status <$> members c !! n <> Some Down /\ status <$> members c' !! n = Some Down).
Proof. apply tick_actors. Qed.

Lemma tick_keeps_down now t c c' k :
  tick now t c = Some c' -> status <$> members c !! k = Some Down -> status <$> members c' !! k = Some Down.
Proof.
  unfold tick. destruct (detect_failures now t c) as [[c1 downs]|] eqn:Hd; [|done]. intros [= <-] Hk. simpl.
  destruct (detect_failures_members _ _ _ _ _ Hd) as (_ & _ & _ & t2 & _ & Hm). rewrite Hm.
  destruct (members c !! k) as [n|]; [|done]. injection Hk as Hk. destruct (computes_deadline c); simpl; [|congruence].
  f_equal. unfold check_node. rewrite Hk. case_decide; [done|]. destruct (last_heartbeat c !! k); [|done].
  rewrite decide_False by (by intros [_ ?]). by rewrite decide_False by (by intros [_ ?]).
Qed.

(** The ticks of a node that receives no gossip. *)
Fixpoint ticks (ts : list (Z * Z)) (c : ClusterNode) : option ClusterNode :=
  match ts with
  | [] => Some c
  | (now, t) :: ts => match tick now t c with Some c => ticks ts c | None => None end
  end.

(** An actor located on a node that is already [Down], as a node that
    learns of a failure from gossip has it, is never removed by the periodic
    task, however long it runs. *)
Theorem actors_of_gossiped_down_node_stay ts c c' a n ty :
  status <$> members c !! n = Some Down -> lookup_actor a c = Some (n, ty) ->
  ticks ts c = Some c' -> lookup_actor a c' = Some (n, ty).
Proof.
  revert c. induction ts as [|[now t] ts IH]; intros c Hdown Ha Hts; simpl in Hts; [by simplify_eq|].
  destruct (tick now t c) as [c1|] eqn:Ht; [|done].
  apply (IH c1); [by eapply tick_keeps_down| |done]. apply (tick_actors _ _ _ _ _ _ _ Ht).
  split; [done|]. by intros [H _].
Qed.

(** ** Spreading *)

Section Spread.
Context {P : Prost} {PL : ProstLaws P}.

(** A network of nodes, and an exchange started by [i] with the peer [j]. *)
Definition exchange (now : Z) (e : nat * nat) (net : gmap nat ClusterNode) : gmap nat ClusterNode :=
  let '(i, j) := e in
  match net !! i, net !! j with
  | Some c, Some peer =>
      if decide (i = j) then net
      else
        let '(c, peer, _, _) := send_gossip_to (S := unit) None (Ok tt) (Ok tt) now c peer tt in
        <[i := c]> (<[j := peer]> net)
  | _, _ => net
  end.

(** What [c'] knows includes what [c] knows. *)
Definition knows_more (c c' : ClusterNode) : Prop :=
  dom (members c) ⊆ dom (members c') /\ dom (actor_registry c) ⊆ dom (actor_registry c').

#[local] Instance knows_more_preorder : PreOrder knows_more.
Proof. split; [by intros c|]. intros a b c [? ?] [? ?]. split; set_solver. Qed.

Lemma merge_gossip_knows c c' sender now :
  cluster_wf c' ->
  knows_more c (merge_gossip (create_gossip_message c') sender now c) /\
  knows_more c' (merge_gossip (create_gossip_message c') sender now c).
Proof.
  intros Hw. unfold knows_more.
  rewrite (merge_gossip_members c c' (create_gossip_message c') sender now Hw (create_gossip_of c')).
  rewrite (merge_gossip_actors c c' (create_gossip_message c') sender now (create_gossip_of c')).
  rewrite dom_union_L.
  assert (Hd : dom (union_with (fun mine theirs => Some (pick mine theirs)) (members c) (members c')) =
    dom (members c) ∪ dom (members c')).
  { apply set_eq. intros k. rewrite elem_of_union, !elem_of_dom, lookup_union_with.
    destruct (members c !! k), (members c' !! k); simpl; rewrite ?is_Some_alt; naive_solver. }
  rewrite Hd. set_solver.
Qed.

(** An exchange loses nothing and teaches both sides what either knew. *)
Lemma exchange_spec now i j net c :
  map_Forall (fun _ => cluster_wf) net -> net !! i = Some c ->
  map_Forall (fun _ => cluster_wf) (exchange now (i, j) net) /\
  (forall k d, net !! k = Some d -> exists d', exchange now (i, j) net !! k = Some d' /\ knows_more d d') /\
  (i <> j -> forall peer, net !! j = Some peer ->
     (exists d, exchange now (i, j) net !! i = Some d /\ knows_more peer d) /\
     (exists d, exchange now (i, j) net !! j = Some d /\ knows_more c d)).
Proof.
  intros Hwf Hi. unfold exchange. rewrite Hi. destruct (net !! j) as [peer|] eqn:Hj.
  2:{ split_and!; [done| |done]. intros k d Hk. exists d. split; [done|reflexivity]. }
  case_decide as Hij.
  { split_and!; [done| |done]. intros k d Hk. exists d. split; [done|reflexivity]. }
  rewrite send_gossip_to_spec. pose proof (Hwf _ _ Hi) as Hc. pose proof (Hwf _ _ Hj) as Hp.
  set (peer' := merge_gossip (create_gossip_message c) _ now peer) in *.
  set (c' := merge_gossip (create_gossip_message peer') _ now c) in *.
  assert (Hp' : cluster_wf peer') by (by apply merge_gossip_wf).
  assert (Hc' : cluster_wf c') by (by apply merge_gossip_wf).
  destruct (merge_gossip_knows peer c (id (local_node c)) now Hc) as [K1 K2].
  destruct (merge_gossip_knows c peer' (id (local_node peer)) now Hp') as [K3 K4]. fold peer' in K1, K2.
  fold c' in K3, K4. split_and!.
  - apply map_Forall_insert_2; [done|]. by apply map_Forall_insert_2.
  - intros k d Hk. destruct (decide (k = i)) as [->|Hki].
    + simplify_eq. exists c'. by rewrite lookup_insert_eq.
    + rewrite lookup_insert_ne by done. destruct (decide (k = j)) as [->|Hkj].
      * simplify_eq. exists peer'. by rewrite lookup_insert_eq.
      * rewrite lookup_insert_ne by done. exists d. split; [done|reflexivity].
  - intros _ peer0 [= <-]. split.
    + exists c'. rewrite lookup_insert_eq. split; [done|]. by etrans.
    + exists peer'. rewrite lookup_insert_ne, lookup_insert_eq by done. done.
Qed.

(** A schedule of exchanges, and the nodes that information can reach along
    exchanges that follow each other in time, in either direction. *)
Definition run_schedule (now : Z) (sched : list (nat * nat)) (net : gmap nat ClusterNode)
  : gmap nat ClusterNode := foldl (fun net e => exchange now e net) net sched.

Inductive reaches : list (nat * nat) -> nat -> nat -> Prop :=
| reaches_here i : reaches [] i i
| reaches_skip e sched i j : reaches sched i j -> reaches (e :: sched) i j
| reaches_out i k sched j : reaches sched k j -> reaches ((i, k) :: sched) i j
| reaches_in i k sched j : reaches sched k j -> reaches ((k, i) :: sched) i j.

(** Gossip spreads along every chain of exchanges: whatever a node knew
    of members and actors at the start, every node reachable by exchanges that
    follow one another in time knows at the end, whatever else is exchanged in
    between. *)
Theorem gossip_spreads now sched net i j c :
  map_Forall (fun _ => cluster_wf) net ->
  Forall (fun e => is_Some (net !! fst e) /\ is_Some (net !! snd e)) sched ->
  reaches sched i j -> net !! i = Some c ->
  exists c', run_schedule now sched net !! j = Some c' /\ knows_more c c'.
Proof.
  intros Hwf Hin Hr. revert net c Hwf Hin.
  assert (Hstep : forall a b sched net c, map_Forall (fun _ => cluster_wf) net -> net !! a = Some c ->
    Forall (fun e => is_Some (net !! fst e) /\ is_Some (net !! snd e)) sched ->
    Forall (fun e => is_Some (exchange now (a, b) net !! fst e) /\ is_Some (exchange now (a, b) net !! snd e)) sched).
  { intros a b s net c Hwf Ha Hs. destruct (exchange_spec now a b net c Hwf Ha) as (_ & Hk & _).
    eapply Forall_impl; [exact Hs|]. intros [x y] [[dx Hx] [dy Hy]]. simpl in *.
    destruct (Hk _ _ Hx) as (? & -> & _). destruct (Hk _ _ Hy) as (? & -> & _). eauto. }
  induction Hr as [i|[a b] sched i j Hr IH|i k sched j Hr IH|i k sched j Hr IH];
    intros net c Hwf Hin Hi; simpl.
  - exists c. split; [done|reflexivity].
  - apply Forall_cons in Hin as [[[ca Ha] _] Hin].
    destruct (exchange_spec now a b net ca Hwf Ha) as (Hwf' & Hk & _).
    destruct (Hk _ _ Hi) as (c1 & Hc1 & K1).
    destruct (IH _ c1 Hwf' (Hstep _ _ _ _ _ Hwf Ha Hin) Hc1) as (c2 & Hc2 & K2). exists c2. split; [done|]. by etrans.
  - apply Forall_cons in Hin as [[_ [ck Hk]] Hin]. simpl in Hk.
    destruct (exchange_spec now i k net c Hwf Hi) as (Hwf' & Hkeep & Hx).
    assert (exists c1, exchange now (i, k) net !! k = Some c1 /\ knows_more c c1) as (c1 & Hc1 & K1).
    { destruct (decide (i = k)) as [->|Hne]; [by apply Hkeep|]. by apply (Hx Hne ck Hk). }
    destruct (IH _ c1 Hwf' (Hstep _ _ _ _ _ Hwf Hi Hin) Hc1) as (c2 & Hc2 & K2). exists c2. split; [done|]. by etrans.
  - apply Forall_cons in Hin as [[[ck Hk] _] Hin]. simpl in Hk.
    destruct (exchange_spec now k i net ck Hwf Hk) as (Hwf' & Hkeep & Hx).
    assert (exists c1, exchange now (k, i) net !! k = Some c1 /\ knows_more c c1) as (c1 & Hc1 & K1).
    { destruct (decide (k = i)) as [->|Hne]; [by apply Hkeep|]. by apply (Hx Hne c Hi). }
    destruct (IH _ c1 Hwf' (Hstep _ _ _ _ _ Hwf Hk Hin) Hc1) as (c2 & Hc2 & K2). exists c2. split; [done|]. by etrans.
Qed.

End Spread.

(** ** Witnesses *)

Section Witnesses.
Import RefProst.

Definition alice : ClusterNode :=
  register_actor "kv" "KVStore" (add_member (mkNode "bob" "b:1" Up) 0 (ClusterNode_new "alice" "a:1" 0)).
Definition bob : ClusterNode := add_member (mkNode "carol" "c:1" Suspect) 5 (ClusterNode_new "bob" "b:1" 0).
Definition carol : ClusterNode := ClusterNode_new "carol" "c:1" 0.

Lemma alice_wf : cluster_wf alice.
Proof. apply (cluster_run_wf [OAddMember (mkNode "bob" "b:1" Up) 0; ORegisterActor "kv" "KVStore"]), cluster_wf_new. Qed.
Lemma bob_wf : cluster_wf bob.
Proof. apply (cluster_run_wf [OAddMember (mkNode "carol" "c:1" Suspect) 5]), cluster_wf_new. Qed.

Lemma membership_invariant_witness :
  is_Some (members (cluster_run [ODetectFailures 100 1] alice) !! "bob").
Proof.
  apply (membership_invariant "alice" "a:1" 0
    [OAddMember (mkNode "bob" "b:1" Up) 0; ORegisterActor "kv" "KVStore"] [ODetectFailures 100 1] "bob").
  vm_compute. eauto.
Defined.

Lemma merge_gossip_joins_views_witness :
  merge_gossip (create_gossip_message bob) "bob" 7 alice =
    mkCluster (local_node alice)
      (union_with (fun mine theirs => Some (pick mine theirs)) (members alice) (members bob))
      (<["bob" := 7%Z]> (last_heartbeat alice)) (actor_registry bob ∪ actor_registry alice).
Proof. apply (merge_gossip_joins_views alice bob _ "bob" 7); [apply bob_wf|apply create_gossip_of]. Defined.

Lemma gossip_exchange_agrees_witness :
  exists c' peer', send_gossip_to (S := unit) None (Ok tt) (Ok tt) 7 alice bob tt = (c', peer', tt, Ok tt) /\
    (forall k, status <$> members c' !! k = status <$> members peer' !! k) /\
    dom (members c') = dom (members alice) ∪ dom (members bob) /\
    actor_registry c' = actor_registry alice ∪ actor_registry bob /\
    actor_registry peer' = actor_registry alice ∪ actor_registry bob.
Proof. apply (gossip_exchange_agrees (S := unit) None 7 alice bob tt); [apply alice_wf|apply bob_wf]. Defined.


Definition alice_on_bob : ClusterNode := test_insert_actor "x" "bob" "X" alice.

Lemma tick_removes_actors_of_failed_nodes_witness :
  lookup_actor "x" (default alice (tick 21 10 alice_on_bob)) = Some ("bob", "X") <->
  lookup_actor "x" alice_on_bob = Some ("bob", "X") /\
  ~ (status <$> members alice_on_bob !! "bob" <> Some Down /\
     status <$> members (default alice (tick 21 10 alice_on_bob)) !! "bob" = Some Down).
Proof. apply (tick_removes_actors_of_failed_nodes 21 10 alice_on_bob). vm_compute. reflexivity. Defined.

(** Bob is reported down by gossip; its actor stays. *)
Definition told_bob_down : ClusterNode :=
  merge_gossip (mkGossip [NodeInfo_from (mkNode "bob" "b:1" Down)] []) "carol" 3 alice_on_bob.

Lemma actors_of_gossiped_down_node_stay_witness :
  lookup_actor "x" (default alice (ticks [(100, 10); (200, 10)]%Z told_bob_down)) = Some ("bob", "X").
Proof.
  apply (actors_of_gossiped_down_node_stay [(100, 10); (200, 10)]%Z told_bob_down).
  - vm_compute. reflexivity.
  - vm_compute. reflexivity.
  - vm_compute. reflexivity.
Defined.

(** Carol learns of Alice's actor through Bob. *)
Definition chain : gmap nat ClusterNode := {[0 := alice; 1 := bob; 2 := carol]}.

Lemma gossip_spreads_witness :
  exists c', run_schedule 9 [(0, 1); (2, 1)] chain !! 2 = Some c' /\ knows_more alice c'.
Proof.
  apply (gossip_spreads 9 [(0, 1); (2, 1)] chain 0 2 alice).
  - intros i c Hc. unfold chain in Hc. apply lookup_insert_Some in Hc as [[_ <-]|[_ Hc]]; [apply alice_wf|].
    apply lookup_insert_Some in Hc as [[_ <-]|[_ Hc]]; [apply bob_wf|].
    apply lookup_singleton_Some in Hc as [_ <-]. apply cluster_wf_new.
  - repeat constructor; vm_compute; eauto.
  - apply reaches_out, reaches_in, reaches_here.
  - reflexivity.
Defined.

End Witnesses.
