(* ===== verification/Gossip.v ===== *)
(** * Gossip: a network of cluster nodes (src/remote/cluster.rs)

    The tasks that run around a [ClusterNode] of Cluster.v: the loop of
    [start_periodic_gossip], which checks for failures, picks a peer and
    exchanges gossip with it, and the connections of [start_server]. The
    network is the nodes by address, each with the state of its periodic task;
    an exchange is three steps (the request is made, the peer serves it, the
    reply is merged) between which anything may happen elsewhere, and may fail
    at any point. *)

From S2P Require Import Prelude Tokio Supervisor Runtime Wire Remote Cluster Tcp.

(** [IteratorRandom::choose] of the rand crate; [R] is what the generator
    gives. *)
Class Choose (R : Type) := choose : R -> list Node -> option Node.
Class ChooseLaws (R : Type) `{!Choose R} : Prop := {
  choose_elem r l n : choose r l = Some n -> n ∈ l;
  choose_some r l : l <> [] -> is_Some (choose r l);
}.

(** ** The periodic task *)

Inductive GossipTask :=
| Idle                                                  (** waits for the ticker *)
| AwaitReply (peer : string) (request : Envelope)       (** the request is sent *)
| GotReply (response : Result Envelope TransportError)  (** what [conn.recv()] will return *)
| TaskPanicked.

Section Periodic.
Context {P : Prost} {R : Type} {C : Choose R}.

(** A turn of the loop up to the point where it waits for the peer: [connect]
    and [sent] are the results of those calls. The errors of [send_gossip_to]
    are ignored. *)
Definition periodic_turn (now suspect_timeout : Z) (r : R) (connect sent : Result unit TransportError)
    (c : ClusterNode) : ClusterNode * GossipTask :=
  match tick now suspect_timeout c with
  | None => (c, TaskPanicked)
  | Some c =>
      match choose r (peers c) with
      | None => (c, Idle)
      | Some peer =>
          match gossip_request c, connect, sent with
          | Ok envelope, Ok _, Ok _ => (c, AwaitReply (addr peer) envelope)
          | _, _, _ => (c, Idle)
          end
      end
  end.

(** ** The network *)

Record NodeState := mkNodeState { ns_cluster : ClusterNode; ns_task : GossipTask }.

Inductive NetEvent :=
| NTick (a : string) (r : R) (now : Z) (connect sent : Result unit TransportError)
| NServe (a : string) (now : Z)          (** the peer of [a] serves its request *)
| NLost (a : string) (e : TransportError) (** the connection of [a] breaks, also with the reply on its way *)
| NFinish (a : string) (now : Z)
| NAddMember (a : string) (n : Node) (now : Z)
| NRegister (a : string) (actor_id actor_type : string).

Abbreviation Net := (gmap string NodeState).

Definition net_step (timeout : Z) (net : Net) (ev : NetEvent) : Net :=
  match ev with
  | NTick a r now connect sent =>
      match net !! a with
      | Some (mkNodeState c Idle) =>
          let '(c, t) := periodic_turn now timeout r connect sent c in <[a := mkNodeState c t]> net
      | _ => net
      end
  | NServe a now =>
      match net !! a with
      | Some (mkNodeState c (AwaitReply p request)) =>
          match net !! p with
          | Some (mkNodeState peer t) =>
              let '(peer, _, resp) := serve_envelope (S := unit) None request now peer tt in
              let net := <[p := mkNodeState peer t]> net in
              match net !! a with
              | Some (mkNodeState c (AwaitReply _ _)) =>
                  <[a := mkNodeState c (match resp with
                                        | Some e => GotReply (Ok e)
                                        | None => AwaitReply p request
                                        end)]> net
              | _ => net
              end
          | None => net
          end
      | _ => net
      end
  | NLost a e =>
      match net !! a with
      | Some (mkNodeState c (AwaitReply _ _)) | Some (mkNodeState c (GotReply (Ok _))) =>
          <[a := mkNodeState c (GotReply (Err e))]> net
      | _ => net
      end
  | NFinish a now =>
      match net !! a with
      | Some (mkNodeState c (GotReply r)) => <[a := mkNodeState (gossip_reply r now c) Idle]> net
      | _ => net
      end
  | NAddMember a n now =>
      match net !! a with
      | Some (mkNodeState c t) => <[a := mkNodeState (add_member n now c) t]> net
      | None => net
      end
  | NRegister a i ty =>
      match net !! a with
      | Some (mkNodeState c t) => <[a := mkNodeState (register_actor i ty c) t]> net
      | None => net
      end
  end.

Definition net_run (timeout : Z) (evs : list NetEvent) (net : Net) : Net := foldl (net_step timeout) net evs.

End Periodic.
Abbreviation Net := (gmap string NodeState).
Arguments NetEvent : clear implicits.

(** ** [start_server] over sockets *)

Section ClusterServer.
Context {P : Prost} {F : FramedSocket} {S : Type}.

(** A turn of the loop of a connection; unlike [RemoteServer] it goes on when
    the response cannot be sent. *)
Definition cluster_turn (actor_handler : option (EnvelopeHandler S)) (now : Z) (conn : TcpConnection)
    (c : ClusterNode) (s : S) : ClusterNode * S * TcpConnection * Turn :=
  match conn_recv conn with
  | (conn, Ok envelope) =>
      let '(c, s, resp) := serve_envelope actor_handler envelope now c s in
      match resp with
      | Some resp =>
          match conn_send conn resp with
          | Some (conn, _) => (c, s, conn, Continue)
          | None => (c, s, conn, Panicked)
          end
      | None => (c, s, conn, Continue)
      end
  | (conn, Err _) => (c, s, conn, Break)
  end.

(** The task of a connection: [None] while its loop runs, else whether it
    ended by a panic. *)
Record ClusterConn := mkClusterConn { cc_conn : TcpConnection; cc_ended : option bool }.

Inductive ClusterEvent :=
| CAccept (r : Result (FS * Result string IoErrorKind) IoErrorKind)
| CTurn (i : nat).

(** The server: [cs_result] is what [start_server] returned, which it does
    only when it cannot bind or accept; the connections go on. *)
Record ClusterServer := mkClusterServer {
  cs_cluster : ClusterNode; cs_actors : S; cs_tasks : list ClusterConn; cs_result : option IoErrorKind }.

Definition start_server (bound : Result unit IoErrorKind) (c : ClusterNode) (s : S) : ClusterServer :=
  mkClusterServer c s [] (match bound with Ok _ => None | Err e => Some e end).

Definition server_event (actor_handler : option (EnvelopeHandler S)) (now : Z) (ev : ClusterEvent) (sv : ClusterServer)
  : ClusterServer :=
  let '(mkClusterServer c s tasks result) := sv in
  match ev with
  | CAccept r =>
      match result, r with
      | None, Ok (stream, addr) => mkClusterServer c s (tasks ++ [mkClusterConn (TcpConnection_new stream addr) None]) None
      | None, Err e => mkClusterServer c s tasks (Some e)
      | Some _, _ => sv
      end
  | CTurn i =>
      match tasks !! i with
      | Some (mkClusterConn conn None) =>
          match cluster_turn actor_handler now conn c s with
          | (c, s, conn, Continue) => mkClusterServer c s (<[i := mkClusterConn conn None]> tasks) result
          | (c, s, conn, Break) => mkClusterServer c s (<[i := mkClusterConn conn (Some false)]> tasks) result
          | (c, s, conn, Panicked) => mkClusterServer c s (<[i := mkClusterConn conn (Some true)]> tasks) result
          end
      | _ => sv
      end
  end.

(** [start_gossip_server]: no actors. *)
Definition gossip_server_event (now : Z) (ev : ClusterEvent) (sv : ClusterServer) : ClusterServer :=
  server_event None now ev sv.

End ClusterServer.
Arguments ClusterServer {_ _} S.

Section ClusterServerFacts.
Context {P : Prost} {PL : ProstLaws P} {F : FramedSocket} {FL : FramedLaws F} {S : Type}.

(** The bytes that are still to be read on the running connections, and the
    connections. *)
Definition unread (t : ClusterConn) : nat :=
  match cc_ended t with None => Datatypes.S (length (framed_input (conn_framed (cc_conn t)))) | Some _ => 0 end.

Lemma cluster_turn_consumes (h : option (EnvelopeHandler S)) now conn c s :
  match cluster_turn h now conn c s with
  | (_, _, conn', Continue) => length (framed_input (conn_framed conn')) < length (framed_input (conn_framed conn))
  | _ => True
  end.
Proof.
  unfold cluster_turn. destruct (conn_recv_cases conn) as [(e & f' & Hd & -> & _)|(c2 & err & -> & _)]; [|done].
  apply decode_consumes in Hd. destruct (serve_envelope h e now c s) as [[c' s'] [r|]]; simpl; [|lia].
  unfold conn_send. simpl. destruct (framed_send f' r) as [[f2 res]|] eqn:Hs; simpl; [|done].
  rewrite (framed_send_input _ _ _ _ Hs). lia.
Qed.

Lemma unread_insert tasks i t t' :
  tasks !! i = Some t -> unread t' < unread t ->
  sum_list (unread <$> <[i := t']> tasks) < sum_list (unread <$> tasks).
Proof.
  intros Ht Hlt. revert i Ht. induction tasks as [|x tasks IH]; intros [|i] Ht; simplify_eq/=; [lia|].
  specialize (IH i Ht). lia.
Qed.

(** A server that accepts no more comes to rest: each turn of a running
    connection takes something from what the connections have to read,
    whatever was sent to them and whatever the actors answer. *)
Theorem cluster_server_comes_to_rest (h : option (EnvelopeHandler S)) now i (sv : ClusterServer S) conn :
  cs_tasks sv !! i = Some (mkClusterConn conn None) ->
  sum_list (unread <$> cs_tasks (server_event h now (CTurn i) sv)) < sum_list (unread <$> cs_tasks sv).
Proof.
  destruct sv as [c s tasks result]. simpl. intros Hi. rewrite Hi.
  pose proof (cluster_turn_consumes h now conn c s) as Hc.
  destruct (cluster_turn h now conn c s) as [[[c' s'] conn'] []]; simpl;
    (eapply unread_insert; [exact Hi|unfold unread; simpl; lia]).
Qed.

End ClusterServerFacts.

(** ** What nodes know *)

Section Facts.
Context {P : Prost} {PL : ProstLaws P} {R : Type} {C : Choose R} {CL : ChooseLaws R}.
Implicit Types (net : Net) (evs : list (NetEvent R)).

(** The ids a node knows, and the ids in a gossip message. *)
Definition known (net : Net) (a : string) : gset string :=
  match net !! a with Some ns => dom (members (ns_cluster ns)) | None => ∅ end.
Definition gossip_ids_of (g : GossipMessage) : gset string := list_to_set (ni_id <$> g_members g).

(** What holds of every node of a network: the members are well formed and
    are all in [G], and what is under way is the gossip of such a node. *)
Context (G : Node -> Prop).

Definition node_good (c : ClusterNode) : Prop :=
  cluster_wf c /\ map_Forall (fun _ => G) (members c).
Definition gossip_good (g : GossipMessage) : Prop := Forall (fun i => G (Node_from i)) (g_members g).
Definition env_good (e : Envelope) : Prop :=
  exists g, ClusterMessage_decode (payload e) = Ok (CMGossip g) /\ gossip_good g.
Definition task_good (t : GossipTask) : Prop :=
  match t with AwaitReply _ e | GotReply (Ok e) => env_good e | _ => True end.
Definition state_good (ns : NodeState) : Prop := node_good (ns_cluster ns) /\ task_good (ns_task ns).

Lemma create_gossip_good c : node_good c -> gossip_good (create_gossip_message c).
Proof.
  intros [Hw Hg]. apply Forall_forall. intros i Hi.
  apply (gossip_ids c _ Hw (create_gossip_of c)) in Hi as (k & n & Hk & ->). rewrite Node_from_NodeInfo. by apply (Hg k).
Qed.

Lemma create_gossip_ids c : cluster_wf c -> gossip_ids_of (create_gossip_message c) = dom (members c).
Proof.
  intros Hw. destruct (gossip_ids c _ Hw (create_gossip_of c)) as [_ Hin].
  apply set_eq. intros x. unfold gossip_ids_of. rewrite elem_of_list_to_set, list_elem_of_fmap, elem_of_dom. split.
  - intros (i & -> & (k & n & Hk & ->)%Hin). simpl. rewrite (cw_key _ Hw _ _ Hk). eauto.
  - intros [n Hk]. exists (NodeInfo_from n). split; [simpl; by rewrite (cw_key _ Hw _ _ Hk)|]. apply Hin. eauto.
Qed.

Lemma cluster_envelope_good c resp :
  node_good c -> exists env, cluster_envelope c (CMGossip (create_gossip_message c)) resp = Some env /\
    ClusterMessage_decode (payload env) = Ok (CMGossip (create_gossip_message c)) /\ env_good env.
Proof.
  intros Hc. destruct (cluster_envelope_gossip c resp) as (env & He & Hd & _). exists env. split_and!; [done..|].
  exists (create_gossip_message c). split; [done|]. by apply create_gossip_good.
Qed.

Lemma merge_members_dom infos m :
  dom (foldl merge_member m infos) = dom m ∪ list_to_set (ni_id <$> infos).
Proof.
  revert m. induction infos as [|i infos IH]; intros m; simpl; [set_solver|]. rewrite IH.
  assert (Hd : dom (merge_member m i) = {[ni_id i]} ∪ dom m); [|set_solver].
  apply set_eq. intros k. rewrite elem_of_union, elem_of_singleton, !elem_of_dom, merge_member_lookup.
  case_decide; subst; rewrite ?is_Some_alt; naive_solver.
Qed.

Lemma merge_gossip_good g s now c :
  gossip_good g -> node_good c -> node_good (merge_gossip g s now c).
Proof.
  intros Hg [Hw Hc]. split; [by apply merge_gossip_wf|]. simpl. clear Hw. revert Hc.
  generalize (members c) as m. induction Hg as [|i infos Hi Hg IH]; intros m Hm k n; simpl; [apply Hm|].
  apply IH. intros k' n'. rewrite merge_member_lookup. case_decide; [|apply Hm]. intros [= <-].
  destruct (m !! k') as [n0|] eqn:H0; simpl; [|done]. unfold pick. case_decide; [by eapply Hm|done].
Qed.

Lemma merge_gossip_dom g s now c : dom (members (merge_gossip g s now c)) = dom (members c) ∪ gossip_ids_of g.
Proof. apply merge_members_dom. Qed.

Lemma tick_members now t c c' :
  tick now t c = Some c' -> local_node c' = local_node c /\
  forall k, exists f, members c' !! k = f <$> members c !! k /\ forall n, id (f n) = id n /\ addr (f n) = addr n.
Proof.
  unfold tick. destruct (detect_failures now t c) as [[c1 downs]|] eqn:Hd; [|done]. intros [= <-].
  destruct (detect_failures_members _ _ _ _ _ Hd) as (Hl & _ & _ & t2 & _ & Hm). simpl. split; [done|].
  intros k. rewrite Hm. destruct (computes_deadline c).
  - eexists. split; [done|]. intros n. simpl. unfold check_node. by repeat case_match.
  - exists (fun n => n). split; [|done]. by destruct (members c !! k).
Qed.

(** The failure check of [c] at the time [now] keeps the members in [G]; it is the one operation that makes entries of its own. *)
Definition check_good (now t : Z) (c : ClusterNode) : Prop :=
  forall c', tick now t c = Some c' -> map_Forall (fun _ => G) (members c) -> map_Forall (fun _ => G) (members c').

Lemma tick_good now t c c' :
  tick now t c = Some c' -> check_good now t c -> node_good c -> node_good c' /\ dom (members c') = dom (members c).
Proof.
  intros Ht Hck [[K1 K2] Hg]. destruct (tick_members _ _ _ _ Ht) as [Hl Hm]. split; [split; [split|]|].
  - intros k n Hk. destruct (Hm k) as (f & Hf & Hid). rewrite Hf in Hk.
    destruct (members c !! k) as [n0|] eqn:H0; simplify_eq/=. destruct (Hid n0) as [-> _]. by apply K1.
  - rewrite Hl. destruct (Hm (id (local_node c))) as (f & -> & _). by apply fmap_is_Some.
  - by apply Hck.
  - apply set_eq. intros k. rewrite !elem_of_dom. destruct (Hm k) as (f & -> & _). by rewrite fmap_is_Some.
Qed.

Lemma periodic_turn_good now t r connect sent c :
  check_good now t c -> node_good c -> let '(c', task) := periodic_turn now t r connect sent c in
  node_good c' /\ task_good task /\ dom (members c') = dom (members c).
Proof.
  intros Hck Hc. unfold periodic_turn. destruct (tick now t c) as [c1|] eqn:Ht; [|done].
  destruct (tick_good _ _ _ _ Ht Hck Hc) as [Hc1 Hd]. destruct (choose r (peers c1)) as [peer|]; [|done].
  unfold gossip_request. destruct (cluster_envelope_good c1 false Hc1) as (env & -> & _ & He). simpl.
  by destruct connect, sent.
Qed.

Lemma serve_good env now c :
  env_good env -> node_good c ->
  exists c' g resp, serve_envelope (S := unit) None env now c tt = (c', tt, Some resp) /\ node_good c' /\
    ClusterMessage_decode (payload env) = Ok (CMGossip g) /\
    dom (members c') = dom (members c) ∪ gossip_ids_of g /\ env_good resp /\
    ClusterMessage_decode (payload resp) = Ok (CMGossip (create_gossip_message c')).
Proof.
  intros (g & Hd & Hg) Hc. unfold serve_envelope. rewrite Hd.
  pose proof (merge_gossip_good g (sender_node env) now c Hg Hc) as Hc'.
  destruct (cluster_envelope_good _ true Hc') as (resp & Hr & Hdr & Her). rewrite Hr.
  eexists _, g, resp. split_and!; [done..|apply merge_gossip_dom|done|done].
Qed.

Lemma gossip_reply_good r now c :
  task_good (GotReply r) -> node_good c ->
  node_good (gossip_reply r now c) /\ dom (members c) ⊆ dom (members (gossip_reply r now c)).
Proof.
  destruct r as [env|e]; simpl; [|done]. intros (g & Hd & Hg) Hc. rewrite Hd. split; [by apply merge_gossip_good|].
  rewrite merge_gossip_dom. set_solver.
Qed.

(** *** Every step of the network *)

Definition net_good (net : Net) : Prop := map_Forall (fun _ => state_good) net.

(** An event that adds only members of [G], in the network it happens in; and
    a run of such events. *)
Definition event_good (timeout : Z) (net : Net) (ev : NetEvent R) : Prop :=
  match ev with
  | NAddMember _ n _ => G n
  | NTick a _ now _ _ => forall c, net !! a = Some (mkNodeState c Idle) -> check_good now timeout c
  | _ => True
  end.

Fixpoint run_good (timeout : Z) (evs : list (NetEvent R)) (net : Net) : Prop :=
  match evs with
  | [] => True
  | ev :: evs => event_good timeout net ev /\ run_good timeout evs (net_step timeout net ev)
  end.

(** One node changes, and knows no less than before. *)
Lemma net_update net a ns ns' :
  net_good net -> net !! a = Some ns -> state_good ns' ->
  dom (members (ns_cluster ns)) ⊆ dom (members (ns_cluster ns')) ->
  net_good (<[a := ns']> net) /\ (forall x, known net x ⊆ known (<[a := ns']> net) x).
Proof.
  intros Hn Ha Hs Hd. split; [by apply map_Forall_insert_2|]. intros x. unfold known.
  destruct (decide (x = a)) as [->|Hx]; [by rewrite lookup_insert_eq, Ha|by rewrite lookup_insert_ne].
Qed.

Lemma net_step_good timeout net ev :
  net_good net -> event_good timeout net ev ->
  net_good (net_step timeout net ev) /\ (forall x, known net x ⊆ known (net_step timeout net ev) x).
Proof.
  intros Hn He. destruct ev as [a r now connect sent|a now|a e|a now|a n now|a i ty]; simpl;
    (destruct (net !! a) as [[c t]|] eqn:Ha; [|done]); destruct (Hn a _ Ha) as [Hc Ht]; simpl in Hc, Ht.
  - destruct t; try done. pose proof (periodic_turn_good now timeout r connect sent c (He c Ha) Hc) as Hp.
    destruct (periodic_turn now timeout r connect sent c) as [c' t']. destruct Hp as (H1 & H2 & H3).
    eapply net_update; [done..|simpl; by rewrite H3].
  - destruct t as [|p req| |]; try done. destruct (net !! p) as [[peer pt]|] eqn:Hp; [|done].
    destruct (Hn p _ Hp) as [Hpc Hpt]. simpl in Hpc, Hpt.
    destruct (serve_good req now peer Ht Hpc) as (peer' & g & resp & -> & Hpeer & _ & Hd & Hresp & _).
    destruct (net_update net p _ (mkNodeState peer' pt) Hn Hp) as [Hn1 Hk1]; [done|simpl; set_solver|].
    destruct (<[p := mkNodeState peer' pt]> net !! a) as [[c1 [|q rq| |]]|] eqn:Ha1; try done.
    destruct (Hn1 a _ Ha1) as [Hc1 _].
    destruct (net_update _ a _ (mkNodeState c1 (GotReply (Ok resp))) Hn1 Ha1) as [Hn2 Hk2]; [done..|].
    split; [done|]. intros x. etrans; [apply Hk1|apply Hk2].
  - destruct t as [| |[]|]; try done; by eapply net_update.
  - destruct t as [| |r|]; try done. destruct (gossip_reply_good r now c Ht Hc). by eapply net_update.
  - destruct Hc as [Hw Hg]. eapply net_update; [done..| |simpl; set_solver]. split; [|done]. split.
    + apply (cluster_step_wf c (OAddMember n now) Hw).
    + simpl. intros k n'. rewrite lookup_insert. case_decide; [by intros [= <-]|apply Hg].
  - destruct Hc as [Hw Hg]. eapply net_update; [done..| |simpl; set_solver]. split; [|done]. split; [|done].
    apply (cluster_step_wf c (ORegisterActor i ty) Hw).
Qed.

Lemma net_run_good timeout evs net :
  net_good net -> run_good timeout evs net ->
  net_good (net_run timeout evs net) /\ (forall x, known net x ⊆ known (net_run timeout evs net) x).
Proof.
  revert net. induction evs as [|ev evs IH]; intros net Hn; simpl; [done|]. intros [He Hev].
  destruct (net_step_good timeout net ev Hn He) as [Hn1 Hk1]. destruct (IH _ Hn1 Hev) as [Hn2 Hk2].
  split; [done|]. intros x. etrans; [apply Hk1|apply Hk2].
Qed.

(** *** The periodic task of one node *)

Definition task_of (ev : NetEvent R) : option string :=
  match ev with
  | NTick a _ _ _ _ | NServe a _ | NLost a _ | NFinish a _ => Some a
  | _ => None
  end.

(** No step of the task of [a]. *)
Definition quiet (a : string) (evs : list (NetEvent R)) : Prop := Forall (fun ev => task_of ev <> Some a) evs.

Lemma task_stays timeout net ev a c t :
  net !! a = Some (mkNodeState c t) -> task_of ev <> Some a ->
  exists c', net_step timeout net ev !! a = Some (mkNodeState c' t).
Proof.
  intros Ha Hq.
  assert (Hins : forall b ns (m : Net), b <> a -> (exists c', m !! a = Some (mkNodeState c' t)) ->
    exists c', <[b := ns]> m !! a = Some (mkNodeState c' t)) by (intros; by rewrite lookup_insert_ne).
  assert (Hsame : forall (m : Net) b c1 t1 c2, m !! b = Some (mkNodeState c1 t1) ->
    (exists c', m !! a = Some (mkNodeState c' t)) -> exists c', <[b := mkNodeState c2 t1]> m !! a = Some (mkNodeState c' t)).
  { intros m b c1 t1 c2 Hb [c' Hc']. destruct (decide (b = a)) as [->|]; [|rewrite lookup_insert_ne; eauto].
    rewrite lookup_insert_eq. simplify_eq. eauto. }
  assert (Hne : forall b, Some b <> Some a -> b <> a) by (intros b H ->; done).
  destruct ev as [b r now connect sent|b now|b e|b now|b n now|b i ty]; simpl in *;
    (destruct (net !! b) as [[cb tb]|] eqn:Hb; [|by eauto]).
  - destruct tb; eauto. destruct (periodic_turn _ _ _ _ _ _). eauto.
  - destruct tb as [|p req| |]; eauto. destruct (net !! p) as [[peer pt]|] eqn:Hp; [|eauto].
    destruct (serve_envelope None req now peer tt) as [[peer' []] resp].
    destruct (<[p := mkNodeState peer' pt]> net !! b) as [[c1 [|q rq| |]]|]; eauto 6.
  - destruct tb as [| |[]|]; eauto.
  - destruct tb; eauto.
  - eauto.
  - eauto.
Qed.

Lemma task_stays_run timeout evs net a c t :
  net !! a = Some (mkNodeState c t) -> quiet a evs ->
  exists c', net_run timeout evs net !! a = Some (mkNodeState c' t).
Proof.
  intros Ha Hq. revert net c Ha. induction Hq as [|ev evs He Hq IH]; intros net c Ha; simpl; [eauto|].
  destruct (task_stays timeout net ev a c t Ha He) as [c' Hc']. by eapply IH.
Qed.

Lemma net_run_app timeout evs evs' net : net_run timeout (evs ++ evs') net = net_run timeout evs' (net_run timeout evs net).
Proof. apply foldl_app. Qed.

Lemma known_lookup net a ns : net !! a = Some ns -> known net a = dom (members (ns_cluster ns)).
Proof. unfold known. by intros ->. Qed.

(** The three steps of an exchange. *)
Lemma tick_step timeout net a r now c c1 peer :
  net_good net -> net !! a = Some (mkNodeState c Idle) -> tick now timeout c = Some c1 ->
  check_good now timeout c -> choose r (peers c1) = Some peer ->
  exists req,
    net_step timeout net (NTick a r now (Ok tt) (Ok tt)) =
      <[a := mkNodeState c1 (AwaitReply (addr peer) req)]> net /\
    ClusterMessage_decode (payload req) = Ok (CMGossip (create_gossip_message c1)) /\
    gossip_ids_of (create_gossip_message c1) = known net a.
Proof.
  intros Hn Ha Ht Hck Hch. destruct (Hn a _ Ha) as [Hc _]. destruct (tick_good _ _ _ _ Ht Hck Hc) as [Hc1 Hd].
  simpl. rewrite Ha. unfold periodic_turn. rewrite Ht, Hch. unfold gossip_request.
  destruct (cluster_envelope_good c1 false Hc1) as (req & -> & Hreq & _). exists req. split_and!; [done..|].
  rewrite create_gossip_ids by apply Hc1. by rewrite Hd, (known_lookup _ _ _ Ha).
Qed.

Lemma serve_step timeout net a now c p req g peer :
  net_good net -> net !! a = Some (mkNodeState c (AwaitReply p req)) -> is_Some (net !! p) ->
  ClusterMessage_decode (payload req) = Ok (CMGossip g) -> known net p = peer ->
  let net' := net_step timeout net (NServe a now) in
  gossip_ids_of g ⊆ known net' p /\
  exists c' resp g', net' !! a = Some (mkNodeState c' (GotReply (Ok resp))) /\
    ClusterMessage_decode (payload resp) = Ok (CMGossip g') /\ peer ⊆ gossip_ids_of g'.
Proof.
  intros Hn Ha [[pc pt] Hp] Hreq <-. simpl. rewrite Ha, Hp. destruct (Hn a _ Ha) as [_ Ht], (Hn p _ Hp) as [Hpc _].
  destruct (serve_good req now pc Ht Hpc) as (pc' & g1 & resp & -> & Hpc' & Hreq1 & Hd & _ & Hresp).
  assert (g1 = g) as -> by congruence. rewrite (known_lookup _ _ _ Hp). simpl.
  assert (Ha' : exists c', <[p := mkNodeState pc' pt]> net !! a = Some (mkNodeState c' (AwaitReply p req)) /\
    (p = a -> c' = pc')).
  { destruct (decide (p = a)) as [->|]; [rewrite lookup_insert_eq|rewrite lookup_insert_ne by done].
    - simplify_eq. eauto.
    - rewrite Ha. eexists. by split. }
  destruct Ha' as (c' & -> & Hsame). split.
  - unfold known. destruct (decide (p = a)) as [->|];
      [rewrite lookup_insert_eq|rewrite lookup_insert_ne, lookup_insert_eq by done];
      simpl; rewrite ?Hsame by done; set_solver.
  - exists c', resp, (create_gossip_message pc'). rewrite lookup_insert_eq. split_and!; [done..|].
    rewrite create_gossip_ids by apply Hpc'. set_solver.
Qed.

Lemma finish_step timeout net a now c resp g :
  net !! a = Some (mkNodeState c (GotReply (Ok resp))) -> ClusterMessage_decode (payload resp) = Ok (CMGossip g) ->
  gossip_ids_of g ⊆ known (net_step timeout net (NFinish a now)) a.
Proof.
  intros Ha Hr. simpl. rewrite Ha. unfold known. rewrite lookup_insert_eq. simpl. rewrite Hr, merge_gossip_dom. set_solver.
Qed.
End Facts.

(** ** The properties *)

Section Properties.
Context {P : Prost} {PL : ProstLaws P} {R : Type} {C : Choose R} {CL : ChooseLaws R}.

(** Nodes as their owners start them: the periodic task waits for its first
    tick. *)
Definition started (net : Net) : Prop :=
  map_Forall (fun _ ns => ns_task ns = Idle /\ cluster_wf (ns_cluster ns)) net.

Lemma started_good G net :
  started net -> (forall a ns k n, net !! a = Some ns -> members (ns_cluster ns) !! k = Some n -> G n) ->
  net_good G net.
Proof. intros Hs HG a [c t] Ha. destruct (Hs a _ Ha) as [Ht Hw]. simpl in *. subst t. split; [split; [done|]|done]. intros k n. by apply (HG a _ k n Ha). Qed.

(** The check changes only statuses, so that no condition on ids and addresses
    is lost. *)
Lemma check_good_listed (G : string -> string -> Prop) now t c : check_good (fun n => G (id n) (addr n)) now t c.
Proof.
  intros c' Ht Hg k n Hk. destruct (tick_members _ _ _ _ Ht) as [_ Hm]. destruct (Hm k) as (f & Hf & Hid).
  rewrite Hf in Hk. destruct (members c !! k) as [n0|] eqn:H0; simplify_eq/=. destruct (Hid n0) as [-> ->].
  by apply (Hg k).
Qed.

Lemma run_good_listed (G : string -> string -> Prop) timeout (evs : list (NetEvent R)) net :
  (forall a n now, NAddMember a n now ∈ evs -> G (id n) (addr n)) ->
  run_good (fun n => G (id n) (addr n)) timeout evs net.
Proof.
  revert net. induction evs as [|ev evs IH]; intros net Hev; simpl; [done|]. split.
  - destruct ev; try done; simpl; [intros; apply check_good_listed|].
    eapply Hev, list_elem_of_here.
  - apply IH. intros a n now Hin. eapply Hev, list_elem_of_further, Hin.
Qed.

Lemma check_good_any now t c : check_good (fun _ => True) now t c.
Proof. apply (check_good_listed (fun _ _ => True)). Qed.

Lemma run_good_any timeout (evs : list (NetEvent R)) net : run_good (fun _ => True) timeout evs net.
Proof. by apply (run_good_listed (fun _ _ => True)). Qed.

Lemma started_good_any net : started net -> net_good (fun _ => True) net.
Proof. intros Hs. by apply started_good. Qed.

(** C23: gossip invents nothing. Whatever the nodes of a network do, in whatever
    order, and whichever connections fail: every member any of them lists is
    filed under its own id, and its id and address are those of a member that
    some node listed at the start or that was added with [add_member]; and no
    node forgets a member. *)
Theorem gossip_invents_nothing (G : string -> string -> Prop) timeout (evs : list (NetEvent R)) (net : Net) :
  started net ->
  (forall a ns k n, net !! a = Some ns -> members (ns_cluster ns) !! k = Some n -> G (id n) (addr n)) ->
  (forall a n now, NAddMember a n now ∈ evs -> G (id n) (addr n)) ->
  (forall a ns k n, net_run timeout evs net !! a = Some ns -> members (ns_cluster ns) !! k = Some n ->
     id n = k /\ G k (addr n)) /\
  (forall a, known net a ⊆ known (net_run timeout evs net) a).
Proof.
  intros Hs HG Hev. set (G' n := G (id n) (addr n)).
  destruct (net_run_good G' timeout evs net (started_good G' net Hs HG)) as [Hn Hk];
    [by apply (run_good_listed G)|].
  split; [|done]. intros a ns k n Ha Hm. destruct (Hn a _ Ha) as [[Hw Hg] _].
  pose proof (cw_key _ Hw _ _ Hm) as <-. split; [done|]. by eapply Hg.
Qed.

Lemma net_run_any timeout (evs : list (NetEvent R)) net :
  net_good (fun _ => True) net ->
  net_good (fun _ => True) (net_run timeout evs net) /\ (forall x, known net x ⊆ known (net_run timeout evs net) x).
Proof. intros Hn. apply net_run_good; [done|]. apply run_good_any. Qed.

(** An exchange that is under way, up to its end. *)
Lemma exchange_completes timeout net (mid1 mid2 : list (NetEvent R)) a c p req g t2 t3 :
  let net2 := net_run timeout mid1 net in
  let net4 := net_run timeout (mid1 ++ NServe a t2 :: mid2 ++ [NFinish a t3]) net in
  net_good (fun _ => True) net -> net !! a = Some (mkNodeState c (AwaitReply p req)) ->
  ClusterMessage_decode (payload req) = Ok (CMGossip g) -> is_Some (net2 !! p) -> quiet a mid1 -> quiet a mid2 ->
  gossip_ids_of g ⊆ known net4 p /\ known net2 p ⊆ known net4 a.
Proof.
  intros net2 net4 Hn Ha Hreq Hp Hq1 Hq2.
  destruct (net_run_any timeout mid1 net Hn) as [Hn2 _]. fold net2 in Hn2.
  destruct (task_stays_run timeout mid1 net a c _ Ha Hq1) as [c2 Ha2].
  destruct (serve_step _ timeout net2 a t2 c2 p req g _ Hn2 Ha2 Hp Hreq eq_refl)
    as (Hk3 & c3 & resp & g' & Ha3 & Hresp & Hg').
  set (net3 := net_step timeout net2 (NServe a t2)) in *.
  assert (Hn3 : net_good (fun _ => True) net3) by (apply (net_run_any timeout [NServe a t2] net2 Hn2)).
  destruct (task_stays_run timeout mid2 net3 a c3 _ Ha3 Hq2) as [c4 Ha4].
  assert (E4 : net4 = net_step timeout (net_run timeout mid2 net3) (NFinish a t3)).
  { unfold net4. rewrite net_run_app. cbn [net_run foldl]. fold net2 net3. by rewrite foldl_app. }
  split.
  - etrans; [exact Hk3|]. rewrite E4.
    change (known net3 p ⊆ known (net_run timeout [NFinish a t3] (net_run timeout mid2 net3)) p).
    rewrite <- net_run_app. by apply net_run_any.
  - etrans; [exact Hg'|]. rewrite E4. by apply (finish_step timeout _ a t3 c4 resp g').
Qed.

(** C15: gossip spreads under interference. When a node [a] ticks, picks a peer
    that is up and the exchange runs to its end, with any other events of the
    network in between, then from that time on the peer lists every member
    that [a] listed when it ticked, and [a] every member that the peer listed
    when it served the request. *)
Theorem gossip_exchange_spreads timeout (net0 : Net) (pre mid1 mid2 post : list (NetEvent R)) a r t1 t2 t3 c c1 peer :
  let tick_ev := NTick a r t1 (Ok tt) (Ok tt) in
  let net1 := net_run timeout pre net0 in
  let net2 := net_run timeout (pre ++ tick_ev :: mid1) net0 in
  let net3 := net_run timeout (pre ++ tick_ev :: mid1 ++ NServe a t2 :: mid2 ++ NFinish a t3 :: post) net0 in
  started net0 -> net1 !! a = Some (mkNodeState c Idle) -> tick t1 timeout c = Some c1 ->
  choose r (peers c1) = Some peer -> is_Some (net2 !! addr peer) -> quiet a mid1 -> quiet a mid2 ->
  known net1 a ⊆ known net3 (addr peer) /\ known net1 a ⊆ known net3 a /\ known net2 (addr peer) ⊆ known net3 a.
Proof.
  intros tick_ev net1 net2 net3 Hs Ha Ht Hch Hpeer Hq1 Hq2.
  destruct (net_run_any timeout pre net0 (started_good_any net0 Hs)) as [Hn1 _]. fold net1 in Hn1.
  destruct (tick_step (fun _ => True) timeout net1 a r t1 c c1 peer Hn1 Ha Ht (check_good_any _ _ _) Hch) as (req & Hstep1 & Hreq & Hids).
  fold tick_ev in Hstep1. set (net1' := net_step timeout net1 tick_ev) in *.
  assert (Hn1' : net_good (fun _ => True) net1') by (apply (net_run_any timeout [tick_ev] net1 Hn1)).
  assert (E2 : net2 = net_run timeout mid1 net1') by (unfold net2; by rewrite net_run_app).
  destruct (exchange_completes timeout net1' mid1 mid2 a c1 (addr peer) req (create_gossip_message c1) t2 t3 Hn1')
    as [Hk1 Hk2];
    [rewrite Hstep1; apply lookup_insert_eq|exact Hreq|by rewrite <- E2|done..|].
  set (net4 := net_run timeout (mid1 ++ NServe a t2 :: mid2 ++ [NFinish a t3]) net1') in *.
  assert (Hn4 : net_good (fun _ => True) net4) by (by apply net_run_any).
  assert (E3 : net3 = net_run timeout post net4).
  { unfold net3, net4. rewrite net_run_app. cbn [net_run foldl]. fold (net_run timeout pre net0) net1 net1'.
    rewrite <- net_run_app. by rewrite <- !app_assoc, <- app_comm_cons, <- app_assoc. }
  destruct (net_run_any timeout post net4 Hn4) as [_ Hk]. rewrite <- E3 in Hk. split_and!.
  - rewrite <- Hids. etrans; [exact Hk1|apply Hk].
  - unfold net3. rewrite net_run_app. by apply net_run_any.
  - rewrite E2. etrans; [exact Hk2|apply Hk].
Qed.

End Properties.

(** ** Witnesses *)

Module RefChoose.

#[export] Instance choose_nat : Choose nat := fun r l => l !! (r mod length l).

#[export] Instance choose_nat_laws : ChooseLaws nat.
Proof.
  split; unfold choose, choose_nat.
  - intros r l n. apply list_elem_of_lookup_2.
  - intros r l Hl. apply lookup_lt_is_Some. apply Nat.mod_upper_bound. by destruct l.
Qed.

End RefChoose.

Section Witnesses.
Import RefProst RefChoose.

(** Three nodes; alice knows bob, bob knows carol. *)
Definition three : Net :=
  {["a:1" := mkNodeState alice Idle; "b:1" := mkNodeState bob Idle; "c:1" := mkNodeState carol Idle]}.

Lemma three_started : started three.
Proof.
  unfold started, three. repeat apply map_Forall_insert_2; [..|apply map_Forall_empty]; simpl;
    (split; [done|]); [apply alice_wf|apply bob_wf|apply cluster_wf_new].
Qed.

(** Between the steps of the exchange of alice and bob, bob starts one with
    carol and alice's owner adds a member. *)
Definition between1 : list (NetEvent nat) := [NTick "b:1" 0 101 (Ok tt) (Ok tt); NServe "b:1" 102].
Definition between2 : list (NetEvent nat) :=
  [NFinish "b:1" 103; NAddMember "a:1" (mkNode "dave" "d:1" Up) 104; NLost "c:1" TDisconnected].

Definition exchanged : list (NetEvent nat) :=
  NTick "a:1" 0 100 (Ok tt) (Ok tt) :: between1 ++ NServe "a:1" 105 :: between2 ++ [NFinish "a:1" 106].

Lemma gossip_exchange_spreads_witness :
  let net := net_run 10000 exchanged three in
  known three "a:1" ⊆ known net "b:1" /\ known three "a:1" ⊆ known net "a:1" /\
  known (net_run 10000 (NTick "a:1" 0 100 (Ok tt) (Ok tt) :: between1) three) "b:1" ⊆ known net "a:1".
Proof.
  apply (gossip_exchange_spreads 10000 three [] between1 between2 [] "a:1" 0 100 105 106 alice
    (default alice (tick 100 10000 alice)) (mkNode "bob" "b:1" Up)).
  - apply three_started.
  - vm_compute. reflexivity.
  - vm_compute. reflexivity.
  - vm_compute. reflexivity.
  - vm_compute. eexists. reflexivity.
  - repeat constructor; discriminate.
  - repeat constructor; discriminate.
Defined.

(** Alice after the exchange, and what she lists of carol. *)
Definition alice_after : NodeState := default (mkNodeState alice Idle) (net_run 10000 exchanged three !! "a:1").
Definition heard_of_carol : Node := default (mkNode "" "" Up) (members (ns_cluster alice_after) !! "carol").

Lemma gossip_invents_nothing_witness :
  id heard_of_carol = "carol" /\
  In ("carol", addr heard_of_carol) [("alice", "a:1"); ("bob", "b:1"); ("carol", "c:1"); ("dave", "d:1")].
Proof.
  set (G i a := In (i, a) [("alice", "a:1"); ("bob", "b:1"); ("carol", "c:1"); ("dave", "d:1")]).
  refine (proj1 (gossip_invents_nothing G 10000 exchanged three _ _ _) "a:1" alice_after "carol" heard_of_carol _ _).
  - apply three_started.
  - intros a ns k n Ha Hm.
    unfold three in Ha. rewrite !lookup_insert_Some, lookup_singleton_Some in Ha.
    destruct Ha as [[<- <-]|[_ [[<- <-]|[_ [<- <-]]]]]; simpl in Hm;
      rewrite ?lookup_insert_Some, lookup_singleton_Some in Hm; unfold G; simpl; naive_solver.
  - intros a n now Hin. unfold exchanged, between1, between2, G in *. simpl in *.
    repeat (apply elem_of_cons in Hin as [Hin|Hin]; [simplify_eq; simpl; tauto|]). by apply not_elem_of_nil in Hin.
  - vm_compute. reflexivity.
  - vm_compute. reflexivity.
Defined.

End Witnesses.
