(* ===== verification/Detector.v ===== *)
(** * Detector: failure detection in a network (src/remote/cluster.rs)

    The failure detector of [start_periodic_gossip] in the network of Gossip.v.
    A node has two sources of statuses: its own check of heartbeats, and the
    gossip of others, which may be old. This file shows what a heartbeat stands
    for, that a suspicion anywhere in the network goes back to a node that had
    not heard from the suspect for longer than the timeout, and that gossip may
    bring a node back that is down. *)

From S2P Require Import Prelude Tokio Supervisor Runtime Wire Remote Cluster Gossip.

Section Detector.
Context {P : Prost} {R : Type} {C : Choose R}.
Implicit Types (net : Net) (evs : list (NetEvent R)).

(** ** Heartbeats *)

(** The gossip of node [k], in an envelope. *)
Definition gossip_from (k : string) (e : Envelope) : bool :=
  match ClusterMessage_decode (payload e) with
  | Ok (CMGossip _) => bool_decide (sender_node e = k)
  | _ => false
  end.

(** The node at [b] hears from [k]: it serves a request or merges a reply of
    [k], or its owner adds [k] as a member; and when. *)
Definition hears (net : Net) (ev : NetEvent R) (b k : string) : option Z :=
  match ev with
  | NServe a now =>
      match net !! a with
      | Some (mkNodeState _ (AwaitReply p request)) =>
          if bool_decide (p = b) && gossip_from k request then Some now else None
      | _ => None
      end
  | NFinish a now =>
      match net !! a with
      | Some (mkNodeState _ (GotReply (Ok response))) =>
          if bool_decide (a = b) && gossip_from k response then Some now else None
      | _ => None
      end
  | NAddMember a n now => if bool_decide (a = b) && bool_decide (id n = k) then Some now else None
  | _ => None
  end.

(** When the node at [b] heard from [k] for the last time in a run, [h] being
    what was known before it. *)
Fixpoint last_heard (timeout : Z) (b k : string) (evs : list (NetEvent R)) (net : Net) (h : option Z) : option Z :=
  match evs with
  | [] => h
  | ev :: evs =>
      last_heard timeout b k evs (net_step timeout net ev)
        (match hears net ev b k with Some t => Some t | None => h end)
  end.

Definition heartbeat_of (net : Net) (b k : string) : option Z :=
  net !! b ≫= fun ns => last_heartbeat (ns_cluster ns) !! k.

Lemma tick_heartbeats now t c c' : tick now t c = Some c' -> last_heartbeat c' = last_heartbeat c.
Proof.
  unfold tick. destruct (detect_failures now t c) as [[c1 downs]|] eqn:Hd; [|done]. intros [= <-].
  by destruct (detect_failures_members _ _ _ _ _ Hd) as (_ & H & _).
Qed.

Lemma periodic_turn_heartbeats now t r connect sent c :
  last_heartbeat (fst (periodic_turn now t r connect sent c)) = last_heartbeat c.
Proof.
  unfold periodic_turn. destruct (tick now t c) as [c1|] eqn:Ht; [|done].
  rewrite <- (tick_heartbeats _ _ _ _ Ht). by repeat case_match.
Qed.

(** What an envelope that is served or merged does to the heartbeats. *)
Definition heard_in (e : Envelope) (k : string) (now : Z) (h : option Z) : option Z :=
  if gossip_from k e then Some now else h.

Lemma merge_heartbeats e g now c k :
  ClusterMessage_decode (payload e) = Ok (CMGossip g) ->
  last_heartbeat (merge_gossip g (sender_node e) now c) !! k = heard_in e k now (last_heartbeat c !! k).
Proof.
  intros Hd. unfold heard_in, gossip_from. rewrite Hd. simpl. rewrite lookup_insert.
  case_decide; case_bool_decide; done.
Qed.

Lemma serve_heartbeats e now c k :
  last_heartbeat (serve_envelope (S := unit) None e now c tt).1.1 !! k = heard_in e k now (last_heartbeat c !! k).
Proof.
  unfold serve_envelope. destruct (ClusterMessage_decode (payload e)) as [[]|] eqn:Hd;
    try (by apply merge_heartbeats); unfold heard_in, gossip_from; by rewrite Hd.
Qed.

Lemma reply_heartbeats e now c k :
  last_heartbeat (gossip_reply (Ok e) now c) !! k = heard_in e k now (last_heartbeat c !! k).
Proof.
  simpl. destruct (ClusterMessage_decode (payload e)) as [[]|] eqn:Hd;
    try (by apply merge_heartbeats); unfold heard_in, gossip_from; by rewrite Hd.
Qed.

Lemma heartbeat_insert net a b k ns :
  heartbeat_of (<[a := ns]> net) b k =
    if bool_decide (a = b) then last_heartbeat (ns_cluster ns) !! k else heartbeat_of net b k.
Proof. unfold heartbeat_of. rewrite lookup_insert. case_decide; case_bool_decide; done. Qed.

(** A node that is replaced by one with the same heartbeats. *)
Lemma heartbeat_same net a b k ns ns' :
  net !! a = Some ns -> last_heartbeat (ns_cluster ns') = last_heartbeat (ns_cluster ns) ->
  heartbeat_of (<[a := ns']> net) b k = heartbeat_of net b k.
Proof.
  intros Ha E. rewrite heartbeat_insert. case_bool_decide; [subst|done]. unfold heartbeat_of. by rewrite Ha, E.
Qed.

(** Nodes neither come nor go. *)
Lemma net_step_nodes timeout net ev b : is_Some (net_step timeout net ev !! b) <-> is_Some (net !! b).
Proof.
  assert (Hins : forall a ns ns' (m : Net), m !! a = Some ns ->
    (is_Some (<[a := ns']> m !! b) <-> is_Some (m !! b))).
  { intros a ns ns' m Ha. rewrite lookup_insert. case_decide; [subst|done]. rewrite Ha. split; eauto. }
  destruct ev as [a r now connect sent|a now|a e|a now|a n now|a i ty]; simpl;
    (destruct (net !! a) as [[c t]|] eqn:Ha; [|done]);
    try (destruct t as [| |[]|]; done || (try destruct (periodic_turn _ _ _ _ _ _)); by eapply Hins); [|by eapply Hins..].
  destruct t as [|p req| |]; try done. destruct (net !! p) as [[pc pt]|] eqn:Hp; [|done].
  destruct (serve_envelope None req now pc tt) as [[pc' []] resp].
  destruct (<[p := mkNodeState pc' pt]> net !! a) as [[c1 [|q rq| |]]|] eqn:H1; rewrite ?(Hins _ _ _ _ H1);
    by eapply Hins.
Qed.

Lemma net_run_nodes timeout evs net b : is_Some (net_run timeout evs net !! b) <-> is_Some (net !! b).
Proof.
  revert net. induction evs as [|ev evs IH]; intros net; simpl; [done|]. rewrite IH. apply net_step_nodes.
Qed.

Lemma heartbeat_step timeout net ev b k :
  is_Some (net !! b) ->
  heartbeat_of (net_step timeout net ev) b k =
    match hears net ev b k with Some t => Some t | None => heartbeat_of net b k end.
Proof.
  intros [nb Hb]. destruct ev as [a r now connect sent|a now|a e|a now|a n now|a i ty]; simpl;
    (destruct (net !! a) as [[c t]|] eqn:Ha; [|try done]).
  - destruct t; try done. pose proof (periodic_turn_heartbeats now timeout r connect sent c) as Hp.
    destruct (periodic_turn now timeout r connect sent c) as [c' t']. by eapply heartbeat_same.
  - destruct t as [|p req| |]; try done. destruct (net !! p) as [[pc pt]|] eqn:Hp.
    + pose proof (serve_heartbeats req now pc k) as Hs.
      destruct (serve_envelope None req now pc tt) as [[pc' []] resp]. simpl in Hs.
      set (net1 := <[p := mkNodeState pc' pt]> net).
      transitivity (heartbeat_of net1 b k).
      { destruct (net1 !! a) as [[c1 [|q rq| |]]|] eqn:H1; try done. by eapply heartbeat_same. }
      unfold net1. rewrite heartbeat_insert. case_bool_decide; [subst p|done]. simpl. rewrite Hs.
      unfold heard_in, heartbeat_of. rewrite Hp. by destruct (gossip_from k req).
    + rewrite bool_decide_eq_false_2 by congruence. done.
  - destruct t as [| |[]|]; try done; by eapply heartbeat_same.
  - destruct t as [| |[e|e]|]; try done; rewrite heartbeat_insert; case_bool_decide; try done; subst a.
    + etrans; [apply (reply_heartbeats e now c k)|]. unfold heard_in, heartbeat_of. rewrite Ha.
      by destruct (gossip_from k e).
    + simpl. unfold heartbeat_of. by rewrite Ha.
  - rewrite heartbeat_insert. case_bool_decide; [subst a|done]. simpl. rewrite lookup_insert.
    unfold heartbeat_of. rewrite Ha. case_decide; case_bool_decide; done.
  - rewrite bool_decide_eq_false_2 by congruence. done.
  - by eapply heartbeat_same.
Qed.

(** In every run, the heartbeat that a node has for another is the time at
    which it heard from it for the last time. *)
Lemma heartbeat_is_last_heard timeout evs net b k :
  is_Some (net !! b) ->
  heartbeat_of (net_run timeout evs net) b k = last_heard timeout b k evs net (heartbeat_of net b k).
Proof.
  revert net. induction evs as [|ev evs IH]; intros net Hb; simpl; [done|].
  rewrite <- (heartbeat_step timeout) by done. apply IH. by apply net_step_nodes.
Qed.

(** ** Suspicions *)

Context {PL : ProstLaws P} {CL : ChooseLaws R}.

Definition up_if (k : string) (n : Node) : Prop := id n = k -> status n = Up.

(** A check finds [k] silent. *)
Definition silent (k : string) (timeout now : Z) (c : ClusterNode) : Prop :=
  k <> id (local_node c) /\ exists h, last_heartbeat c !! k = Some h /\ (timeout < duration_since now h)%Z.

#[export] Instance silent_dec k timeout now c : Decision (silent k timeout now c).
Proof.
  unfold silent. destruct (last_heartbeat c !! k) as [h|] eqn:Hh.
  - destruct (decide (k <> id (local_node c) /\ (timeout < duration_since now h)%Z)) as [[H1 H2]|Hn].
    + left. eauto.
    + right. intros (H1 & h' & [= <-] & H2). by apply Hn.
  - right. by intros (_ & h & [=] & _).
Defined.

(** A check of a node that is not silent leaves it [Up]. *)
Lemma check_good_up k now t c :
  (0 <= t)%Z -> cluster_wf c -> ~ silent k t now c -> check_good (up_if k) now t c.
Proof.
  intros Ht Hw Hs c'. unfold tick. destruct (detect_failures now t c) as [[c1 downs]|] eqn:Hd; [|done].
  intros [= <-] Hup j n Hj Hid. simpl in Hj.
  destruct (detect_failures_members _ _ _ _ _ Hd) as (_ & _ & _ & t2 & Ht2 & Hm). rewrite Hm in Hj.
  destruct (computes_deadline c); [|by apply (Hup j)].
  destruct (members c !! j) as [n0|] eqn:H0; [|done]. injection Hj as <-. rewrite check_node_id in *.
  pose proof (cw_key _ Hw _ _ H0) as Hkey. specialize (Hup _ _ H0 Hid).
  unfold duration_mul in Ht2. specialize (Ht2 eq_refl). case_decide; [|done]. injection Ht2 as <-.
  unfold check_node. case_decide; [done|]. destruct (last_heartbeat c !! j) as [h|] eqn:Hh; [|done].
  assert (Hle : ~ (t < duration_since now h)%Z) by (intros Hlt; apply Hs; split; subst; eauto).
  rewrite !decide_False by (intros [? _]; lia). done.
Qed.

(** The tick in a run that finds [k] silent. *)
Definition silent_tick (timeout : Z) (k : string) (evs : list (NetEvent R)) (net : Net) : Prop :=
  exists evs1 b r now connect sent evs2 c,
    evs = evs1 ++ NTick b r now connect sent :: evs2 /\
    net_run timeout evs1 net !! b = Some (mkNodeState c Idle) /\ silent k timeout now c.

Lemma silent_tick_cons timeout k ev evs net :
  silent_tick timeout k evs (net_step timeout net ev) -> silent_tick timeout k (ev :: evs) net.
Proof. intros (evs1 & b & r & now & cn & st & evs2 & c & -> & H). by exists (ev :: evs1), b, r, now, cn, st, evs2, c. Qed.

Lemma up_or_silent k timeout evs net :
  (0 <= timeout)%Z -> net_good (up_if k) net ->
  (forall b n now, NAddMember b n now ∈ evs -> id n = k -> status n = Up) ->
  net_good (up_if k) (net_run timeout evs net) \/ silent_tick timeout k evs net.
Proof.
  intros Ht. revert net. induction evs as [|ev evs IH]; intros net Hn Hev; simpl; [by left|].
  assert (event_good (up_if k) timeout net ev \/ silent_tick timeout k (ev :: evs) net) as [He|Hs]; [|..|by right].
  { destruct ev as [a r now cn st| | | |a n now|]; try (by left).
    - simpl. destruct (net !! a) as [[c [| | |]]|] eqn:Ha; try (left; intros; congruence).
      destruct (Hn a _ Ha) as [[Hw _] _].
      destruct (decide (silent k timeout now c)) as [Hs|Hs].
      + right. by exists [], a, r, now, cn, st, evs, c.
      + left. intros c' [= <-]. by apply check_good_up.
    - left. intros Hid. eapply Hev, Hid. apply list_elem_of_here. }
  destruct (IH _ (proj1 (net_step_good _ timeout net ev Hn He))) as [Hg|Hs]; [|by left|].
  - intros b n now Hin. eapply Hev, list_elem_of_further, Hin.
  - right. by apply silent_tick_cons.
Qed.

(** C24: a suspicion has a cause. In a network in which every node starts with
    [k] as [Up] (or does not know it) and [k] is only added as [Up]: when some
    node at some time lists [k] as [Suspect] or [Down], whichever tasks ran,
    in whatever order, and whichever connections failed, then before that some
    node, which is not [k] itself, ticked without having heard from [k] for
    longer than the timeout. *)
Theorem suspicion_has_cause k timeout evs net a ns n :
  (0 <= timeout)%Z -> started net ->
  (forall b ns n, net !! b = Some ns -> members (ns_cluster ns) !! k = Some n -> status n = Up) ->
  (forall b n now, NAddMember b n now ∈ evs -> id n = k -> status n = Up) ->
  net_run timeout evs net !! a = Some ns -> members (ns_cluster ns) !! k = Some n -> status n <> Up ->
  exists evs1 b r now connect sent evs2 c h,
    evs = evs1 ++ NTick b r now connect sent :: evs2 /\
    net_run timeout evs1 net !! b = Some (mkNodeState c Idle) /\ k <> id (local_node c) /\
    last_heard timeout b k evs1 net (heartbeat_of net b k) = Some h /\ (timeout < duration_since now h)%Z.
Proof.
  intros Ht Hst Hup Hadd Ha Hk Hn.
  destruct (up_or_silent k timeout evs net Ht) as [Hg|Hs].
  - apply started_good; [done|]. intros b ns' j n' Hb Hj Hid. destruct (Hst b _ Hb) as [_ Hw].
    rewrite <- (cw_key _ Hw _ _ Hj), Hid in Hj. eauto.
  - done.
  - destruct (Hg a _ Ha) as [[Hw Hall] _]. destruct Hn. apply (Hall _ _ Hk). by apply (cw_key _ Hw).
  - destruct Hs as (evs1 & b & r & now & cn & st & evs2 & c & E & Hb & Hl & h & Hh & Hlt).
    exists evs1, b, r, now, cn, st, evs2, c, h. split_and!; try done.
    rewrite <- heartbeat_is_last_heard by (apply (net_run_nodes timeout evs1); eauto).
    unfold heartbeat_of. by rewrite Hb.
Qed.

(** A node that is down comes back by hearsay: the gossip of any node that
    still lists it as [Up] makes it [Up] again, and brings back the locations of
    its actors that the sender has, although nobody has heard from it. *)
Theorem gossip_revives_down c c' g sender now k n n' :
  cluster_wf c' -> gossip_of c' g -> sender <> k ->
  members c !! k = Some n -> status n = Down -> members c' !! k = Some n' -> status n' = Up ->
  let c2 := merge_gossip g sender now c in
  status <$> members c2 !! k = Some Up /\ last_heartbeat c2 !! k = last_heartbeat c !! k /\
  (forall x ty, lookup_actor x c' = Some (k, ty) -> lookup_actor x c2 = Some (k, ty)).
Proof.
  intros Hw Hg Hs Hk Hd Hk' Hu. cbv zeta.
  rewrite (merge_gossip_joins_views c c' g sender now Hw Hg). cbn [members last_heartbeat]. split_and!.
  - rewrite lookup_union_with, Hk, Hk'. simpl. unfold pick. rewrite decide_False by congruence. simpl. by rewrite Hu.
  - by rewrite lookup_insert_ne.
  - intros x ty Hx. unfold lookup_actor in *. simpl. by apply lookup_union_Some_l.
Qed.

End Detector.

(** ** Witnesses *)

Section Witnesses.
Import RefProst RefChoose.

(** Alice has not heard from bob for long when she ticks; her gossip tells bob
    that he is down. *)
Definition late : list (NetEvent nat) := [NTick "a:1" 0 100000 (Ok tt) (Ok tt); NServe "a:1" 100001].
Definition bob_after : NodeState := default (mkNodeState bob Idle) (net_run 10000 late three !! "b:1").
Definition bob_of_himself : Node := default (mkNode "" "" Up) (members (ns_cluster bob_after) !! "bob").

Lemma suspicion_has_cause_witness :
  status bob_of_himself = Down /\
  exists evs1 b r now connect sent evs2 c h,
    late = evs1 ++ NTick b r now connect sent :: evs2 /\
    net_run 10000 evs1 three !! b = Some (mkNodeState c Idle) /\ "bob" <> id (local_node c) /\
    last_heard 10000 b "bob" evs1 three (heartbeat_of three b "bob") = Some h /\ (10000 < duration_since now h)%Z.
Proof.
  split; [vm_compute; reflexivity|].
  apply (suspicion_has_cause "bob" 10000 late three "b:1" bob_after bob_of_himself).
  - lia.
  - apply three_started.
  - intros b ns n Hb Hm. unfold three in Hb. rewrite !lookup_insert_Some, lookup_singleton_Some in Hb.
    destruct Hb as [[<- <-]|[_ [[<- <-]|[_ [<- <-]]]]]; vm_compute in Hm; simplify_eq; done.
  - intros b n now Hin. unfold late in Hin.
    repeat (apply elem_of_cons in Hin as [Hin|Hin]; [discriminate|]). by apply not_elem_of_nil in Hin.
  - vm_compute. reflexivity.
  - vm_compute. reflexivity.
  - vm_compute. discriminate.
Defined.

Lemma gossip_revives_down_witness :
  status <$> members (merge_gossip (create_gossip_message alice) "alice" 7
    (add_member (mkNode "bob" "b:1" Down) 0 carol)) !! "bob" = Some Up.
Proof.
  refine (proj1 (gossip_revives_down _ alice _ "alice" 7 "bob" (mkNode "bob" "b:1" Down) (mkNode "bob" "b:1" Up) alice_wf
    (create_gossip_of alice) _ _ _ _ _)); done.
Defined.

End Witnesses.
