(* ===== verification/ClusterClient.v ===== *)
(** * ClusterClient: calling actors anywhere in the cluster (src/remote/cluster_client.rs)

    The client looks an actor up in the registry of its [ClusterNode], finds
    the address of the node, keeps one connection per address in a pool and
    sends the envelope of the message inside a cluster message. Connecting is
    an argument ([connect]: the client for a new connection, or the error); so
    is what happens on the other side of a connection, a function [net] on a
    state of its own. *)

From S2P Require Import Prelude Tokio Supervisor Runtime Wire Remote Cluster.

(** [ConnectionPool]: a [RemoteClient] is the number of its connection. *)
Record ConnectionPool := mkPool { clients : gmap string nat }.

Definition ConnectionPool_new : ConnectionPool := mkPool ∅.

(** [get_or_connect]: [connect] is only called when there is no client. *)
Definition get_or_connect (node_addr : string) (connect : Result nat TransportError) (p : ConnectionPool)
  : ConnectionPool * Result nat TransportError :=
  match clients p !! node_addr with
  | Some client => (p, Ok client)
  | None =>
      match connect with
      | Ok client => (mkPool (<[node_addr := client]> (clients p)), Ok client)
      | Err e => (p, Err e)
      end
  end.

Definition pool_remove (node_addr : string) (p : ConnectionPool) : ConnectionPool :=
  mkPool (delete node_addr (clients p)).

Record ClusterClient := mkClusterClient {
  cluster : ClusterNode;
  pool : ConnectionPool;
  local_node_id : string;
}.

Definition ClusterClient_new (c : ClusterNode) : ClusterClient :=
  mkClusterClient c ConnectionPool_new (id (local_node c)).

Definition set_pool (p : ConnectionPool) (c : ClusterClient) : ClusterClient :=
  mkClusterClient (cluster c) p (local_node_id c).

Definition clear_connection (node_addr : string) (c : ClusterClient) : ClusterClient :=
  set_pool (pool_remove node_addr (pool c)) c.

Section ClusterClient.
Context {P : Prost} {T : Type}.

(** [members.iter().find(|n| n.id == node_id)]. *)
Definition find_node (node_id : string) (ms : list Node) : option Node :=
  List.find (fun n => bool_decide (id n = node_id)) ms.

(** The part [send_to_actor] and [do_send_to_actor] have in common: where to
    send, and the transport envelope. *)
Definition locate (c : ClusterClient) (actor_id : string) (envelope : Envelope)
  : Result (string * Envelope) TransportError :=
  (let? loc := ok_or (lookup_actor actor_id (cluster c)) (TIo NotFound) in
   let? node := ok_or (find_node (fst loc) (get_members (cluster c))) (TIo NotFound) in
   let? buf := ok_or (ClusterMessage_encode (CMEnvelope envelope)) (TIo InvalidData) in
   Ok (addr node, mkEnvelope "cluster" buf 0 (local_node_id c) "" false))%rust.

(** The unwrapping of the response. *)
Definition unwrap_response (response : Envelope) : Result Envelope TransportError :=
  match ClusterMessage_decode (payload response) with
  | Ok (CMEnvelope actor_response) => Ok actor_response
  | _ => Err (TIo InvalidData)
  end.

(** [send_to_actor]; the task that clears the pool after a failure has run. *)
Definition send_to_actor (connect : string -> Result nat TransportError)
    (net : nat -> Envelope -> T -> T * Result Envelope TransportError)
    (actor_id : string) (envelope : Envelope) (c : ClusterClient) (t : T)
  : ClusterClient * T * Result Envelope TransportError :=
  match locate c actor_id envelope with
  | Err e => (c, t, Err e)
  | Ok (node_addr, transport_envelope) =>
      match get_or_connect node_addr (connect node_addr) (pool c) with
      | (p, Err e) => (set_pool (pool_remove node_addr p) c, t, Err e)
      | (p, Ok client) =>
          let c := set_pool p c in
          match net client transport_envelope t with
          | (t, Err e) => (clear_connection node_addr c, t, Err e)
          | (t, Ok response) => (c, t, unwrap_response response)
          end
      end
  end.

(** [do_send_to_actor]: [net] here is [RemoteClient::do_send]. *)
Definition do_send_to_actor (connect : string -> Result nat TransportError)
    (net : nat -> Envelope -> T -> T * Result unit TransportError)
    (actor_id : string) (envelope : Envelope) (c : ClusterClient) (t : T)
  : ClusterClient * T * Result unit TransportError :=
  match locate c actor_id envelope with
  | Err e => (c, t, Err e)
  | Ok (node_addr, transport_envelope) =>
      match get_or_connect node_addr (connect node_addr) (pool c) with
      | (p, Err e) => (set_pool (pool_remove node_addr p) c, t, Err e)
      | (p, Ok client) =>
          let '(t, r) := net client transport_envelope t in (set_pool p c, t, r)
      end
  end.

(** [ClusterRemoteAddr]: the name of an actor somewhere in the cluster and a
    client that shares its connections; [remote_addr] looks nothing up. *)
Record ClusterRemoteAddr := mkClusterRemoteAddr { cra_actor_id : string; cra_client : ClusterClient }.

Definition ClusterClient_remote_addr (actor_id : string) (c : ClusterClient) : ClusterRemoteAddr :=
  mkClusterRemoteAddr actor_id c.

(** [ClusterRemoteAddr::send]: [None] when the message does not encode (a
    panic). The correlation counter is passed on. *)
Definition remote_send {M} `{!RemoteMessage M} connect net (actor_id : string) (msg : M) (counter : Z)
    (c : ClusterClient) (t : T)
  : option (Z * ClusterClient * T * Result Envelope TransportError) :=
  let '(counter, cid) := next_correlation_id counter in
  match Envelope_from_message msg cid (local_node_id c) actor_id with
  | None => None
  | Some envelope =>
      let '(c, t, r) := send_to_actor connect net actor_id envelope c t in Some (counter, c, t, r)
  end.

(** [ClusterRemoteAddr::do_send], likewise. *)
Definition remote_do_send {M} `{!RemoteMessage M} connect net (actor_id : string) (msg : M) (counter : Z)
    (c : ClusterClient) (t : T)
  : option (Z * ClusterClient * T * Result unit TransportError) :=
  let '(counter, cid) := next_correlation_id counter in
  match Envelope_from_message msg cid (local_node_id c) actor_id with
  | None => None
  | Some envelope =>
      let '(c, t, r) := do_send_to_actor connect net actor_id envelope c t in Some (counter, c, t, r)
  end.

(** [ClusterRemoteAddr::call]: the response decoded. *)
Definition remote_call {M R} `{!RemoteMessage M, !RemoteMessage R} connect net (actor_id : string) (msg : M)
    (counter : Z) (c : ClusterClient) (t : T)
  : option (Z * ClusterClient * T * Result R TransportError) :=
  match remote_send connect net actor_id msg counter c t with
  | None => None
  | Some (counter, c, t, r) =>
      Some (counter, c, t,
        (let? response := r in
         map_err (fun _ => TIo InvalidData) (msg_decode (payload response)))%rust)
  end.

End ClusterClient.

(** ** Facts *)

Lemma find_node_spec node_id ms n :
  find_node node_id ms = Some n -> n ∈ ms /\ id n = node_id.
Proof.
  unfold find_node. intros H. apply List.find_some in H as [Hin Hb].
  split; [by apply list_elem_of_In|by apply bool_decide_eq_true in Hb].
Qed.

Lemma find_node_none node_id ms n : find_node node_id ms = None -> n ∈ ms -> id n <> node_id.
Proof.
  unfold find_node. intros H Hin Heq. apply list_elem_of_In in Hin.
  apply (List.find_none _ _ H) in Hin. by apply bool_decide_eq_false in Hin.
Qed.

(** Whatever the order of the members, the search finds the entry of the map. *)
Lemma find_node_lookup c node_id ms :
  cluster_wf c -> ms ≡ₚ get_members c -> find_node node_id ms = members c !! node_id.
Proof.
  intros Hw Hms.
  assert (Hin : forall n, n ∈ ms <-> members c !! id n = Some n).
  { intros n. rewrite Hms. unfold get_members. rewrite list_elem_of_fmap. split.
    - intros ([k n'] & -> & Hin). apply elem_of_map_to_list in Hin. simpl.
      by rewrite (cw_key _ Hw _ _ Hin).
    - intros Hk. exists (id n, n). split; [done|]. by apply elem_of_map_to_list. }
  destruct (find_node node_id ms) as [n|] eqn:Hf.
  - apply find_node_spec in Hf as [Hn <-]. symmetry. by apply Hin.
  - destruct (members c !! node_id) as [n|] eqn:Hk; [|done]. exfalso.
    pose proof (cw_key _ Hw _ _ Hk) as Hid. eapply find_node_none; [exact Hf| |exact Hid].
    apply Hin. by rewrite Hid.
Qed.

Section Facts.
Context {P : Prost} {PL : ProstLaws P} {T : Type}.

Lemma locate_spec c actor_id envelope :
  cluster_wf (cluster c) -> envelope_ok envelope ->
  exists buf, ClusterMessage_decode buf = Ok (CMEnvelope envelope) /\
  locate c actor_id envelope =
    match lookup_actor actor_id (cluster c) with
    | None => Err (TIo NotFound)
    | Some (node_id, _) =>
        match members (cluster c) !! node_id with
        | None => Err (TIo NotFound)
        | Some node => Ok (addr node, mkEnvelope "cluster" buf 0 (local_node_id c) "" false)
        end
    end.
Proof.
  intros Hw Hok. destruct (ClusterMessage_round_trip (CMEnvelope envelope) Hok) as (buf & He & Hd).
  exists buf. split; [done|]. unfold locate.
  destruct (lookup_actor actor_id (cluster c)) as [[node_id ty]|]; simpl; [|done].
  rewrite (find_node_lookup (cluster c)) by done.
  destruct (members (cluster c) !! node_id); simpl; [|done]. by rewrite He.
Qed.

(** ** The properties *)

(** A message to an actor goes to the address of the node the registry
    names, inside a cluster message that carries it unchanged; an unknown
    actor, or a known actor on an unknown node, is [NotFound] and nothing is
    connected or sent. *)
Theorem send_to_actor_routes connect (net : nat -> Envelope -> T -> T * Result Envelope TransportError)
    actor_id envelope c t :
  cluster_wf (cluster c) -> envelope_ok envelope ->
  match lookup_actor actor_id (cluster c) with
  | None => send_to_actor connect net actor_id envelope c t = (c, t, Err (TIo NotFound))
  | Some (node_id, _) =>
      match members (cluster c) !! node_id with
      | None => send_to_actor connect net actor_id envelope c t = (c, t, Err (TIo NotFound))
      | Some node => forall client, clients (pool c) !! addr node = Some client ->
          exists buf, ClusterMessage_decode buf = Ok (CMEnvelope envelope) /\
          forall t' response,
            net client (mkEnvelope "cluster" buf 0 (local_node_id c) "" false) t = (t', Ok response) ->
            send_to_actor connect net actor_id envelope c t = (set_pool (pool c) c, t', unwrap_response response)
      end
  end.
Proof.
  intros Hw Hok. destruct (locate_spec c actor_id envelope Hw Hok) as (buf & Hd & Hl).
  unfold send_to_actor. rewrite Hl. destruct (lookup_actor actor_id (cluster c)) as [[node_id ty]|]; [|done].
  destruct (members (cluster c) !! node_id) as [node|]; [|done].
  intros client Hc. exists buf. split; [done|]. intros t' response Hnet.
  unfold get_or_connect. rewrite Hc. by rewrite Hnet.
Qed.

(** The connection pool. A request that fails leaves no connection to
    that address, so the next one connects anew; one that succeeds leaves the
    connection it used, whether it was new or pooled. *)
Theorem send_to_actor_pool connect (net : nat -> Envelope -> T -> T * Result Envelope TransportError)
    actor_id envelope c t c' t' r node_addr tenv :
  locate c actor_id envelope = Ok (node_addr, tenv) ->
  send_to_actor connect net actor_id envelope c t = (c', t', r) ->
  match connect node_addr, clients (pool c) !! node_addr with
  | Err e, None => r = Err e /\ t' = t /\ clients (pool c') !! node_addr = None
  | Ok client, None | _, Some client =>
      match snd (net client tenv t) with
      | Err e => r = Err e /\ clients (pool c') !! node_addr = None
      | Ok response => r = unwrap_response response /\ clients (pool c') !! node_addr = Some client
      end
  end /\
  (forall other, other <> node_addr -> clients (pool c') !! other = clients (pool c) !! other).
Proof.
  intros Hl. unfold send_to_actor. rewrite Hl. unfold get_or_connect.
  destruct (clients (pool c) !! node_addr) as [client|] eqn:Hc.
  - destruct (net client tenv t) as [t1 [response|e]] eqn:Hnet; intros [= <- <- <-]; split.
    + by destruct (connect node_addr); simpl; rewrite ?Hnet.
    + done.
    + destruct (connect node_addr); simpl; by rewrite lookup_delete_eq.
    + intros other Hne. simpl. by rewrite lookup_delete_ne.
  - destruct (connect node_addr) as [client|e].
    + destruct (net client tenv t) as [t1 [response|e]] eqn:Hnet; intros [= <- <- <-]; simpl; split.
      * by rewrite lookup_insert_eq.
      * intros other Hne. by rewrite lookup_insert_ne.
      * by rewrite lookup_delete_eq.
      * intros other Hne. by rewrite lookup_delete_ne, lookup_insert_ne.
    + intros [= <- <- <-]. simpl. split.
      * by rewrite lookup_delete_eq.
      * intros other Hne. by rewrite lookup_delete_ne.
Qed.

(** A fire-and-forget send that fails does not clear the connection: the
    same dead client is used again by every later call to that address. *)
Theorem do_send_keeps_dead_connection connect (net : nat -> Envelope -> T -> T * Result unit TransportError)
    actor_id envelope c t c' t' e node_addr tenv client :
  locate c actor_id envelope = Ok (node_addr, tenv) ->
  clients (pool c) !! node_addr = Some client -> net client tenv t = (t', Err e) ->
  do_send_to_actor connect net actor_id envelope c t = (c', t', Err e) ->
  clients (pool c') !! node_addr = Some client.
Proof.
  intros Hl Hc Hnet. unfold do_send_to_actor. rewrite Hl. unfold get_or_connect. rewrite Hc, Hnet.
  by intros [= <-].
Qed.

End Facts.

(** ** Witnesses *)

Section Witnesses.
Import RefProst.

(** Bob knows of an actor on Alice; connection 1 is open. *)
Definition bob_view : ClusterNode :=
  test_insert_actor "kv" "alice" "KVStore" (add_member (mkNode "alice" "a:1" Up) 0 (ClusterNode_new "bob" "b:1" 0)).
Definition caller : ClusterClient := mkClusterClient bob_view (mkPool {["a:1" := 1]}) "bob".

Lemma caller_wf : cluster_wf (cluster caller).
Proof.
  apply (cluster_run_wf [OAddMember (mkNode "alice" "a:1" Up) 0; OTestInsertActor "kv" "alice" "KVStore"]),
    cluster_wf_new.
Qed.

(** A peer that answers every request with the same envelope, and a dead one. *)
Definition wrapped : Envelope := mkEnvelope "cluster" (default [] (ClusterMessage_encode (CMEnvelope hello))) 0 "alice" "" true.
Definition echo (client : nat) (e : Envelope) (t : nat) : nat * Result Envelope TransportError := (S t, Ok wrapped).
Definition dead {R} (client : nat) (e : Envelope) (t : nat) : nat * Result R TransportError := (t, Err TDisconnected).
Definition no_connect (a : string) : Result nat TransportError := Err (TIo OtherIo).

Lemma send_to_actor_routes_witness :
  exists buf, ClusterMessage_decode buf = Ok (CMEnvelope hello) /\
  forall t' response,
    echo 1 (mkEnvelope "cluster" buf 0 "bob" "" false) 0 = (t', Ok response) ->
    send_to_actor no_connect echo "kv" hello caller 0 = (set_pool (pool caller) caller, t', unwrap_response response).
Proof.
  assert (E1 : lookup_actor "kv" (cluster caller) = Some ("alice", "KVStore")) by (vm_compute; reflexivity).
  assert (E2 : members (cluster caller) !! "alice" = Some (mkNode "alice" "a:1" Up)) by (vm_compute; reflexivity).
  assert (Hok : envelope_ok hello) by (unfold envelope_ok; simpl; lia).
  pose proof (send_to_actor_routes no_connect echo "kv" hello caller 0 caller_wf Hok) as H.
  rewrite E1, E2 in H. apply (H 1). vm_compute. reflexivity.
Defined.

Definition located : string * Envelope :=
  match locate caller "kv" hello with Ok l => l | Err _ => ("", hello) end.

Lemma send_to_actor_pool_witness :
  clients (pool (fst (fst (send_to_actor no_connect dead "kv" hello caller 0)))) !! "a:1" = None.
Proof.
  pose proof (send_to_actor_pool no_connect dead "kv" hello caller 0
    (fst (fst (send_to_actor no_connect dead "kv" hello caller 0))) 0 (Err TDisconnected) "a:1" (snd located)) as H.
  apply H; vm_compute; reflexivity.
Defined.

Lemma do_send_keeps_dead_connection_witness :
  clients (pool (fst (fst (do_send_to_actor no_connect dead "kv" hello caller 0)))) !! "a:1" = Some 1.
Proof.
  apply (do_send_keeps_dead_connection no_connect dead "kv" hello caller 0
    (fst (fst (do_send_to_actor no_connect dead "kv" hello caller 0))) 0 TDisconnected "a:1" (snd located) 1);
    vm_compute; reflexivity.
Defined.

End Witnesses.
