(* ===== verification/Pool.v ===== *)
(** * Pool: concurrent callers of one cluster client (src/remote/cluster_client.rs)

    The [ConnectionPool] of a [ClusterClient] is behind a tokio [Mutex] that a
    call of [send_to_actor] or [do_send_to_actor] holds while it connects,
    releases before it sends, and that the task spawned after a failed send
    ([send_to_actor] only) takes again to forget the connection. Here any number of calls run at
    once: a call waits for the lock, connects, sends and returns, may be
    dropped at any of these points, and the steps of different calls
    interleave. A connection is named by the number of its making. *)

From S2P Require Import Prelude Tokio Supervisor Runtime Wire Remote Cluster ClusterClient.

(** ** Calls *)

Inductive CallState :=
| WaitLock                                            (** [pool.lock().await] *)
| Connecting                                          (** holds the lock, in [transport.connect] *)
| Sending (client : nat)                              (** in [client.send] or [do_send], without the lock *)
| Returned (r : Result Envelope TransportError)       (** from [send_to_actor] *)
| Told (r : Result unit TransportError)               (** from [do_send_to_actor] *)
| Dropped.

(** A call past [locate], with the address it found. *)
Record Call := mkCall { call_addr : string; call_state : CallState }.

Record PoolSys := mkPoolSys {
  ps_pool : ConnectionPool;
  ps_lock : option nat;                  (** the call that holds the lock *)
  ps_calls : gmap nat Call;
  ps_clearing : list string;             (** tasks that wait to clear an address *)
  ps_conns : list string;                (** the connections made, by address *)
  ps_cleared : list string;              (** the addresses cleared: a history variable *)
}.

Definition PoolSys_new : PoolSys := mkPoolSys ConnectionPool_new None ∅ [] [] [].

Inductive PoolEvent :=
| PCall (i : nat) (a : string)                                  (** a call named [i] *)
| PLock (i : nat)
| PConnected (i : nat) (r : Result unit TransportError)
| PReply (i : nat) (r : Result Envelope TransportError)         (** [client.send] of a [send_to_actor] is done *)
| PTold (i : nat) (r : Result unit TransportError)              (** [client.do_send] of a [do_send_to_actor] is *)
| PClear (k : nat)                                              (** the [k]-th of the spawned tasks *)
| PClearConnection (a : string)                                 (** [clear_connection] *)
| PDrop (i : nat).

Definition set_call (i : nat) (c : Call) (s : PoolSys) : PoolSys :=
  mkPoolSys (ps_pool s) (ps_lock s) (<[i := c]> (ps_calls s)) (ps_clearing s) (ps_conns s) (ps_cleared s).
Definition set_locked (p : ConnectionPool) (l : option nat) (s : PoolSys) : PoolSys :=
  mkPoolSys p l (ps_calls s) (ps_clearing s) (ps_conns s) (ps_cleared s).

(** [pool.lock().await.remove(addr)]. *)
Definition clear_addr (a : string) (s : PoolSys) : PoolSys :=
  mkPoolSys (pool_remove a (ps_pool s)) (ps_lock s) (ps_calls s) (ps_clearing s) (ps_conns s) (ps_cleared s ++ [a]).

Section Pool.
Context {P : Prost}.

Definition pool_step (s : PoolSys) (ev : PoolEvent) : PoolSys :=
  match ev with
  | PCall i a =>
      match ps_calls s !! i with None => set_call i (mkCall a WaitLock) s | Some _ => s end
  | PLock i =>
      match ps_lock s, ps_calls s !! i with
      | None, Some (mkCall a WaitLock) =>
          match clients (ps_pool s) !! a with
          | Some client => set_call i (mkCall a (Sending client)) s
          | None => set_locked (ps_pool s) (Some i) (set_call i (mkCall a Connecting) s)
          end
      | _, _ => s
      end
  | PConnected i r =>
      match ps_calls s !! i with
      | Some (mkCall a Connecting) =>
          match get_or_connect a (match r with Ok _ => Ok (length (ps_conns s)) | Err e => Err e end) (ps_pool s) with
          | (p, Ok client) =>
              let s := set_locked p None (set_call i (mkCall a (Sending client)) s) in
              mkPoolSys (ps_pool s) (ps_lock s) (ps_calls s) (ps_clearing s) (ps_conns s ++ [a]) (ps_cleared s)
          | (p, Err e) => set_locked (pool_remove a p) None (set_call i (mkCall a (Returned (Err e))) s)
          end
      | _ => s
      end
  | PReply i r =>
      match ps_calls s !! i with
      | Some (mkCall a (Sending _)) =>
          match r with
          | Ok response => set_call i (mkCall a (Returned (unwrap_response response))) s
          | Err e =>
              let s := set_call i (mkCall a (Returned (Err e))) s in
              mkPoolSys (ps_pool s) (ps_lock s) (ps_calls s) (ps_clearing s ++ [a]) (ps_conns s) (ps_cleared s)
          end
      | _ => s
      end
  | PTold i r =>
      match ps_calls s !! i with
      | Some (mkCall a (Sending _)) => set_call i (mkCall a (Told r)) s
      | _ => s
      end
  | PClear k =>
      match ps_lock s, ps_clearing s !! k with
      | None, Some a =>
          let s := clear_addr a s in
          mkPoolSys (ps_pool s) (ps_lock s) (ps_calls s) (delete k (ps_clearing s)) (ps_conns s) (ps_cleared s)
      | _, _ => s
      end
  | PClearConnection a => match ps_lock s with None => clear_addr a s | Some _ => s end
  | PDrop i =>
      match ps_calls s !! i with
      | Some (mkCall a Connecting) => set_locked (ps_pool s) None (set_call i (mkCall a Dropped) s)
      | Some (mkCall a (Returned _)) | Some (mkCall a (Told _)) => s
      | Some (mkCall a _) => set_call i (mkCall a Dropped) s
      | None => s
      end
  end.

Definition pool_run (evs : list PoolEvent) : PoolSys := foldl pool_step PoolSys_new evs.

(** ** The invariant *)

Definition count (a : string) (l : list string) : nat := length (filter (fun x => x = a) l).

Record pool_ok (s : PoolSys) : Prop := mkPoolOk {
  (** a connection in the pool, and one that a call uses, is to that address *)
  po_pool a c : clients (ps_pool s) !! a = Some c -> ps_conns s !! c = Some a;
  po_call i a c : ps_calls s !! i = Some (mkCall a (Sending c)) -> ps_conns s !! c = Some a;
  (** the lock is held by exactly the call that connects, to an address the
      pool has no connection to *)
  po_lock i : ps_lock s = Some i <-> exists a, ps_calls s !! i = Some (mkCall a Connecting);
  po_new i a : ps_calls s !! i = Some (mkCall a Connecting) -> clients (ps_pool s) !! a = None;
  (** connections to an address were cleared, but for the one in the pool *)
  po_count a : count a (ps_conns s) <=
    count a (ps_cleared s) + match clients (ps_pool s) !! a with Some _ => 1 | None => 0 end;
}.

Lemma count_app a l l' : count a (l ++ l') = count a l + count a l'.
Proof. unfold count. by rewrite filter_app, length_app. Qed.

Lemma count_one a b : count a [b] = if decide (b = a) then 1 else 0.
Proof. unfold count. rewrite filter_cons. by case_decide. Qed.

Lemma pool_ok_new : pool_ok PoolSys_new.
Proof.
  split; simpl; intros *; rewrite lookup_empty; naive_solver.
Qed.

(** *** Every step keeps it *)

(** The tasks that wait to clear do not matter. *)
Lemma pool_ok_clearing s l :
  pool_ok s -> pool_ok (mkPoolSys (ps_pool s) (ps_lock s) (ps_calls s) l (ps_conns s) (ps_cleared s)).
Proof. by intros []. Qed.

(** A call that does not connect moves to a state that does not either. *)
Lemma pool_ok_call s i a st :
  pool_ok s -> (forall b, ps_calls s !! i <> Some (mkCall b Connecting)) -> st <> Connecting ->
  (forall c, st = Sending c -> ps_conns s !! c = Some a) -> pool_ok (set_call i (mkCall a st) s).
Proof.
  intros [K1 K2 K3 K4 K5] Hold Hst Hc. split; simpl; [done| | | |done].
  - intros j b c. rewrite lookup_insert. case_decide; [|eauto]. intros [= <- ->]. eauto.
  - intros j. rewrite K3. rewrite lookup_insert. case_decide; [subst|done].
    split; [intros [b Hb]; by destruct (Hold b)|intros [b [= _ ->]]; done].
  - intros j b. rewrite lookup_insert. case_decide; [|eauto]. intros [= <- ->]. done.
Qed.

Lemma pool_ok_clear s a : pool_ok s -> ps_lock s = None -> pool_ok (clear_addr a s).
Proof.
  intros [K1 K2 K3 K4 K5] Hl. split; simpl; [|done|done| |].
  - intros b c [_ Hb]%lookup_delete_Some. eauto.
  - intros i b Hb. assert (ps_lock s = Some i) by (apply K3; eauto). congruence.
  - intros b. rewrite count_app, count_one. specialize (K5 b). destruct (decide (a = b)) as [->|].
    + rewrite lookup_delete_eq. destruct (clients (ps_pool s) !! b); lia.
    + rewrite lookup_delete_ne by done. lia.
Qed.

(** A call starts to connect. *)
Lemma pool_ok_start s i a :
  pool_ok s -> ps_lock s = None -> clients (ps_pool s) !! a = None ->
  pool_ok (set_locked (ps_pool s) (Some i) (set_call i (mkCall a Connecting) s)).
Proof.
  intros [K1 K2 K3 K4 K5] Hl Ha.
  assert (Hno : forall j b, ps_calls s !! j <> Some (mkCall b Connecting)).
  { intros j b Hb. assert (ps_lock s = Some j) by (apply K3; eauto). congruence. }
  split; simpl; [done| | | |done].
  - intros j b c. rewrite lookup_insert. case_decide; [done|eauto].
  - intros j. rewrite lookup_insert. case_decide; [subst; naive_solver|].
    split; [congruence|]. intros [b Hb]. by destruct (Hno j b).
  - intros j b. rewrite lookup_insert. case_decide; [congruence|]. intros Hb. by destruct (Hno j b).
Qed.

(** ... and stops, with or without a connection. *)
Lemma pool_ok_stop s i a st :
  pool_ok s -> ps_calls s !! i = Some (mkCall a Connecting) -> st <> Connecting ->
  (forall c, st <> Sending c) -> pool_ok (set_locked (ps_pool s) None (set_call i (mkCall a st) s)).
Proof.
  intros [K1 K2 K3 K4 K5] Hi Hst Hs.
  assert (Hno : forall j b, i <> j -> ps_calls s !! j <> Some (mkCall b Connecting)).
  { intros j b Hne Hb. pose proof (proj2 (K3 i)) as H1. pose proof (proj2 (K3 j)) as H2. naive_solver. }
  split; simpl; [done| | | |done].
  - intros j b c. rewrite lookup_insert. case_decide; [|eauto]. intros [= _ ->]. by destruct (Hs c).
  - intros j. split; [done|]. intros [b Hb]. rewrite lookup_insert in Hb. case_decide; [naive_solver|by destruct (Hno j b)].
  - intros j b. rewrite lookup_insert. case_decide; [naive_solver|eauto].
Qed.

Lemma pool_ok_connected s i a :
  pool_ok s -> ps_calls s !! i = Some (mkCall a Connecting) ->
  pool_ok (mkPoolSys (mkPool (<[a := length (ps_conns s)]> (clients (ps_pool s)))) None
    (<[i := mkCall a (Sending (length (ps_conns s)))]> (ps_calls s)) (ps_clearing s) (ps_conns s ++ [a]) (ps_cleared s)).
Proof.
  intros Hok Hi. pose proof (pool_ok_stop s i a Dropped Hok Hi ltac:(done) ltac:(done)) as [_ _ L3 _ _].
  simpl in L3. destruct Hok as [K1 K2 K3 K4 K5]. pose proof (K4 _ _ Hi) as Hn.
  assert (Hno : forall j b, i <> j -> ps_calls s !! j <> Some (mkCall b Connecting)).
  { intros j b Hne Hb. assert (None = Some j) by (apply L3; exists b; by rewrite lookup_insert_ne). done. }
  split; simpl.
  - intros b c. rewrite lookup_insert. case_decide as Hd; [intros [= <-]; subst; by rewrite list_lookup_middle|].
    intros Hb. apply lookup_app_l_Some. eauto.
  - intros j b c. rewrite lookup_insert. case_decide; [intros [= <- <-]; by rewrite list_lookup_middle|].
    intros Hb. apply lookup_app_l_Some. eauto.
  - intros j. split; [done|]. intros [b Hb]. rewrite lookup_insert in Hb. case_decide; [done|by destruct (Hno j b)].
  - intros j b. rewrite lookup_insert. case_decide; [done|]. intros Hb. by destruct (Hno j b).
  - intros b. rewrite count_app, count_one, lookup_insert. specialize (K5 b).
    destruct (decide (a = b)) as [->|]; [|lia]. rewrite Hn in K5. lia.
Qed.

Lemma pool_step_ok s ev : pool_ok s -> pool_ok (pool_step s ev).
Proof.
  intros Hok. destruct ev as [i a|i|i r|i r|i r|k|a|i]; simpl.
  - destruct (ps_calls s !! i) eqn:Hi; [done|]. apply pool_ok_call; [done|by rewrite Hi|done|done].
  - destruct (ps_lock s) eqn:Hl; [done|]. destruct (ps_calls s !! i) as [[a []]|] eqn:Hi; try done.
    destruct (clients (ps_pool s) !! a) as [c|] eqn:Hp; [|by apply pool_ok_start].
    apply pool_ok_call; [done|by rewrite Hi|done|]. intros c' [= <-]. by apply (po_pool _ Hok).
  - destruct (ps_calls s !! i) as [[a []]|] eqn:Hi; try done. pose proof (po_new _ Hok _ _ Hi) as Hn.
    unfold get_or_connect. rewrite Hn. destruct r as [u|e].
    + by apply pool_ok_connected.
    + unfold pool_remove. rewrite delete_id by done.
      assert (E : mkPool (clients (ps_pool s)) = ps_pool s) by (by destruct (ps_pool s)). rewrite E.
      by apply pool_ok_stop.
  - destruct (ps_calls s !! i) as [[a [| |c| | |]]|] eqn:Hi; try done. destruct r as [resp|e].
    + apply pool_ok_call; [done|by rewrite Hi|done|done].
    + apply (pool_ok_clearing (set_call i (mkCall a (Returned (Err e))) s)).
      apply pool_ok_call; [done|by rewrite Hi|done|done].
  - destruct (ps_calls s !! i) as [[a [| |c| | |]]|] eqn:Hi; try done.
    apply pool_ok_call; [done|by rewrite Hi|done|done].
  - destruct (ps_lock s) eqn:Hl; [done|]. destruct (ps_clearing s !! k) as [a|]; [|done].
    rewrite <- Hl. apply (pool_ok_clearing (clear_addr a s)). by apply pool_ok_clear.
  - destruct (ps_lock s) eqn:Hl; [done|]. by apply pool_ok_clear.
  - destruct (ps_calls s !! i) as [[a st]|] eqn:Hi; [|done]. destruct st; try done.
    + apply pool_ok_call; [done|by rewrite Hi|done|done].
    + by apply pool_ok_stop.
    + apply pool_ok_call; [done|by rewrite Hi|done|done].
    + apply pool_ok_call; [done|by rewrite Hi|done|done].
Qed.

Lemma pool_run_ok evs : pool_ok (pool_run evs).
Proof.
  unfold pool_run. generalize pool_ok_new. generalize PoolSys_new.
  induction evs as [|ev evs IH]; intros s Hok; simpl; [done|]. by apply IH, pool_step_ok.
Qed.

(** ** The properties *)

(** C38: concurrent calls share connections. In every interleaving of calls,
    replies, failures and dropped calls: the connection a call sends on goes
    to the address of its actor's node; the calls make at most one connection
    to an address, and one more for each time the address was cleared; and
    the lock of the pool is held only by a call that is connecting, so that it
    is free as soon as no connection attempt is under way. *)
Theorem pool_shares_connections evs :
  let s := pool_run evs in
  (forall i a c, ps_calls s !! i = Some (mkCall a (Sending c)) -> ps_conns s !! c = Some a) /\
  (forall a, count a (ps_conns s) <= 1 + count a (ps_cleared s)) /\
  (forall i, ps_lock s = Some i <-> exists a, ps_calls s !! i = Some (mkCall a Connecting)).
Proof.
  intros s. destruct (pool_run_ok evs) as [K1 K2 K3 K4 K5]. fold s in K1, K2, K3, K4, K5.
  split_and!; [done| |done]. intros a. specialize (K5 a). destruct (clients (ps_pool s) !! a); lia.
Qed.

(** The task that clears a connection after a failure does so by its
    address: when another call has reconnected in the meantime, the new
    connection is dropped from the pool. *)
Theorem late_clear_drops_new_connection e :
  let a := "127.0.0.1:7001" in
  let s := pool_run [PCall 0 a; PCall 1 a; PLock 0; PConnected 0 (Ok tt); PLock 1; PReply 0 (Err e); PReply 1 (Err e);
                     PClear 0; PCall 2 a; PLock 2; PConnected 2 (Ok tt)] in
  clients (ps_pool s) !! a = Some 1 /\ ps_calls s !! 2 = Some (mkCall a (Sending 1)) /\
  clients (ps_pool (pool_step s (PClear 0))) !! a = None.
Proof. vm_compute. done. Qed.

End Pool.
