(* ===== verification/Kv.v ===== *)
(** * Kv: the distributed key-value store (examples/distributed-kv)

    The [KVStore] actor of kv_store.rs, its router as main.rs builds it, and
    calls to it from another node through every layer of the remote code:
    [ClusterRemoteAddr::call], the cluster client, the cluster server, the
    router and the handlers. The protobuf code of the six message types is an
    argument. *)

From S2P Require Import Prelude Tokio Supervisor Runtime Wire Remote Cluster ClusterClient.

(** ** Messages (proto/kv.proto) *)

Record GetRequest := mkGet { get_key : string }.
Record GetResponse := mkGetResponse { get_value : option string }.
Record SetRequest := mkSet { set_key : string; set_value : string }.
Record SetResponse := mkSetResponse { success : bool }.
Record DeleteRequest := mkDelete { delete_key : string }.
Record DeleteResponse := mkDeleteResponse { deleted : bool }.

(** ** The actor *)

Record KVStore := mkStore { data : gmap string string }.

Definition KVStore_new : KVStore := mkStore ∅.

Definition handle_get (m : GetRequest) (s : KVStore) : KVStore * GetResponse :=
  (s, mkGetResponse (data s !! get_key m)).
Definition handle_set (m : SetRequest) (s : KVStore) : KVStore * SetResponse :=
  (mkStore (<[set_key m := set_value m]> (data s)), mkSetResponse true).
Definition handle_delete (m : DeleteRequest) (s : KVStore) : KVStore * DeleteResponse :=
  (mkStore (delete (delete_key m) (data s)), mkDeleteResponse (bool_decide (is_Some (data s !! delete_key m)))).

Section Kv.
Context {P : Prost} {PL : ProstLaws P}.
Context `{!RemoteMessage GetRequest, !RemoteMessageLaws GetRequest}.
Context `{!RemoteMessage GetResponse, !RemoteMessageLaws GetResponse}.
Context `{!RemoteMessage SetRequest, !RemoteMessageLaws SetRequest}.
Context `{!RemoteMessage SetResponse, !RemoteMessageLaws SetResponse}.
Context `{!RemoteMessage DeleteRequest, !RemoteMessageLaws DeleteRequest}.
Context `{!RemoteMessage DeleteResponse, !RemoteMessageLaws DeleteResponse}.

(** The router of main.rs on the node that has the store, for any
    implementation of the store's address. *)
Definition kv_router {S} (node_id : string) (get : ActorRef S GetRequest GetResponse)
    (set : ActorRef S SetRequest SetResponse) (del : ActorRef S DeleteRequest DeleteResponse) : EnvelopeHandler S :=
  let local_node := mkLocalNode node_id in
  build (route DeleteRequest (LocalNode_handler local_node del)
        (route SetRequest (LocalNode_handler local_node set)
        (route GetRequest (LocalNode_handler local_node get) MessageRouter_new))).

(** The store as a sequential actor. *)
Definition kv_handler (node_id : string) : EnvelopeHandler KVStore :=
  kv_router node_id (pure_actor handle_get) (pure_actor handle_set) (pure_actor handle_delete).

(** The other end of the connection: the node that has the store. What its
    server sends is what [RemoteClient::send] gives; without a response the
    request fails when the connection ends. The task of the [RemoteClient] with
    its pending requests and the framing of the connection are left out: the
    calls here are made one after the other, and for those Rpc.v and Tcp.v show
    that the response to an envelope comes back. *)
Definition store_net {S} (handler : option (EnvelopeHandler S)) (now : Z) (client : nat) (envelope : Envelope)
    (t : ClusterNode * S) : (ClusterNode * S) * Result Envelope TransportError :=
  let '(server, s) := t in
  let '(server, s, r) := serve_envelope handler envelope now server s in
  ((server, s), ok_or r TDisconnected).
Definition kv_net (now : Z) (node_id : string) : nat -> Envelope -> ClusterNode * KVStore ->
    (ClusterNode * KVStore) * Result Envelope TransportError :=
  store_net (Some (kv_handler node_id)) now.

(** The type names of the three requests are different. *)
Definition type_ids_distinct : Prop :=
  type_id GetRequest <> type_id SetRequest /\ type_id GetRequest <> type_id DeleteRequest /\
  type_id SetRequest <> type_id DeleteRequest.

(** A request whose type the router sends to [h] is answered with [h]'s reply. *)
Lemma kv_net_call {M R} `{!RemoteMessage M, !RemoteMessageLaws M, !RemoteMessage R, !RemoteMessageLaws R}
    (h : M -> KVStore -> KVStore * R) now node client env msg cid sender target buf lid server s :
  (forall env s, message_type env = type_id M ->
     kv_handler node env s = make_handler (pure_actor h) node env s) ->
  Envelope_from_message msg cid sender target = Some env -> envelope_ok env ->
  ClusterMessage_decode buf = Ok (CMEnvelope env) ->
  exists resp, kv_net now node client (mkEnvelope "cluster" buf 0 lid "" false) (server, s) =
      ((server, fst (h msg s)), Ok resp) /\
    exists aresp, unwrap_response resp = Ok aresp /\ msg_decode (payload aresp) = Ok (snd (h msg s)).
Proof.
  intros Hroute Henv Hok Hbuf.
  assert (Hty : message_type env = type_id M /\ correlation_id env = cid).
  { unfold Envelope_from_message in Henv. destruct (msg_encode msg) as [b|]; [|done].
    injection Henv as <-. done. }
  destruct Hty as [Hty Hcid].
  assert (Hd : msg_decode (payload env) = Ok msg).
  { unfold Envelope_from_message in Henv. destruct (msg_round_trip msg) as (bs & Hb & Hd).
    rewrite Hb in Henv. injection Henv as <-. exact Hd. }
  destruct (msg_round_trip (snd (h msg s))) as (bs' & Hb' & Hd').
  unfold kv_net, store_net, serve_envelope. simpl. rewrite Hbuf. rewrite Hroute by done.
  unfold make_handler. rewrite Hd. simpl. destruct (h msg s) as [s' result] eqn:Hh. simpl in *.
  rewrite Hb'.
  set (aresp := mkEnvelope _ _ _ _ _ true).
  destruct (ClusterMessage_round_trip (CMEnvelope aresp)) as (bs & He & Hdr).
  { simpl. unfold envelope_ok in *. simpl. congruence. }
  unfold cluster_envelope. rewrite He. simpl. eexists. split; [done|].
  exists aresp. unfold unwrap_response. simpl. by rewrite Hdr.
Qed.

(** A call from a client that is connected to the node that has the store. *)
Record connected (c : ClusterClient) (client : nat) : Prop := mkConnected {
  kc_wf : cluster_wf (cluster c);
  kc_actor : exists node_id ty node, lookup_actor "kv-store" (cluster c) = Some (node_id, ty) /\
    members (cluster c) !! node_id = Some node /\ clients (pool c) !! addr node = Some client;
}.

(** The node knows that the store is at the address [a]. *)
Record store_at (n : ClusterNode) (a : string) : Prop := mkStoreAt {
  sa_wf : cluster_wf n;
  sa_actor : exists node_id ty node, lookup_actor "kv-store" n = Some (node_id, ty) /\
    members n !! node_id = Some node /\ addr node = a;
}.

(** [client] is the connection to [a] that the pool has or would make. *)
Definition can_reach (connect : string -> Result nat TransportError) (client : nat) (a : string)
    (p : ConnectionPool) : Prop :=
  clients p !! a = Some client \/ (clients p !! a = None /\ connect a = Ok client).

Lemma get_or_connect_reach connect client a p :
  can_reach connect client a p ->
  snd (get_or_connect a (connect a) p) = Ok client /\
  can_reach connect client a (fst (get_or_connect a (connect a) p)).
Proof.
  unfold can_reach, get_or_connect. intros [Hp|[Hp Hc]]; rewrite Hp; simpl; [by auto|].
  rewrite Hc. simpl. rewrite lookup_insert_eq. auto.
Qed.

Lemma remote_call_store {M R} `{!RemoteMessage M, !RemoteMessageLaws M, !RemoteMessage R, !RemoteMessageLaws R}
    (h : M -> KVStore -> KVStore * R) connect now node client msg counter c server s a :
  (forall env s, message_type env = type_id M ->
     kv_handler node env s = make_handler (pure_actor h) node env s) ->
  (0 <= counter < 2 ^ 64)%Z -> store_at (cluster c) a -> can_reach connect client a (pool c) ->
  remote_call (M := M) (R := R) connect (kv_net now node) "kv-store" msg counter c (server, s) =
    Some (u64_wrap (counter + 1), set_pool (fst (get_or_connect a (connect a) (pool c))) c,
      (server, fst (h msg s)), Ok (snd (h msg s))).
Proof.
  intros Hroute Hcnt [Hw (node_id & ty & nd & Ha & Hm & <-)] Hreach.
  unfold remote_call, remote_send, next_correlation_id.
  assert (exists env, Envelope_from_message msg counter (local_node_id c) "kv-store" = Some env /\
    envelope_ok env) as (env & Henv & Hok).
  { unfold Envelope_from_message. destruct (msg_round_trip msg) as (bs & -> & _). eexists. by split. }
  rewrite Henv. unfold send_to_actor.
  destruct (locate_spec c "kv-store" env Hw Hok) as (buf & Hd & Hl). rewrite Hl, Ha, Hm.
  destruct (get_or_connect_reach _ _ _ _ Hreach) as [Hg _].
  destruct (get_or_connect _ _ (pool c)) as [p r]. cbn [fst snd] in *. subst r. cbv beta iota zeta.
  destruct (kv_net_call h now node client env msg counter _ _ buf (local_node_id c) server s Hroute Henv Hok Hd)
    as (resp & -> & aresp & -> & Hdec). simpl. by rewrite Hdec.
Qed.

Lemma remote_call_kv {M R} `{!RemoteMessage M, !RemoteMessageLaws M, !RemoteMessage R, !RemoteMessageLaws R}
    (h : M -> KVStore -> KVStore * R) connect now node client msg counter c server s :
  (forall env s, message_type env = type_id M ->
     kv_handler node env s = make_handler (pure_actor h) node env s) ->
  (0 <= counter < 2 ^ 64)%Z -> connected c client ->
  remote_call (M := M) (R := R) connect (kv_net now node) "kv-store" msg counter c (server, s) =
    Some (u64_wrap (counter + 1), c, (server, fst (h msg s)), Ok (snd (h msg s))).
Proof.
  intros Hroute Hcnt [Hw (node_id & ty & nd & Ha & Hm & Hp)].
  rewrite (remote_call_store h connect now node client _ _ _ _ _ (addr nd)).
  - unfold get_or_connect. rewrite Hp. by destruct c.
  - done.
  - done.
  - split; [done|]. by exists node_id, ty, nd.
  - by left.
Qed.

Lemma route_get node env s :
  type_ids_distinct -> message_type env = type_id GetRequest ->
  kv_handler node env s = make_handler (pure_actor handle_get) node env s.
Proof.
  intros (H1 & H2 & H3) Hty. unfold kv_handler, kv_router, build, route, route_type. simpl. rewrite Hty.
  by rewrite lookup_insert_ne, lookup_insert_ne, lookup_insert_eq by done.
Qed.

Lemma route_set node env s :
  type_ids_distinct -> message_type env = type_id SetRequest ->
  kv_handler node env s = make_handler (pure_actor handle_set) node env s.
Proof.
  intros (H1 & H2 & H3) Hty. unfold kv_handler, kv_router, build, route, route_type. simpl. rewrite Hty.
  by rewrite lookup_insert_ne, lookup_insert_eq by done.
Qed.

Lemma route_delete node env s :
  message_type env = type_id DeleteRequest ->
  kv_handler node env s = make_handler (pure_actor handle_delete) node env s.
Proof.
  intros Hty. unfold kv_handler, kv_router, build, route, route_type. simpl. rewrite Hty. by rewrite lookup_insert_eq.
Qed.

(** ** The properties *)

(** The store behind the network is a map. From a node connected to it,
    [set] then [get] of a key gives the value that was set, [get] of another
    key what it was before, and [delete] reports whether the key was there
    and removes it; each call goes through the cluster client, the server,
    the router and the actor and back, and does not fail. *)
Theorem remote_store_is_a_map connect now node client c server s counter k v k' :
  type_ids_distinct -> (0 <= counter < 2 ^ 64)%Z -> connected c client ->
  let s1 := mkStore (<[k := v]> (data s)) in
  let n1 := u64_wrap (counter + 1) in
  remote_call (R := SetResponse) connect (kv_net now node) "kv-store" (mkSet k v) counter c (server, s) =
    Some (n1, c, (server, s1), Ok (mkSetResponse true)) /\
  remote_call (R := GetResponse) connect (kv_net now node) "kv-store" (mkGet k') n1 c (server, s1) =
    Some (u64_wrap (n1 + 1), c, (server, s1),
      Ok (mkGetResponse (if decide (k = k') then Some v else data s !! k'))) /\
  remote_call (R := DeleteResponse) connect (kv_net now node) "kv-store" (mkDelete k) n1 c (server, s1) =
    Some (u64_wrap (n1 + 1), c, (server, mkStore (delete k (data s))), Ok (mkDeleteResponse true)).
Proof.
  intros Hty Hcnt Hconn s1 n1. pose proof (u64_wrap_range (counter + 1)) as Hn1. fold n1 in Hn1. split_and!.
  - apply (remote_call_kv handle_set connect now node client); [intros; by apply route_set|done|done].
  - rewrite (remote_call_kv handle_get connect now node client) by (done || (intros; by apply route_get)).
    simpl. by rewrite lookup_insert.
  - rewrite (remote_call_kv handle_delete connect now node client) by (done || (intros; by apply route_delete)).
    simpl. rewrite delete_insert_eq, lookup_insert_eq. by rewrite bool_decide_true by eauto.
Qed.

End Kv.

(** ** The messages in the reference encoding *)
Module RefKv.
Import RefProst.

#[export] Instance GetRequest_eq_dec : EqDecision GetRequest.
Proof. solve_decision. Defined.
#[export] Instance GetRequest_countable : Countable GetRequest.
Proof. refine (inj_countable' get_key mkGet _). by intros []. Defined.
#[export] Instance GetResponse_eq_dec : EqDecision GetResponse.
Proof. solve_decision. Defined.
#[export] Instance GetResponse_countable : Countable GetResponse.
Proof. refine (inj_countable' get_value mkGetResponse _). by intros []. Defined.
#[export] Instance SetRequest_eq_dec : EqDecision SetRequest.
Proof. solve_decision. Defined.
#[export] Instance SetRequest_countable : Countable SetRequest.
Proof. refine (inj_countable' (fun m => (set_key m, set_value m)) (fun p => mkSet p.1 p.2) _). by intros []. Defined.
#[export] Instance SetResponse_eq_dec : EqDecision SetResponse.
Proof. solve_decision. Defined.
#[export] Instance SetResponse_countable : Countable SetResponse.
Proof. refine (inj_countable' success mkSetResponse _). by intros []. Defined.
#[export] Instance DeleteRequest_eq_dec : EqDecision DeleteRequest.
Proof. solve_decision. Defined.
#[export] Instance DeleteRequest_countable : Countable DeleteRequest.
Proof. refine (inj_countable' delete_key mkDelete _). by intros []. Defined.
#[export] Instance DeleteResponse_eq_dec : EqDecision DeleteResponse.
Proof. solve_decision. Defined.
#[export] Instance DeleteResponse_countable : Countable DeleteResponse.
Proof. refine (inj_countable' deleted mkDeleteResponse _). by intros []. Defined.

#[export] Instance get_message : RemoteMessage GetRequest := ref_message GetRequest "kv::GetRequest".
#[export] Instance get_laws : RemoteMessageLaws GetRequest := ref_message_laws GetRequest _.
#[export] Instance get_resp_message : RemoteMessage GetResponse := ref_message GetResponse "kv::GetResponse".
#[export] Instance get_resp_laws : RemoteMessageLaws GetResponse := ref_message_laws GetResponse _.
#[export] Instance set_message : RemoteMessage SetRequest := ref_message SetRequest "kv::SetRequest".
#[export] Instance set_laws : RemoteMessageLaws SetRequest := ref_message_laws SetRequest _.
#[export] Instance set_resp_message : RemoteMessage SetResponse := ref_message SetResponse "kv::SetResponse".
#[export] Instance set_resp_laws : RemoteMessageLaws SetResponse := ref_message_laws SetResponse _.
#[export] Instance delete_message : RemoteMessage DeleteRequest := ref_message DeleteRequest "kv::DeleteRequest".
#[export] Instance delete_laws : RemoteMessageLaws DeleteRequest := ref_message_laws DeleteRequest _.
#[export] Instance delete_resp_message : RemoteMessage DeleteResponse := ref_message DeleteResponse "kv::DeleteResponse".
#[export] Instance delete_resp_laws : RemoteMessageLaws DeleteResponse := ref_message_laws DeleteResponse _.

End RefKv.

(** ** Witness *)

Section Witnesses.
Import RefProst RefKv.

(** node-2 knows of the store on node-1 and is connected to it. *)
Definition node2 : ClusterNode :=
  test_insert_actor "kv-store" "node-1" "KVStore"
    (add_member (mkNode "node-1" "127.0.0.1:7001" Up) 0 (ClusterNode_new "node-2" "127.0.0.1:7002" 0)).
Definition kv_client : ClusterClient := mkClusterClient node2 (mkPool {["127.0.0.1:7001" := 0]}) "node-2".
Definition node1 : ClusterNode := ClusterNode_new "node-1" "127.0.0.1:7001" 0.

Lemma kv_client_connected : connected kv_client 0.
Proof.
  split.
  - apply (cluster_run_wf [OAddMember (mkNode "node-1" "127.0.0.1:7001" Up) 0;
      OTestInsertActor "kv-store" "node-1" "KVStore"]), cluster_wf_new.
  - exists "node-1", "KVStore", (mkNode "node-1" "127.0.0.1:7001" Up). split_and!; vm_compute; reflexivity.
Qed.

Lemma remote_store_is_a_map_witness :
  remote_call (R := GetResponse) (fun _ => Err (TIo OtherIo)) (kv_net 0 "node-1") "kv-store" (mkGet "a")
    2 kv_client (node1, mkStore (<["a" := "1"]> ∅)) =
    Some (3%Z, kv_client, (node1, mkStore (<["a" := "1"]> ∅)), Ok (mkGetResponse (Some "1"))).
Proof.
  refine (proj1 (proj2 (remote_store_is_a_map (fun _ => Err (TIo OtherIo)) 0 "node-1" 0 kv_client node1
    KVStore_new 1 "a" "1" "a" _ _ kv_client_connected))).
  - split_and!; discriminate.
  - lia.
Defined.

End Witnesses.
