(* ===== verification/KvCli.v ===== *)
(** * KvCli: the program of examples/distributed-kv/src/main.rs

    The start of a node (arguments, port, cluster node, router, joining
    through a seed) and its command line: lines are read from the terminal,
    cut into words and turned into calls to the store. The theorems compose
    everything below: what a user types on any node is executed as on a map. *)

From S2P Require Import Prelude Text Tokio Supervisor Runtime Wire Remote Cluster ClusterClient Kv.

(** ** Starting a node *)

(** [args]: the name of the program, the node id and perhaps a seed; [None]
    is the usage message and [exit(1)]. *)
Definition parse_args (args : list string) : option (string * option string) :=
  if decide (length args < 2) then None
  else match args !! 1 with Some node_id => Some (node_id, args !! 2) | None => None end.

(** The port of a node, an [u16]; [None] when the addition overflows, which
    panics in a build with overflow checks. *)
Definition node_port (node_id : string) : option Z :=
  match strip_prefix "node-" node_id with
  | Some suffix =>
      let port := (7000 + default 1 (parse_u16 suffix))%Z in
      if decide (port <= u16_max)%Z then Some port else None
  | None => Some 7001%Z
  end.

Definition node_addr (port : Z) : string := "127.0.0.1:" +:+ show_unsigned port.

Section Cli.
Context {P : Prost}.
Context `{!RemoteMessage GetRequest, !RemoteMessage GetResponse}.
Context `{!RemoteMessage SetRequest, !RemoteMessage SetResponse}.
Context `{!RemoteMessage DeleteRequest, !RemoteMessage DeleteResponse}.

(** What [main] makes before the server runs: the port, the node and the
    handler of actor messages, which only the node that has the store has. *)
Definition start_node (node_id : string) (now : Z)
  : option (Z * ClusterNode * option (EnvelopeHandler KVStore)) :=
  match node_port node_id with
  | None => None
  | Some port =>
      let cluster := ClusterNode_new node_id (node_addr port) now in
      Some
        (if decide (node_id = "node-1")
         then (port, register_actor "kv-store" "KVStore" cluster, Some (kv_handler node_id))
         else (port, cluster, None))
  end.

(** Joining through a seed: [dial] is the result of connecting to an address,
    [sent] that of sending; [peer] is the node at the seed's address, with the
    handler and the actors it has. Errors are dropped. *)
Definition join_cluster {S} (seed_addr : option string) (dial : string -> Result unit TransportError)
    (sent : Result unit TransportError) (handler : option (EnvelopeHandler S)) (now : Z)
    (c peer : ClusterNode) (s : S) : ClusterNode * ClusterNode * S :=
  match seed_addr with
  | Some seed =>
      let seed_node := mkNode "temp-seed" seed Up in
      let '(c, peer, s, _) := send_gossip_to handler (dial (addr seed_node)) sent now c peer s in
      (c, peer, s)
  | None => (c, peer, s)
  end.

(** ** The command line *)

(** What is printed: the prompt, a line, or [error: {:?}] of an error. *)
Inductive Out :=
| Prompt
| Line (s : string)
| ErrorLine (e : TransportError).

(** [Debug] of [NodeStatus]. *)
Definition NodeStatus_fmt (s : NodeStatus) : string :=
  match s with Up => "Up" | Suspect => "Suspect" | Down => "Down" end.

Definition member_line (m : Node) : Out :=
  Line ("  " +:+ id m +:+ " @ " +:+ addr m +:+ " [" +:+ NodeStatus_fmt (status m) +:+ "]").

(** [println!("error: {:?}", e)], or what [ok] says of the response. *)
Definition print_result {R} (ok : R -> Out) (r : Result R TransportError) : list Out :=
  match r with Ok resp => [ok resp] | Err e => [ErrorLine e] end.

Definition get_line (r : GetResponse) : Out :=
  match get_value r with Some value => Line value | None => Line "(nil)" end.
Definition set_line (r : SetResponse) : Out := Line "OK".
Definition delete_line (r : DeleteResponse) : Out :=
  if deleted r then Line "deleted" else Line "not found".

Context {T : Type}.

(** What the loop works on: the correlation counter, the client and the rest
    of the world. *)
Record Cli := mkCli { cli_counter : Z; cli_client : ClusterClient; cli_net : T }.

Section Commands.
Variable connect : string -> Result nat TransportError.
Variable net : nat -> Envelope -> T -> T * Result Envelope TransportError.

(** [client.remote_addr("kv-store").call(msg)] and the printing of its result. *)
Definition call_store {M R} `{!RemoteMessage M, !RemoteMessage R} (msg : M) (ok : R -> Out) (st : Cli)
  : option (list Out * Cli) :=
  let remote := ClusterClient_remote_addr "kv-store" (cli_client st) in
  match remote_call (R := R) connect net (cra_actor_id remote) msg (cli_counter st) (cra_client remote) (cli_net st) with
  | Some (counter, c, t, r) => Some (print_result ok r, mkCli counter c t)
  | None => None
  end.

(** One turn of the loop after the line was read: the words, the output, and
    whether the loop goes on. [cluster] is the node's state at this moment. *)
Definition run_command (cluster : ClusterNode) (parts : list string) (st : Cli)
  : option (list Out * bool * Cli) :=
  let go_on (r : option (list Out * Cli)) :=
    match r with Some (out, st) => Some (out, true, st) | None => None end in
  match parts with
  | [] => Some ([], true, st)
  | cmd :: rest =>
      if decide (cmd = "get") then
        match rest with
        | [] => Some ([Line "usage: get <key>"], true, st)
        | key :: _ => go_on (call_store (mkGet key) get_line st)
        end
      else if decide (cmd = "set") then
        match rest with
        | key :: v :: vs => go_on (call_store (mkSet key (join " " (v :: vs))) set_line st)
        | _ => Some ([Line "usage: set <key> <value>"], true, st)
        end
      else if decide (cmd = "delete") then
        match rest with
        | [] => Some ([Line "usage: delete <key>"], true, st)
        | key :: _ => go_on (call_store (mkDelete key) delete_line st)
        end
      else if decide (cmd = "members") then
        Some (Line "cluster members:" :: (member_line <$> get_members cluster), true, st)
      else if decide (cmd = "actors") then
        Some (Line "registered actors:" ::
          match lookup_actor "kv-store" cluster with
          | Some (node_id, actor_type) =>
              [Line ("  kv-store -> " +:+ node_id +:+ " (" +:+ actor_type +:+ ")")]
          | None => []
          end, true, st)
      else if decide (cmd = "quit" \/ cmd = "exit") then Some ([Line "shutting down..."], false, st)
      else Some ([Line ("unknown command: " +:+ cmd)], true, st)
  end.

(** The client shares the node with the tasks that gossip in the background. *)
Definition set_cluster (n : ClusterNode) (c : ClusterClient) : ClusterClient :=
  mkClusterClient n (pool c) (local_node_id c).

(** The loop on the lines that are typed, each with the state in which it
    finds the node: the output, and whether the loop is still running. [None]
    is a panic. At the end of the input [read_line] gives empty lines. *)
Fixpoint cli_loop (inputs : list (ClusterNode * string)) (st : Cli) : option (list Out * bool * Cli) :=
  match inputs with
  | [] => Some ([], true, st)
  | (cluster, input) :: inputs =>
      let st := mkCli (cli_counter st) (set_cluster cluster (cli_client st)) (cli_net st) in
      match run_command cluster (split_whitespace (trim input)) st with
      | None => None
      | Some (out, false, st) => Some (Prompt :: out, false, st)
      | Some (out, true, st) =>
          match cli_loop inputs st with
          | Some (out', running, st) => Some (Prompt :: out ++ out', running, st)
          | None => None
          end
      end
  end.

End Commands.
End Cli.

(** ** The specification: commands on a map *)
Module Spec.

Inductive Command :=
| Empty
| Usage (s : string)
| Get (key : string)
| Set_ (key value : string)
| Delete (key : string)
| Members
| Actors
| Quit
| Unknown (cmd : string).

Definition parse (parts : list string) : Command :=
  match parts with
  | [] => Empty
  | cmd :: rest =>
      if decide (cmd = "get") then
        match rest with key :: _ => Get key | [] => Usage "usage: get <key>" end
      else if decide (cmd = "set") then
        match rest with
        | key :: v :: vs => Set_ key (join " " (v :: vs))
        | _ => Usage "usage: set <key> <value>"
        end
      else if decide (cmd = "delete") then
        match rest with key :: _ => Delete key | [] => Usage "usage: delete <key>" end
      else if decide (cmd = "members") then Members
      else if decide (cmd = "actors") then Actors
      else if decide (cmd = "quit" \/ cmd = "exit") then Quit
      else Unknown cmd
  end.

(** What a command prints and does to the map. *)
Definition exec (n : ClusterNode) (cmd : Command) (m : gmap string string)
  : list Out * gmap string string :=
  match cmd with
  | Empty => ([], m)
  | Usage s => ([Line s], m)
  | Get key => ([Line (default "(nil)" (m !! key))], m)
  | Set_ key value => ([Line "OK"], <[key := value]> m)
  | Delete key => ([Line (if decide (is_Some (m !! key)) then "deleted" else "not found")], delete key m)
  | Members => (Line "cluster members:" :: (member_line <$> get_members n), m)
  | Actors =>
      (Line "registered actors:" ::
       match lookup_actor "kv-store" n with
       | Some (i, t) => [Line ("  kv-store -> " +:+ i +:+ " (" +:+ t +:+ ")")]
       | None => []
       end, m)
  | Quit => ([Line "shutting down..."], m)
  | Unknown cmd => ([Line ("unknown command: " +:+ cmd)], m)
  end.

(** A session: until [Quit]. *)
Fixpoint session (inputs : list (ClusterNode * string)) (m : gmap string string)
  : list Out * bool * gmap string string :=
  match inputs with
  | [] => ([], true, m)
  | (n, input) :: inputs =>
      let cmd := parse (split_whitespace (trim input)) in
      let '(out, m) := exec n cmd m in
      match cmd with
      | Quit => (Prompt :: out, false, m)
      | _ => let '(out', running, m) := session inputs m in (Prompt :: out ++ out', running, m)
      end
  end.

End Spec.

Section Facts.
Context {P : Prost} {PL : ProstLaws P}.
Context `{!RemoteMessage GetRequest, !RemoteMessageLaws GetRequest}.
Context `{!RemoteMessage GetResponse, !RemoteMessageLaws GetResponse}.
Context `{!RemoteMessage SetRequest, !RemoteMessageLaws SetRequest}.
Context `{!RemoteMessage SetResponse, !RemoteMessageLaws SetResponse}.
Context `{!RemoteMessage DeleteRequest, !RemoteMessageLaws DeleteRequest}.
Context `{!RemoteMessage DeleteResponse, !RemoteMessageLaws DeleteResponse}.

(** The terminal of a node that can reach the store, which holds [m]. *)
Record ready (connect : string -> Result nat TransportError) (client : nat) (a : string)
    (server : ClusterNode) (m : gmap string string) (st : Cli) : Prop := mkReady {
  rd_counter : (0 <= cli_counter st < 2 ^ 64)%Z;
  rd_reach : can_reach connect client a (pool (cli_client st));
  rd_net : cli_net st = (server, mkStore m);
}.

Lemma call_store_ready {M R} `{!RemoteMessage M, !RemoteMessageLaws M, !RemoteMessage R, !RemoteMessageLaws R}
    (h : M -> KVStore -> KVStore * R) connect now node client a server m st msg ok :
  (forall env s, message_type env = type_id M ->
     kv_handler node env s = make_handler (pure_actor h) node env s) ->
  ready connect client a server m st -> store_at (cluster (cli_client st)) a ->
  exists st', call_store connect (kv_net now node) msg ok st = Some ([ok (snd (h msg (mkStore m)))], st') /\
    ready connect client a server (data (fst (h msg (mkStore m)))) st'.
Proof.
  intros Hroute [Hc Hr Hn] Hs. unfold call_store. rewrite Hn.
  rewrite (remote_call_store h connect now node client msg _ _ _ _ a) by done.
  eexists. split; [done|]. split; simpl.
  - apply u64_wrap_range.
  - by apply get_or_connect_reach.
  - by destruct (fst (h msg (mkStore m))).
Qed.

(** One command. *)
Lemma run_command_ready connect now node client a server m st n parts :
  type_ids_distinct -> ready connect client a server m st -> cluster (cli_client st) = n -> store_at n a ->
  let cmd := Spec.parse parts in
  exists st', run_command connect (kv_net now node) n parts st =
      Some (fst (Spec.exec n cmd m), match cmd with Spec.Quit => false | _ => true end, st') /\
    ready connect client a server (snd (Spec.exec n cmd m)) st'.
Proof.
  intros Hty Hr <- Hs. unfold run_command, Spec.parse. destruct parts as [|cmd rest]; [by exists st|].
  case_decide.
  { destruct rest as [|key rest]; [by exists st|].
    destruct (call_store_ready handle_get connect now node client a server m st (mkGet key) get_line)
      as (st' & -> & Hr'); [intros; by apply route_get|done|done|].
    exists st'. split; [|done]. unfold get_line. simpl. by destruct (m !! key). }
  case_decide.
  { destruct rest as [|key [|v vs]]; [by exists st|by exists st|].
    destruct (call_store_ready handle_set connect now node client a server m st
      (mkSet key (join " " (v :: vs))) set_line) as (st' & -> & Hr'); [intros; by apply route_set|done|done|].
    by exists st'. }
  case_decide.
  { destruct rest as [|key rest]; [by exists st|].
    destruct (call_store_ready handle_delete connect now node client a server m st (mkDelete key) delete_line)
      as (st' & -> & Hr'); [intros; by apply route_delete|done|done|].
    exists st'. split; [|done]. unfold delete_line. simpl. case_decide as Hk.
    - by rewrite bool_decide_true.
    - by rewrite bool_decide_false. }
  repeat case_decide; by exists st.
Qed.

(** A session. *)
Lemma command_line_run connect now node client a server inputs m st :
  type_ids_distinct -> ready connect client a server m st ->
  Forall (fun i => store_at (fst i) a) inputs ->
  exists st', cli_loop connect (kv_net now node) inputs st =
      Some (fst (Spec.session inputs m), st') /\
    ready connect client a server (snd (Spec.session inputs m)) st'.
Proof.
  intros Hty Hr Hin. revert m st Hr. induction Hin as [|[n input] inputs Hn Hin IH]; intros m st Hr.
  { by exists st. }
  cbn [cli_loop Spec.session].
  set (st0 := mkCli _ _ _). assert (Hr0 : ready connect client a server m st0) by (by destruct Hr).
  destruct (run_command_ready connect now node client a server m st0 n (split_whitespace (trim input))
    Hty Hr0 eq_refl Hn) as (st1 & -> & Hr1).
  set (cmd := Spec.parse (split_whitespace (trim input))) in *.
  destruct (Spec.exec n cmd m) as [out m1]. cbn [fst snd] in *.
  destruct (IH m1 st1 Hr1) as (st2 & E2 & Hr2).
  destruct cmd; try (rewrite E2; destruct (Spec.session inputs m1) as [[out' run] m2]; by exists st2).
  by exists st1.
Qed.

(** C20: the command line refines a map. The lines a user types on a node that
    knows where the store is print what they would print on a local map, and
    leave in the store, on another node, what they would leave in the map;
    nothing panics. Each line may find the node's view of the cluster changed
    by gossip, as long as the store is still known at its address; the
    connection is made by the first call if there is none. *)
Theorem command_line_refines_map connect now node client a server inputs m st :
  type_ids_distinct -> ready connect client a server m st ->
  Forall (fun i => store_at (fst i) a) inputs ->
  exists st', cli_loop connect (kv_net now node) inputs st =
      Some (fst (Spec.session inputs m), st') /\
    cli_net st' = (server, mkStore (snd (Spec.session inputs m))).
Proof.
  intros Hty Hr Hin.
  destruct (command_line_run connect now node client a server inputs m st Hty Hr Hin) as (st' & E & [_ _ Hn]).
  by exists st'.
Qed.

(** The node of the store as [main] starts it, and a node that joins through it. *)
Lemma joined_store_at {S} now1 now2 now node_id port n2 h2 n1 dial (handler : EnvelopeHandler S) (s : S) :
  start_node node_id now2 = Some (port, n2, h2) -> node_id <> "node-1" ->
  n1 = register_actor "kv-store" "KVStore" (ClusterNode_new "node-1" (node_addr 7001) now1) ->
  dial (node_addr 7001) = Ok tt ->
  exists c peer, join_cluster (Some (node_addr 7001)) dial (Ok tt) (Some handler) now n2 n1 s =
      (c, peer, s) /\ store_at c (node_addr 7001).
Proof.
  intros Hst Hne -> Hdial. unfold start_node in Hst. destruct (node_port node_id) as [p|]; [|done].
  rewrite decide_False in Hst by done. injection Hst as <- <- <-.
  unfold join_cluster. cbn [addr]. rewrite Hdial, send_gossip_to_spec.
  set (c := ClusterNode_new node_id (node_addr p) now2).
  set (peer := register_actor _ _ _).
  assert (Hc : cluster_wf c) by apply cluster_wf_new.
  assert (Hp : cluster_wf peer) by (apply (cluster_step_wf _ (ORegisterActor _ _)), cluster_wf_new).
  set (peer' := merge_gossip (create_gossip_message c) _ now peer).
  assert (Hp' : cluster_wf peer') by (by apply merge_gossip_wf).
  eexists _, peer'. split; [done|]. split; [by apply merge_gossip_wf|].
  exists "node-1", "KVStore", (mkNode "node-1" (node_addr 7001) Up). split_and!; [| |done].
  - unfold lookup_actor. rewrite (merge_gossip_actors c peer') by apply create_gossip_of.
    unfold peer'. rewrite (merge_gossip_actors peer c) by apply create_gossip_of. reflexivity.
  - rewrite (merge_gossip_members c peer') by (done || apply create_gossip_of).
    unfold peer'. rewrite (merge_gossip_members peer c) by (done || apply create_gossip_of).
    rewrite !lookup_union_with. unfold c, peer. simpl.
    rewrite lookup_singleton_ne by done. by rewrite lookup_singleton_eq.
Qed.

(** A two-node cluster works as the user expects. [node-1] is started and
    holds the empty store; another node is started, joins through the address
    of [node-1] and opens its command line. If the two nodes can connect,
    whatever the user types there is executed on the store of [node-1] as on
    a map: nothing is assumed of the state of either node, which is that of
    [main]. *)
Theorem joined_node_runs_commands now1 now2 now node_id port n1 h1 n2 h2 dial connect client counter lines :
  type_ids_distinct -> (0 <= counter < 2 ^ 64)%Z -> node_id <> "node-1" ->
  start_node "node-1" now1 = Some (7001%Z, n1, h1) -> start_node node_id now2 = Some (port, n2, h2) ->
  dial (node_addr 7001) = Ok tt -> connect (node_addr 7001) = Ok client ->
  exists c peer st',
    join_cluster (Some (node_addr 7001)) dial (Ok tt) h1 now n2 n1 KVStore_new = (c, peer, KVStore_new) /\
    let inputs := pair c <$> lines in
    cli_loop connect (kv_net now "node-1") inputs (mkCli counter (ClusterClient_new c) (peer, KVStore_new)) =
      Some (fst (Spec.session inputs ∅), st') /\
    cli_net st' = (peer, mkStore (snd (Spec.session inputs ∅))).
Proof.
  intros Hty Hcnt Hne H1 H2 Hdial Hconn. unfold start_node in H1. simpl in H1. injection H1 as <- <-.
  destruct (joined_store_at now1 now2 now node_id port n2 h2 _ dial (kv_handler "node-1") KVStore_new H2 Hne eq_refl Hdial)
    as (c & peer & Hj & Hs).
  destruct (command_line_run connect now "node-1" client (node_addr 7001) peer (pair c <$> lines) ∅
    (mkCli counter (ClusterClient_new c) (peer, KVStore_new))) as (st' & E & [_ _ Hn]).
  - done.
  - split; simpl; [done|by right|done].
  - apply Forall_fmap. apply Forall_true. by intros.
  - by exists c, peer, st'.
Qed.

(** At the end of its input the loop does not end: [read_line] reads nothing,
    the line has no word, and the loop prompts for ever. *)
Theorem end_of_input_prompts_for_ever {T} connect (net : nat -> Envelope -> T -> T * Result Envelope TransportError)
    n st k :
  exists st', cli_loop connect net (replicate k (n, "")) st = Some (replicate k Prompt, true, st').
Proof.
  revert st. induction k as [|k IH]; intros st; [by exists st|]. simpl.
  destruct (IH (mkCli (cli_counter st) (set_cluster n (cli_client st)) (cli_net st))) as (st' & ->).
  by exists st'.
Qed.

End Facts.

(** ** Ports *)

(** The port of a node. A node named [node-n] gets the port 7000 + n as long
    as that is a port; the numbers from 58536 to 65535 overflow the addition;
    a larger number does not parse and gets the port 7001, like any other
    name. A port that is given is always between 7000 and 65535. *)
Theorem node_port_spec node_id n :
  (0 <= n)%Z ->
  node_port ("node-" +:+ show_unsigned n) =
    (if decide (n <= 58535)%Z then Some (7000 + n)%Z
     else if decide (n <= 65535)%Z then None else Some 7001%Z) /\
  (forall p, node_port node_id = Some p -> (7000 <= p <= u16_max)%Z).
Proof.
  intros Hn. unfold node_port, parse_u16, u16_max. split.
  - rewrite strip_prefix_app, parse_show by lia. change (2 ^ 16 - 1)%Z with 65535%Z.
    repeat case_decide; simpl in *; try done; lia.
  - intros p. destruct (strip_prefix "node-" node_id) as [suffix|]; [|intros [= <-]; lia].
    pose proof (parse_unsigned_range (2 ^ 16 - 1) suffix) as Hr.
    destruct (parse_unsigned (2 ^ 16 - 1) suffix) as [v|]; simpl.
    + specialize (Hr v ltac:(lia) eq_refl). case_decide; [|done]. intros [= <-]. lia.
    + intros [= <-]. lia.
Qed.

(** ** Witnesses *)

Section Witnesses.
Import RefProst RefKv.

Lemma ref_ids_distinct : type_ids_distinct.
Proof. split_and!; discriminate. Qed.

(** [node-2] is connected; the user stores a value with spaces and reads it. *)
Definition typed : list (ClusterNode * string) :=
  pair node2 <$> ["set  k a   b"; " get k "; "delete k"; "get k"; "frob"; "exit"; "get k"].
Definition typed_out : list Out :=
  [Prompt; Line "OK"; Prompt; Line "a b"; Prompt; Line "deleted"; Prompt; Line "(nil)";
   Prompt; Line "unknown command: frob"; Prompt; Line "shutting down..."].

Lemma command_line_refines_map_witness :
  exists st', cli_loop (fun _ => Err (TIo OtherIo)) (kv_net 0 "node-1") typed (mkCli 1 kv_client (node1, KVStore_new)) =
      Some (typed_out, false, st').
Proof.
  assert (E : fst (Spec.session typed ∅) = (typed_out, false)) by (vm_compute; reflexivity). rewrite <- E.
  destruct (command_line_refines_map (fun _ => Err (TIo OtherIo)) 0 "node-1" 0 "127.0.0.1:7001" node1 typed ∅
    (mkCli 1 kv_client (node1, KVStore_new))) as (st' & H & _); [..|by exists st'].
  - apply ref_ids_distinct.
  - split; [simpl; lia|left; reflexivity|reflexivity].
  - apply Forall_fmap, Forall_true. intros l. split; [apply kv_client_connected|].
    exists "node-1", "KVStore", (mkNode "node-1" "127.0.0.1:7001" Up). split_and!; vm_compute; reflexivity.
Defined.

Definition boot_node (node_id : string) : Z * ClusterNode * option (EnvelopeHandler KVStore) :=
  default (0%Z, node1, None) (start_node node_id 0).

Lemma joined_node_runs_commands_witness :
  exists c peer st',
    join_cluster (Some "127.0.0.1:7001") (fun _ => Ok tt) (Ok tt) (snd (boot_node "node-1")) 5
      (snd (fst (boot_node "node-2"))) (snd (fst (boot_node "node-1"))) KVStore_new = (c, peer, KVStore_new) /\
    let inputs := pair c <$> ["set k v"; "get k"] in
    cli_loop (fun _ => Ok 4) (kv_net 5 "node-1") inputs (mkCli 1 (ClusterClient_new c) (peer, KVStore_new)) =
      Some (fst (Spec.session inputs ∅), st') /\
    cli_net st' = (peer, mkStore (snd (Spec.session inputs ∅))).
Proof.
  apply (joined_node_runs_commands 0 0 5 "node-2" 7002 (snd (fst (boot_node "node-1"))) (snd (boot_node "node-1"))
    (snd (fst (boot_node "node-2"))) (snd (boot_node "node-2")) (fun _ => Ok tt) (fun _ => Ok 4) 4 1 ["set k v"; "get k"]);
    try reflexivity.
  - apply ref_ids_distinct.
  - lia.
  - discriminate.
Defined.

Lemma node_port_spec_witness : node_port "node-7" = Some 7007%Z /\ node_port "node-60000" = None.
Proof.
  split.
  - assert (H : (0 <= 7)%Z) by lia. exact (proj1 (node_port_spec "x" 7 H)).
  - assert (H : (0 <= 60000)%Z) by lia. exact (proj1 (node_port_spec "x" 60000 H)).
Defined.

End Witnesses.
