(* ===== verification/KvNode.v ===== *)
(** * KvNode: the distributed key-value store on the actor runtime

    The whole program of examples/distributed-kv: [main] starts the actor
    system and spawns the [KVStore] actor, whose address the router's handlers
    hold; another node joins and its user types commands. The theorem of this
    file goes through every layer: command line, cluster client, envelopes and
    their encoding, cluster server, router, handler, [Addr::send], mailbox,
    actor loop, the actor's handler, and back. *)

From S2P Require Import Prelude Text Tokio Supervisor Runtime Tasks RuntimeFacts Wf Lifecycle Mail.
From S2P Require Import Wire Remote Bridge Cluster ClusterClient Kv KvCli.

(** ** The store as an actor of the runtime *)

(** The messages of the actor and their results: [Handler<GetRequest>],
    [Handler<SetRequest>] and [Handler<DeleteRequest>]. *)
Inductive StoreMsg :=
| MGet (m : GetRequest)
| MSet (m : SetRequest)
| MDelete (m : DeleteRequest).

Inductive StoreRsp :=
| RGet (r : GetResponse)
| RSet (r : SetResponse)
| RDelete (r : DeleteResponse)
| RNone.

(** The actor has no streams. *)
#[export] Instance store_sys : Sys := {|
  St := KVStore;
  User := StoreMsg;
  Rsp := StoreRsp;
  Strm := Empty_set;
  Item := unit;
  stream_poll_next := fun s => match s with end;
|}.

Definition store_handle (s : KVStore) (m : Msg) : Prog StoreRsp :=
  match m with
  | UserMsg (MGet m) => let '(s, r) := handle_get m s in Ret (Y := store_sys) s (RGet r)
  | UserMsg (MSet m) => let '(s, r) := handle_set m s in Ret (Y := store_sys) s (RSet r)
  | UserMsg (MDelete m) => let '(s, r) := handle_delete m s in Ret (Y := store_sys) s (RDelete r)
  | Terminated _ => Ret (Y := store_sys) s RNone
  end.

(** [impl Actor for KVStore {}]: the hooks of the trait do nothing. It has no
    [Handler<Terminated>], no [AsyncHandler] and no [StreamHandler], so nobody
    can send it what those would take. *)
#[export] Instance store_behaviour : Behaviour := {|
  started := fun s => Ret (Y := store_sys) s tt;
  stopped := fun s => Ret (Y := store_sys) s tt;
  handle := store_handle;
  handle_async := fun s _ => mkFut (Ret (Y := store_sys) s (inl RNone));
  stream_handle := fun s _ => Ret (Y := store_sys) s tt;
  stream_finished := fun s => Ret (Y := store_sys) s tt;
|}.

(** ** Simulation of the network *)

Section NetSim.
Context {P : Prost}.
Context {T1 T2 : Type} (rel : T1 -> T2 -> Prop).

Definition net_sim (net1 : nat -> Envelope -> T1 -> T1 * Result Envelope TransportError)
    (net2 : nat -> Envelope -> T2 -> T2 * Result Envelope TransportError) : Prop :=
  forall client env t1 t2, rel t1 t2 -> same rel (net1 client env t1) (net2 client env t2).

Context (connect : string -> Result nat TransportError).
Context (net1 : nat -> Envelope -> T1 -> T1 * Result Envelope TransportError).
Context (net2 : nat -> Envelope -> T2 -> T2 * Result Envelope TransportError).
Hypothesis Hnet : net_sim net1 net2.

Lemma send_to_actor_sim actor_id env c t1 t2 :
  rel t1 t2 -> exists c' t1' t2' r, rel t1' t2' /\
    send_to_actor connect net1 actor_id env c t1 = (c', t1', r) /\
    send_to_actor connect net2 actor_id env c t2 = (c', t2', r).
Proof.
  intros Ht. unfold send_to_actor. destruct (locate c actor_id env) as [[a tenv]|e]; [|by eauto 10].
  destruct (get_or_connect a (connect a) (pool c)) as [p [client|e]]; [|by eauto 10].
  destruct (Hnet client tenv t1 t2 Ht) as [Hr Ht'].
  destruct (net1 client tenv t1) as [u1 r1]. destruct (net2 client tenv t2) as [u2 r2]. simpl in Hr, Ht'. subst r2.
  destruct r1; eauto 10.
Qed.

(** Two command lines that differ in the world behind the network. *)
Definition cli_rel (st1 : Cli (T := T1)) (st2 : Cli (T := T2)) : Prop :=
  cli_counter st1 = cli_counter st2 /\ cli_client st1 = cli_client st2 /\ rel (cli_net st1) (cli_net st2).

(** Both panic, or both give the same output and related states. *)
Definition outcome_rel {X} (o1 : option (X * Cli (T := T1))) (o2 : option (X * Cli (T := T2))) : Prop :=
  match o1, o2 with
  | Some (x1, st1), Some (x2, st2) => x1 = x2 /\ cli_rel st1 st2
  | None, None => True
  | _, _ => False
  end.

Lemma call_store_sim {M R} `{!RemoteMessage M, !RemoteMessage R} (msg : M) (ok : R -> Out) st1 st2 :
  cli_rel st1 st2 -> outcome_rel (call_store connect net1 msg ok st1) (call_store connect net2 msg ok st2).
Proof.
  intros (Hc & Hcl & Ht). unfold call_store, remote_call, remote_send, next_correlation_id.
  rewrite Hc, Hcl. cbn [ClusterClient_remote_addr cra_actor_id cra_client].
  destruct (Envelope_from_message _ _ _ _) as [env|]; [|done].
  destruct (send_to_actor_sim "kv-store" env (cli_client st2) _ _ Ht) as (c' & t1 & t2 & r & Ht' & -> & ->).
  done.
Qed.

Context `{!RemoteMessage GetRequest, !RemoteMessage GetResponse}.
Context `{!RemoteMessage SetRequest, !RemoteMessage SetResponse}.
Context `{!RemoteMessage DeleteRequest, !RemoteMessage DeleteResponse}.

Lemma run_command_sim n parts st1 st2 :
  cli_rel st1 st2 -> outcome_rel (run_command connect net1 n parts st1) (run_command connect net2 n parts st2).
Proof.
  intros Hst.
  assert (Hgo : forall o1 o2, outcome_rel (X := list Out) o1 o2 -> outcome_rel
    (match o1 with Some (out, st) => Some (out, true, st) | None => None end)
    (match o2 with Some (out, st) => Some (out, true, st) | None => None end)).
  { intros [[x1 s1]|] [[x2 s2]|]; simpl; try done. by intros [-> ?]. }
  unfold run_command. destruct parts as [|cmd rest]; [done|].
  repeat case_decide; try done; destruct rest as [|key rest]; try done;
    [|destruct rest as [|v vs]; [done|]|]; by apply Hgo, call_store_sim.
Qed.

Lemma cli_loop_sim inputs st1 st2 :
  cli_rel st1 st2 -> outcome_rel (cli_loop connect net1 inputs st1) (cli_loop connect net2 inputs st2).
Proof.
  revert st1 st2. induction inputs as [|[n input] inputs IH]; intros st1 st2 Hst; [done|]. simpl.
  set (st1' := mkCli _ _ _). set (st2' := mkCli _ _ _).
  assert (Hst' : cli_rel st1' st2').
  { destruct Hst as (Hc & Hcl & Ht). unfold cli_rel. simpl. by rewrite Hc, Hcl. }
  pose proof (run_command_sim n (split_whitespace (trim input)) st1' st2' Hst') as Hr.
  destruct (run_command connect net1 _ _ st1') as [[[o1 b1] u1]|], (run_command connect net2 _ _ st2') as [[[o2 b2] u2]|];
    try done. simpl in Hr. destruct Hr as [[= -> ->] Hu]. destruct b2; [|done].
  specialize (IH u1 u2 Hu).
  destruct (cli_loop connect net1 inputs u1) as [[[o3 b3] u3]|], (cli_loop connect net2 inputs u2) as [[[o4 b4] u4]|];
    try done. simpl in IH |- *. by destruct IH as [[= -> ->] ?].
Qed.

End NetSim.

(** The cluster server with related handlers. *)
Definition node_rel {S1 S2} (rel : S1 -> S2 -> Prop) (t1 : ClusterNode * S1) (t2 : ClusterNode * S2) : Prop :=
  fst t1 = fst t2 /\ rel (snd t1) (snd t2).

Lemma store_net_sim {P : Prost} {S1 S2} (rel : S1 -> S2 -> Prop) h1 h2 now :
  handler_sim rel h1 h2 -> net_sim (node_rel rel) (store_net (Some h1) now) (store_net (Some h2) now).
Proof.
  intros Hh client env [n1 s1] [n2 s2] [Hn Hs]. simpl in Hn, Hs. subst n2. unfold store_net, serve_envelope.
  destruct (ClusterMessage_decode (payload env)) as [[actor_env|g|]|e]; try (split; [done|by split]).
  destruct (Hh actor_env s1 s2 Hs) as [Hr Hs']. destruct (h1 actor_env s1) as [t1 r1].
  destruct (h2 actor_env s2) as [t2 r2]. simpl in Hr, Hs'. subst r2.
  destruct r1; split; done.
Qed.

(** ** [main] on the runtime *)

Section Node.
Context {K : Tokio} {L : TokioLaws K} {P : Prost} {PL : ProstLaws P}.
Context `{!RemoteMessage GetRequest, !RemoteMessageLaws GetRequest}.
Context `{!RemoteMessage GetResponse, !RemoteMessageLaws GetResponse}.
Context `{!RemoteMessage SetRequest, !RemoteMessageLaws SetRequest}.
Context `{!RemoteMessage SetResponse, !RemoteMessageLaws SetResponse}.
Context `{!RemoteMessage DeleteRequest, !RemoteMessageLaws DeleteRequest}.
Context `{!RemoteMessage DeleteResponse, !RemoteMessageLaws DeleteResponse}.

(** The router of [main]: its handlers hold clones of the store's address;
    [tid] is the store's task. *)
Definition runtime_kv_handler (node_id : string) (tid : nat) (store : Addr) : EnvelopeHandler World :=
  kv_router node_id
    (addr_ref tid store (fun m => UserMsg (Y := store_sys) (MGet m))
       (fun r => match r with RGet r => Some r | _ => None end))
    (addr_ref tid store (fun m => UserMsg (Y := store_sys) (MSet m))
       (fun r => match r with RSet r => Some r | _ => None end))
    (addr_ref tid store (fun m => UserMsg (Y := store_sys) (MDelete m))
       (fun r => match r with RDelete r => Some r | _ => None end)).

(** [main] up to the start of the server: the port, the node, the handler and
    the world with the actor system; [None] is a panic. The task of a spawned
    actor is the last location that was allocated. *)
Definition start_node_on_runtime (node_id : string) (now : Z) (w : World)
  : option (Z * ClusterNode * option (EnvelopeHandler World) * World) :=
  match node_port node_id with
  | None => None
  | Some port =>
      let cluster := ClusterNode_new node_id (node_addr port) now in
      let '(w, system) := ActorSystem_new w in
      if decide (node_id = "node-1") then
        match spawn system KVStore_new w with
        | None => None
        | Some (w, store) =>
            Some (port, register_actor "kv-store" "KVStore" cluster,
              Some (runtime_kv_handler node_id (pred (w_fresh w)) store), w)
        end
      else Some (port, cluster, None, w)
  end.

(** The store's actor is idle with the contents [s]. *)
Definition store_idle (tid : nat) (k : Kind) (store : Addr) (sd : loc) (ctx : Context) (w : World) (s : KVStore) : Prop :=
  idle_at tid k store sd ctx (s : @St store_sys) w.

Lemma runtime_kv_handler_sim node tid k store sd ctx :
  ctx_streams ctx = [] ->
  handler_sim (store_idle tid k store sd ctx) (runtime_kv_handler node tid store) (kv_handler node).
Proof.
  intros Hs. unfold runtime_kv_handler, kv_handler, kv_router.
  assert (Hsim : forall M R (h : M -> KVStore -> KVStore * R) (up : M -> @Msg store_sys) (down : @Rsp store_sys -> option R),
    (forall m s, exists x, handle (s : @St store_sys) (up m) = Ret (fst (h m s) : @St store_sys) x /\ down x = Some (snd (h m s))) ->
    actor_sim (store_idle tid k store sd ctx) (addr_ref tid store up down) (pure_actor h)).
  { intros M R h up down Hh. by apply (addr_ref_sim h (fun s => s : @St store_sys)). }
  apply build_sim. repeat apply route_type_sim; try apply router_new_sim;
    apply make_handler_sim, Hsim; intros m s; simpl; eauto.
Qed.

Lemma started_store now w :
  wf w -> exists n h w' k store sd ctx,
    start_node_on_runtime "node-1" now w = Some (7001%Z, n, Some h, w') /\
    n = register_actor "kv-store" "KVStore" (ClusterNode_new "node-1" (node_addr 7001) now) /\
    h = runtime_kv_handler "node-1" (pred (w_fresh w')) store /\ ctx_streams ctx = [] /\
    store_idle (pred (w_fresh w')) k store sd ctx (exec (LPoll (pred (w_fresh w'))) w') KVStore_new.
Proof.
  intros Hw. unfold start_node_on_runtime. change (node_port "node-1") with (Some 7001%Z). cbv iota.
  destruct (new_system_spawn (B := store_behaviour) (KVStore_new : @St store_sys) KVStore_new w Hw eq_refl)
    as (w1 & system & w' & store & k & ctx & -> & Hsp & Hs & Hid).
  rewrite decide_True by done. rewrite Hsp.
  exists (register_actor "kv-store" "KVStore" (ClusterNode_new "node-1" (node_addr 7001) now)).
  by eexists _, w', k, store, _, ctx.
Qed.

(** C2: the distributed store works on the runtime, end to end. [node-1] is
    started: its [main] makes an actor system and spawns the store, whose task
    gets its first poll; another node is started, joins through [node-1] and
    opens its command line. If the nodes can connect, whatever the user types
    there is printed as on a local map, and the state of the store's actor in
    the runtime of [node-1] ends as that map, with the actor idle: each
    command has gone through the cluster client, the wire, the router, the
    actor's mailbox, its loop and its reply channel. *)
Theorem cluster_on_runtime now1 now2 now node_id port n1 h1 w1 n2 h2 dial connect client counter lines (w : World) :
  wf w -> type_ids_distinct -> (0 <= counter < 2 ^ 64)%Z -> node_id <> "node-1" ->
  start_node_on_runtime "node-1" now1 w = Some (7001%Z, n1, h1, w1) ->
  start_node node_id now2 = Some (port, n2, h2) ->
  dial (node_addr 7001) = Ok tt -> connect (node_addr 7001) = Ok client ->
  let tid := pred (w_fresh w1) in
  let running := exec (LPoll tid) w1 in
  exists c peer st' k store sd ctx w',
    join_cluster (Some (node_addr 7001)) dial (Ok tt) h1 now n2 n1 running = (c, peer, running) /\
    let inputs := pair c <$> lines in
    cli_loop connect (store_net h1 now) inputs (mkCli counter (ClusterClient_new c) (peer, running)) =
      Some (fst (Spec.session inputs ∅), st') /\
    cli_net st' = (peer, w') /\ store_idle tid k store sd ctx w' (mkStore (snd (Spec.session inputs ∅))).
Proof.
  intros Hw Hty Hcnt Hne H1 H2 Hdial Hconn tid running.
  destruct (started_store now1 w Hw) as (n & h & w' & k & store & sd & ctx & Hst & Hn & Hh & Hs & Hid).
  rewrite Hst in H1. injection H1 as <- <- <-.
  destruct (joined_store_at now1 now2 now node_id port n2 h2 n dial h running H2 Hne Hn Hdial)
    as (c & peer & Hj & Hsa).
  destruct (command_line_run connect now "node-1" client (node_addr 7001) peer (pair c <$> lines) ∅
    (mkCli counter (ClusterClient_new c) (peer, KVStore_new))) as (st & E & [_ _ Hnet]).
  { done. } { split; simpl; [done|by right|done]. } { apply Forall_fmap, Forall_true. by intros. }
  pose proof (runtime_kv_handler_sim "node-1" (pred (w_fresh w')) k store sd ctx Hs) as Hsim. rewrite <- Hh in Hsim.
  pose proof (cli_loop_sim (node_rel (store_idle tid k store sd ctx)) connect _ _
    (store_net_sim _ _ _ now Hsim) (pair c <$> lines) (mkCli counter (ClusterClient_new c) (peer, running))
    (mkCli counter (ClusterClient_new c) (peer, KVStore_new))) as Hloop.
  unfold outcome_rel in Hloop. fold (kv_net now "node-1") in Hloop. rewrite E in Hloop.
  destruct (cli_loop connect (store_net (Some h) now) _ _) as [[out st']|] eqn:EL; [|destruct Hloop; by split_and!].
  destruct Hloop as [-> (_ & _ & Hrel)]; [by split_and!|]. rewrite Hnet in Hrel.
  destruct (cli_net st') as [p' w2] eqn:En. destruct Hrel as [Hp Hrel]. simpl in Hp, Hrel. subst p'.
  exists c, peer, st', k, store, sd, ctx, w2. split; [exact Hj|]. split; [|split; [done|exact Hrel]]. exact EL.
Qed.

End Node.

(** ** Witness *)

Section Witnesses.
Import Ref RefProst RefKv.

(** [node-1] as [main] starts it on the reference runtime, and [node-2]. *)
Definition fresh_node2 : ClusterNode := ClusterNode_new "node-2" (node_addr 7002) 0.

Lemma cluster_on_runtime_witness :
  exists n1 h1 w1, start_node_on_runtime "node-1" 0 (world0 (Y := store_sys)) = Some (7001%Z, n1, h1, w1) /\
  let tid := pred (w_fresh w1) in
  let running := exec (LPoll tid) w1 in
  exists c peer st' k store sd ctx w',
    join_cluster (Some (node_addr 7001)) (fun _ => Ok tt) (Ok tt) h1 5 fresh_node2 n1 running = (c, peer, running) /\
    let inputs := pair c <$> ["set k v"; "get k"] in
    cli_loop (fun _ => Ok 4) (store_net h1 5) inputs (mkCli 1 (ClusterClient_new c) (peer, running)) =
      Some (fst (Spec.session inputs ∅), st') /\
    cli_net st' = (peer, w') /\ store_idle tid k store sd ctx w' (mkStore (snd (Spec.session inputs ∅))).
Proof.
  destruct (started_store 0 (world0 (Y := store_sys)) wf0) as (n1 & h1 & w1 & _ & _ & _ & _ & H1 & _).
  exists n1, (Some h1), w1. split; [exact H1|]. intros tid running.
  assert (H2 : start_node "node-2" 0 = Some (7002%Z, fresh_node2, None)) by (vm_compute; reflexivity).
  assert (Hc : (0 <= 1 < 2 ^ 64)%Z) by lia.
  assert (Hne : "node-2" <> "node-1") by discriminate.
  exact (cluster_on_runtime 0 0 5 "node-2" 7002 n1 (Some h1) w1 fresh_node2 None (fun _ => Ok tt) (fun _ => Ok 4) 4 1
    ["set k v"; "get k"] world0 wf0 ref_ids_distinct Hc Hne H1 H2 eq_refl eq_refl).
Defined.

End Witnesses.
